(** * xpell-agent: skill manager, capability guards and settings store

    A shallow embedding of the extension core of the agent runtime:
    - [runtime/guards.ts]            (capability token and actor roles),
    - [runtime/settings_utils.ts]    (dotted paths, deep merge, masking),
    - [modules/SettingsModule.ts]    (the settings document),
    - [modules/SkillManagerModule.ts] (resolution, lifecycle, sandbox).

    JavaScript values are modelled by the inductive type [value]; objects
    are association lists in insertion order, whose keys are pairwise
    distinct in any value that JavaScript can build ([wf_value]).
    Asynchronous code is modelled sequentially: every [await] is a call. *)

From Stdlib Require Import ZArith Ascii String List Bool Lia Sorted.
From stdpp Require Import base tactics option list strings gmap.
Import ListNotations.
Set Warnings "-register-all".
Local Open Scope string_scope.
Local Open Scope list_scope.

(** ** JavaScript values *)

Module Js.

(** [VNum] stands for a number leaf; the functions of this development only
    copy and compare numbers, so integers are enough.  [VFun fn] is the
    function value number [fn]; what it does when called is given by the
    environment. *)
Inductive value : Type :=
  | VUndef
  | VNull
  | VBool (b : bool)
  | VNum (n : Z)
  | VStr (s : string)
  | VFun (fn : nat)
  | VArr (items : list value)
  | VObj (fields : list (string * value)).

Definition obj : Type := list (string * value).

(** An object of the model is the list of its own enumerable entries; its
    prototype is not part of it.  The lookup [o[k]] of JavaScript also finds
    what [o] inherits: the members of [Object.prototype] ([constructor],
    [toString], ..., and the accessor [__proto__]).  The statements about
    code that looks a key up or assigns it with [o[k]] are therefore for
    keys that are not inherited names ([own_name], [own_path] below), and
    for values without entries named [__proto__] where a clone is looked
    into ([proto_free]). *)

(** [o[k]] for a key that [o] does not inherit: the first binding of [k],
    [undefined] when there is none. *)
Fixpoint obj_get (o : obj) (k : string) : value :=
  match o with
  | [] => VUndef
  | (k', v) :: rest => if String.eqb k' k then v else obj_get rest k
  end.

(** [Object.prototype.hasOwnProperty.call(o, k)]. *)
Fixpoint obj_has (o : obj) (k : string) : bool :=
  match o with
  | [] => false
  | (k', _) :: rest => if String.eqb k' k then true else obj_has rest k
  end.

(** [o[k] = v] for a key other than [__proto__]: an existing key keeps its
    position, a new key goes last. *)
Fixpoint obj_set (o : obj) (k : string) (v : value) : obj :=
  match o with
  | [] => [(k, v)]
  | (k', v') :: rest =>
      if String.eqb k' k then (k', v) :: rest else (k', v') :: obj_set rest k v
  end.

(** [delete o[k]]. *)
Fixpoint obj_del (o : obj) (k : string) : obj :=
  match o with
  | [] => []
  | (k', v') :: rest =>
      if String.eqb k' k then obj_del rest k else (k', v') :: obj_del rest k
  end.

Definition obj_keys (o : obj) : list string := map fst o.

(** [{ ...a, ...b }]. *)
Definition obj_spread (a b : obj) : obj :=
  fold_left (fun out kv => obj_set out (fst kv) (snd kv)) b a.

Fixpoint keys_distinct (ks : list string) : bool :=
  match ks with
  | [] => true
  | k :: rest => negb (existsb (String.eqb k) rest) && keys_distinct rest
  end.

(** The representation invariant of JavaScript objects: at every depth the
    keys of an object are pairwise distinct. *)
Fixpoint wf_value (v : value) : bool :=
  match v with
  | VArr items => forallb wf_value items
  | VObj fields =>
      keys_distinct (map fst fields)
      && (fix wf_fields (fs : list (string * value)) : bool :=
            match fs with
            | [] => true
            | (_, c) :: rest => wf_value c && wf_fields rest
            end) fields
  | _ => true
  end.

Definition wf_obj (o : obj) : bool := wf_value (VObj o).

(** [typeof value === "object" && value !== null && !Array.isArray(value)] *)
Definition is_plain_object (v : value) : bool :=
  match v with VObj _ => true | _ => false end.

Definition as_obj (v : value) : obj :=
  match v with VObj o => o | _ => [] end.

Definition is_string (v : value) : bool :=
  match v with VStr _ => true | _ => false end.

(** [has_function]: a function anywhere inside arrays and plain objects. *)
Fixpoint has_function (v : value) : bool :=
  match v with
  | VFun _ => true
  | VArr items => existsb has_function items
  | VObj fields =>
      (fix any (fs : list (string * value)) : bool :=
         match fs with
         | [] => false
         | (_, c) :: rest => has_function c || any rest
         end) fields
  | _ => false
  end.

(** *** Strings *)

(** [String.prototype.trim] on the ASCII white space characters (tab, line
    feed, vertical tab, form feed, carriage return, space).  Strings are
    sequences of bytes here; the white space outside ASCII that JavaScript
    also trims (no-break space, line separator, ...) is left in place, so
    [trim] is that of JavaScript on strings without such characters. *)
Definition is_ws (c : ascii) : bool :=
  let n := nat_of_ascii c in
  ((9 <=? n)%nat && (n <=? 13)%nat) || (n =? 32)%nat.

Fixpoint trim_start (s : string) : string :=
  match s with
  | EmptyString => EmptyString
  | String c rest => if is_ws c then trim_start rest else s
  end.

Fixpoint trim_end (s : string) : string :=
  match s with
  | EmptyString => EmptyString
  | String c rest =>
      match trim_end rest with
      | EmptyString => if is_ws c then EmptyString else String c EmptyString
      | kept => String c kept
      end
  end.

Definition trim (s : string) : string := trim_end (trim_start s).

Definition str_nonempty (s : string) : bool :=
  match s with EmptyString => false | _ => true end.

(** [s.split(sep)] for a one-character separator. *)
Fixpoint split_on (sep : ascii) (s : string) : list string :=
  match s with
  | EmptyString => [EmptyString]
  | String c rest =>
      if Ascii.eqb c sep then EmptyString :: split_on sep rest
      else match split_on sep rest with
           | [] => [String c EmptyString]
           | piece :: pieces => String c piece :: pieces
           end
  end.

(** [s.startsWith(p)]. *)
Fixpoint starts_with (p s : string) : bool :=
  match p, s with
  | EmptyString, _ => true
  | String a p', String b s' => Ascii.eqb a b && starts_with p' s'
  | String _ _, EmptyString => false
  end.

(** [s.endsWith(c)] for a single character. *)
Fixpoint ends_with_char (c : ascii) (s : string) : bool :=
  match s with
  | EmptyString => false
  | String a EmptyString => Ascii.eqb a c
  | String _ rest => ends_with_char c rest
  end.

Definition mem_string (x : string) (l : list string) : bool :=
  existsb (String.eqb x) l.

(** [normalize_string_array]: keep the strings of an array, trimmed, without
    the empty ones and without repetitions, in order of first occurrence. *)
Fixpoint normalize_loop (items : list value) (seen : list string) : list string :=
  match items with
  | [] => []
  | VStr s :: rest =>
      let trimmed := trim s in
      if negb (str_nonempty trimmed) || mem_string trimmed seen
      then normalize_loop rest seen
      else trimmed :: normalize_loop rest (trimmed :: seen)
  | _ :: rest => normalize_loop rest seen
  end.

Definition normalize_string_array (v : value) : list string :=
  match v with
  | VArr items => normalize_loop items []
  | _ => []
  end.

Definition str_array (l : list string) : value := VArr (map VStr l).

(** *** Thrown errors *)

(** An [XError] carries a code and a message; anything else that is thrown
    (a Node system error, a [SyntaxError]) has an empty code. *)
Record XError : Type := mkXError { code : string; message : string }.

Inductive Result (A : Type) : Type :=
  | Ok (a : A)
  | Throw (e : XError).
Arguments Ok {A} a.
Arguments Throw {A} e.

#[export] Instance result_ret : MRet Result := fun A a => Ok a.

#[export] Instance result_bind : MBind Result := fun A B k r =>
  match r with
  | Ok a => k a
  | Throw e => Throw e
  end.

Definition is_ok {A : Type} (r : Result A) : bool :=
  match r with Ok _ => true | Throw _ => false end.

Definition thrown_code {A : Type} (r : Result A) : option string :=
  match r with Ok _ => None | Throw e => Some (code e) end.

End Js.
Export Js.

(** ** runtime/settings_utils.ts *)

Module SettingsUtils.

(** The sentinel is eight bullet characters (U+2022), here in UTF-8. *)
Definition MASK_SENTINEL : string := "••••••••".

Definition dot : ascii := "."%char.

(** [path.split(".").map(trim).filter(nonempty)] *)
Definition split_path (path_value : string) : list string :=
  filter (fun part => str_nonempty part = true) (map trim (split_on dot path_value)).

(** The key whose assignment [out[key] = v] reaches the prototype setter of
    an object literal instead of adding an entry. *)
Definition PROTO_KEY : string := "__proto__".

(** [deep_clone] copies arrays and plain objects entry by entry and returns
    every other value as it is.  The copy of an object starts empty and
    receives its entries by assignment, so an entry named [__proto__] does
    not arrive in it: that assignment sets the prototype of the copy (when
    the value is an object or null) or does nothing.  The model keeps the
    own entries of the copy; the prototype of an object is not part of
    it. *)
Fixpoint deep_clone (v : value) : value :=
  match v with
  | VArr items => VArr (map deep_clone items)
  | VObj fields =>
      VObj ((fix clone_fields (fs : list (string * value)) : obj :=
               match fs with
               | [] => []
               | (key, child) :: rest =>
                   if String.eqb key PROTO_KEY then clone_fields rest
                   else (key, deep_clone child) :: clone_fields rest
               end) fields)
  | _ => v
  end.

(** [deepMerge(base, patch)] and the body of its loop, [merge_entry]:
    [current] is read from [out], which starts as a copy of the cloned base;
    when [current] and the patch value are both plain objects the entry is
    merged recursively, otherwise a clone of the patch value replaces it.
    The recursion descends into the patch value, so [merge_entry] is the
    fixpoint and [deepMerge] is its loop at the top level.  The source
    iterates over a clone of the patch value: the clone has no entry named
    [__proto__], so the loop of [merge_entry] passes over such entries, and
    its other entries are clones, which merge as their originals do
    ([merge_entry_clone]). *)
Fixpoint merge_entry (current val : value) {struct val} : value :=
  match current, val with
  | VObj cur_fields, VObj val_fields =>
      VObj ((fix loop (out : obj) (right : obj) {struct right} : obj :=
               match right with
               | [] => out
               | (key, v) :: rest =>
                   if String.eqb key PROTO_KEY then loop out rest
                   else loop (obj_set out key (merge_entry (obj_get out key) v)) rest
               end) (as_obj (deep_clone (VObj cur_fields))) val_fields)
  | _, _ => deep_clone val
  end.

Fixpoint merge_loop (out : obj) (right : obj) : obj :=
  match right with
  | [] => out
  | (key, v) :: rest =>
      merge_loop (obj_set out key (merge_entry (obj_get out key) v)) rest
  end.

Definition deepMerge (base patch : obj) : obj :=
  let left := as_obj (deep_clone (VObj base)) in
  let right := as_obj (deep_clone (VObj patch)) in
  merge_loop left right.

(** Navigation along the parts of a dotted path. *)
Fixpoint get_parts (cursor : value) (parts : list string) : value :=
  match parts with
  | [] => cursor
  | key :: rest =>
      match cursor with
      | VObj fields => get_parts (obj_get fields key) rest
      | _ => VUndef
      end
  end.

Definition getByPath (o : value) (dotted_path : string) : value :=
  get_parts o (split_path dotted_path).

(** [setByPath]: intermediate values that are not plain objects are replaced
    by fresh objects; the last part receives a clone of the value. *)
Fixpoint set_parts (cursor : obj) (parts : list string) (v : value) : obj :=
  match parts with
  | [] => cursor
  | [key] => obj_set cursor key (deep_clone v)
  | key :: rest =>
      let current := obj_get cursor key in
      let child := if is_plain_object current then as_obj current else [] in
      obj_set cursor key (VObj (set_parts child rest v))
  end.

Definition setByPath (o : obj) (dotted_path : string) (v : value) : obj :=
  set_parts o (split_path dotted_path) v.

(** [deleteByPath]: nothing happens unless every intermediate value is a
    plain object. *)
Fixpoint del_parts (cursor : obj) (parts : list string) : obj :=
  match parts with
  | [] => cursor
  | [key] => obj_del cursor key
  | key :: rest =>
      match obj_get cursor key with
      | VObj child => obj_set cursor key (VObj (del_parts child rest))
      | _ => cursor
      end
  end.

Definition deleteByPath (o : obj) (dotted_path : string) : obj :=
  del_parts o (split_path dotted_path).

(** The test of [maskSensitive] for a value worth masking. *)
Definition is_maskable (current : value) : bool :=
  match current with
  | VUndef | VNull => false
  | VStr EmptyString => false
  | VArr [] => false
  | _ => true
  end.

Record Masked : Type := mkMasked { maskedSettings : obj; maskedMap : obj }.

Definition mask_step (acc : Masked) (path_value : string) : Masked :=
  let current := getByPath (VObj (maskedSettings acc)) path_value in
  if is_maskable current
  then {| maskedSettings := setByPath (maskedSettings acc) path_value (VStr MASK_SENTINEL);
          maskedMap := obj_set (maskedMap acc) path_value (VBool true) |}
  else acc.

Definition maskSensitive (settings : obj) (sensitive_paths : list string) : Masked :=
  fold_left mask_step sensitive_paths
    {| maskedSettings := as_obj (deep_clone (VObj settings)); maskedMap := [] |}.

Definition is_sentinel (v : value) : bool :=
  match v with VStr s => String.eqb s MASK_SENTINEL | _ => false end.

Definition is_undefined (v : value) : bool :=
  match v with VUndef => true | _ => false end.

Definition patch_step (existing : obj) (patch_copy : obj) (path_value : string) : obj :=
  let next := getByPath (VObj patch_copy) path_value in
  if is_sentinel next then
    let original := getByPath (VObj existing) path_value in
    if negb (is_undefined original)
    then setByPath patch_copy path_value original
    else deleteByPath patch_copy path_value
  else patch_copy.

Definition applyPatchWithMaskHandling
    (existing patch : obj) (sensitive_paths : list string) : obj :=
  let patch_copy := as_obj (deep_clone (VObj patch)) in
  deepMerge existing (fold_left (patch_step existing) sensitive_paths patch_copy).

End SettingsUtils.
Export SettingsUtils.

(** ** runtime/guards.ts *)

Module Guards.

Record AgentActor : Type := mkActor {
  user_id : option string;
  role : option string;
  channel : option string;
  source : option string
}.

Record AgentCommandCtx : Type := mkCtx {
  _wid : option string;
  _sid : option string;
  kernel_cap : option string;
  actor : option AgentActor
}.

(** A command as the dispatcher receives it. *)
Record XCommandData : Type := mkCmd {
  _module : string;
  _op : string;
  _params : value;
  _ctx : value
}.

(** [typeof v === "string" ? { key: v } : {}] *)
Definition string_field (v : value) : option string :=
  match v with VStr s => Some s | _ => None end.

Definition to_actor (actor_raw : obj) : AgentActor :=
  {| user_id := string_field (obj_get actor_raw "user_id");
     role := string_field (obj_get actor_raw "role");
     channel := string_field (obj_get actor_raw "channel");
     source := string_field (obj_get actor_raw "source") |}.

Definition to_ctx (v : value) : AgentCommandCtx :=
  match v with
  | VObj fields =>
      {| _wid := string_field (obj_get fields "_wid");
         _sid := string_field (obj_get fields "_sid");
         kernel_cap := string_field (obj_get fields "kernel_cap");
         actor := match obj_get fields "actor" with
                  | VObj actor_raw => Some (to_actor actor_raw)
                  | _ => None
                  end |}
  | _ => {| _wid := None; _sid := None; kernel_cap := None; actor := None |}
  end.

(** [{ ...a, ...b }] on one optional key. *)
Definition spread_field {A : Type} (a b : option A) : option A :=
  match b with Some _ => b | None => a end.

(** [xcmd?._params?._ctx] *)
Definition params_ctx_of (params : value) : value :=
  match params with VObj fields => obj_get fields "_ctx" | _ => VUndef end.

Definition readCommandCtx (xcmd : XCommandData) : AgentCommandCtx :=
  let root_ctx := to_ctx (_ctx xcmd) in
  let params_ctx := to_ctx (params_ctx_of (_params xcmd)) in
  {| _wid := spread_field (_wid root_ctx) (_wid params_ctx);
     _sid := spread_field (_sid root_ctx) (_sid params_ctx);
     kernel_cap := spread_field (kernel_cap root_ctx) (kernel_cap params_ctx);
     actor := match actor params_ctx with
              | Some a => Some a
              | None => actor root_ctx
              end |}.

Definition E_AGENT_GUARD_INIT : string := "E_AGENT_GUARD_INIT".
Definition E_AGENT_FORBIDDEN : string := "E_AGENT_FORBIDDEN".

(** [setKernelCapSecret]: the new value of the module variable
    [_kernel_cap_secret].  The length is counted in bytes, which is the
    length JavaScript counts on an ASCII secret. *)
Definition setKernelCapSecret (kernel_cap_value : string) : Result string :=
  if (String.length (trim kernel_cap_value) <? 16)%nat
  then Throw (mkXError E_AGENT_GUARD_INIT "Invalid kernel capability secret")
  else Ok (trim kernel_cap_value).

(** [requireKernelCap], with the module variable as first argument. *)
Definition requireKernelCap (secret : string) (ctx : AgentCommandCtx) : Result unit :=
  if negb (str_nonempty secret)
  then Throw (mkXError E_AGENT_GUARD_INIT "Kernel cap secret is not initialized")
  else match kernel_cap ctx with
       | None => Throw (mkXError E_AGENT_FORBIDDEN "Missing kernel capability")
       | Some cap =>
           if negb (str_nonempty cap)
           then Throw (mkXError E_AGENT_FORBIDDEN "Missing kernel capability")
           else if negb (String.eqb cap secret)
                then Throw (mkXError E_AGENT_FORBIDDEN "Invalid kernel capability")
                else Ok tt
       end.

(** The members every object literal inherits from [Object.prototype]. *)
Definition object_prototype_functions : list string :=
  ["constructor"; "hasOwnProperty"; "isPrototypeOf"; "propertyIsEnumerable";
   "toLocaleString"; "toString"; "valueOf"; "__defineGetter__";
   "__defineSetter__"; "__lookupGetter__"; "__lookupSetter__"].

(** [rank[name]] for the literal
    [{ customer: 1, admin: 2, owner: 3, system: 4 }]. *)
Definition rank (name : string) : value :=
  if String.eqb name "customer" then VNum 1
  else if String.eqb name "admin" then VNum 2
  else if String.eqb name "owner" then VNum 3
  else if String.eqb name "system" then VNum 4
  else if mem_string name object_prototype_functions then VFun 0
  else if String.eqb name "__proto__" then VObj []
  else VUndef.

(** [a < b] on the values [rank] returns: anything that is not a number
    converts to [NaN], and a comparison with [NaN] is false. *)
Definition js_lt (a b : value) : bool :=
  match a, b with
  | VNum x, VNum y => (x <? y)%Z
  | _, _ => false
  end.

Definition requireActorRole (ctx : AgentCommandCtx) (min_role : string) : Result unit :=
  let current_role :=
    match actor ctx with
    | Some a => role a
    | None => None
    end in
  let missing :=
    Throw (mkXError E_AGENT_FORBIDDEN ("Missing required actor role: " +:+ min_role)) in
  match current_role with
  | None => missing
  | Some current =>
      if negb (str_nonempty current) then missing
      else if js_lt (rank current) (rank min_role) then missing
      else Ok tt
  end.

Definition requireKernelCapOrActorRole
    (secret : string) (ctx : AgentCommandCtx) (min_role : string) : Result unit :=
  match requireKernelCap secret ctx with
  | Ok _ => Ok tt
  | Throw _ => requireActorRole ctx min_role
  end.

Definition known_roles : list string := ["customer"; "admin"; "owner"; "system"].

End Guards.
Export Guards.

(** ** node:path (POSIX) and node:fs *)

Module NodePath.

Definition sep : ascii := "/"%char.

Definition path_isAbsolute (p : string) : bool :=
  match p with
  | String c _ => Ascii.eqb c sep
  | EmptyString => false
  end.

(** Normalisation of the segments of a path onto a stack of directory
    names: empty segments and ["."] are dropped, [".."] removes the last
    name (and stays at the root when there is none). *)
Fixpoint walk (stack : list string) (segments : list string) : list string :=
  match segments with
  | [] => stack
  | s :: rest =>
      if String.eqb s "" then walk stack rest
      else if String.eqb s "." then walk stack rest
      else if String.eqb s ".." then walk (removelast stack) rest
      else walk (stack ++ [s]) rest
  end.

Fixpoint join_abs (names : list string) : string :=
  match names with
  | [] => ""
  | s :: rest => String sep (s +:+ join_abs rest)
  end.

Definition render (names : list string) : string :=
  match names with
  | [] => String sep ""
  | _ => join_abs names
  end.

Definition resolve_step (stack : list string) (arg : string) : list string :=
  if path_isAbsolute arg then walk [] (split_on sep arg)
  else walk stack (split_on sep arg).

Definition resolve_names (cwd : string) (args : list string) : list string :=
  fold_left resolve_step args (walk [] (split_on sep cwd)).

(** [path.resolve(...args)] in a process whose working directory is [cwd]:
    an absolute argument restarts the path, a relative one continues it. *)
Definition path_resolve (cwd : string) (args : list string) : string :=
  render (resolve_names cwd args).

(** [pathToFileURL(p).href], without percent-encoding. *)
Definition pathToFileURL (p : string) : string := "file://" +:+ p.

Inductive FileRead : Type :=
  | NoEntry                (* ENOENT *)
  | IoFailure              (* any other system error *)
  | Unparsable             (* the text is not JSON *)
  | Parsed (v : value).    (* JSON.parse of the text *)

Inductive FileStat : Type :=
  | StatNoEntry
  | StatFile
  | StatOther.

(** What [fs.readFile] followed by [JSON.parse], and [fs.stat], answer. *)
Record FileSystem : Type := mkFs {
  fs_read : string -> FileRead;
  fs_stat : string -> FileStat
}.

Definition ENOENT : XError := mkXError "ENOENT" "no such file or directory".
Definition EIO : XError := mkXError "EIO" "i/o error".
Definition SyntaxError : XError := mkXError "" "Unexpected token in JSON".

End NodePath.
Export NodePath.

(** ** Helpers shared by the modules *)

Module Common.

Definition ensure_non_empty_string
    (err_code : string) (v : value) (field_name : string) : Result string :=
  match v with
  | VStr s =>
      if str_nonempty (trim s) then Ok (trim s)
      else Throw (mkXError err_code
                    ("Invalid " +:+ field_name +:+ ": expected non-empty string"))
  | _ => Throw (mkXError err_code
                  ("Invalid " +:+ field_name +:+ ": expected non-empty string"))
  end.

Definition ensure_optional_string (v : value) : option string :=
  match v with
  | VStr s => if str_nonempty (trim s) then Some (trim s) else None
  | _ => None
  end.

(** [a ?? b] *)
Definition nullish (a b : value) : value :=
  match a with VUndef | VNull => b | _ => a end.

Definition or_else {A : Type} (a b : option A) : option A :=
  match a with Some _ => a | None => b end.

(** [structuredClone]: functions cannot be cloned; every other value comes
    back with all its own entries, an entry named [__proto__] included. *)
Definition DataCloneError : XError := mkXError "DataCloneError" "could not be cloned".

Definition clone_json (v : value) : Result value :=
  if has_function v then Throw DataCloneError else Ok v.

Definition ensure_params (err_code : string) (v : value) : Result obj :=
  match v with
  | VUndef | VNull => Ok []
  | VObj fields =>
      if has_function v
      then Throw (mkXError err_code "params must be JSON-safe")
      else Ok fields
  | _ => Throw (mkXError err_code "Expected params to be an object")
  end.

Definition ensure_json_object
    (err_code : string) (v : value) (field_name : string) : Result obj :=
  match v with
  | VObj fields =>
      if has_function v
      then Throw (mkXError err_code (field_name +:+ " must be JSON-safe"))
      else Ok fields
  | _ => Throw (mkXError err_code (field_name +:+ " must be an object"))
  end.

Definition is_valid_settings_field_type (v : value) : bool :=
  match v with
  | VStr s => mem_string s ["string"; "number"; "boolean"; "select"; "string_list"]
  | _ => false
  end.

(** [...(typeof v === "string" ? { key: v } : {})] and its boolean twin. *)
Definition keep_string (key : string) (v : value) : obj :=
  match v with VStr _ => [(key, v)] | _ => [] end.

Definition keep_bool (key : string) (v : value) : obj :=
  match v with VBool _ => [(key, v)] | _ => [] end.

(** [items.map(f)] where [f] may throw; [idx] is the index of the head. *)
Fixpoint map_result {A B : Type}
    (f : nat -> A -> Result B) (idx : nat) (items : list A) : Result (list B) :=
  match items with
  | [] => Ok []
  | x :: rest =>
      y ← f idx x;
      ys ← map_result f (S idx) rest;
      Ok (y :: ys)
  end.

(** The schema normalisation shared, up to the error code, by the skill
    manager ([normalize_settings_schema]) and the settings module
    ([normalize_schema]). *)
Definition normalize_option (err_code : string) (_ : nat) (option : value)
    : Result value :=
  match option with
  | VObj fields =>
      label ← ensure_non_empty_string err_code (obj_get fields "label") "option.label";
      val ← clone_json (obj_get fields "value");
      Ok (VObj [("label", VStr label); ("value", val)])
  | _ => Throw (mkXError err_code "schema option must be an object")
  end.

Definition normalize_field (field_code param_code : string) (_ : nat) (field : value)
    : Result value :=
  match field with
  | VObj fields =>
      key ← ensure_non_empty_string param_code (obj_get fields "key") "field.key";
      label ← ensure_non_empty_string param_code (obj_get fields "label") "field.label";
      if negb (is_valid_settings_field_type (obj_get fields "type"))
      then Throw (mkXError field_code "Invalid schema field type")
      else
        options ← match obj_get fields "options" with
                  | VArr items =>
                      opts ← map_result (normalize_option field_code) 0 items;
                      Ok (match opts with [] => [] | _ => [("options", VArr opts)] end)
                  | _ => Ok []
                  end;
        Ok (VObj ([("key", VStr key); ("label", VStr label);
                   ("type", obj_get fields "type")]
                  ++ keep_string "help" (obj_get fields "help")
                  ++ keep_bool "secret" (obj_get fields "secret")
                  ++ options
                  ++ keep_string "placeholder" (obj_get fields "placeholder")))
  | _ => Throw (mkXError field_code "schema field must be an object")
  end.

Definition normalize_schema_with (field_code param_code : string) (v : value)
    : Result value :=
  match v with
  | VObj fields =>
      match obj_get fields "fields" with
      | VArr items =>
          normalized ← map_result (normalize_field field_code param_code) 0 items;
          Ok (VObj (keep_string "title" (obj_get fields "title")
                    ++ [("fields", VArr normalized)]))
      | _ => Throw (mkXError field_code "schema must include fields[]")
      end
  | _ => Throw (mkXError field_code "schema must include fields[]")
  end.

End Common.
Export Common.

(** ** State and exceptions

    A computation reads and updates a state and either returns or throws;
    what was written before a [throw] stays written, as in the source. *)

Module StateErr.

Definition M (S A : Type) : Type := S -> Result A * S.

#[export] Instance m_ret {S : Type} : MRet (M S) := fun A a st => (Ok a, st).

#[export] Instance m_bind {S : Type} : MBind (M S) := fun A B k m st =>
  match m st with
  | (Ok a, st') => k a st'
  | (Throw e, st') => (Throw e, st')
  end.

Definition throw {S A : Type} (e : XError) : M S A := fun st => (Throw e, st).

Definition get_state {S : Type} : M S S := fun st => (Ok st, st).

Definition put_state {S : Type} (st : S) : M S unit := fun _ => (Ok tt, st).

Definition modify {S : Type} (f : S -> S) : M S unit := fun st => (Ok tt, f st).

(** A pure step that may throw. *)
Definition lift {S A : Type} (r : Result A) : M S A := fun st => (r, st).

(** [try { body } catch (err) { handler(err) }] *)
Definition try_catch {S A : Type} (body : M S A) (handler : XError -> M S A) : M S A :=
  fun st =>
    match body st with
    | (Ok a, st') => (Ok a, st')
    | (Throw e, st') => handler e st'
    end.

(** [try { body } finally { cleanup }] for a cleanup that does not throw. *)
Definition finally {S A : Type} (body : M S A) (cleanup : S -> S) : M S A :=
  fun st => let '(r, st') := body st in (r, cleanup st').

(** [for (const x of items) { body(x) }] *)
Fixpoint for_each {S A : Type} (items : list A) (body : A -> M S unit) : M S unit :=
  match items with
  | [] => mret tt
  | x :: rest => _ ← body x; for_each rest body
  end.

End StateErr.
Export StateErr.

(** JavaScript built-ins whose definition lies outside the repository. *)
Class Builtins : Type := mkBuiltins {
  (** [Number.parseInt(String(v), 10)], [None] for [NaN] *)
  number_parseInt : value -> option Z;
  (** [a.localeCompare(b) <= 0] *)
  locale_le : string -> string -> bool
}.

(** [array.sort((a, b) => a.localeCompare(b))]: a stable insertion sort. *)
Fixpoint sort_insert `{Builtins} (x : string) (sorted : list string) : list string :=
  match sorted with
  | [] => [x]
  | y :: rest => if locale_le x y then x :: sorted else y :: sort_insert x rest
  end.

Definition sort_locale `{Builtins} (l : list string) : list string :=
  fold_right sort_insert [] l.

(** ** modules/SettingsModule.ts *)

Module SettingsModule.

Definition SETTINGS_MODULE_NAME : string := "settings".
Definition E_SETTINGS_BAD_PARAMS : string := "E_SETTINGS_BAD_PARAMS".
Definition E_SETTINGS_BAD_META : string := "E_SETTINGS_BAD_META".
Definition E_SETTINGS_INIT : string := "E_SETTINGS_INIT".

(** The settings document held by [XSettings], the module variables
    [_xsettings_initialized] and [_xsettings_work_dir], and whether the
    storage behind [XSettings.init] can be opened. *)
Record SettingsState : Type := mkSettings {
  xs_doc : obj;
  xs_initialized : bool;
  xs_work_dir : string;
  xs_available : bool
}.

Definition with_doc (doc : obj) (st : SettingsState) : SettingsState :=
  {| xs_doc := doc; xs_initialized := xs_initialized st;
     xs_work_dir := xs_work_dir st; xs_available := xs_available st |}.

Section Ops.
Context `{Builtins}.
(** The instance: its work directory, the guard secret it checks against,
    and the resolver installed by [set_skill_meta_resolver]. *)
Variable work_dir : string.
Variable secret : string.
Variable resolver : string -> Result value.

Definition normalize_boolean (v : value) (fallback : bool) : bool :=
  match v with VBool b => b | _ => fallback end.

Definition normalize_positive_int (v : value) (fallback : Z) : Z :=
  match number_parseInt v with
  | Some parsed => if (parsed <=? 0)%Z then fallback else parsed
  | None => fallback
  end.

Definition ensure_storage_ready : M SettingsState unit := fun st =>
  if negb (xs_initialized st) then
    let st' := {| xs_doc := xs_doc st; xs_initialized := true;
                  xs_work_dir := work_dir; xs_available := xs_available st |} in
    if xs_available st then (Ok tt, st') else (Throw EIO, st')
  else if negb (String.eqb (xs_work_dir st) work_dir) then
    (Throw (mkXError E_SETTINGS_INIT "XSettings already initialized"), st)
  else if xs_available st then (Ok tt, st) else (Throw EIO, st).

Definition clone_or_empty (v : value) : Result obj :=
  match v with
  | VObj _ => c ← clone_json v; Ok (as_obj c)
  | _ => Ok []
  end.

Definition read_root (source : obj) : Result obj :=
  root ← clone_or_empty (VObj source);
  let root := if is_plain_object (obj_get root "ui") then root
              else obj_set root "ui" (VObj []) in
  let root := if is_plain_object (obj_get root "skills") then root
              else obj_set root "skills" (VObj []) in
  agent_settings ← clone_or_empty (obj_get root "agent");
  let agent_settings :=
    if obj_has agent_settings "name" then agent_settings
    else obj_set agent_settings "name" (VStr "XBot") in
  let agent_settings :=
    if obj_has agent_settings "business_name" then agent_settings
    else obj_set agent_settings "business_name" (VStr "Ruta1") in
  let root := obj_set root "agent" (VObj agent_settings) in
  kb_settings ← clone_or_empty (obj_get root "kb");
  let export_roles :=
    filter (fun r => mem_string r ["owner"; "admin"] = true)
      (normalize_string_array (obj_get kb_settings "export_roles")) in
  let kb_settings :=
    obj_set kb_settings "allow_export"
      (VBool (normalize_boolean (obj_get kb_settings "allow_export") false)) in
  let kb_settings :=
    obj_set kb_settings "export_roles"
      (str_array (match export_roles with
                  | [] => ["owner"; "admin"]
                  | _ => export_roles
                  end)) in
  let kb_settings :=
    obj_set kb_settings "max_export_chars"
      (VNum (normalize_positive_int (obj_get kb_settings "max_export_chars") 8000)) in
  Ok (obj_set root "kb" (VObj kb_settings)).

Definition read_skills_bucket (root : obj) : Result obj :=
  clone_or_empty (obj_get root "skills").

(** [for (const [key, value] of Object.entries(root)) XSettings.set(key, clone)] *)
Fixpoint persist_entries (entries : obj) (doc : obj) : Result unit * obj :=
  match entries with
  | [] => (Ok tt, doc)
  | (key, v) :: rest =>
      match clone_json v with
      | Ok c => persist_entries rest (obj_set doc key c)
      | Throw e => (Throw e, doc)
      end
  end.

Definition persist_root (root : obj) : M SettingsState unit := fun st =>
  let '(r, doc) := persist_entries root (xs_doc st) in (r, with_doc doc st).

Definition is_falsy (v : value) : bool :=
  match v with
  | VUndef | VNull | VBool false | VNum 0 | VStr EmptyString => true
  | _ => false
  end.

(** [resolve_skill_meta]: [None] is [undefined]. *)
Definition resolve_skill_meta (skill_id : string) : Result (option obj) :=
  raw_meta ← resolver skill_id;
  if is_falsy raw_meta then Ok None
  else match raw_meta with
  | VObj raw =>
      defaults ←
        match obj_get raw "defaults" with
        | VUndef => Ok []
        | VObj d =>
            if has_function (VObj d)
            then Throw (mkXError E_SETTINGS_BAD_META "defaults must be JSON-safe")
            else c ← clone_json (VObj d); Ok [("defaults", c)]
        | _ => Throw (mkXError E_SETTINGS_BAD_META "defaults must be an object")
        end;
      let sensitive :=
        match obj_get raw "sensitive" with
        | VUndef => []
        | s => [("sensitive", str_array (normalize_string_array s))]
        end in
      schema ←
        match obj_get raw "schema" with
        | VUndef => Ok []
        | s => n ← normalize_schema_with E_SETTINGS_BAD_META E_SETTINGS_BAD_PARAMS s;
               Ok [("schema", n)]
        end;
      Ok (Some (defaults ++ sensitive ++ schema))
  | _ => Throw (mkXError E_SETTINGS_BAD_META "settings meta must be an object")
  end.

Definition meta_get (meta : option obj) (key : string) : value :=
  match meta with Some m => obj_get m key | None => VUndef end.

Definition authorize (xcmd : XCommandData) : M SettingsState unit :=
  lift (requireKernelCapOrActorRole secret (readCommandCtx xcmd) "admin").

Definition get_impl (xcmd : XCommandData) : M SettingsState value :=
  _ ← authorize xcmd;
  _ ← ensure_storage_ready;
  params ← lift (ensure_params E_SETTINGS_BAD_PARAMS (_params xcmd));
  st ← get_state;
  root ← lift (read_root (xs_doc st));
  match ensure_optional_string (obj_get params "key") with
  | None => mret (VObj [("ok", VBool true); ("value", VObj root)])
  | Some key =>
      v ← lift (clone_json (getByPath (VObj root) key));
      mret (VObj [("ok", VBool true); ("value", v)])
  end.

Definition get_skill_impl (xcmd : XCommandData) : M SettingsState value :=
  _ ← authorize xcmd;
  _ ← ensure_storage_ready;
  params ← lift (ensure_params E_SETTINGS_BAD_PARAMS (_params xcmd));
  skill_id ← lift (ensure_non_empty_string E_SETTINGS_BAD_PARAMS
                     (obj_get params "skill_id") "skill_id");
  let include_schema := normalize_boolean (obj_get params "include_schema") false in
  let include_masked := normalize_boolean (obj_get params "include_masked") true in
  st ← get_state;
  root ← lift (read_root (xs_doc st));
  stored ← lift (clone_or_empty (getByPath (VObj root) ("skills." +:+ skill_id)));
  meta ← lift (resolve_skill_meta skill_id);
  defaults ← lift (clone_or_empty (meta_get meta "defaults"));
  let sensitive_paths := normalize_string_array (meta_get meta "sensitive") in
  let merged := deepMerge defaults stored in
  masked_payload ←
    (if include_masked then mret (maskSensitive merged sensitive_paths)
     else c ← lift (clone_json (VObj merged));
          mret {| maskedSettings := as_obj c; maskedMap := [] |});
  schema ←
    (if include_schema && negb (is_falsy (meta_get meta "schema"))
     then c ← lift (clone_json (meta_get meta "schema")); mret [("schema", c)]
     else mret []);
  mret (VObj [("ok", VBool true);
              ("result", VObj ([("skill_id", VStr skill_id);
                                ("settings", VObj (maskedSettings masked_payload));
                                ("masked", VObj (maskedMap masked_payload))]
                               ++ schema))]).

Definition set_skill_impl (xcmd : XCommandData) : M SettingsState value :=
  _ ← authorize xcmd;
  _ ← ensure_storage_ready;
  params ← lift (ensure_params E_SETTINGS_BAD_PARAMS (_params xcmd));
  skill_id ← lift (ensure_non_empty_string E_SETTINGS_BAD_PARAMS
                     (obj_get params "skill_id") "skill_id");
  patch ← lift (ensure_json_object E_SETTINGS_BAD_PARAMS
                  (nullish (obj_get params "patch") (VObj [])) "patch");
  meta ← lift (resolve_skill_meta skill_id);
  let sensitive_paths := normalize_string_array (meta_get meta "sensitive") in
  st ← get_state;
  root ← lift (read_root (xs_doc st));
  skills ← lift (read_skills_bucket root);
  existing ← lift (clone_or_empty (obj_get skills skill_id));
  let merged_stored := applyPatchWithMaskHandling existing patch sensitive_paths in
  let skills := obj_set skills skill_id (VObj merged_stored) in
  let root := obj_set root "skills" (VObj skills) in
  _ ← persist_root root;
  mret (VObj [("ok", VBool true)]).

(** [ensure_root_keys]: persist what [read_root] returns. *)
Definition ensure_root_keys : M SettingsState unit :=
  st ← get_state;
  root ← lift (read_root (xs_doc st));
  persist_root root.

Definition init_on_boot_impl (xcmd : XCommandData) : M SettingsState value :=
  _ ← lift (requireKernelCap secret (readCommandCtx xcmd));
  _ ← ensure_storage_ready;
  _ ← ensure_root_keys;
  mret (VObj [("ok", VBool true)]).

Definition set_impl (xcmd : XCommandData) : M SettingsState value :=
  _ ← authorize xcmd;
  _ ← ensure_storage_ready;
  params ← lift (ensure_params E_SETTINGS_BAD_PARAMS (_params xcmd));
  key ← lift (ensure_non_empty_string E_SETTINGS_BAD_PARAMS
                (obj_get params "key") "key");
  st ← get_state;
  root ← lift (read_root (xs_doc st));
  v ← lift (clone_json (obj_get params "value"));
  _ ← persist_root (setByPath root key v);
  mret (VObj [("ok", VBool true)]).

Definition reset_skill_impl (xcmd : XCommandData) : M SettingsState value :=
  _ ← authorize xcmd;
  _ ← ensure_storage_ready;
  params ← lift (ensure_params E_SETTINGS_BAD_PARAMS (_params xcmd));
  skill_id ← lift (ensure_non_empty_string E_SETTINGS_BAD_PARAMS
                     (obj_get params "skill_id") "skill_id");
  st ← get_state;
  root ← lift (read_root (xs_doc st));
  skills ← lift (read_skills_bucket root);
  _ ← (if obj_has skills skill_id
       then persist_root (obj_set root "skills" (VObj (obj_del skills skill_id)))
       else mret tt);
  mret (VObj [("ok", VBool true)]).

Definition schema_impl (xcmd : XCommandData) : M SettingsState value :=
  _ ← authorize xcmd;
  _ ← ensure_storage_ready;
  params ← lift (ensure_params E_SETTINGS_BAD_PARAMS (_params xcmd));
  skill_id ← lift (ensure_non_empty_string E_SETTINGS_BAD_PARAMS
                     (obj_get params "skill_id") "skill_id");
  meta ← lift (resolve_skill_meta skill_id);
  if is_falsy (meta_get meta "schema")
  then mret (VObj [("ok", VBool false); ("reason", VStr "no_schema")])
  else c ← lift (clone_json (meta_get meta "schema"));
       mret (VObj [("ok", VBool true); ("schema", c)]).

End Ops.

End SettingsModule.
Export SettingsModule.

(** ** modules/SkillManagerModule.ts *)

Module SkillManager.

Definition SKILL_MANAGER_MODULE_NAME : string := "skills".
Definition E_SKILLS_BAD_PARAMS : string := "E_SKILLS_BAD_PARAMS".
Definition E_SKILLS_NOT_ALLOWLISTED : string := "E_SKILLS_NOT_ALLOWLISTED".
Definition E_SKILLS_BAD_EXPORT : string := "E_SKILLS_BAD_EXPORT".
Definition E_SKILLS_BAD_MODULE : string := "E_SKILLS_BAD_MODULE".
Definition E_SKILLS_MODULE_CONFLICT : string := "E_SKILLS_MODULE_CONFLICT".
Definition E_SKILLS_MODULE_DISABLED : string := "E_SKILLS_MODULE_DISABLED".
Definition E_SKILLS_DISABLED : string := "E_SKILLS_DISABLED".
Definition E_SKILLS_RESOLVE_FAILED : string := "E_SKILLS_RESOLVE_FAILED".
Definition E_SKILLS_BAD_CONFIG : string := "E_SKILLS_BAD_CONFIG".
Definition E_SKILLS_PERSIST_FAILED : string := "E_SKILLS_PERSIST_FAILED".

(** *** Trusted resolution of a local package *)

(** [is_path_within(target_path, root_path)] *)
Definition is_path_within (cwd target_path root_path : string) : bool :=
  let normalized_target := path_resolve cwd [target_path] in
  let normalized_root := path_resolve cwd [root_path] in
  if String.eqb normalized_target normalized_root then true
  else
    let root_with_sep :=
      if ends_with_char sep normalized_root then normalized_root
      else normalized_root +:+ String sep "" in
    starts_with root_with_sep normalized_target.

Record ResolvedSkillEntry : Type := mkEntry {
  specifier : string;
  entry_source : string
}.

Section Resolve.
(** The working directory of the process, the resolved [_repo_root] of the
    manager, and the file system. *)
Variable cwd : string.
Variable repo_root : string.
Variable fs : FileSystem.

Definition normalize_local_path (raw_local_path : string) : Result string :=
  normalized ← ensure_non_empty_string E_SKILLS_BAD_PARAMS
                  (VStr raw_local_path) "local_paths[]";
  let absolute :=
    if path_isAbsolute normalized then path_resolve cwd [normalized]
    else path_resolve cwd [repo_root; normalized] in
  if negb (is_path_within cwd absolute repo_root)
  then Throw (mkXError E_SKILLS_BAD_CONFIG
                ("local_paths entry escapes repo root: " +:+ raw_local_path))
  else Ok absolute.

(** Every function that touches the file system also returns the paths it
    handed to [fs], in order. *)
Definition read_package_json (package_root : string)
    : Result (option obj) * list string :=
  let package_json_path := path_resolve cwd [package_root; "package.json"] in
  (match fs_read fs package_json_path with
   | NoEntry => Ok None
   | IoFailure => Throw EIO
   | Unparsable => Throw SyntaxError
   | Parsed (VObj parsed) => Ok (Some parsed)
   | Parsed _ =>
       Throw (mkXError E_SKILLS_BAD_CONFIG
                ("Invalid package.json object: " +:+ package_json_path))
   end, [package_json_path]).

Definition export_entry (exports_field : value) : option string :=
  match exports_field with
  | VStr s => Some s
  | VObj fields =>
      match nullish (obj_get fields ".") exports_field with
      | VStr s => Some s
      | VObj root_export =>
          or_else (ensure_optional_string (obj_get root_export "import"))
            (or_else (ensure_optional_string (obj_get root_export "default"))
               (ensure_optional_string (obj_get root_export "node")))
      | _ => None
      end
  | _ => None
  end.

Definition resolve_package_entry (package_root : string) (pkg : obj) : Result string :=
  let entry_rel :=
    match export_entry (obj_get pkg "exports") with
    | Some s => if str_nonempty s then Some s else None
    | None => None
    end in
  let entry_rel :=
    match entry_rel with
    | Some s => s
    | None =>
        match or_else (ensure_optional_string (obj_get pkg "module"))
                (ensure_optional_string (obj_get pkg "main")) with
        | Some s => s
        | None => "./index.js"
        end
    end in
  let entry_file := path_resolve cwd [package_root; entry_rel] in
  if negb (is_path_within cwd entry_file package_root)
  then Throw (mkXError E_SKILLS_BAD_CONFIG ("Invalid package entry path: " +:+ entry_rel))
  else Ok entry_file.

(** The loop of [resolve_local_path] over the candidate directories. *)
Fixpoint try_candidates (id : string) (candidates : list string)
    : Result (option ResolvedSkillEntry) * list string :=
  match candidates with
  | [] => (Ok None, [])
  | candidate :: rest =>
      let '(pkg_result, reads) := read_package_json candidate in
      match pkg_result with
      | Throw e => (Throw e, reads)
      | Ok None =>
          let '(r, more) := try_candidates id rest in (r, reads ++ more)
      | Ok (Some pkg) =>
          match ensure_optional_string (obj_get pkg "name") with
          | Some package_name =>
              if String.eqb package_name id then
                match resolve_package_entry candidate pkg with
                | Throw e => (Throw e, reads)
                | Ok entry_file =>
                    (match fs_stat fs entry_file with
                     | StatNoEntry => Throw ENOENT
                     | StatOther =>
                         Throw (mkXError E_SKILLS_RESOLVE_FAILED
                                  ("Skill entry is not a file: " +:+ entry_file))
                     | StatFile =>
                         Ok (Some {| specifier := pathToFileURL entry_file;
                                     entry_source := "local:" +:+ candidate |})
                     end, reads ++ [entry_file])
                end
              else let '(r, more) := try_candidates id rest in (r, reads ++ more)
          | None =>
              let '(r, more) := try_candidates id rest in (r, reads ++ more)
          end
      end
  end.

Definition resolve_local_path (id raw_local_path : string)
    : Result (option ResolvedSkillEntry) * list string :=
  match normalize_local_path raw_local_path with
  | Throw e => (Throw e, [])
  | Ok local_root =>
      try_candidates id [local_root; path_resolve cwd [local_root; id]]
  end.

End Resolve.

(** *** State of the manager and of its collaborators *)

Record AgentConfig : Type := mkConfig {
  allow : list string;
  enabled : list string;
  node_modules : bool;
  local_paths : list string
}.

Definition DEFAULT_AGENT_CONFIG : AgentConfig :=
  {| allow := []; enabled := []; node_modules := true; local_paths := [] |}.

Inductive SkillStatus : Type := StatusLoaded | StatusDisabled | StatusError.

Inductive SkillKind : Type := KindXbot | KindLegacy.

Record LoadedSkillRecord : Type := mkLoaded {
  rec_id : string;
  rec_version : option string;
  rec_enabled : bool;
  rec_status : SkillStatus;
  rec_error : option string;
  rec_source : option string;
  rec_capabilities : option obj;
  rec_modules_registered : list string
}.

(** The sandbox context of a runtime record is [create_skill_context] of its
    id, version and capabilities, so the record need not store it. *)
Record SkillRuntimeRecord : Type := mkRuntime {
  rt_id : string;
  rt_version : string;
  rt_kind : SkillKind;
  rt_capabilities : obj;
  rt_source : string;
  rt_on_disable : option nat
}.

(** What [resolve_skill_descriptor] returns; hooks are function values. *)
Record SkillDescriptor : Type := mkDescriptor {
  d_kind : SkillKind;
  d_version : string;
  d_capabilities : obj;
  d_settings_meta : option obj;
  d_on_enable : nat;
  d_on_disable : option nat
}.

Record Manager : Type := mkManager {
  m_agent_id : string;
  m_version : string;
  m_repo_root : string;
  m_package_root : string;
  m_kernel_cap : string;
  m_config : AgentConfig;
  m_enabled : gset string;
  m_activating : gset string;
  m_loaded : gmap string LoadedSkillRecord;
  m_skill_to_modules : gmap string (gset string);
  m_module_to_skill : gmap string string;
  m_runtime_by_skill : gmap string SkillRuntimeRecord;
  m_settings_meta_by_skill : gmap string obj
}.

(** The manager together with the mutable collaborators it talks to: the
    module registry of the engine (the names [_x.getModule] finds), the
    settings module, the secret of the guards and the content of
    [agent.config.json]. *)
Record System : Type := mkSystem {
  mgr : Manager;
  registry : gset string;
  settings : SettingsState;
  guard_secret : string;
  config_file : FileRead
}.

(** One call of a skill on its sandbox context. *)
Inductive SkillCall : Type :=
  | CallRegisterModule (module_instance : value)
  | CallExecute (module_name op params meta : value)
  | CallEmit (event_name payload : value)
  | CallLog (level msg : string).

(** The behaviour of a hook of a skill: the calls it makes on its context,
    in order, and the error it throws at the end, if any.  A call that
    throws ends the hook with that error. *)
Record Hook : Type := mkHook {
  hook_calls : list SkillCall;
  hook_throws : option XError
}.

(** The environment: what lies on disk, what the loader and the other
    modules answer.  The dispatcher is opaque except for the settings
    module, and its other modules do not call back into the manager. *)
Record World : Type := mkWorld {
  w_cwd : string;
  w_fs : FileSystem;
  w_require_resolve : string -> Result string;
  w_import : string -> Result value;
  w_hooks : nat -> Hook;
  w_dispatch : XCommandData -> Result value;
  w_config_writable : bool;
  w_settings_work_dir : string
}.

Definition set_mgr (f : Manager -> Manager) (sys : System) : System :=
  {| mgr := f (mgr sys); registry := registry sys; settings := settings sys;
     guard_secret := guard_secret sys; config_file := config_file sys |}.

Definition with_enabled (e : gset string) (m : Manager) : Manager :=
  {| m_agent_id := m_agent_id m; m_version := m_version m;
     m_repo_root := m_repo_root m; m_package_root := m_package_root m;
     m_kernel_cap := m_kernel_cap m; m_config := m_config m;
     m_enabled := e; m_activating := m_activating m; m_loaded := m_loaded m;
     m_skill_to_modules := m_skill_to_modules m;
     m_module_to_skill := m_module_to_skill m;
     m_runtime_by_skill := m_runtime_by_skill m;
     m_settings_meta_by_skill := m_settings_meta_by_skill m |}.

Definition with_activating (a : gset string) (m : Manager) : Manager :=
  {| m_agent_id := m_agent_id m; m_version := m_version m;
     m_repo_root := m_repo_root m; m_package_root := m_package_root m;
     m_kernel_cap := m_kernel_cap m; m_config := m_config m;
     m_enabled := m_enabled m; m_activating := a; m_loaded := m_loaded m;
     m_skill_to_modules := m_skill_to_modules m;
     m_module_to_skill := m_module_to_skill m;
     m_runtime_by_skill := m_runtime_by_skill m;
     m_settings_meta_by_skill := m_settings_meta_by_skill m |}.

Definition with_loaded (l : gmap string LoadedSkillRecord) (m : Manager) : Manager :=
  {| m_agent_id := m_agent_id m; m_version := m_version m;
     m_repo_root := m_repo_root m; m_package_root := m_package_root m;
     m_kernel_cap := m_kernel_cap m; m_config := m_config m;
     m_enabled := m_enabled m; m_activating := m_activating m; m_loaded := l;
     m_skill_to_modules := m_skill_to_modules m;
     m_module_to_skill := m_module_to_skill m;
     m_runtime_by_skill := m_runtime_by_skill m;
     m_settings_meta_by_skill := m_settings_meta_by_skill m |}.

Definition with_ownership
    (s2m : gmap string (gset string)) (m2s : gmap string string) (m : Manager)
    : Manager :=
  {| m_agent_id := m_agent_id m; m_version := m_version m;
     m_repo_root := m_repo_root m; m_package_root := m_package_root m;
     m_kernel_cap := m_kernel_cap m; m_config := m_config m;
     m_enabled := m_enabled m; m_activating := m_activating m;
     m_loaded := m_loaded m;
     m_skill_to_modules := s2m; m_module_to_skill := m2s;
     m_runtime_by_skill := m_runtime_by_skill m;
     m_settings_meta_by_skill := m_settings_meta_by_skill m |}.

Definition with_runtime (r : gmap string SkillRuntimeRecord) (m : Manager) : Manager :=
  {| m_agent_id := m_agent_id m; m_version := m_version m;
     m_repo_root := m_repo_root m; m_package_root := m_package_root m;
     m_kernel_cap := m_kernel_cap m; m_config := m_config m;
     m_enabled := m_enabled m; m_activating := m_activating m;
     m_loaded := m_loaded m;
     m_skill_to_modules := m_skill_to_modules m;
     m_module_to_skill := m_module_to_skill m;
     m_runtime_by_skill := r;
     m_settings_meta_by_skill := m_settings_meta_by_skill m |}.

Definition with_settings_meta (sm : gmap string obj) (m : Manager) : Manager :=
  {| m_agent_id := m_agent_id m; m_version := m_version m;
     m_repo_root := m_repo_root m; m_package_root := m_package_root m;
     m_kernel_cap := m_kernel_cap m; m_config := m_config m;
     m_enabled := m_enabled m; m_activating := m_activating m;
     m_loaded := m_loaded m;
     m_skill_to_modules := m_skill_to_modules m;
     m_module_to_skill := m_module_to_skill m;
     m_runtime_by_skill := m_runtime_by_skill m;
     m_settings_meta_by_skill := sm |}.

Definition with_config (c : AgentConfig) (m : Manager) : Manager :=
  {| m_agent_id := m_agent_id m; m_version := m_version m;
     m_repo_root := m_repo_root m; m_package_root := m_package_root m;
     m_kernel_cap := m_kernel_cap m; m_config := c;
     m_enabled := m_enabled m; m_activating := m_activating m;
     m_loaded := m_loaded m;
     m_skill_to_modules := m_skill_to_modules m;
     m_module_to_skill := m_module_to_skill m;
     m_runtime_by_skill := m_runtime_by_skill m;
     m_settings_meta_by_skill := m_settings_meta_by_skill m |}.

Definition with_registry (r : gset string) (sys : System) : System :=
  {| mgr := mgr sys; registry := r; settings := settings sys;
     guard_secret := guard_secret sys; config_file := config_file sys |}.

Definition with_settings (s : SettingsState) (sys : System) : System :=
  {| mgr := mgr sys; registry := registry sys; settings := s;
     guard_secret := guard_secret sys; config_file := config_file sys |}.

Definition with_config_file (f : FileRead) (sys : System) : System :=
  {| mgr := mgr sys; registry := registry sys; settings := settings sys;
     guard_secret := guard_secret sys; config_file := f |}.

(** The constructor. *)
Definition new_manager (cwd agent_id version repo_root package_root kernel_cap : string)
    : Manager :=
  {| m_agent_id := agent_id; m_version := version;
     m_repo_root := path_resolve cwd [repo_root];
     m_package_root := path_resolve cwd [package_root];
     m_kernel_cap := kernel_cap; m_config := DEFAULT_AGENT_CONFIG;
     m_enabled := ∅; m_activating := ∅; m_loaded := ∅;
     m_skill_to_modules := ∅; m_module_to_skill := ∅;
     m_runtime_by_skill := ∅; m_settings_meta_by_skill := ∅ |}.

(** *** The sandbox context and the life cycle *)

Definition op_key (module_name op : string) : string :=
  module_name +:+ "." +:+ op.

Definition normalize_capabilities (v : value) : obj :=
  match v with
  | VObj fields =>
      [("kernel_ops", str_array (normalize_string_array (obj_get fields "kernel_ops")));
       ("channels", str_array (normalize_string_array (obj_get fields "channels")))]
      ++ keep_bool "network" (obj_get fields "network")
  | _ => []
  end.

(** [...(c.key ? { key: [...c.key] } : {})]; the capabilities of a record
    come from [normalize_capabilities], so the key holds an array or
    nothing. *)
Definition keep_array (key : string) (v : value) : obj :=
  match v with VArr _ => [(key, v)] | _ => [] end.

Definition clone_capabilities (capabilities : option obj) : option obj :=
  match capabilities with
  | None => None
  | Some c =>
      Some (keep_array "kernel_ops" (obj_get c "kernel_ops")
            ++ keep_array "channels" (obj_get c "channels")
            ++ keep_bool "network" (obj_get c "network"))
  end.

(** [record.field ? { field } : {}] on an optional string. *)
Definition keep_truthy_string (s : option string) : option string :=
  match s with
  | Some x => if str_nonempty x then Some x else None
  | None => None
  end.

Definition clone_loaded_record (record : LoadedSkillRecord) : LoadedSkillRecord :=
  {| rec_id := rec_id record;
     rec_version := keep_truthy_string (rec_version record);
     rec_enabled := rec_enabled record;
     rec_status := rec_status record;
     rec_error := keep_truthy_string (rec_error record);
     rec_source := keep_truthy_string (rec_source record);
     rec_capabilities := clone_capabilities (rec_capabilities record);
     rec_modules_registered := rec_modules_registered record |}.

(** [to_error_message]: the message of what was thrown. *)
Definition to_error_message (err : XError) : string := message err.

(** The command that [execute] of the sandbox context hands to the
    dispatcher, or the error it throws before that. *)
Definition build_execute_command
    (skill_id kernel_cap_value : string) (capabilities : obj)
    (module_name op params meta : value) : Result XCommandData :=
  let kernel_allow := normalize_string_array (obj_get capabilities "kernel_ops") in
  module_ ← ensure_non_empty_string E_SKILLS_BAD_PARAMS module_name "module";
  op_ ← ensure_non_empty_string E_SKILLS_BAD_PARAMS op "op";
  params_ ← match params with
            | VUndef => Ok []
            | _ => ensure_json_object E_SKILLS_BAD_PARAMS params "params"
            end;
  let op_name := op_key module_ op_ in
  let is_kernel_allowed := mem_string op_name kernel_allow in
  let ctx0 : obj :=
    [("actor", VObj [("role", VStr "system");
                     ("source", VStr ("skill:" +:+ skill_id))])] in
  let ctx1 := if is_kernel_allowed
              then obj_set ctx0 "kernel_cap" (VStr kernel_cap_value)
              else ctx0 in
  ctx2 ← match meta with
         | VUndef => Ok ctx1
         | _ => if has_function meta
                then Throw (mkXError E_SKILLS_BAD_PARAMS "meta must be JSON-safe")
                else Ok (obj_set ctx1 "meta" meta)
         end;
  Ok {| _module := module_; _op := op_;
        _params := VObj (obj_set params_ "_ctx" (VObj ctx2));
        _ctx := VUndef |}.

(** The context a forwarded command carries. *)
Definition forwarded_ctx (cmd : XCommandData) : obj :=
  as_obj (params_ctx_of (_params cmd)).

(** [module_instance._name ?? module_instance?.constructor?._name]; the
    static members of the class of an instance are found under its key
    [constructor]. *)
Definition declared_module_name (fields : obj) : value :=
  nullish (obj_get fields "_name")
          (match obj_get fields "constructor" with
           | VObj statics => obj_get statics "_name"
           | _ => VUndef
           end).

Section Lifecycle.
Context `{Builtins}.
Variable w : World.

Definition modify_mgr (f : Manager -> Manager) : M System unit :=
  modify (set_mgr f).

Definition assert_allowlisted (id : string) : M System unit := fun sys =>
  if mem_string id (allow (m_config (mgr sys))) then (Ok tt, sys)
  else (Throw (mkXError E_SKILLS_NOT_ALLOWLISTED
                 ("Skill id is not in allowlist: " +:+ id)), sys).

Definition resolve_skill_settings_meta (m : Manager) (skill_id : string)
    : Result value :=
  match m_settings_meta_by_skill m !! skill_id with
  | None => Ok VUndef
  | Some current => clone_json (VObj current)
  end.

Definition run_settings {A : Type} (op : M SettingsState A) : M System A :=
  fun sys => let '(r, s') := op (settings sys) in (r, with_settings s' sys).

(** [_x.execute(cmd)]: the settings module is the one of this repository
    and its seven ops run on the settings store; every other module is the
    environment's, which answers and leaves the state alone.  The skill
    manager is among the latter: a command that a hook sends to the manager
    itself would run inside the hook and change the manager, and the model
    does not follow it.  The statements that look at the manager across a
    hook are therefore for hooks that send it no command. *)
Definition dispatch (cmd : XCommandData) : M System value := fun sys =>
  let settings_op (impl : XCommandData -> M SettingsState value) :=
    run_settings (impl cmd) sys in
  let secret := guard_secret sys in
  let resolver := resolve_skill_settings_meta (mgr sys) in
  if String.eqb (_module cmd) SETTINGS_MODULE_NAME then
    if String.eqb (_op cmd) "init_on_boot" then
      settings_op (init_on_boot_impl (w_settings_work_dir w) secret)
    else if String.eqb (_op cmd) "get" then
      settings_op (get_impl (w_settings_work_dir w) secret)
    else if String.eqb (_op cmd) "set" then
      settings_op (set_impl (w_settings_work_dir w) secret)
    else if String.eqb (_op cmd) "get_skill" then
      settings_op (get_skill_impl (w_settings_work_dir w) secret resolver)
    else if String.eqb (_op cmd) "set_skill" then
      settings_op (set_skill_impl (w_settings_work_dir w) secret resolver)
    else if String.eqb (_op cmd) "reset_skill" then
      settings_op (reset_skill_impl (w_settings_work_dir w) secret)
    else if String.eqb (_op cmd) "schema" then
      settings_op (schema_impl (w_settings_work_dir w) secret resolver)
    else (w_dispatch w cmd, sys)
  else (w_dispatch w cmd, sys).

Definition assert_skill_enabled_for_callback (skill_id : string) : M System unit :=
  fun sys =>
    if negb (bool_decide (skill_id ∈ m_enabled (mgr sys)))
       && negb (bool_decide (skill_id ∈ m_activating (mgr sys)))
    then (Throw (mkXError E_SKILLS_DISABLED ("Skill is disabled: " +:+ skill_id)), sys)
    else (Ok tt, sys).

Definition ctx_execute (skill_id : string) (capabilities : obj)
    (module_name op params meta : value) : M System value :=
  _ ← assert_skill_enabled_for_callback skill_id;
  sys ← get_state;
  cmd ← lift (build_execute_command skill_id (m_kernel_cap (mgr sys)) capabilities
                module_name op params meta);
  dispatch cmd.

Definition modules_of (m : Manager) (skill_id : string) : gset string :=
  default ∅ (m_skill_to_modules m !! skill_id).

Definition ctx_registerModule (skill_id : string) (module_instance : value)
    : M System unit :=
  match module_instance with
  | VObj _ | VArr _ =>
      module_name ← lift (ensure_non_empty_string E_SKILLS_BAD_PARAMS
                            (declared_module_name (as_obj module_instance))
                            "module _name");
      sys ← get_state;
      let mapped_skill := m_module_to_skill (mgr sys) !! module_name in
      let mapped_truthy :=
        match mapped_skill with Some s => str_nonempty s | None => false end in
      let conflict :=
        match mapped_skill with
        | Some s => str_nonempty s && negb (String.eqb s skill_id)
        | None => false
        end in
      if conflict then
        throw (mkXError E_SKILLS_MODULE_CONFLICT
                 ("Module '" +:+ module_name +:+ "' already registered by '"
                  +:+ default EmptyString mapped_skill +:+ "'"))
      else
        let already_loaded := bool_decide (module_name ∈ registry sys) in
        _ ← (if negb already_loaded
             then modify (fun s =>
                    with_registry
                      ({[ match declared_module_name (as_obj module_instance) with
                          | VStr raw => raw
                          | _ => module_name
                          end ]} ∪ registry s) s)
             else if negb mapped_truthy
                  then throw (mkXError E_SKILLS_MODULE_CONFLICT
                                ("Module '" +:+ module_name
                                 +:+ "' already exists and is not managed by skill '"
                                 +:+ skill_id +:+ "'"))
                  else mret tt);
        modify_mgr (fun m =>
          with_ownership
            (<[skill_id := {[module_name]} ∪ modules_of m skill_id]>
               (m_skill_to_modules m))
            (<[module_name := skill_id]> (m_module_to_skill m)) m)
  | _ => throw (mkXError E_SKILLS_BAD_MODULE "registerModule expects XModule instance")
  end.

Definition ctx_emit (skill_id : string) (event_name payload : value) : M System unit :=
  _ ← assert_skill_enabled_for_callback skill_id;
  _ ← lift (ensure_non_empty_string E_SKILLS_BAD_PARAMS event_name "eventName");
  if has_function payload
  then throw (mkXError E_SKILLS_BAD_PARAMS "emit payload must be JSON-safe")
  else mret tt.

(** Logging leaves the state alone. *)
Definition log_skill (level skill_id msg : string) : M System unit := mret tt.

Definition run_call (skill_id : string) (capabilities : obj) (c : SkillCall)
    : M System unit :=
  match c with
  | CallRegisterModule module_instance => ctx_registerModule skill_id module_instance
  | CallExecute module_name op params meta =>
      _ ← ctx_execute skill_id capabilities module_name op params meta; mret tt
  | CallEmit event_name payload => ctx_emit skill_id event_name payload
  | CallLog level msg => log_skill level skill_id msg
  end.

(** Calling the function value [fn] of a skill with the context made by
    [create_skill_context(skill_id, _, capabilities)]. *)
Definition run_hook (skill_id : string) (capabilities : obj) (fn : nat)
    : M System unit :=
  _ ← for_each (hook_calls (w_hooks w fn)) (run_call skill_id capabilities);
  match hook_throws (w_hooks w fn) with
  | Some e => throw e
  | None => mret tt
  end.

Definition kernel_ctx (m : Manager) : value :=
  VObj [("kernel_cap", VStr (m_kernel_cap m));
        ("actor", VObj [("role", VStr "system"); ("source", VStr "skill-manager")])].

Definition settings_command (m : Manager) (op : string) (params : obj)
    : XCommandData :=
  {| _module := SETTINGS_MODULE_NAME; _op := op;
     _params := VObj (params ++ [("_ctx", kernel_ctx m)]);
     _ctx := VUndef |}.

Definition bootstrap_skill_settings_defaults (skill_id : string) (meta : value)
    : M System unit :=
  sys ← get_state;
  _ ← dispatch (settings_command (mgr sys) "get_skill"
                  [("skill_id", VStr skill_id); ("include_masked", VBool false);
                   ("include_schema", VBool false)]);
  defaults ← lift (match meta with
                   | VObj m =>
                       match obj_get m "defaults" with
                       | VObj d => c ← clone_json (VObj d); Ok (as_obj c)
                       | _ => Ok []
                       end
                   | _ => Ok []
                   end);
  match defaults with
  | [] => mret tt
  | _ =>
      existing ← dispatch (settings_command (mgr sys) "get" [("key", VStr "skills")]);
      let existing_data := if is_plain_object existing then as_obj existing else [] in
      let skills_bucket :=
        if is_plain_object (obj_get existing_data "value")
        then as_obj (obj_get existing_data "value") else [] in
      if obj_has skills_bucket skill_id then mret tt
      else
        _ ← dispatch (settings_command (mgr sys) "set_skill"
                        [("skill_id", VStr skill_id); ("patch", VObj defaults)]);
        mret tt
  end.

(** [Array.from(set).sort((a, b) => a.localeCompare(b))].  A set of the
    model has no insertion order: its elements are listed in an order of the
    model's own before they are sorted.  The sorted list has the members of
    the set, each once, and it is the list JavaScript builds whenever the
    comparison ranks no two different ids equal. *)
Definition sorted_modules (m : Manager) (skill_id : string) : list string :=
  sort_locale (elements (modules_of m skill_id)).

Definition sorted_enabled (m : Manager) : list string :=
  sort_locale (elements (m_enabled m)).

Definition call_module_hooks (skill_id op : string) : M System unit :=
  sys ← get_state;
  for_each (elements (modules_of (mgr sys) skill_id)) (fun module_name =>
    try_catch
      (_ ← dispatch {| _module := module_name; _op := op;
                       _params := VObj [("reason", VStr ("skills." +:+ op));
                                        ("skill_id", VStr skill_id);
                                        ("_ctx", kernel_ctx (mgr sys))];
                       _ctx := VUndef |};
       mret tt)
      (fun err => mret tt)).

Definition set_error_state (id error_message : string) (source : option string)
    : M System unit :=
  modify_mgr (fun m =>
    let existing := m_loaded m !! id in
    let runtime_record := m_runtime_by_skill m !! id in
    with_loaded
      (<[id := {| rec_id := id;
                  rec_version := or_else (rt_version <$> runtime_record)
                                         (existing ≫= rec_version);
                  rec_enabled := false;
                  rec_status := StatusError;
                  rec_error := Some error_message;
                  rec_source := or_else source
                                  (or_else (existing ≫= rec_source)
                                           (rt_source <$> runtime_record));
                  rec_capabilities :=
                    clone_capabilities
                      (or_else (rt_capabilities <$> runtime_record)
                               (existing ≫= rec_capabilities));
                  rec_modules_registered := sorted_modules m id |}]>
         (m_loaded m)) m).

(** [resolve_skill_descriptor] and what it calls. *)
Definition normalize_skill_settings_meta (v : value) : Result obj :=
  defaults ←
    match v with
    | VObj fields =>
        match obj_get fields "defaults" with
        | VUndef => Ok []
        | VObj d =>
            if has_function (VObj d)
            then Throw (mkXError E_SKILLS_BAD_EXPORT
                          "skill.settings.defaults must be a JSON object")
            else c ← clone_json (VObj d); Ok [("defaults", c)]
        | _ => Throw (mkXError E_SKILLS_BAD_EXPORT
                        "skill.settings.defaults must be a JSON object")
        end
    | _ => Ok []
    end;
  let sensitive :=
    match v with
    | VObj fields =>
        match obj_get fields "sensitive" with
        | VUndef => []
        | s => [("sensitive", str_array (normalize_string_array s))]
        end
    | _ => []
    end in
  schema ←
    match v with
    | VObj fields =>
        match obj_get fields "schema" with
        | VUndef => Ok []
        | s => n ← normalize_schema_with E_SKILLS_BAD_EXPORT E_SKILLS_BAD_PARAMS s;
               Ok [("schema", n)]
        end
    | _ => Ok []
    end;
  Ok (defaults ++ sensitive ++ schema).

Definition validate_xbot_skill (id : string) (skill_export : obj)
    : Result SkillDescriptor :=
  skill_id ← ensure_non_empty_string E_SKILLS_BAD_PARAMS
               (obj_get skill_export "id") "skill.id";
  if negb (String.eqb skill_id id)
  then Throw (mkXError E_SKILLS_BAD_EXPORT "Skill id mismatch")
  else
    version ← ensure_non_empty_string E_SKILLS_BAD_PARAMS
                (obj_get skill_export "version") "skill.version";
    match obj_get skill_export "onEnable" with
    | VFun on_enable =>
        let capabilities :=
          normalize_capabilities
            (VObj (normalize_capabilities (obj_get skill_export "capabilities"))) in
        settings_meta ←
          (if is_falsy (obj_get skill_export "settings") then Ok None
           else m ← normalize_skill_settings_meta (obj_get skill_export "settings");
                Ok (Some m));
        Ok {| d_kind := KindXbot; d_version := version;
              d_capabilities := capabilities;
              d_settings_meta := settings_meta;
              d_on_enable := on_enable;
              d_on_disable := match obj_get skill_export "onDisable" with
                              | VFun f => Some f
                              | _ => None
                              end |}
    | _ => Throw (mkXError E_SKILLS_BAD_EXPORT "skill.onEnable must be a function")
    end.

Definition resolve_legacy_register_fn (module_exports : obj) : Result nat :=
  match obj_get module_exports "registerSkill" with
  | VFun f => Ok f
  | _ =>
      match obj_get module_exports "default" with
      | VFun f => Ok f
      | VObj default_export =>
          match obj_get default_export "registerSkill" with
          | VFun f => Ok f
          | _ => Throw (mkXError E_SKILLS_BAD_EXPORT
                          "Skill must export `skill` or legacy `registerSkill(ctx)`")
          end
      | _ => Throw (mkXError E_SKILLS_BAD_EXPORT
                      "Skill must export `skill` or legacy `registerSkill(ctx)`")
      end
  end.

Definition resolve_skill_descriptor (id : string) (module_exports : value)
    : Result SkillDescriptor :=
  match module_exports with
  | VObj exports =>
      match obj_get exports "skill" with
      | VObj skill_export => validate_xbot_skill id skill_export
      | _ =>
          register_skill ← resolve_legacy_register_fn exports;
          Ok {| d_kind := KindLegacy; d_version := "0.0.0-legacy";
                d_capabilities := []; d_settings_meta := Some [];
                d_on_enable := register_skill; d_on_disable := None |}
      end
  | _ => Throw (mkXError E_SKILLS_BAD_EXPORT "Skill module must export an object")
  end.

Definition resolve_node_module (id : string) : Result ResolvedSkillEntry :=
  resolved_path ← w_require_resolve w id;
  Ok {| specifier := pathToFileURL resolved_path; entry_source := "node_modules" |}.

Fixpoint resolve_local_paths (repo_root id : string) (paths : list string)
    (errors : list string) : Result ResolvedSkillEntry :=
  match paths with
  | [] => Throw (mkXError E_SKILLS_RESOLVE_FAILED
                   ("Unable to resolve skill '" +:+ id +:+ "'"))
  | raw_local_path :: rest =>
      match fst (resolve_local_path (w_cwd w) repo_root (w_fs w) id raw_local_path) with
      | Ok (Some resolved) => Ok resolved
      | Ok None => resolve_local_paths repo_root id rest errors
      | Throw err =>
          resolve_local_paths repo_root id rest
            (errors ++ ["local_path(" +:+ raw_local_path +:+ "): "
                        +:+ to_error_message err])
      end
  end.

Definition resolve_skill_entry (m : Manager) (id : string) : Result ResolvedSkillEntry :=
  let local := resolve_local_paths (m_repo_root m) id (local_paths (m_config m)) in
  if node_modules (m_config m) then
    match resolve_node_module id with
    | Ok resolved => Ok resolved
    | Throw err => local ["node_modules: " +:+ to_error_message err]
    end
  else local [].

Definition loaded_record (id : string) (version : option string)
    (source : option string) (capabilities : option obj) (modules : list string)
    : LoadedSkillRecord :=
  {| rec_id := id; rec_version := version; rec_enabled := true;
     rec_status := StatusLoaded; rec_error := None; rec_source := source;
     rec_capabilities := clone_capabilities capabilities;
     rec_modules_registered := modules |}.

Definition is_status (s : SkillStatus) (r : option LoadedSkillRecord) : bool :=
  match r, s with
  | Some {| rec_status := StatusLoaded |}, StatusLoaded => true
  | Some {| rec_status := StatusDisabled |}, StatusDisabled => true
  | Some {| rec_status := StatusError |}, StatusError => true
  | _, _ => false
  end.

Definition enable_skill (id : string) (source : string) : M System unit :=
  _ ← assert_allowlisted id;
  sys ← get_state;
  let existing := m_loaded (mgr sys) !! id in
  if is_status StatusLoaded existing && bool_decide (id ∈ m_enabled (mgr sys))
  then mret tt
  else if is_status StatusDisabled existing
          && bool_decide (is_Some (m_runtime_by_skill (mgr sys) !! id))
  then
    _ ← bootstrap_skill_settings_defaults id
          (match m_settings_meta_by_skill (mgr sys) !! id with
           | Some meta => VObj meta
           | None => VUndef
           end);
    _ ← call_module_hooks id "enable";
    _ ← modify_mgr (fun m => with_enabled ({[id]} ∪ m_enabled m) m);
    modify_mgr (fun m =>
      let runtime_record := m_runtime_by_skill m !! id in
      with_loaded
        (<[id := loaded_record id (rt_version <$> runtime_record)
                   (or_else (existing ≫= rec_source) (rt_source <$> runtime_record))
                   (rt_capabilities <$> runtime_record)
                   (match runtime_record with
                    | Some _ => sorted_modules m id
                    | None => []
                    end)]> (m_loaded m)) m)
  else
    resolved ← lift (resolve_skill_entry (mgr sys) id);
    loaded_module ← lift (w_import w (specifier resolved));
    descriptor ← lift (resolve_skill_descriptor id loaded_module);
    finally
      (try_catch
         (_ ← modify_mgr (fun m => with_activating ({[id]} ∪ m_activating m) m);
          stored_meta ← lift (match d_settings_meta descriptor with
                              | Some meta => c ← clone_json (VObj meta); Ok (as_obj c)
                              | None => Ok []
                              end);
          _ ← modify_mgr (fun m =>
                with_settings_meta (<[id := stored_meta]> (m_settings_meta_by_skill m)) m);
          _ ← bootstrap_skill_settings_defaults id
                (match d_settings_meta descriptor with
                 | Some meta => VObj meta
                 | None => VUndef
                 end);
          _ ← run_hook id (d_capabilities descriptor) (d_on_enable descriptor);
          _ ← modify_mgr (fun m => with_enabled ({[id]} ∪ m_enabled m) m);
          _ ← modify_mgr (fun m =>
                with_runtime
                  (<[id := {| rt_id := id; rt_version := d_version descriptor;
                              rt_kind := d_kind descriptor;
                              rt_capabilities := d_capabilities descriptor;
                              rt_source := entry_source resolved;
                              rt_on_disable := d_on_disable descriptor |}]>
                     (m_runtime_by_skill m)) m);
          modify_mgr (fun m =>
            with_loaded
              (<[id := loaded_record id (Some (d_version descriptor))
                         (Some (entry_source resolved))
                         (Some (d_capabilities descriptor))
                         (sorted_modules m id)]> (m_loaded m)) m))
         (fun err =>
            _ ← modify_mgr (fun m => with_enabled (m_enabled m ∖ {[id]}) m);
            _ ← set_error_state id (to_error_message err) (Some (entry_source resolved));
            _ ← modify_mgr (fun m =>
                  with_settings_meta (delete id (m_settings_meta_by_skill m)) m);
            throw err))
      (set_mgr (fun m => with_activating (m_activating m ∖ {[id]}) m)).

Definition disable_skill (id : string) (source : string) : M System unit :=
  _ ← assert_allowlisted id;
  sys ← get_state;
  let runtime_record := m_runtime_by_skill (mgr sys) !! id in
  _ ← modify_mgr (fun m => with_enabled (m_enabled m ∖ {[id]}) m);
  _ ← match runtime_record with
      | Some {| rt_capabilities := caps; rt_on_disable := Some on_disable |} =>
          try_catch (run_hook id caps on_disable)
            (fun err => log_skill "warn" id "skill onDisable failed")
      | _ => mret tt
      end;
  _ ← call_module_hooks id "disable";
  modify_mgr (fun m =>
    let existing := m_loaded m !! id in
    with_loaded
      (<[id := {| rec_id := id;
                  rec_version := or_else (rt_version <$> runtime_record)
                                         (existing ≫= rec_version);
                  rec_enabled := false;
                  rec_status := StatusDisabled;
                  rec_error := None;
                  rec_source := or_else (existing ≫= rec_source)
                                        (rt_source <$> runtime_record);
                  rec_capabilities :=
                    clone_capabilities
                      (or_else (rt_capabilities <$> runtime_record)
                               (existing ≫= rec_capabilities));
                  rec_modules_registered := sorted_modules m id |}]>
         (m_loaded m)) m).

(** *** The configuration document *)

(** What [persist_enabled_to_agent_config] hands to [fs.writeFile], given
    the decoded content of the file. *)
Definition persisted_document (config : AgentConfig) (enabled_ids : list string)
    (parsed : obj) : obj :=
  let existing_skills :=
    if is_plain_object (obj_get parsed "skills")
    then as_obj (obj_get parsed "skills") else [] in
  let existing_resolve :=
    if is_plain_object (obj_get existing_skills "resolve")
    then as_obj (obj_get existing_skills "resolve") else [] in
  obj_set parsed "skills"
    (VObj (obj_set (obj_set (obj_set existing_skills
             "allow" (str_array (allow config)))
             "enabled" (str_array enabled_ids))
             "resolve"
               (VObj (obj_set (obj_set existing_resolve
                        "node_modules" (VBool (node_modules config)))
                        "local_paths" (str_array (local_paths config)))))).

Definition enabled_to_persist (m : Manager) : list string :=
  filter (fun id => mem_string id (allow (m_config m)) = true) (sorted_enabled m).

Definition persist_enabled_to_agent_config : M System unit :=
  sys ← get_state;
  let enabled_ids := enabled_to_persist (mgr sys) in
  _ ← modify_mgr (fun m =>
        with_config {| allow := allow (m_config m); enabled := enabled_ids;
                       node_modules := node_modules (m_config m);
                       local_paths := local_paths (m_config m) |} m);
  parsed ← lift (match config_file sys with
                 | NoEntry => Ok []
                 | IoFailure => Throw EIO
                 | Unparsable => Throw SyntaxError
                 | Parsed (VObj decoded) => Ok decoded
                 | Parsed _ => Ok []
                 end);
  sys' ← get_state;
  if w_config_writable w
  then modify (with_config_file
                 (Parsed (VObj (persisted_document (m_config (mgr sys')) enabled_ids parsed))))
  else throw EIO.

Definition read_agent_config (file : FileRead) : Result AgentConfig :=
  match file with
  | NoEntry => Ok DEFAULT_AGENT_CONFIG
  | IoFailure => Throw EIO
  | Unparsable => Throw SyntaxError
  | Parsed (VObj parsed) =>
      let raw_skills :=
        if is_plain_object (obj_get parsed "skills")
        then as_obj (obj_get parsed "skills") else [] in
      let allow_ids := normalize_string_array (obj_get raw_skills "allow") in
      let enabled_ids :=
        filter (fun id => mem_string id allow_ids = true)
          (normalize_string_array (obj_get raw_skills "enabled")) in
      let raw_resolve :=
        if is_plain_object (obj_get raw_skills "resolve")
        then as_obj (obj_get raw_skills "resolve") else [] in
      Ok {| allow := allow_ids; enabled := enabled_ids;
            node_modules := match obj_get raw_resolve "node_modules" with
                            | VUndef => true
                            | VBool true => true
                            | _ => false
                            end;
            local_paths := normalize_string_array (obj_get raw_resolve "local_paths") |}
  | Parsed _ =>
      Throw (mkXError E_SKILLS_BAD_CONFIG "agent.config.json must be an object")
  end.

(** *** Commands *)

Record CommandReply : Type := mkReply {
  reply_ok : bool;
  reply_skill : option LoadedSkillRecord
}.

Definition PERSIST_FAILED : XError :=
  mkXError E_SKILLS_PERSIST_FAILED "Failed to save enabled skills to agent.config.json".

Definition command_id (xcmd : XCommandData) : Result string :=
  params ← ensure_params E_SKILLS_BAD_PARAMS (_params xcmd);
  ensure_non_empty_string E_SKILLS_BAD_PARAMS (obj_get params "id") "id".

Definition reply_for (id : string) : M System CommandReply :=
  sys ← get_state;
  mret {| reply_ok := true;
          reply_skill := clone_loaded_record <$> (m_loaded (mgr sys) !! id) |}.

Definition enable_impl (xcmd : XCommandData) : M System CommandReply :=
  sys ← get_state;
  _ ← lift (requireKernelCapOrActorRole (guard_secret sys) (readCommandCtx xcmd) "admin");
  id ← lift (command_id xcmd);
  let was_enabled := bool_decide (id ∈ m_enabled (mgr sys)) in
  _ ← enable_skill id "command";
  _ ← try_catch persist_enabled_to_agent_config
        (fun err =>
           _ ← (if negb was_enabled
                then try_catch (disable_skill id "command") (fun _ => mret tt)
                else mret tt);
           throw PERSIST_FAILED);
  reply_for id.

Definition disable_impl (xcmd : XCommandData) : M System CommandReply :=
  sys ← get_state;
  _ ← lift (requireKernelCapOrActorRole (guard_secret sys) (readCommandCtx xcmd) "admin");
  id ← lift (command_id xcmd);
  let was_enabled := bool_decide (id ∈ m_enabled (mgr sys)) in
  _ ← disable_skill id "command";
  _ ← try_catch persist_enabled_to_agent_config
        (fun err =>
           _ ← (if was_enabled
                then try_catch (enable_skill id "command") (fun _ => mret tt)
                else mret tt);
           throw PERSIST_FAILED);
  reply_for id.

Definition reload_enabled_impl (xcmd : XCommandData) : M System unit :=
  sys ← get_state;
  _ ← lift (requireKernelCap (guard_secret sys) (readCommandCtx xcmd));
  config ← lift (read_agent_config (config_file sys));
  _ ← modify_mgr (with_config config);
  _ ← for_each (elements (m_enabled (mgr sys))) (fun id =>
        if mem_string id (enabled config) then mret tt
        else disable_skill id "reload");
  for_each (enabled config) (fun id =>
    try_catch (enable_skill id "reload")
      (fun err => set_error_state id (to_error_message err) None)).

End Lifecycle.

End SkillManager.
Export SkillManager.

(** * Specification vocabulary and sample systems *)

(** No object inside [v], at any depth, has an own entry named [__proto__].
    On such values [deep_clone] is the identity. *)
Fixpoint proto_free (v : value) : bool :=
  match v with
  | VArr items => forallb proto_free items
  | VObj fields =>
      (fix free (fs : list (string * value)) : bool :=
         match fs with
         | [] => true
         | (k, c) :: rest => negb (String.eqb k PROTO_KEY) && proto_free c && free rest
         end) fields
  | _ => true
  end.

(** The entries [deep_clone] copies. *)
Definition copied (kv : string * value) : bool := negb (String.eqb (fst kv) PROTO_KEY).

(** A key that no object inherits: for such a key the lookup [o[k]] and the
    assignment [o[k] = v] of JavaScript are the own-property lookup and
    update of the model. *)
Definition own_name (k : string) : bool :=
  negb (mem_string k (PROTO_KEY :: object_prototype_functions)).

(** A dotted path none of whose parts is inherited. *)
Definition own_path (dotted_path : string) : bool :=
  forallb own_name (split_path dotted_path).

Fixpoint is_prefix (a b : list string) : bool :=
  match a, b with
  | [], _ => true
  | x :: a', y :: b' => String.eqb x y && is_prefix a' b'
  | _ :: _, [] => false
  end.

(** [covers a b]: the path [a] names a strict ancestor of the path [b]. *)
Definition covers (a b : list string) : bool :=
  match a with
  | [] => false
  | _ => is_prefix a b && (length a <? length b)%nat
  end.

(** A sensitive path is shadowed when another sensitive path names one of
    its ancestors. *)
Definition shadowed (sensitive_paths : list string) (path_value : string) : bool :=
  existsb (fun q => covers (split_path q) (split_path path_value)) sensitive_paths.

(** Two paths that part ways at some key. *)
Inductive diverge : list string -> list string -> Prop :=
  | diverge_here x y a b : x <> y -> diverge (x :: a) (y :: b)
  | diverge_next x a b : diverge a b -> diverge (x :: a) (x :: b).

(** What is known about the value at [p] while [maskSensitive] runs:
    it is worth masking, and either [p] is still to come or it has been
    masked and recorded. *)
Definition mask_inv (p : string) (acc : Masked) (rest : list string) : Prop :=
  is_maskable (getByPath (VObj (maskedSettings acc)) p) = true
  /\ (In p rest
      \/ (getByPath (VObj (maskedSettings acc)) p = VStr MASK_SENTINEL
          /\ obj_get (maskedMap acc) p = VBool true)).

(** What is known about the value at [p] in the copy of the patch while
    [applyPatchWithMaskHandling] runs. *)
Definition patch_inv (existing : obj) (p : string) (patch_copy : obj)
    (rest : list string) : Prop :=
  wf_obj patch_copy = true
  /\ ((getByPath (VObj patch_copy) p = VStr MASK_SENTINEL /\ In p rest)
      \/ getByPath (VObj patch_copy) p = getByPath (VObj existing) p).

Definition sample_unknown_ctx : obj :=
  [("actor", VObj [("role", VStr "superuser")])].

Definition sample_unknown_cmd : XCommandData :=
  {| _module := "skills"; _op := "enable";
     _params := VObj [("id", VStr "s1"); ("_ctx", VObj sample_unknown_ctx)];
     _ctx := VUndef |}.

(** The decoded content [persist_enabled_to_agent_config] starts from. *)
Definition decoded_config (file : FileRead) : obj :=
  match file with
  | Parsed (VObj decoded) => decoded
  | _ => []
  end.

Definition config_readable (file : FileRead) : bool :=
  match file with
  | IoFailure | Unparsable => false
  | _ => true
  end.

Definition skills_section (doc : obj) : obj := as_obj (obj_get doc "skills").

Fixpoint no_sep (s : string) : bool :=
  match s with
  | EmptyString => true
  | String c rest => negb (Ascii.eqb c sep) && no_sep rest
  end.

(** A directory name as [path.resolve] leaves it on its stack. *)
Definition clean_name (s : string) : bool :=
  negb (String.eqb s "") && negb (String.eqb s ".") && negb (String.eqb s "..")
  && no_sep s.

(** A relative path that never steps to a parent directory. *)
Definition plain_relative (p : string) : bool :=
  negb (path_isAbsolute p)
  && forallb (fun s => negb (String.eqb s "..")) (split_on sep p).

(** [is_path_within] on two paths that are already normalised. *)
Definition under (normalized_target normalized_root : string) : bool :=
  if String.eqb normalized_target normalized_root then true
  else starts_with
         (if ends_with_char sep normalized_root then normalized_root
          else normalized_root +:+ String sep "")
         normalized_target.

(** A candidate directory: a result of [path.resolve] inside the
    repository root. *)
Definition trusted_candidate (cwd repo_root c : string) : Prop :=
  is_path_within cwd c repo_root = true /\ exists args, c = path_resolve cwd args.

Definition empty_fs : FileSystem :=
  {| fs_read := fun _ => NoEntry; fs_stat := fun _ => StatNoEntry |}.

Definition sample_package_fs : FileSystem :=
  {| fs_read := fun p =>
       if String.eqb p "/repo/packages/skills/echo/package.json"
       then Parsed (VObj [("name", VStr "echo"); ("main", VStr "./dist/index.js")])
       else NoEntry;
     fs_stat := fun p =>
       if String.eqb p "/repo/packages/skills/echo/dist/index.js"
       then StatFile else StatNoEntry |}.

(** [hoare P m Q E]: from a state in [P], the computation [m] ends in [Q]
    when it returns and in [E] when it throws. *)
Definition hoare {S A : Type} (P : S -> Prop) (m : M S A)
    (Q : A -> S -> Prop) (E : XError -> S -> Prop) : Prop :=
  forall st, P st ->
    match m st with
    | (Ok a, st') => Q a st'
    | (Throw e, st') => E e st'
    end.

Definition preserves {S A : Type} (P : S -> Prop) (m : M S A) : Prop :=
  hoare P m (fun _ => P) (fun _ => P).

(** [keeps view m]: the computation [m] leaves a part of the manager
    untouched. *)
Definition keeps {V A : Type} (view : Manager -> V) (m : M System A) : Prop :=
  forall c, preserves (fun sys => view (mgr sys) = c) m.

(** The part of the manager the enable and disable commands are about. *)
Definition enabled_view (m : Manager) : gset string * list string :=
  (m_enabled m, allow (m_config m)).

(** The part of the manager module ownership is about. *)
Definition owner_view (m : Manager)
    : gmap string (gset string) * gmap string string * list string :=
  (m_skill_to_modules m, m_module_to_skill m, allow (m_config m)).

(** Views that do not look at the book-keeping fields. *)
Record plain_view {V : Type} (view : Manager -> V) : Prop := mkPlainView {
  pv_activating : forall a m, view (with_activating a m) = view m;
  pv_loaded : forall l m, view (with_loaded l m) = view m;
  pv_runtime : forall r m, view (with_runtime r m) = view m;
  pv_settings_meta : forall s m, view (with_settings_meta s m) = view m
}.

(** The module an [execute] call of a hook addresses, when the module name
    passes the check of the sandbox. *)
Definition call_target (c : SkillCall) : option string :=
  match c with
  | CallExecute module_name _ _ _ =>
      match ensure_non_empty_string E_SKILLS_BAD_PARAMS module_name "module" with
      | Ok name => Some name
      | Throw _ => None
      end
  | _ => None
  end.

(** The hook sends no command to the module [module_name]. *)
Definition hook_avoids (module_name : string) (h : Hook) : bool :=
  forallb (fun c => match call_target c with
                    | Some name => negb (String.eqb name module_name)
                    | None => true
                    end) (hook_calls h).

(** No hook sends a command to the skill manager itself.  The dispatcher of
    the model hands such a command to the environment, whereas [_x.execute]
    would run the manager's own command inside the hook; the statements about
    the enabled set across a command are for worlds in which that does not
    happen. *)
Definition no_reentry (w : World) : Prop :=
  forall fn, hook_avoids SKILL_MANAGER_MODULE_NAME (w_hooks w fn) = true.

Definition owns (sys : System) (skill_id module_name : string) : Prop :=
  module_name ∈ modules_of (mgr sys) skill_id.

Definition ownership_inv (sys : System) : Prop :=
  (forall s md, owns sys s md <-> m_module_to_skill (mgr sys) !! md = Some s)
  /\ (forall id, In id (allow (m_config (mgr sys))) -> id <> EmptyString)
  /\ (forall md s, m_module_to_skill (mgr sys) !! md = Some s -> s <> EmptyString).

#[export] Instance sample_builtins : Builtins :=
  {| number_parseInt := fun v => match v with VNum n => Some n | _ => None end;
     locale_le := String.leb |}.

Definition sample_secret : string := "0123456789abcdef".

Definition echo_entry : string := "file:///repo/packages/skills/echo/dist/index.js".

Definition echo_exports : value :=
  VObj [("skill",
         VObj [("id", VStr "echo"); ("version", VStr "0.1.0");
               ("capabilities",
                VObj [("kernel_ops", VArr [VStr "channels.configure"])]);
               ("settings",
                VObj [("defaults", VObj [("mode", VStr "echo")]);
                      ("sensitive", VArr [VStr "token"])]);
               ("onEnable", VFun 1)])].

Definition echo_on_enable : Hook :=
  {| hook_calls :=
       [CallRegisterModule (VObj [("_name", VStr "echo")]);
        CallExecute (VStr "channels") (VStr "configure")
          (VObj [("channel", VStr "echo")]) VUndef];
     hook_throws := None |}.

Definition sample_world : World :=
  {| w_cwd := "/";
     w_fs := sample_package_fs;
     w_require_resolve := fun _ => Throw (mkXError "MODULE_NOT_FOUND" "Cannot find module");
     w_import := fun s =>
       if String.eqb s echo_entry then Ok echo_exports
       else Throw (mkXError "ERR_MODULE_NOT_FOUND" "Cannot find module");
     w_hooks := fun fn => match fn with
                          | 1 => echo_on_enable
                          | _ => {| hook_calls := []; hook_throws := None |}
                          end;
     w_dispatch := fun _ => Ok VUndef;
     w_config_writable := true;
     w_settings_work_dir := "/work" |}.

Definition sample_config_document : value :=
  VObj [("name", VStr "agent");
        ("skills",
         VObj [("allow", VArr [VStr "echo"]);
               ("enabled", VArr []);
               ("resolve",
                VObj [("node_modules", VBool false);
                      ("local_paths", VArr [VStr "packages/skills"])])])].

Definition sample_boot : System :=
  {| mgr := new_manager "/" "agent" "1.0" "/repo" "/repo/packages/agent-core"
              sample_secret;
     registry := {["channels"]};
     settings := {| xs_doc := []; xs_initialized := false;
                    xs_work_dir := EmptyString; xs_available := true |};
     guard_secret := sample_secret;
     config_file := Parsed sample_config_document |}.

Definition kernel_command (op : string) (params : obj) : XCommandData :=
  {| _module := SKILL_MANAGER_MODULE_NAME; _op := op;
     _params := VObj (params ++ [("_ctx", VObj [("kernel_cap", VStr sample_secret)])]);
     _ctx := VUndef |}.

Definition admin_command (op : string) (params : obj) : XCommandData :=
  {| _module := SKILL_MANAGER_MODULE_NAME; _op := op;
     _params := VObj (params ++ [("_ctx", VObj [("actor", VObj [("role", VStr "admin")])])]);
     _ctx := VUndef |}.

(** The sample system after its configuration has been loaded, and after
    the skill [echo] has been enabled. *)
Definition sample_loaded : System :=
  snd (reload_enabled_impl sample_world (kernel_command "reload_enabled" []) sample_boot).

Definition sample_enabled : System :=
  snd (enable_impl sample_world (admin_command "enable" [("id", VStr "echo")])
         sample_loaded).

Definition initial_system (sys : System) : Prop :=
  exists cwd agent_id version repo_root package_root kernel_cap_value,
    mgr sys = new_manager cwd agent_id version repo_root package_root kernel_cap_value.

(** The states the system can be in: it starts with a fresh manager, runs
    commands, lets skills use their sandbox context (a context is only made
    for an allow-listed id, and the ids of the allow-list are not empty), and
    its collaborators may change behind its back. *)
Inductive reachable `{Builtins} (w : World) : System -> Prop :=
  | reach_init sys : initial_system sys -> reachable w sys
  | reach_enable sys xcmd :
      reachable w sys -> reachable w (snd (enable_impl w xcmd sys))
  | reach_disable sys xcmd :
      reachable w sys -> reachable w (snd (disable_impl w xcmd sys))
  | reach_reload sys xcmd :
      reachable w sys -> reachable w (snd (reload_enabled_impl w xcmd sys))
  | reach_skill_call sys skill_id capabilities c :
      reachable w sys -> skill_id <> EmptyString ->
      reachable w (snd (run_call w skill_id capabilities c sys))
  | reach_environment sys sys' :
      reachable w sys -> mgr sys' = mgr sys -> reachable w sys'.

(** The module instance declares the name [md]. *)
Definition declares_module (module_instance : value) (md : string) : Prop :=
  exists fields,
    module_instance = VObj fields
    /\ ensure_non_empty_string E_SKILLS_BAD_PARAMS (declared_module_name fields)
         "module _name" = Ok md.

(** The enabled set and the allow-list of a state. *)
Definition enabled_is (E : gset string) (A : list string) (sys : System) : Prop :=
  enabled_view (mgr sys) = (E, A).



(** The sample environment with a configuration file that cannot be
    written. *)
Definition read_only_world : World :=
  {| w_cwd := w_cwd sample_world; w_fs := w_fs sample_world;
     w_require_resolve := w_require_resolve sample_world;
     w_import := w_import sample_world; w_hooks := w_hooks sample_world;
     w_dispatch := w_dispatch sample_world;
     w_config_writable := false;
     w_settings_work_dir := w_settings_work_dir sample_world |}.

(** The sample system, [echo] enabled, once the settings storage has
    become unavailable. *)
Definition sample_storage_down : System :=
  with_settings
    {| xs_doc := xs_doc (settings sample_enabled);
       xs_initialized := xs_initialized (settings sample_enabled);
       xs_work_dir := xs_work_dir (settings sample_enabled);
       xs_available := false |}
    sample_enabled.

Definition echo_command (op : string) : XCommandData :=
  admin_command op [("id", VStr "echo")].

(** A value without functions: what [structuredClone] accepts. *)
Definition json_safe (v : value) : Prop := has_function v = false.

(** The state [ensure_storage_ready] leaves behind when it succeeds. *)
Definition ready_settings (work_dir : string) (st : SettingsState) : SettingsState :=
  {| xs_doc := xs_doc st; xs_initialized := true;
     xs_work_dir := work_dir; xs_available := xs_available st |}.

(** The storage can be opened, and was not opened on another directory. *)
Definition storage_ready (work_dir : string) (st : SettingsState) : bool :=
  xs_available st
  && (negb (xs_initialized st) || String.eqb (xs_work_dir st) work_dir).

(** The [skills] section of the root settings document, as [read_root]
    presents it. *)
Definition skills_bucket_of (doc : obj) : obj :=
  if is_plain_object (obj_get doc "skills") then as_obj (obj_get doc "skills") else [].

(** One [XSettings.set(key, value)]. *)
Definition store_entry (doc : obj) (kv : string * value) : obj :=
  obj_set doc (fst kv) (snd kv).






Definition with_recorded_meta (id : string) (meta : obj) (sys : System) : System :=
  set_mgr (fun m => with_settings_meta (<[id := meta]> (m_settings_meta_by_skill m)) m)
    sys.

(** A skill whose declared default for a sensitive field is the mask
    sentinel itself. *)
Definition vault_settings_meta : obj :=
  [("defaults", VObj [("token", VStr MASK_SENTINEL); ("mode", VStr "sealed")]);
   ("sensitive", VArr [VStr "token"])].

Definition vault_activating : System :=
  with_recorded_meta "vault" vault_settings_meta sample_loaded.

(** The sample system with the skill enabled and its settings bucket gone,
    as after [reset_skill]. *)
Definition sample_bucket_lost : System :=
  with_settings {| xs_doc := []; xs_initialized := true;
                   xs_work_dir := "/work"; xs_available := true |} sample_enabled.


Definition sample_channel_settings : obj :=
  [("token", VStr "s3cret"); ("name", VStr "support")].

Definition sample_channel_patch : obj :=
  [("token", VStr MASK_SENTINEL); ("name", VStr "sales")].

Definition nested_settings : obj := [("a", VObj [("b", VStr "s")])].

(** A stored value with an entry named [__proto__], as [JSON.parse] builds
    it. *)
Definition proto_settings : obj :=
  [("a", VObj [(PROTO_KEY, VNum 1); ("k", VNum 2)])].

(** The capabilities the sample skill declares, and a call of its sandbox
    [execute] for an op of its allow-list. *)
Definition echo_capabilities : obj :=
  [("kernel_ops", VArr [VStr "channels.configure"])].

Definition sample_execute_command : XCommandData :=
  {| _module := "channels"; _op := "configure";
     _params :=
       VObj [("channel", VStr "echo");
             ("_ctx",
              VObj [("actor", VObj [("role", VStr "system");
                                    ("source", VStr "skill:echo")]);
                    ("kernel_cap", VStr sample_secret)])];
     _ctx := VUndef |}.

Definition merge_base : obj :=
  [("a", VObj [("x", VNum 1); ("y", VNum 2)]); ("keep", VArr [VNum 1; VNum 2])].

Definition merge_patch : obj :=
  [("a", VObj [("y", VNum 3); ("z", VNum 4)]); ("list", VArr [VNum 9])].

(** [lacks c s]: the character [c] does not occur in [s]. *)
Fixpoint lacks (c : ascii) (s : string) : bool :=
  match s with
  | EmptyString => true
  | String a rest => negb (Ascii.eqb a c) && lacks c rest
  end.

(** The first and the last character of a string are not white space. *)
Definition no_leading_ws (s : string) : bool :=
  match s with
  | EmptyString => true
  | String c _ => negb (is_ws c)
  end.

Fixpoint no_trailing_ws (s : string) : bool :=
  match s with
  | EmptyString => true
  | String c EmptyString => negb (is_ws c)
  | String _ rest => no_trailing_ws rest
  end.

(** A part as [split_path] returns them. *)
Definition clean_part (s : string) : bool :=
  str_nonempty s && lacks dot s && no_leading_ws s && no_trailing_ws s.

(** Every character is an ASCII character.  On such strings the white
    space of [String.prototype.trim] is the white space [is_ws] tests. *)
Fixpoint ascii_only (s : string) : bool :=
  match s with
  | EmptyString => true
  | String c rest => (nat_of_ascii c <? 128)%nat && ascii_only rest
  end.

Definition sample_document : obj :=
  [("telegram", VObj [("token", VStr "t0k3n"); ("chat", VNum 7)]);
   ("name", VStr "support")].

(** The context of a caller with a role and no capability token. *)
Definition actor_ctx (r : string) : AgentCommandCtx :=
  {| _wid := None; _sid := None; kernel_cap := None;
     actor := Some {| user_id := None; role := Some r;
                      channel := None; source := None |} |}.

(** The role a context carries, if any. *)
Definition ctx_role (ctx : AgentCommandCtx) : option string :=
  match actor ctx with Some a => role a | None => None end.

(** The top-level keys [read_root] rewrites. *)
Definition root_sections : list string := ["ui"; "skills"; "agent"; "kb"].

(** A request to the settings module by a caller with the given context. *)
Definition settings_request (ctx : value) (op : string) (params : obj) : XCommandData :=
  {| _module := SETTINGS_MODULE_NAME; _op := op;
     _params := VObj (params ++ [("_ctx", ctx)]); _ctx := VUndef |}.

Definition admin_ctx : value := VObj [("actor", VObj [("role", VStr "admin")])].
Definition customer_ctx : value := VObj [("actor", VObj [("role", VStr "customer")])].

(** A settings store that has been opened on [/work]. *)
Definition sample_store : SettingsState :=
  {| xs_doc := [("skills", VObj [("echo", VObj [("mode", VStr "echo");
                                                ("token", VStr "s3cret")]);
                                 ("vault", VObj [("mode", VStr "sealed")])]);
                ("theme", VStr "dark")];
     xs_initialized := true; xs_work_dir := "/work"; xs_available := true |}.

(** The resolver of a manager that knows the settings of [echo]. *)
Definition sample_resolver (skill_id : string) : Result value :=
  if String.eqb skill_id "echo"
  then Ok (VObj [("defaults", VObj [("mode", VStr "quiet"); ("retries", VNum 3)]);
                 ("sensitive", VArr [VStr "token"])])
  else Ok VUndef.

(** [is_plain_object(v) ? v : {}] *)
Definition object_or_empty (v : value) : obj :=
  if is_plain_object v then as_obj v else [].

(** What [get_skill] finds stored for a skill: it follows the dotted path
    [skills.<id>], so the id is split at its dots. *)
Definition stored_settings (doc : obj) (skill_id : string) : obj :=
  object_or_empty (get_parts (VObj (skills_bucket_of doc)) (split_path skill_id)).

(** The settings [get_skill] reports before masking: what is stored, over
    the declared defaults. *)
Definition skill_view (doc : obj) (meta : option obj) (skill_id : string) : obj :=
  deepMerge (object_or_empty (meta_get meta "defaults")) (stored_settings doc skill_id).

Definition get_skill_reply (skill_id : string) (shown masked : obj) : value :=
  VObj [("ok", VBool true);
        ("result", VObj [("skill_id", VStr skill_id);
                         ("settings", VObj shown);
                         ("masked", VObj masked)])].

(** An authorised, well-formed request about the skill [id]. *)
Definition skill_request_for (secret : string) (xcmd : XCommandData)
    (params : obj) (id : string) : Prop :=
  requireKernelCapOrActorRole secret (readCommandCtx xcmd) "admin" = Ok tt
  /\ ensure_params E_SETTINGS_BAD_PARAMS (_params xcmd) = Ok params
  /\ ensure_non_empty_string E_SETTINGS_BAD_PARAMS (obj_get params "skill_id")
       "skill_id" = Ok id.

(** A settings store that can be opened from [work_dir] and holds a JSON
    document with distinct top-level keys. *)
Definition usable_store (work_dir : string) (st : SettingsState) : Prop :=
  storage_ready work_dir st = true
  /\ has_function (VObj (xs_doc st)) = false
  /\ keys_distinct (obj_keys (xs_doc st)) = true.

Definition echo_meta : option obj :=
  Some [("defaults", VObj [("mode", VStr "quiet"); ("retries", VNum 3)]);
        ("sensitive", VArr [VStr "token"])].

Definition echo_patch : obj :=
  [("mode", VStr "loud"); ("token", VStr MASK_SENTINEL)].

Definition set_echo_request : XCommandData :=
  settings_request admin_ctx "set_skill"
    [("skill_id", VStr "echo"); ("patch", VObj echo_patch)].

Definition get_echo_request (include_masked : bool) : XCommandData :=
  settings_request admin_ctx "get_skill"
    [("skill_id", VStr "echo"); ("include_masked", VBool include_masked)].

Definition reset_echo_request : XCommandData :=
  settings_request admin_ctx "reset_skill" [("skill_id", VStr "echo")].

Definition set_chat_request : XCommandData :=
  settings_request admin_ctx "set"
    [("key", VStr "telegram.chat_id"); ("value", VNum 42)].

Definition get_chat_request : XCommandData :=
  settings_request admin_ctx "get" [("key", VStr " telegram.chat_id ")].

(** A list of ids as [normalize_string_array] returns them: trimmed, not
    empty, without repetitions. *)
Definition normalised (l : list string) : Prop :=
  normalize_string_array (str_array l) = l.

(** Apart from [id], the enabled skills are those of [E]. *)
Definition others_as (E : gset string) (id : string) (sys : System) : Prop :=
  forall other, other <> id -> (other ∈ m_enabled (mgr sys) <-> other ∈ E).

(** The enabled skills are among the ids of [target]. *)
Definition enabled_within (target : list string) (sys : System) : Prop :=
  forall id, id ∈ m_enabled (mgr sys) -> In id target.

(** A second skill, [vault], allow-listed and enabled next to what the
    system has. *)
Definition with_vault (sys : System) : System :=
  set_mgr (fun m =>
    with_enabled ({["vault"]} ∪ m_enabled m)
      (with_config {| allow := allow (m_config m) ++ ["vault"];
                      enabled := enabled (m_config m);
                      node_modules := node_modules (m_config m);
                      local_paths := local_paths (m_config m) |} m)) sys.

(** ** SkillManagerModule.ts: the module gate and the settings commands *)

(** [assert_module_command_allowed]: a module that belongs to a skill takes
    commands only while the skill is enabled. *)
Definition assert_module_command_allowed (m : Manager) (module_name : string)
    : Result unit :=
  match m_module_to_skill m !! module_name with
  | None => Ok tt
  | Some skill_id =>
      if negb (str_nonempty skill_id) then Ok tt
      else if bool_decide (skill_id ∈ m_enabled m) then Ok tt
      else Throw (mkXError E_SKILLS_MODULE_DISABLED
                    ("Module '" +:+ module_name +:+ "' is disabled by skill '"
                     +:+ skill_id +:+ "' state"))
  end.

(** [...(typeof v === "string" ? { key: v } : {})] on a field of a context. *)
Definition keep_some (key : string) (s : option string) : obj :=
  match s with Some x => [(key, VStr x)] | None => [] end.

(** [{ ...ctx.actor }]: the keys in the order [to_ctx] writes them. *)
Definition actor_fields (a : AgentActor) : obj :=
  keep_some "user_id" (user_id a) ++ keep_some "role" (role a)
  ++ keep_some "channel" (channel a) ++ keep_some "source" (source a).

Definition ctx_fields (ctx : AgentCommandCtx) : obj :=
  keep_some "_wid" (_wid ctx) ++ keep_some "_sid" (_sid ctx)
  ++ keep_some "kernel_cap" (kernel_cap ctx)
  ++ match actor ctx with
     | Some a => [("actor", VObj (actor_fields a))]
     | None => []
     end.

Definition forward_ctx (xcmd : XCommandData) : obj :=
  ctx_fields (readCommandCtx xcmd).

(** The commands [get_settings_impl] and [update_settings_impl] hand to the
    dispatcher. *)
Definition forwarded_command (op : string) (params : obj) (xcmd : XCommandData)
    : XCommandData :=
  {| _module := SETTINGS_MODULE_NAME; _op := op;
     _params := VObj (params ++ [("_ctx", VObj (forward_ctx xcmd))]);
     _ctx := VUndef |}.

Definition forwarded_get_skill (id : string) (xcmd : XCommandData) : XCommandData :=
  forwarded_command "get_skill"
    [("skill_id", VStr id); ("include_masked", VBool false);
     ("include_schema", VBool false)] xcmd.

Definition forwarded_set_skill (id : string) (patch : obj) (xcmd : XCommandData)
    : XCommandData :=
  forwarded_command "set_skill" [("skill_id", VStr id); ("patch", VObj patch)] xcmd.

(** The [settings] of the reply, read off what the dispatcher answered. *)
Definition reply_settings (out : value) : Result obj :=
  let data := if is_plain_object out then as_obj out else [] in
  let result :=
    if is_plain_object (obj_get data "result") then as_obj (obj_get data "result")
    else [] in
  if is_plain_object (obj_get result "settings")
  then ensure_json_object E_SKILLS_BAD_PARAMS (obj_get result "settings") "settings"
  else Ok [].

Section SettingsCommands.
Context `{Builtins}.
Variable w : World.

Definition get_settings_impl (xcmd : XCommandData) : M System value :=
  sys ← get_state;
  _ ← lift (requireKernelCapOrActorRole (guard_secret sys) (readCommandCtx xcmd) "admin");
  params ← lift (ensure_params E_SKILLS_BAD_PARAMS (_params xcmd));
  id ← lift (ensure_non_empty_string E_SKILLS_BAD_PARAMS (obj_get params "id") "id");
  _ ← assert_allowlisted id;
  out ← dispatch w (forwarded_get_skill id xcmd);
  settings ← lift (reply_settings out);
  mret (VObj [("id", VStr id); ("settings", VObj settings)]).

Definition update_settings_impl (xcmd : XCommandData) : M System value :=
  sys ← get_state;
  _ ← lift (requireKernelCapOrActorRole (guard_secret sys) (readCommandCtx xcmd) "admin");
  params ← lift (ensure_params E_SKILLS_BAD_PARAMS (_params xcmd));
  id ← lift (ensure_non_empty_string E_SKILLS_BAD_PARAMS (obj_get params "id") "id");
  _ ← assert_allowlisted id;
  settings ← lift (ensure_json_object E_SKILLS_BAD_PARAMS
                     (nullish (obj_get params "settings") (VObj [])) "settings");
  _ ← dispatch w (forwarded_set_skill id settings xcmd);
  refreshed ← dispatch w (forwarded_get_skill id xcmd);
  settings ← lift (reply_settings refreshed);
  mret (VObj [("ok", VBool true); ("id", VStr id); ("settings", VObj settings)]).

End SettingsCommands.

(** The error a sandbox callback of a disabled skill ends with. *)
Definition SKILL_DISABLED (id : string) : XError :=
  mkXError E_SKILLS_DISABLED ("Skill is disabled: " +:+ id).

(** A computation of the settings module that only reads the document. *)
Definition reads_doc {A : Type} (m : M SettingsState A) : Prop :=
  forall st,
    snd (m st) = st
    /\ forall st2, xs_doc st2 = xs_doc st -> fst (m st2) = fst (m st).

Definition sample_update : XCommandData :=
  admin_command "update_settings"
    [("id", VStr "echo"); ("settings", VObj [("greeting", VStr "hello")])].

(** The error of [assert_allowlisted]. *)
Definition NOT_ALLOWLISTED (id : string) : XError :=
  mkXError E_SKILLS_NOT_ALLOWLISTED ("Skill id is not in allowlist: " +:+ id).

(** The error [resolve_skill_entry] ends with when no resolver finds the
    skill. *)
Definition RESOLVE_FAILED (id : string) : XError :=
  mkXError E_SKILLS_RESOLVE_FAILED ("Unable to resolve skill '" +:+ id +:+ "'").

Definition sample_foreign_settings : XCommandData :=
  admin_command "update_settings"
    [("id", VStr "intruder"); ("settings", VObj [("mode", VStr "loud")])].

(** * Theorems *)

(** ** Scenarios of the specification *)

(** Scenario B and scenario C of the specification, by evaluation. *)
Example deep_merge_scenario_b :
  deepMerge
    [("a", VObj [("x", VNum 1); ("y", VNum 2)])]
    [("a", VObj [("y", VNum 3); ("z", VNum 4)])]
  = [("a", VObj [("x", VNum 1); ("y", VNum 3); ("z", VNum 4)])].
Proof. reflexivity. Qed.

Example mask_scenario_c :
  maskSensitive [("token", VStr "abc123")] ["token"]
  = {| maskedSettings := [("token", VStr MASK_SENTINEL)];
       maskedMap := [("token", VBool true)] |}
  /\ applyPatchWithMaskHandling
       [("token", VStr "abc123")] [("token", VStr MASK_SENTINEL)] ["token"]
     = [("token", VStr "abc123")].
Proof. split; reflexivity. Qed.

(** ** Objects, cloning and merging *)

(** * Facts about objects *)

Section ObjectFacts.
Implicit Types (o : obj) (k : string) (v : value).

Lemma eqb_sym_false k k' : String.eqb k k' = false -> String.eqb k' k = false.
Proof. rewrite !String.eqb_neq. congruence. Qed.

Lemma obj_get_set_same o k v : obj_get (obj_set o k v) k = v.
Proof.
  induction o as [|[k' v'] o IH]; simpl.
  - by rewrite String.eqb_refl.
  - destruct (String.eqb k' k) eqn:E; simpl; rewrite E; auto.
Qed.

Lemma obj_get_set_other o k k' v :
  k <> k' -> obj_get (obj_set o k v) k' = obj_get o k'.
Proof.
  intros Hne. induction o as [|[k0 v0] o IH]; simpl.
  - apply String.eqb_neq in Hne. by rewrite Hne.
  - destruct (String.eqb k0 k) eqn:E; simpl.
    + apply String.eqb_eq in E. subst k0.
      apply String.eqb_neq in Hne. by rewrite Hne.
    + destruct (String.eqb k0 k'); auto.
Qed.

Lemma obj_get_del_same o k : obj_get (obj_del o k) k = VUndef.
Proof.
  induction o as [|[k0 v0] o IH]; simpl; auto.
  destruct (String.eqb k0 k) eqn:E; simpl; auto. by rewrite E.
Qed.

Lemma obj_get_del_other o k k' : k <> k' -> obj_get (obj_del o k) k' = obj_get o k'.
Proof.
  intros Hne. induction o as [|[k0 v0] o IH]; simpl; auto.
  destruct (String.eqb k0 k) eqn:E; simpl.
  - apply String.eqb_eq in E. subst k0.
    apply String.eqb_neq in Hne. by rewrite Hne.
  - by rewrite IH.
Qed.

Lemma obj_has_get o k : obj_get o k <> VUndef -> obj_has o k = true.
Proof.
  induction o as [|[k0 v0] o IH]; simpl; [congruence|].
  destruct (String.eqb k0 k); auto.
Qed.

Lemma obj_has_in o k : obj_has o k = true <-> In k (obj_keys o).
Proof.
  induction o as [|[k0 v0] o IH]; simpl; [split; [discriminate|tauto]|].
  destruct (String.eqb k0 k) eqn:E.
  - apply String.eqb_eq in E. tauto.
  - apply String.eqb_neq in E. rewrite IH. tauto.
Qed.

Lemma obj_get_absent o k : ~ In k (obj_keys o) -> obj_get o k = VUndef.
Proof.
  induction o as [|[k0 v0] o IH]; simpl; auto.
  intros Hn. destruct (String.eqb k0 k) eqn:E.
  - apply String.eqb_eq in E. tauto.
  - tauto.
Qed.

Lemma obj_set_get_id o k : obj_has o k = true -> obj_set o k (obj_get o k) = o.
Proof.
  induction o as [|[k0 v0] o IH]; simpl; [discriminate|].
  destruct (String.eqb k0 k) eqn:E; auto.
  intros Hh. by rewrite IH.
Qed.

Lemma obj_keys_set o k v :
  obj_keys (obj_set o k v) = if obj_has o k then obj_keys o else obj_keys o ++ [k].
Proof.
  unfold obj_keys. induction o as [|[k0 v0] o IH]; simpl; auto.
  destruct (String.eqb k0 k) eqn:E; simpl; auto.
  rewrite IH. by destruct (obj_has o k).
Qed.

Lemma existsb_eqb_in k (ks : list string) :
  existsb (String.eqb k) ks = true <-> In k ks.
Proof.
  rewrite existsb_exists. split.
  - intros (x & Hin & E). apply String.eqb_eq in E. by subst.
  - intros Hin. exists k. by rewrite String.eqb_refl.
Qed.

Lemma keys_distinct_NoDup (ks : list string) :
  keys_distinct ks = true <-> List.NoDup ks.
Proof.
  induction ks as [|k ks IH]; simpl.
  - split; [constructor|auto].
  - rewrite andb_true_iff, negb_true_iff, IH. split.
    + intros [Hn Hd]. constructor; auto.
      rewrite <- existsb_eqb_in. by rewrite Hn.
    + inversion 1; subst. split; auto.
      destruct (existsb (String.eqb k) ks) eqn:E; auto.
      by apply existsb_eqb_in in E.
Qed.

Lemma keys_distinct_app_fresh (ks : list string) k :
  keys_distinct ks = true -> ~ In k ks -> keys_distinct (ks ++ [k]) = true.
Proof.
  induction ks as [|k0 ks IH]; simpl; auto.
  rewrite !andb_true_iff, !negb_true_iff. intros [Hn Hd] Hnot.
  split; [|apply IH; tauto].
  destruct (existsb (String.eqb k0) (ks ++ [k])) eqn:E; auto.
  apply existsb_eqb_in, in_app_iff in E. destruct E as [E|[E|[]]].
  - apply existsb_eqb_in in E. congruence.
  - subst. tauto.
Qed.

Lemma keys_distinct_set o k v :
  keys_distinct (obj_keys o) = true -> keys_distinct (obj_keys (obj_set o k v)) = true.
Proof.
  intros Hd. rewrite obj_keys_set. destruct (obj_has o k) eqn:E; auto.
  apply keys_distinct_app_fresh; auto.
  rewrite <- obj_has_in. by rewrite E.
Qed.

Lemma obj_keys_del_in o k x : In x (obj_keys (obj_del o k)) -> In x (obj_keys o).
Proof.
  unfold obj_keys. induction o as [|[k0 v0] o IH]; simpl; auto.
  destruct (String.eqb k0 k); simpl; tauto.
Qed.

Lemma keys_distinct_del o k :
  keys_distinct (obj_keys o) = true -> keys_distinct (obj_keys (obj_del o k)) = true.
Proof.
  induction o as [|[k0 v0] o IH]; simpl; auto.
  rewrite andb_true_iff, negb_true_iff. intros [Hn Hd].
  destruct (String.eqb k0 k); simpl; auto.
  rewrite andb_true_iff, negb_true_iff. split; auto.
  destruct (existsb (String.eqb k0) (obj_keys (obj_del o k))) eqn:E; auto.
  apply existsb_eqb_in in E. apply (obj_keys_del_in o k k0) in E.
  apply existsb_eqb_in in E. congruence.
Qed.

Lemma obj_get_in_distinct o k v :
  keys_distinct (obj_keys o) = true -> In (k, v) o -> obj_get o k = v.
Proof.
  induction o as [|[k0 v0] o IH]; simpl; [tauto|].
  rewrite andb_true_iff, negb_true_iff. intros [Hn Hd] [Heq|Hin].
  - inversion Heq; subst. by rewrite String.eqb_refl.
  - destruct (String.eqb k0 k) eqn:E; auto.
    apply String.eqb_eq in E. subst k0.
    assert (existsb (String.eqb k) (obj_keys o) = true); [|congruence].
    apply existsb_eqb_in. apply in_map_iff. by exists (k, v).
Qed.

Lemma obj_has_set o k k' v :
  obj_has (obj_set o k v) k' = String.eqb k k' || obj_has o k'.
Proof.
  induction o as [|[k0 v0] o IH]; simpl.
  - destruct (String.eqb k k'); reflexivity.
  - destruct (String.eqb k0 k) eqn:E; simpl.
    + apply String.eqb_eq in E. subst k0.
      destruct (String.eqb k k'); reflexivity.
    + rewrite IH. destruct (String.eqb k0 k'), (String.eqb k k'); reflexivity.
Qed.

End ObjectFacts.

(** * Induction on values *)

Lemma value_nested_ind (P : value -> Prop) :
  P VUndef -> P VNull -> (forall b, P (VBool b)) -> (forall n, P (VNum n)) ->
  (forall s, P (VStr s)) -> (forall f, P (VFun f)) ->
  (forall items, (forall x, In x items -> P x) -> P (VArr items)) ->
  (forall fields, (forall k x, In (k, x) fields -> P x) -> P (VObj fields)) ->
  forall v, P v.
Proof.
  intros Hu Hn Hb Hz Hs Hf Harr Hobj.
  fix IH 1. intros [ | | b | n | s | f | items | fields].
  - exact Hu.
  - exact Hn.
  - apply Hb.
  - apply Hz.
  - apply Hs.
  - apply Hf.
  - apply Harr. induction items as [|x items IHitems]; intros y Hy.
    + destruct Hy.
    + assert (Hx : P x) by apply IH.
      destruct Hy as [<-|Hy]; [exact Hx | by apply IHitems].
  - apply Hobj. induction fields as [|[k x] fields IHfields]; intros k' y Hy.
    + destruct Hy.
    + assert (Hx : P x) by apply IH.
      destruct Hy as [Heq|Hy]; [|by eapply IHfields].
      replace y with x by congruence. exact Hx.
Qed.

Section CloneAndMerge.

Lemma proto_free_obj (o : obj) :
  proto_free (VObj o) = forallb (fun kv => copied kv && proto_free (snd kv)) o.
Proof. simpl. induction o as [|[k c] o IH]; simpl; [done|]. by rewrite IH. Qed.

Lemma proto_free_in (o : obj) k x :
  proto_free (VObj o) = true -> In (k, x) o -> k <> PROTO_KEY /\ proto_free x = true.
Proof.
  rewrite proto_free_obj, forallb_forall. intros Hall Hin.
  apply Hall in Hin. apply andb_prop in Hin as [Hk Hx]. split; [|exact Hx].
  unfold copied in Hk. simpl in Hk. apply negb_true_iff, String.eqb_neq in Hk. exact Hk.
Qed.

Lemma clone_fields_map (fields : obj) :
  as_obj (deep_clone (VObj fields))
  = map (fun kv => (fst kv, deep_clone (snd kv))) (List.filter copied fields).
Proof.
  simpl. induction fields as [|[k c] fields IH]; simpl; [done|].
  unfold copied at 1. simpl. destruct (String.eqb k PROTO_KEY); simpl; congruence.
Qed.

(** A clone of a value without [__proto__] entries is equal to it. *)
Lemma deep_clone_id (v : value) : proto_free v = true -> deep_clone v = v.
Proof.
  induction v as [ | | | | | | items IH | fields IH] using value_nested_ind; auto.
  - simpl. intros Hall. f_equal. induction items as [|x items IHi]; simpl in *; auto.
    apply andb_prop in Hall as [Hx Hall].
    rewrite IH by auto. f_equal. apply IHi; auto.
  - intros Hfree.
    change (deep_clone (VObj fields)) with (VObj (as_obj (deep_clone (VObj fields)))).
    rewrite clone_fields_map. f_equal.
    rewrite proto_free_obj in Hfree.
    induction fields as [|[k c] fields IHf]; simpl in *; auto.
    apply andb_prop in Hfree as [[Hk Hc]%andb_prop Hfree].
    rewrite Hk. simpl. rewrite (IH k c) by auto. f_equal.
    apply IHf; auto. intros; eapply IH; eauto.
Qed.

Lemma clone_obj_id (o : obj) : proto_free (VObj o) = true -> as_obj (deep_clone (VObj o)) = o.
Proof. intros Ho. by rewrite deep_clone_id. Qed.

(** A clone has no [__proto__] entry. *)
Lemma proto_free_clone (v : value) : proto_free (deep_clone v) = true.
Proof.
  induction v as [ | | | | | | items IH | fields IH] using value_nested_ind; auto.
  - simpl. induction items as [|x items IHi]; simpl; auto.
    rewrite IH by (simpl; auto). apply IHi. intros; apply IH; simpl; auto.
  - change (deep_clone (VObj fields)) with (VObj (as_obj (deep_clone (VObj fields)))).
    rewrite clone_fields_map, proto_free_obj.
    induction fields as [|[k c] fields IHf]; [done|].
    cbn [List.filter]. destruct (copied (k, c)) eqn:E.
    + cbn [map forallb fst snd].
      change (copied (k, deep_clone c)) with (copied (k, c)). rewrite E.
      rewrite (IH k c) by (by left). apply IHf. intros; eapply IH; by right.
    + apply IHf. intros; eapply IH; by right.
Qed.

Lemma proto_free_clone_obj (o : obj) : proto_free (VObj (as_obj (deep_clone (VObj o)))) = true.
Proof. apply (proto_free_clone (VObj o)). Qed.

Lemma deep_clone_idem (v : value) : deep_clone (deep_clone v) = deep_clone v.
Proof. apply deep_clone_id, proto_free_clone. Qed.

Lemma clone_obj_idem (o : obj) :
  as_obj (deep_clone (VObj (as_obj (deep_clone (VObj o))))) = as_obj (deep_clone (VObj o)).
Proof. apply clone_obj_id, proto_free_clone_obj. Qed.

Lemma clone_plain (v : value) : is_plain_object (deep_clone v) = is_plain_object v.
Proof. by destruct v. Qed.

(** What a clone holds under a key. *)
Lemma clone_get (o : obj) (k : string) :
  obj_get (as_obj (deep_clone (VObj o))) k
  = if String.eqb k PROTO_KEY then VUndef else deep_clone (obj_get o k).
Proof.
  simpl. induction o as [|[k0 c0] o IH]; simpl.
  - by destruct (String.eqb k PROTO_KEY).
  - destruct (String.eqb k0 PROTO_KEY) eqn:E0.
    + rewrite IH. destruct (String.eqb k PROTO_KEY) eqn:Ek; [done|].
      destruct (String.eqb k0 k) eqn:E; [|done].
      apply String.eqb_eq in E. subst k0. congruence.
    + simpl. destruct (String.eqb k0 k) eqn:E; [|exact IH].
      apply String.eqb_eq in E. subst k0. by rewrite E0.
Qed.

Lemma clone_has (o : obj) (k : string) :
  obj_has (as_obj (deep_clone (VObj o))) k = negb (String.eqb k PROTO_KEY) && obj_has o k.
Proof.
  simpl. induction o as [|[k0 c0] o IH]; simpl.
  - by rewrite andb_false_r.
  - destruct (String.eqb k0 PROTO_KEY) eqn:E0.
    + rewrite IH. destruct (String.eqb k0 k) eqn:E; [|done].
      apply String.eqb_eq in E. subst k0. by rewrite E0.
    + simpl. destruct (String.eqb k0 k) eqn:E; [|exact IH].
      apply String.eqb_eq in E. subst k0. by rewrite E0.
Qed.

Lemma clone_keys (o : obj) :
  obj_keys (as_obj (deep_clone (VObj o)))
  = List.filter (fun k => negb (String.eqb k PROTO_KEY)) (obj_keys o).
Proof.
  rewrite clone_fields_map. unfold obj_keys.
  induction o as [|[k c] o IH]; simpl; [done|].
  unfold copied at 1. simpl. destruct (String.eqb k PROTO_KEY); simpl; congruence.
Qed.

Lemma keys_distinct_filter (f : string -> bool) (ks : list string) :
  keys_distinct ks = true -> keys_distinct (List.filter f ks) = true.
Proof.
  rewrite !keys_distinct_NoDup. apply List.NoDup_filter.
Qed.

Lemma clone_keys_distinct (o : obj) :
  keys_distinct (obj_keys o) = true ->
  keys_distinct (obj_keys (as_obj (deep_clone (VObj o)))) = true.
Proof. intros Hd. rewrite clone_keys. by apply keys_distinct_filter. Qed.

Lemma clone_key_in (o : obj) (k : string) :
  In k (obj_keys (as_obj (deep_clone (VObj o)))) <-> In k (obj_keys o) /\ k <> PROTO_KEY.
Proof.
  rewrite clone_keys, filter_In, negb_true_iff, String.eqb_neq. tauto.
Qed.

(** The loop inside [merge_entry] is [merge_loop] over the copied entries. *)
Lemma merge_entry_loop (cur val : obj) :
  merge_entry (VObj cur) (VObj val)
  = VObj (merge_loop (as_obj (deep_clone (VObj cur))) (List.filter copied val)).
Proof.
  cbn [merge_entry]. f_equal. generalize (as_obj (deep_clone (VObj cur))).
  induction val as [|[k v] val IH]; intros out; [done|].
  cbn [List.filter]. unfold copied at 1. cbn [fst].
  destruct (String.eqb k PROTO_KEY) eqn:E; cbn [negb merge_loop]; apply IH.
Qed.

Lemma merge_entry_other (cur val : value) :
  is_plain_object cur && is_plain_object val = false ->
  merge_entry cur val = deep_clone val.
Proof.
  destruct cur, val; simpl; try reflexivity; discriminate.
Qed.

Lemma merge_loop_ext (out l : obj) (f : value -> value) :
  (forall k x, In (k, x) l -> forall c, merge_entry c (f x) = merge_entry c x) ->
  merge_loop out (map (fun kv => (fst kv, f (snd kv))) l) = merge_loop out l.
Proof.
  revert out. induction l as [|[k x] l IH]; intros out Hall; [done|].
  cbn [map merge_loop fst snd]. rewrite (Hall k x) by (by left).
  apply IH. intros; eapply Hall; by right.
Qed.

(** Merging a clone is merging the original: on the side of the patch... *)
Lemma merge_entry_clone (v c : value) : merge_entry c (deep_clone v) = merge_entry c v.
Proof.
  revert c. induction v as [ | | | | | | items IH | fields IH] using value_nested_ind;
    intros c; try reflexivity.
  - rewrite !merge_entry_other by (destruct c; reflexivity).
    apply deep_clone_idem.
  - destruct c as [ | | | | | | |cur];
      try (rewrite !merge_entry_other by reflexivity; apply deep_clone_idem).
    change (deep_clone (VObj fields)) with (VObj (as_obj (deep_clone (VObj fields)))).
    rewrite !merge_entry_loop. f_equal.
    rewrite (clone_fields_map fields).
    assert (Hsame : List.filter copied
                      (map (fun kv => (fst kv, deep_clone (snd kv)))
                         (List.filter copied fields))
                    = map (fun kv => (fst kv, deep_clone (snd kv)))
                        (List.filter copied fields)).
    { clear. induction fields as [|[k x] fields IHf]; [done|].
      cbn [List.filter]. destruct (copied (k, x)) eqn:E; [|exact IHf].
      cbn [map List.filter fst snd].
      change (copied (k, deep_clone x)) with (copied (k, x)). rewrite E.
      by rewrite IHf. }
    rewrite Hsame. apply merge_loop_ext.
    intros k x Hin c. apply filter_In in Hin as [Hin _]. by eapply IH.
Qed.

(** ... and on the side of the current value. *)
Lemma merge_entry_clone_current (c v : value) :
  merge_entry (deep_clone c) v = merge_entry c v.
Proof.
  destruct c as [ | | | | | | |cur], v as [ | | | | | | |val]; try reflexivity.
  change (deep_clone (VObj cur)) with (VObj (as_obj (deep_clone (VObj cur)))).
  by rewrite !merge_entry_loop, clone_obj_idem.
Qed.

Lemma merge_entry_objects (cur val : obj) :
  merge_entry (VObj cur) (VObj val) = VObj (deepMerge cur val).
Proof.
  rewrite merge_entry_loop. unfold deepMerge. f_equal.
  rewrite (clone_fields_map val). symmetry. apply merge_loop_ext.
  intros k x _ c. apply merge_entry_clone.
Qed.

(** [deepMerge] clones both its arguments first. *)
Lemma deepMerge_clone_base (base patch : obj) :
  deepMerge (as_obj (deep_clone (VObj base))) patch = deepMerge base patch.
Proof. unfold deepMerge. by rewrite clone_obj_idem. Qed.

Lemma deepMerge_clone_patch (base patch : obj) :
  deepMerge base (as_obj (deep_clone (VObj patch))) = deepMerge base patch.
Proof. unfold deepMerge. by rewrite clone_obj_idem. Qed.

(** The source form of [deepMerge] on objects without [__proto__] entries:
    a loop over the entries of the patch that starts from the base. *)
Lemma deepMerge_source_form (base patch : obj) :
  proto_free (VObj base) = true -> proto_free (VObj patch) = true ->
  deepMerge base patch = merge_loop base patch.
Proof. intros Hb Hp. unfold deepMerge. by rewrite !clone_obj_id. Qed.

Lemma merge_loop_absent (right out : obj) (key : string) :
  ~ In key (obj_keys right) -> obj_get (merge_loop out right) key = obj_get out key.
Proof.
  revert out. induction right as [|[k v] right IH]; intros out Hn; simpl; auto.
  simpl in Hn. rewrite IH by tauto. apply obj_get_set_other. tauto.
Qed.

Lemma merge_loop_present (right out : obj) (key : string) :
  keys_distinct (obj_keys right) = true -> In key (obj_keys right) ->
  obj_get (merge_loop out right) key = merge_entry (obj_get out key) (obj_get right key).
Proof.
  revert out. induction right as [|[k v] right IH]; intros out Hd Hin; simpl in *.
  - destruct Hin.
  - apply andb_true_iff in Hd as [Hn Hd]. apply negb_true_iff in Hn.
    destruct (String.eqb k key) eqn:E.
    + apply String.eqb_eq in E. subst k.
      rewrite merge_loop_absent.
      * apply obj_get_set_same.
      * rewrite <- existsb_eqb_in. fold (obj_keys right). by rewrite Hn.
    + apply String.eqb_neq in E. destruct Hin as [->|Hin]; [done|].
      rewrite IH by auto. by rewrite obj_get_set_other.
Qed.

(** What [deepMerge] holds under a key. *)
Lemma deepMerge_get_present (base patch : obj) (key : string) :
  keys_distinct (obj_keys patch) = true -> In key (obj_keys patch) -> key <> PROTO_KEY ->
  obj_get (deepMerge base patch) key = merge_entry (obj_get base key) (obj_get patch key).
Proof.
  intros Hd Hin Hk. unfold deepMerge.
  rewrite merge_loop_present
    by (try apply clone_keys_distinct; try apply clone_key_in; auto).
  rewrite !clone_get. apply String.eqb_neq in Hk. rewrite Hk.
  by rewrite merge_entry_clone, merge_entry_clone_current.
Qed.

Lemma deepMerge_get_absent (base patch : obj) (key : string) :
  ~ In key (obj_keys patch) ->
  obj_get (deepMerge base patch) key
  = if String.eqb key PROTO_KEY then VUndef else deep_clone (obj_get base key).
Proof.
  intros Hn. unfold deepMerge. rewrite merge_loop_absent.
  - apply clone_get.
  - rewrite clone_key_in. tauto.
Qed.

Lemma merge_loop_has (out right : obj) (k : string) :
  obj_has (merge_loop out right) k = obj_has out k || obj_has right k.
Proof.
  revert out. induction right as [|[k0 x0] right IH]; intros out.
  - simpl. by rewrite orb_false_r.
  - cbn [merge_loop]. rewrite IH, obj_has_set. simpl.
    destruct (String.eqb k0 k), (obj_has out k); reflexivity.
Qed.

End CloneAndMerge.

(** Claim C9, as amended: the deep merge.  For objects [base] and [patch]
    and every key of [patch] other than [__proto__]: if both [base[key]]
    and [patch[key]] are plain objects the result at the key is their
    merge, otherwise it is a deep clone of the patch value (arrays and
    scalars replace, they are never merged element by element); at a key
    other than [__proto__] that [patch] does not have, the result holds a
    deep clone of what [base] holds; a deep clone of a value without
    entries named [__proto__] is the value itself; and merging
    [{a:{x:1,y:2}}] with [{a:{y:3,z:4}}] gives [{a:{x:1,y:3,z:4}}]. *)
Theorem deep_merge_spec (base patch : obj) :
  keys_distinct (obj_keys patch) = true ->
  (forall key, In key (obj_keys patch) -> key <> PROTO_KEY ->
     (is_plain_object (obj_get base key) && is_plain_object (obj_get patch key) = true ->
      obj_get (deepMerge base patch) key
      = VObj (deepMerge (as_obj (obj_get base key)) (as_obj (obj_get patch key))))
     /\ (is_plain_object (obj_get base key) && is_plain_object (obj_get patch key) = false ->
         obj_get (deepMerge base patch) key = deep_clone (obj_get patch key)))
  /\ (forall key, ~ In key (obj_keys patch) -> key <> PROTO_KEY ->
        obj_get (deepMerge base patch) key = deep_clone (obj_get base key))
  /\ (forall v, proto_free v = true -> deep_clone v = v)
  /\ deepMerge
       [("a", VObj [("x", VNum 1); ("y", VNum 2)])]
       [("a", VObj [("y", VNum 3); ("z", VNum 4)])]
     = [("a", VObj [("x", VNum 1); ("y", VNum 3); ("z", VNum 4)])].
Proof.
  intros Hd. split; [|split; [|split; [|reflexivity]]].
  - intros key Hin Hk. rewrite deepMerge_get_present by done. split.
    + intros Hobj. destruct (obj_get base key), (obj_get patch key); try discriminate.
      simpl as_obj. apply merge_entry_objects.
    + apply merge_entry_other.
  - intros key Hn Hk. rewrite deepMerge_get_absent by done.
    apply String.eqb_neq in Hk. by rewrite Hk.
  - apply deep_clone_id.
Qed.

(** ** Dotted paths *)

Section PathFacts.
Implicit Types (o : obj) (v : value) (p q s : list string).

Lemma parts_cases q p :
  q = p \/ (exists s, s <> [] /\ p = q ++ s) \/ (exists s, s <> [] /\ q = p ++ s)
  \/ diverge q p.
Proof.
  revert p. induction q as [|x q IH]; intros [|y p].
  - by left.
  - right; left. by exists (y :: p).
  - right; right; left. by exists (x :: q).
  - destruct (string_dec x y) as [->|Hne].
    + destruct (IH p) as [->|[(s & Hs & ->)|[(s & Hs & ->)|Hd]]].
      * by left.
      * right; left. by exists s.
      * right; right; left. by exists s.
      * right; right; right. by constructor.
    + right; right; right. by constructor.
Qed.

Lemma is_prefix_app q s : is_prefix q (q ++ s) = true.
Proof. induction q as [|x q IH]; simpl; auto. by rewrite String.eqb_refl. Qed.

Lemma covers_app q s : q <> [] -> s <> [] -> covers q (q ++ s) = true.
Proof.
  intros Hq Hs. destruct q as [|x q]; [done|]. unfold covers.
  rewrite is_prefix_app. simpl. apply Nat.ltb_lt.
  rewrite length_app. destruct s; [done|]. simpl. lia.
Qed.

Lemma get_parts_undef p : get_parts VUndef p = VUndef.
Proof. by destruct p. Qed.

Lemma get_parts_not_object v p :
  is_plain_object v = false -> p <> [] -> get_parts v p = VUndef.
Proof. destruct p; [done|]. by destruct v. Qed.

Lemma get_parts_app v p s : get_parts v (p ++ s) = get_parts (get_parts v p) s.
Proof.
  revert v. induction p as [|k p IH]; intros v; simpl; auto.
  destruct v; auto using get_parts_undef; by rewrite get_parts_undef.
Qed.

Lemma set_parts_cons o k p v :
  p <> [] ->
  set_parts o (k :: p) v
  = obj_set o k (VObj (set_parts
       (if is_plain_object (obj_get o k) then as_obj (obj_get o k) else []) p v)).
Proof. by destruct p. Qed.

Lemma del_parts_cons o k p :
  p <> [] ->
  del_parts o (k :: p)
  = match obj_get o k with
    | VObj child => obj_set o k (VObj (del_parts child p))
    | _ => o
    end.
Proof. by destruct p. Qed.

Lemma get_set_clone o p v :
  p <> [] -> get_parts (VObj (set_parts o p v)) p = deep_clone v.
Proof.
  revert o. induction p as [|k p IH]; intros o Hp; [done|].
  destruct p as [|k2 p].
  - simpl. by rewrite obj_get_set_same.
  - rewrite set_parts_cons by done. cbn [get_parts].
    rewrite obj_get_set_same. by apply IH.
Qed.

Lemma get_set_same o p v :
  p <> [] -> proto_free v = true -> get_parts (VObj (set_parts o p v)) p = v.
Proof. intros Hp Hv. rewrite get_set_clone by done. by apply deep_clone_id. Qed.

Lemma get_set_below o p s v :
  s <> [] -> is_plain_object (get_parts (VObj (set_parts o (p ++ s) v)) p) = true.
Proof.
  revert o. induction p as [|k p IH]; intros o Hs; [done|].
  rewrite <- app_comm_cons, set_parts_cons by (by destruct p, s).
  cbn [get_parts]. rewrite obj_get_set_same. by apply IH.
Qed.

Lemma diverge_nonempty q p : diverge q p -> q <> [] /\ p <> [].
Proof. by destruct 1. Qed.

Lemma diverge_irrefl q p : diverge q p -> q <> p.
Proof. induction 1; congruence. Qed.

Lemma get_child o k p :
  p <> [] ->
  get_parts (VObj (if is_plain_object (obj_get o k) then as_obj (obj_get o k) else [])) p
  = get_parts (obj_get o k) p.
Proof.
  intros Hp. destruct (obj_get o k) eqn:E; simpl; auto;
    destruct p; try done; simpl; by rewrite get_parts_undef.
Qed.

Lemma get_set_diverge o q p v :
  diverge q p -> get_parts (VObj (set_parts o q v)) p = get_parts (VObj o) p.
Proof.
  intros Hd. revert o. induction Hd as [x y a b Hne|x a b Hd IH]; intros o.
  - cbn [get_parts]. destruct a.
    + simpl. by rewrite obj_get_set_other.
    + rewrite set_parts_cons by done. by rewrite obj_get_set_other.
  - destruct (diverge_nonempty _ _ Hd) as [Ha Hb].
    rewrite set_parts_cons by done. cbn [get_parts].
    rewrite obj_get_set_same, IH. by apply get_child.
Qed.

Lemma get_del_diverge o q p :
  diverge q p -> get_parts (VObj (del_parts o q)) p = get_parts (VObj o) p.
Proof.
  intros Hd. revert o. induction Hd as [x y a b Hne|x a b Hd IH]; intros o.
  - cbn [get_parts]. destruct a.
    + simpl. by rewrite obj_get_del_other.
    + rewrite del_parts_cons by done.
      destruct (obj_get o x); auto. by rewrite obj_get_set_other.
  - destruct (diverge_nonempty _ _ Hd) as [Ha Hb].
    rewrite del_parts_cons by done. cbn [get_parts].
    destruct (obj_get o x) eqn:E; cbn [get_parts]; rewrite ?E; auto.
    by rewrite obj_get_set_same, IH.
Qed.

Lemma own_name_not_proto k : own_name k = true -> k <> PROTO_KEY.
Proof. intros Hk ->. discriminate Hk. Qed.

(** Reading a clone along own keys is cloning what is read. *)
Lemma get_parts_clone v p :
  forallb own_name p = true -> get_parts (deep_clone v) p = deep_clone (get_parts v p).
Proof.
  revert v. induction p as [|k p IH]; intros v Hp; [done|].
  cbn [forallb] in Hp. apply andb_prop in Hp as [Hk Hp].
  destruct v as [ | | | | | | |o]; try reflexivity.
  change (deep_clone (VObj o)) with (VObj (as_obj (deep_clone (VObj o)))).
  cbn [get_parts]. rewrite clone_get.
  apply own_name_not_proto, String.eqb_neq in Hk. rewrite Hk. by apply IH.
Qed.

(** Whatever the keys: a clone holds the clone of what the original holds,
    or nothing. *)
Lemma get_parts_clone_cases v p :
  get_parts (deep_clone v) p = deep_clone (get_parts v p)
  \/ get_parts (deep_clone v) p = VUndef.
Proof.
  revert v. induction p as [|k p IH]; intros v; [by left|].
  destruct v as [ | | | | | | |o]; try (by left).
  change (deep_clone (VObj o)) with (VObj (as_obj (deep_clone (VObj o)))).
  cbn [get_parts]. rewrite clone_get.
  destruct (String.eqb k PROTO_KEY); [right; apply get_parts_undef|apply IH].
Qed.

Lemma set_parts_same o q v :
  q <> [] -> get_parts (VObj o) q = v -> v <> VUndef -> proto_free v = true ->
  set_parts o q v = o.
Proof.
  revert o. induction q as [|k q IH]; intros o Hq Hget Hv Hfree; [done|].
  destruct q as [|k2 q].
  - simpl in *. rewrite deep_clone_id by done. subst v. apply obj_set_get_id.
    by apply obj_has_get.
  - rewrite set_parts_cons by done. cbn [get_parts] in Hget.
    destruct (obj_get o k) as [ | | | | | | |child] eqn:E;
      try (simpl in Hget; rewrite ?get_parts_undef in Hget; congruence).
    simpl is_plain_object. cbn iota. simpl as_obj.
    rewrite IH by done. rewrite <- E. apply obj_set_get_id.
    apply obj_has_get. by rewrite E.
Qed.

End PathFacts.

(** ** Well-formed values *)

Section WellFormed.
Implicit Types (o : obj) (v : value) (p q s : list string).

Lemma wf_obj_unfold o :
  wf_obj o = keys_distinct (obj_keys o) && forallb (fun kv => wf_value (snd kv)) o.
Proof.
  unfold wf_obj. simpl. f_equal.
  induction o as [|[k c] o IH]; simpl; congruence.
Qed.

Lemma wf_obj_get o k : wf_obj o = true -> wf_value (obj_get o k) = true.
Proof.
  rewrite wf_obj_unfold, andb_true_iff. intros [_ Hall].
  induction o as [|[k0 v0] o IH]; simpl in *; auto.
  apply andb_true_iff in Hall as [H0 Hall].
  destruct (String.eqb k0 k); auto.
Qed.

Lemma forallb_set o k v (f : string * value -> bool) :
  forallb f o = true -> f (k, v) = true ->
  (forall k' x, String.eqb k' k = true -> f (k', x) = f (k, x)) ->
  forallb f (obj_set o k v) = true.
Proof.
  intros Hall Hv Hext. induction o as [|[k0 v0] o IH]; simpl in *.
  - by rewrite Hv.
  - apply andb_true_iff in Hall as [H0 Hall].
    destruct (String.eqb k0 k) eqn:E; simpl.
    + rewrite (Hext k0 v E), Hv. done.
    + rewrite H0. auto.
Qed.

Lemma wf_obj_set o k v :
  wf_obj o = true -> wf_value v = true -> wf_obj (obj_set o k v) = true.
Proof.
  rewrite !wf_obj_unfold, !andb_true_iff. intros [Hd Hall] Hv. split.
  - by apply keys_distinct_set.
  - by apply forallb_set.
Qed.

Lemma wf_obj_del o k : wf_obj o = true -> wf_obj (obj_del o k) = true.
Proof.
  rewrite !wf_obj_unfold, !andb_true_iff. intros [Hd Hall]. split.
  - by apply keys_distinct_del.
  - clear Hd. induction o as [|[k0 v0] o IH]; simpl in *; auto.
    apply andb_true_iff in Hall as [H0 Hall].
    destruct (String.eqb k0 k); simpl; auto. rewrite H0. auto.
Qed.

Lemma wf_get_parts v p : wf_value v = true -> wf_value (get_parts v p) = true.
Proof.
  revert v. induction p as [|k p IH]; intros v Hv; simpl; auto.
  destruct v; auto. apply IH. by apply wf_obj_get.
Qed.

Lemma wf_child o k :
  wf_obj o = true ->
  wf_obj (if is_plain_object (obj_get o k) then as_obj (obj_get o k) else []) = true.
Proof.
  intros Ho. pose proof (wf_obj_get o k Ho) as Hk.
  destruct (obj_get o k); auto.
Qed.

Lemma wf_obj_in o k x : wf_obj o = true -> In (k, x) o -> wf_value x = true.
Proof.
  rewrite wf_obj_unfold, andb_true_iff. intros [_ Hall] Hin.
  rewrite forallb_forall in Hall. apply (Hall (k, x) Hin).
Qed.

(** A clone of a well-formed value is well-formed. *)
Lemma wf_clone v : wf_value v = true -> wf_value (deep_clone v) = true.
Proof.
  induction v as [ | | | | | | items IH | fields IH] using value_nested_ind; auto.
  - simpl. intros Hall. induction items as [|x items IHi]; simpl in *; auto.
    apply andb_prop in Hall as [Hx Hall].
    rewrite IH by auto. apply IHi; auto.
  - intros Hwf. change (wf_value (VObj fields)) with (wf_obj fields) in Hwf.
    change (deep_clone (VObj fields)) with (VObj (as_obj (deep_clone (VObj fields)))).
    change (wf_obj (as_obj (deep_clone (VObj fields))) = true).
    pose proof Hwf as Hwf'. rewrite wf_obj_unfold, andb_true_iff in Hwf'.
    destruct Hwf' as [Hkeys _].
    rewrite wf_obj_unfold, andb_true_iff. split; [by apply clone_keys_distinct|].
    rewrite clone_fields_map, forallb_forall. intros [k x] Hin.
    apply in_map_iff in Hin as ([k0 x0] & [= <- <-] & Hin).
    apply filter_In in Hin as [Hin _]. simpl.
    eapply IH; [exact Hin|]. by eapply wf_obj_in.
Qed.

Lemma wf_clone_obj o : wf_obj o = true -> wf_obj (as_obj (deep_clone (VObj o))) = true.
Proof. apply (wf_clone (VObj o)). Qed.

Lemma wf_set_parts o p v :
  wf_obj o = true -> wf_value v = true -> wf_obj (set_parts o p v) = true.
Proof.
  revert o. induction p as [|k p IH]; intros o Ho Hv; [done|].
  destruct p as [|k2 p].
  - simpl. apply wf_obj_set; [done|]. by apply wf_clone.
  - rewrite set_parts_cons by done. apply wf_obj_set; auto.
    apply IH; auto. by apply wf_child.
Qed.

Lemma wf_del_parts o p : wf_obj o = true -> wf_obj (del_parts o p) = true.
Proof.
  revert o. induction p as [|k p IH]; intros o Ho; [done|].
  destruct p as [|k2 p].
  - simpl. by apply wf_obj_del.
  - rewrite del_parts_cons by done.
    pose proof (wf_obj_get o k Ho) as Hk.
    destruct (obj_get o k); auto. apply wf_obj_set; auto. by apply IH.
Qed.

Lemma merge_loop_fixed (out suffix : obj) :
  (forall k x, In (k, x) suffix ->
     obj_get out k = x /\ obj_has out k = true /\ merge_entry x x = x) ->
  merge_loop out suffix = out.
Proof.
  induction suffix as [|[k x] suffix IH]; intros Hall; simpl; auto.
  destruct (Hall k x) as (Hget & Hx & Hm); [by left|].
  rewrite Hget, Hm, <- Hget, obj_set_get_id by done.
  apply IH. intros k' x' Hin. apply Hall. by right.
Qed.

(** Values without [__proto__] entries. *)
Lemma proto_free_get o k : proto_free (VObj o) = true -> proto_free (obj_get o k) = true.
Proof.
  intros Ho. induction o as [|[k0 v0] o IH]; [done|].
  assert (Hrest : proto_free (VObj o) = true).
  { rewrite proto_free_obj in Ho |- *. simpl in Ho. by apply andb_prop in Ho as [_ ?]. }
  simpl. destruct (String.eqb k0 k); [|by apply IH].
  by destruct (proto_free_in _ k0 v0 Ho (or_introl eq_refl)).
Qed.

Lemma proto_free_get_parts v p : proto_free v = true -> proto_free (get_parts v p) = true.
Proof.
  revert v. induction p as [|k p IH]; intros v Hv; simpl; auto.
  destruct v; auto. apply IH. by apply proto_free_get.
Qed.

(** Merging a value into itself changes nothing. *)
Lemma merge_entry_self v :
  wf_value v = true -> proto_free v = true -> merge_entry v v = v.
Proof.
  induction v as [ | | | | | | items IH | fields IH] using value_nested_ind;
    intros Hwf Hfree; try reflexivity.
  - by apply deep_clone_id.
  - rewrite merge_entry_objects, deepMerge_source_form by done. f_equal.
    apply merge_loop_fixed. intros k x Hin. repeat split.
    + apply obj_get_in_distinct; auto.
      fold (wf_obj fields) in Hwf. rewrite wf_obj_unfold in Hwf.
      by apply andb_true_iff in Hwf as [? _].
    + apply obj_has_in. apply in_map_iff. by exists (k, x).
    + eapply IH; eauto; [by eapply wf_obj_in|].
      by destruct (proto_free_in _ k x Hfree Hin).
Qed.

Lemma deepMerge_get_parts (existing patch : obj) p v :
  wf_obj existing = true -> wf_obj patch = true -> p <> [] ->
  forallb own_name p = true -> v <> VUndef -> proto_free v = true ->
  get_parts (VObj existing) p = v -> get_parts (VObj patch) p = v ->
  get_parts (VObj (deepMerge existing patch)) p = v.
Proof.
  revert existing patch. induction p as [|k p IH];
    intros e pt He Hp Hne Hown Hv Hfree Hge Hgp; [done|].
  cbn [get_parts] in *. cbn [forallb] in Hown. apply andb_prop in Hown as [Hk Hown].
  assert (Hd : keys_distinct (obj_keys pt) = true).
  { rewrite wf_obj_unfold in Hp. by apply andb_true_iff in Hp as [? _]. }
  assert (Hin : In k (obj_keys pt)).
  { apply obj_has_in, obj_has_get. intros Hu. rewrite Hu, get_parts_undef in Hgp.
    congruence. }
  rewrite deepMerge_get_present by (try apply own_name_not_proto; done).
  destruct p as [|k2 p].
  - simpl in *. rewrite Hge, Hgp. apply merge_entry_self; [|done].
    rewrite <- Hge. by apply wf_obj_get.
  - pose proof (wf_obj_get e k He) as Hwe. pose proof (wf_obj_get pt k Hp) as Hwp.
    destruct (obj_get e k) as [ | | | | | | |e'];
      try (simpl in Hge; rewrite ?get_parts_undef in Hge; congruence).
    destruct (obj_get pt k) as [ | | | | | | |p'];
      try (simpl in Hgp; rewrite ?get_parts_undef in Hgp; congruence).
    rewrite merge_entry_objects. by apply IH.
Qed.

End WellFormed.

(** ** Masking *)

Section Masking.
Implicit Types (o : obj) (v : value) (p q : string).

Lemma sentinel_maskable : is_maskable (VStr MASK_SENTINEL) = true.
Proof. reflexivity. Qed.

Lemma is_sentinel_spec v : is_sentinel v = true <-> v = VStr MASK_SENTINEL.
Proof.
  destruct v; simpl; try (split; [discriminate|congruence]).
  rewrite String.eqb_eq. split; congruence.
Qed.

Lemma maskable_defined v : is_maskable v = true -> v <> VUndef.
Proof. by destruct v. Qed.

Lemma mask_step_inv p q acc rest :
  split_path p <> [] ->
  covers (split_path q) (split_path p) = false ->
  mask_inv p acc (q :: rest) -> mask_inv p (mask_step acc q) rest.
Proof.
  intros Hp Hcov [Hm Hcase]. unfold mask_step, mask_inv, getByPath, setByPath in *.
  destruct (is_maskable (get_parts (VObj (maskedSettings acc)) (split_path q))) eqn:Hq.
  - cbn [maskedSettings maskedMap].
    destruct (parts_cases (split_path q) (split_path p))
      as [Heq|[(s & Hs & Heq)|[(s & Hs & Heq)|Hd]]].
    + rewrite Heq, get_set_same by done. split; [done|].
      destruct (string_dec q p) as [->|Hne].
      * right. split; [done|]. apply obj_get_set_same.
      * destruct Hcase as [[?|Hin]|[_ Hrec]]; [done|by left|].
        right. split; [done|]. by rewrite obj_get_set_other.
    + destruct (split_path q) as [|k ks] eqn:Eq.
      * simpl. split; [done|].
        assert (q <> p) by (intros ->; congruence).
        destruct Hcase as [[?|Hin]|[Hs' Hrec]]; [done|by left|].
        right. split; [done|]. by rewrite obj_get_set_other.
      * rewrite Heq, covers_app in Hcov by done. discriminate.
    + assert (q <> p).
      { intros ->. apply (f_equal (@length string)) in Heq.
        rewrite length_app in Heq. destruct s; [done|]. simpl in Heq. lia. }
      rewrite Heq in *. split.
      * pose proof (get_set_below (maskedSettings acc) (split_path p) s
                      (VStr MASK_SENTINEL) Hs) as Hobj.
        match goal with |- is_maskable ?t = true => by destruct t end.
      * destruct Hcase as [[?|Hin]|[Hs' _]]; [done|by left|].
        rewrite get_parts_app, Hs' in Hq. destruct s; [done|]. discriminate.
    + assert (q <> p).
      { intros ->. by apply diverge_irrefl in Hd. }
      rewrite get_set_diverge by done. split; [done|].
      destruct Hcase as [[?|Hin]|[Hs' Hrec]]; [done|by left|].
      right. split; [done|]. by rewrite obj_get_set_other.
  - split; [done|]. destruct Hcase as [[->|Hin]|Hdone]; [congruence|by left|by right].
Qed.

Lemma mask_fold_inv p paths acc :
  split_path p <> [] -> shadowed paths p = false ->
  mask_inv p acc paths -> mask_inv p (fold_left mask_step paths acc) [].
Proof.
  intros Hp. revert acc. induction paths as [|q paths IH]; intros acc Hsh Hinv; [done|].
  simpl in *. apply orb_false_iff in Hsh as [Hq Hsh].
  apply IH; auto. by apply mask_step_inv.
Qed.

Lemma patch_step_inv existing p q patch_copy rest :
  wf_obj existing = true ->
  getByPath (VObj existing) p <> VUndef ->
  proto_free (getByPath (VObj existing) p) = true ->
  patch_inv existing p patch_copy (q :: rest) ->
  patch_inv existing p (patch_step existing patch_copy q) rest.
Proof.
  intros He Hdef Hfree [Hwf Hcase]. unfold patch_step, patch_inv, getByPath, setByPath,
    deleteByPath in *.
  destruct (is_sentinel (get_parts (VObj patch_copy) (split_path q))) eqn:Hq.
  - apply is_sentinel_spec in Hq.
    assert (Hqne : split_path q <> []).
    { intros E. rewrite E in Hq. discriminate. }
    assert (Hwf' : wf_obj
      (if negb (is_undefined (get_parts (VObj existing) (split_path q)))
       then set_parts patch_copy (split_path q) (get_parts (VObj existing) (split_path q))
       else del_parts patch_copy (split_path q)) = true).
    { destruct (negb _); [apply wf_set_parts|apply wf_del_parts]; auto.
      by apply wf_get_parts. }
    split; [done|].
    destruct (parts_cases (split_path q) (split_path p))
      as [Heq|[(s & Hs & Heq)|[(s & Hs & Heq)|Hd]]].
    + rewrite Heq in *. right.
      destruct (get_parts (VObj existing) (split_path p)) eqn:E; try done;
        simpl; rewrite get_set_same; auto; congruence.
    + exfalso.
      assert (HP : get_parts (VObj patch_copy) (split_path p) = VUndef).
      { rewrite Heq, get_parts_app, Hq. by destruct s. }
      rewrite HP in Hcase. destruct Hcase as [[? _]|Hc]; [done|congruence].
    + rewrite Heq, get_parts_app in Hq.
      destruct Hcase as [[Hs' _]|Hc].
      * rewrite Hs' in Hq. destruct s; [done|]. discriminate.
      * right. rewrite Heq, get_parts_app, <- Hc, Hq. simpl.
        assert (Hfree' : proto_free (get_parts (get_parts (VObj patch_copy) (split_path p)) s)
                         = true).
        { rewrite Hc. by apply proto_free_get_parts. }
        rewrite Hq in Hfree'.
        rewrite set_parts_same; auto.
        -- rewrite <- Heq. done.
        -- by rewrite get_parts_app.
    + assert (q <> p).
      { intros ->. by apply diverge_irrefl in Hd. }
      destruct (negb _); rewrite ?get_set_diverge, ?get_del_diverge by done.
      * destruct Hcase as [[Hs' [?|Hin]]|Hc]; [done|by left|by right].
      * destruct Hcase as [[Hs' [?|Hin]]|Hc]; [done|by left|by right].
  - split; [done|].
    destruct Hcase as [[Hs' [->|Hin]]|Hc]; [|by left|by right].
    rewrite Hs' in Hq. discriminate.
Qed.

Lemma patch_fold_inv existing p paths patch_copy :
  wf_obj existing = true ->
  getByPath (VObj existing) p <> VUndef ->
  proto_free (getByPath (VObj existing) p) = true ->
  patch_inv existing p patch_copy paths ->
  patch_inv existing p (fold_left (patch_step existing) paths patch_copy) [].
Proof.
  intros He Hdef Hfree. revert patch_copy.
  induction paths as [|q paths IH]; intros pc Hinv; [done|].
  simpl. apply IH. by apply patch_step_inv.
Qed.

End Masking.

Lemma maskable_clone v : is_maskable (deep_clone v) = is_maskable v.
Proof. destruct v as [ | | | | | |items|fields]; try reflexivity. by destruct items. Qed.

(** The mask half: a sensitive path that no other sensitive path shadows,
    read through own keys, and whose value is worth masking, is masked and
    recorded. *)
Lemma mask_at_path (settings : obj) (sensitive_paths : list string) (p : string) :
  In p sensitive_paths ->
  split_path p <> [] ->
  own_path p = true ->
  shadowed sensitive_paths p = false ->
  is_maskable (getByPath (VObj settings) p) = true ->
  getByPath (VObj (maskedSettings (maskSensitive settings sensitive_paths))) p
  = VStr MASK_SENTINEL
  /\ obj_get (maskedMap (maskSensitive settings sensitive_paths)) p = VBool true.
Proof.
  intros Hin Hp Hown Hsh Hm.
  destruct (mask_fold_inv p sensitive_paths
              {| maskedSettings := as_obj (deep_clone (VObj settings));
                 maskedMap := [] |} Hp Hsh) as [_ [[]|Hdone]]; [|done].
  split; [|by left]. cbn [maskedSettings]. unfold getByPath in *.
  change (VObj (as_obj (deep_clone (VObj settings)))) with (deep_clone (VObj settings)).
  by rewrite get_parts_clone, maskable_clone.
Qed.

(** The patch half, under its own hypotheses: a sentinel that the patch
    carries at a sensitive path, read through own keys, is replaced by the
    stored value, whatever the other sensitive paths are. *)
Lemma patch_at_path (existing patch : obj) (sensitive_paths : list string) (p : string) :
  In p sensitive_paths ->
  own_path p = true ->
  wf_obj existing = true -> wf_obj patch = true ->
  getByPath (VObj existing) p <> VUndef ->
  proto_free (getByPath (VObj existing) p) = true ->
  getByPath (VObj patch) p = VStr MASK_SENTINEL ->
  getByPath (VObj (applyPatchWithMaskHandling existing patch sensitive_paths)) p
  = getByPath (VObj existing) p.
Proof.
  intros Hin Hown He Hpt Hdef Hfree Hs.
  assert (Hp : split_path p <> []).
  { intros E. unfold getByPath in Hs. rewrite E in Hs. discriminate. }
  unfold applyPatchWithMaskHandling.
  destruct (patch_fold_inv existing p sensitive_paths
              (as_obj (deep_clone (VObj patch))) He Hdef Hfree)
    as [Hwf [[_ []]|Hc]].
  { split; [by apply wf_clone_obj|]. left. split; [|done]. unfold getByPath in *.
    change (VObj (as_obj (deep_clone (VObj patch)))) with (deep_clone (VObj patch)).
    by rewrite get_parts_clone, Hs. }
  unfold getByPath in *. apply deepMerge_get_parts; auto.
Qed.

(** ** Guards and the sandbox execute *)

Section GuardFacts.

Lemma mem_string_in x l : mem_string x l = true <-> In x l.
Proof. apply existsb_eqb_in. Qed.

Lemma rank_not_number r : ~ In r known_roles -> forall n, rank r <> VNum n.
Proof.
  intros Hn n. unfold rank, known_roles in *. simpl in Hn.
  destruct (String.eqb r "customer") eqn:E1; [apply String.eqb_eq in E1; subst; exfalso; apply Hn; simpl; auto 10|].
  destruct (String.eqb r "admin") eqn:E2; [apply String.eqb_eq in E2; subst; exfalso; apply Hn; simpl; auto 10|].
  destruct (String.eqb r "owner") eqn:E3; [apply String.eqb_eq in E3; subst; exfalso; apply Hn; simpl; auto 10|].
  destruct (String.eqb r "system") eqn:E4; [apply String.eqb_eq in E4; subst; exfalso; apply Hn; simpl; auto 10|].
  destruct (mem_string r object_prototype_functions); [discriminate|].
  destruct (String.eqb r "__proto__"); discriminate.
Qed.

Lemma rank_undefined r :
  ~ In r known_roles -> ~ In r ("__proto__" :: object_prototype_functions) ->
  rank r = VUndef.
Proof.
  intros Hn Hp. unfold rank, known_roles in *. simpl in Hn.
  destruct (String.eqb r "customer") eqn:E1; [apply String.eqb_eq in E1; subst; exfalso; apply Hn; simpl; auto 10|].
  destruct (String.eqb r "admin") eqn:E2; [apply String.eqb_eq in E2; subst; exfalso; apply Hn; simpl; auto 10|].
  destruct (String.eqb r "owner") eqn:E3; [apply String.eqb_eq in E3; subst; exfalso; apply Hn; simpl; auto 10|].
  destruct (String.eqb r "system") eqn:E4; [apply String.eqb_eq in E4; subst; exfalso; apply Hn; simpl; auto 10|].
  destruct (mem_string r object_prototype_functions) eqn:E5.
  { apply mem_string_in in E5. exfalso. apply Hp. by right. }
  destruct (String.eqb r "__proto__") eqn:E6; [|done].
  apply String.eqb_eq in E6. exfalso. apply Hp. left. by subst.
Qed.

Lemma js_lt_not_number a b : (forall n, a <> VNum n) -> js_lt a b = false.
Proof. destruct a; auto. intros H. by destruct (H n). Qed.

Lemma str_nonempty_spec s : str_nonempty s = true <-> s <> "".
Proof. destruct s; simpl; split; congruence. Qed.

End GuardFacts.

(** Claim C4, as amended: unknown actor roles pass every role check.  For
    every required role [min_role] and every context whose actor role [r]
    is a non-empty string outside the four known roles, [requireActorRole]
    returns normally: the comparison of the rank of [r] with the required
    rank is false, the rank of [r] being undefined (or, for a name that
    every object inherits, such as [toString], a value that is not a
    number).  [readCommandCtx] copies such a role from the [_ctx] of the
    command parameters into the context as it is, so the check passes on
    the context read from the command as well. *)
Theorem unknown_role_passes
    (xcmd : XCommandData) (ctx : AgentCommandCtx) (a : AgentActor)
    (params ctx_fields actor_fields : obj) (r min_role : string) :
  r <> "" -> ~ In r known_roles ->
  actor ctx = Some a -> role a = Some r ->
  _params xcmd = VObj params ->
  obj_get params "_ctx" = VObj ctx_fields ->
  obj_get ctx_fields "actor" = VObj actor_fields ->
  obj_get actor_fields "role" = VStr r ->
  requireActorRole ctx min_role = Ok tt
  /\ js_lt (rank r) (rank min_role) = false
  /\ (~ In r ("__proto__" :: object_prototype_functions) -> rank r = VUndef)
  /\ (actor (readCommandCtx xcmd) ≫= role) = Some r
  /\ requireActorRole (readCommandCtx xcmd) min_role = Ok tt.
Proof.
  intros Hne Hunk Ha Hr Hp Hc Hact Hrole.
  assert (Hlt : js_lt (rank r) (rank min_role) = false)
    by (apply js_lt_not_number; by apply rank_not_number).
  assert (Hs : str_nonempty r = true) by by apply str_nonempty_spec.
  assert (Hread : actor (readCommandCtx xcmd)
                  = Some (to_actor actor_fields)).
  { unfold readCommandCtx. rewrite Hp. cbn [params_ctx_of]. rewrite Hc.
    cbn [to_ctx actor]. by rewrite Hact. }
  assert (Hrr : role (to_actor actor_fields) = Some r).
  { unfold to_actor. cbn [role]. by rewrite Hrole. }
  repeat split.
  - unfold requireActorRole. by rewrite Ha, Hr, Hs, Hlt.
  - done.
  - by apply rank_undefined.
  - by rewrite Hread.
  - unfold requireActorRole. by rewrite Hread, Hrr, Hs, Hlt.
Qed.

(** The role [superuser] passes the check for [owner]. *)
Lemma unknown_role_passes_witness :
  requireActorRole (readCommandCtx sample_unknown_cmd) "owner" = Ok tt.
Proof.
  refine (proj2 (proj2 (proj2 (proj2
    (unknown_role_passes sample_unknown_cmd
       (readCommandCtx sample_unknown_cmd)
       (to_actor [("role", VStr "superuser")])
       [("id", VStr "s1"); ("_ctx", VObj sample_unknown_ctx)]
       sample_unknown_ctx [("role", VStr "superuser")] "superuser" "owner"
       _ _ _ _ _ _ _ _))))); try reflexivity.
  all: simpl; intros Hin; decompose [or] Hin; congruence || contradiction.
Defined.

(** Claim C4 as stated fails: the empty string is a role outside the four
    known roles, and [requireActorRole] rejects it as a missing role. *)
Lemma empty_role_is_rejected :
  ~ (forall (ctx : AgentCommandCtx) (a : AgentActor) (r min_role : string),
       ~ In r known_roles -> actor ctx = Some a -> role a = Some r ->
       requireActorRole ctx min_role = Ok tt).
Proof.
  intros H.
  specialize (H {| _wid := None; _sid := None; kernel_cap := None;
                   actor := Some {| user_id := None; role := Some "";
                                    channel := None; source := None |} |}
                {| user_id := None; role := Some ""; channel := None; source := None |}
                "" "customer").
  simpl in H. discriminate H; try reflexivity.
  intros Hin. decompose [or] Hin; congruence || contradiction.
Qed.

Section SandboxFacts.
Context `{Builtins}.

Lemma bind_ok {A B : Type} (r : Result A) (k : A -> Result B) (b : B) :
  r ≫= k = Ok b -> exists a, r = Ok a /\ k a = Ok b.
Proof. destruct r; [eauto|discriminate]. Qed.

Lemma ensure_non_empty_string_ok c v f s :
  ensure_non_empty_string c v f = Ok s ->
  exists raw, v = VStr raw /\ s = trim raw /\ str_nonempty s = true.
Proof.
  unfold ensure_non_empty_string. destruct v; try discriminate.
  destruct (str_nonempty (trim s0)) eqn:E; [|discriminate].
  intros [= <-]. eauto.
Qed.

End SandboxFacts.

(** Claim C3: the capability gate of the sandbox [execute].  For a skill
    that is enabled or activating and a call that [execute] forwards (the
    command [cmd] built from the module name, the op, the params and the
    meta), the call is the dispatch of [cmd]; the module and the op of
    [cmd] are the trimmed names; the forwarded context holds a
    [kernel_cap] exactly when the key [module.op] is in the declared
    [kernel_ops] of the skill, and then it is the capability token of the
    process; and the forwarded context always carries the actor of role
    [system] whose source is [skill:] followed by the id of the skill. *)
Theorem capability_gate `{Builtins} (w : World) (sys : System)
    (skill_id : string) (capabilities : obj)
    (module_name op params meta : value) (cmd : XCommandData) :
  skill_id ∈ m_enabled (mgr sys) \/ skill_id ∈ m_activating (mgr sys) ->
  build_execute_command skill_id (m_kernel_cap (mgr sys)) capabilities
    module_name op params meta = Ok cmd ->
  ctx_execute w skill_id capabilities module_name op params meta sys
  = dispatch w cmd sys
  /\ (exists m o, module_name = VStr m /\ op = VStr o
                  /\ _module cmd = trim m /\ _op cmd = trim o)
  /\ obj_has (forwarded_ctx cmd) "kernel_cap"
     = mem_string (op_key (_module cmd) (_op cmd))
         (normalize_string_array (obj_get capabilities "kernel_ops"))
  /\ (In (op_key (_module cmd) (_op cmd))
         (normalize_string_array (obj_get capabilities "kernel_ops"))
      <-> obj_get (forwarded_ctx cmd) "kernel_cap" = VStr (m_kernel_cap (mgr sys)))
  /\ obj_get (forwarded_ctx cmd) "actor"
     = VObj [("role", VStr "system"); ("source", VStr ("skill:" +:+ skill_id))].
Proof.
  intros Hen Hb.
  assert (Hexec : ctx_execute w skill_id capabilities module_name op params meta sys
                  = dispatch w cmd sys).
  { unfold ctx_execute, assert_skill_enabled_for_callback, mbind, m_bind, get_state, lift.
    destruct Hen as [He|Ha].
    - rewrite (bool_decide_eq_true_2 _ He). simpl. by rewrite Hb.
    - rewrite (bool_decide_eq_true_2 _ Ha), andb_false_r. by rewrite Hb. }
  split; [done|]. clear Hexec.
  unfold build_execute_command in Hb.
  apply bind_ok in Hb as (m' & Em & Hb).
  apply bind_ok in Hb as (o' & Eo & Hb).
  apply bind_ok in Hb as (params_ & _ & Hb).
  apply bind_ok in Hb as (ctx2 & Ec & Hb).
  apply ensure_non_empty_string_ok in Em as (m & -> & -> & _).
  apply ensure_non_empty_string_ok in Eo as (o & -> & -> & _).
  set (allowed := mem_string (op_key (trim m) (trim o))
                    (normalize_string_array (obj_get capabilities "kernel_ops"))) in *.
  assert (Hctx : exists ctx2,
            cmd = {| _module := trim m; _op := trim o;
                     _params := VObj (obj_set params_ "_ctx" (VObj ctx2));
                     _ctx := VUndef |}
            /\ obj_has ctx2 "kernel_cap" = allowed
            /\ (allowed = true -> obj_get ctx2 "kernel_cap" = VStr (m_kernel_cap (mgr sys)))
            /\ (allowed = false -> obj_get ctx2 "kernel_cap" = VUndef)
            /\ obj_get ctx2 "actor"
               = VObj [("role", VStr "system"); ("source", VStr ("skill:" +:+ skill_id))]).
  { exists ctx2. injection Hb as <-. split; [done|].
    destruct allowed; destruct meta;
      try match type of Ec with
          | context [has_function ?x] => destruct (has_function x); [discriminate Ec|]
          end;
      injection Ec as <-;
      repeat split; intros; try reflexivity; try discriminate. }
  clear ctx2 Ec Hb.
  destruct Hctx as (ctx2 & -> & Hhas & Hyes & Hno & Hactor).
  assert (Hf : forwarded_ctx {| _module := trim m; _op := trim o;
                                _params := VObj (obj_set params_ "_ctx" (VObj ctx2));
                                _ctx := VUndef |} = ctx2).
  { unfold forwarded_ctx. simpl. by rewrite obj_get_set_same. }
  rewrite Hf. cbn [_module _op]. fold allowed.
  split; [by exists m, o|]. split; [done|]. split; [|done].
  rewrite <- mem_string_in. fold allowed. split; [done|].
  destruct allowed; [done|]. rewrite Hno; [discriminate|done].
Qed.

(** ** The configuration file *)

Section NormalizeFacts.

Lemma normalize_loop_spec items seen x :
  In x (normalize_loop items seen)
  <-> (exists s, In (VStr s) items /\ trim s = x) /\ x <> "" /\ ~ In x seen.
Proof.
  revert seen. induction items as [|v items IH]; intros seen; simpl.
  - split; [tauto|]. intros [(s & [] & _) _].
  - assert (Hskip : forall P : Prop,
              (forall s, v = VStr s -> ~ (trim s = x /\ x <> "" /\ ~ In x seen)) ->
              (In x (normalize_loop items seen)
               <-> (exists s, (v = VStr s \/ In (VStr s) items) /\ trim s = x)
                   /\ x <> "" /\ ~ In x seen)).
    { intros _ Hv. rewrite IH. split.
      - intros [(s & Hin & Ht) Hrest]. split; [|done]. exists s. tauto.
      - intros [(s & [Heq|Hin] & Ht) Hrest]; [|split; [eauto|done]].
        exfalso. by apply (Hv s). }
    destruct v; try (apply (Hskip True); intros; discriminate).
    destruct (negb (str_nonempty (trim s)) || mem_string (trim s) seen) eqn:E.
    + apply (Hskip True). intros s' [= <-] (Ht & Hne & Hseen).
      apply orb_true_iff in E as [E|E].
      * apply negb_true_iff in E. subst x. by destruct (trim s).
      * apply mem_string_in in E. by subst x.
    + apply orb_false_iff in E as [En Es]. apply negb_false_iff in En.
      assert (Hns : ~ In (trim s) seen).
      { rewrite <- mem_string_in. by rewrite Es. }
      simpl. rewrite IH. split.
      * intros [<-|[(s' & Hin & Ht) (Hne & Hseen)]].
        -- split; [exists s; tauto|]. split; [|done]. by apply str_nonempty_spec.
        -- split; [exists s'; tauto|]. simpl in Hseen. tauto.
      * intros [(s' & [[= <-]|Hin] & Ht) (Hne & Hseen)]; [by left|].
        destruct (string_dec (trim s) x) as [|Hd]; [by left|].
        right. split; [eauto|]. split; [done|]. simpl. tauto.
Qed.

Lemma normalize_loop_nodup items seen : List.NoDup (normalize_loop items seen).
Proof.
  revert seen. induction items as [|v items IH]; intros seen; simpl; [constructor|].
  destruct v; auto.
  destruct (negb (str_nonempty (trim s)) || mem_string (trim s) seen); auto.
  constructor; auto. rewrite normalize_loop_spec. simpl. tauto.
Qed.

Lemma normalize_string_array_in v x :
  In x (normalize_string_array v)
  -> x <> "" /\ exists items s, v = VArr items /\ In (VStr s) items /\ trim s = x.
Proof.
  destruct v; simpl; try tauto. rewrite normalize_loop_spec.
  intros [(s & Hin & Ht) [Hne _]]. split; [done|]. eauto.
Qed.

Lemma normalize_string_array_nodup v : List.NoDup (normalize_string_array v).
Proof. destruct v; simpl; try constructor. apply normalize_loop_nodup. Qed.

End NormalizeFacts.

Section SortFacts.
Context `{Builtins}.

Lemma sort_insert_in x y l : In y (sort_insert x l) <-> y = x \/ In y l.
Proof.
  induction l as [|z l IH]; simpl; [intuition|].
  destruct (locale_le x z); simpl; rewrite ?IH; intuition.
Qed.

Lemma sort_locale_in x l : In x (sort_locale l) <-> In x l.
Proof.
  induction l as [|z l IH]; simpl; [tauto|].
  rewrite sort_insert_in, IH. intuition.
Qed.

Lemma sort_insert_perm x l : Permutation (sort_insert x l) (x :: l).
Proof.
  induction l as [|y l IH]; simpl; [done|].
  destruct (locale_le x y); [done|]. rewrite IH. apply perm_swap.
Qed.

Lemma sort_locale_perm l : Permutation (sort_locale l) l.
Proof.
  induction l as [|x l IH]; simpl; [done|].
  rewrite sort_insert_perm. by constructor.
Qed.

(** The order the comparison is assumed to give when a statement is about
    the order of a sorted list: any two strings are comparable, and the
    comparison is transitive. *)
Hypothesis locale_total : forall a b, locale_le a b = true \/ locale_le b a = true.
Hypothesis locale_trans :
  forall a b c, locale_le a b = true -> locale_le b c = true -> locale_le a c = true.

Lemma sort_insert_sorted x l :
  StronglySorted (fun a b => locale_le a b = true) l ->
  StronglySorted (fun a b => locale_le a b = true) (sort_insert x l).
Proof.
  induction 1 as [|y l Hl IH Hy]; simpl; [by repeat constructor|].
  destruct (locale_le x y) eqn:E.
  - constructor; [by constructor|]. constructor; [done|].
    eapply Forall_impl; [exact Hy|]. intros z Hz. by eapply locale_trans.
  - constructor; [done|].
    assert (Hyx : locale_le y x = true) by (destruct (locale_total x y); congruence).
    apply Forall_forall. intros z Hz%list_elem_of_In%sort_insert_in.
    destruct Hz as [->|Hz]; [done|].
    rewrite List.Forall_forall in Hy. by apply Hy.
Qed.

Lemma sort_locale_sorted l :
  StronglySorted (fun a b => locale_le a b = true) (sort_locale l).
Proof.
  induction l as [|x l IH]; simpl; [constructor|]. by apply sort_insert_sorted.
Qed.

Lemma filter_sorted (f : string -> bool) l :
  StronglySorted (fun a b => locale_le a b = true) l ->
  StronglySorted (fun a b => locale_le a b = true) (List.filter f l).
Proof.
  induction 1 as [|y l Hl IH Hy]; simpl; [constructor|].
  destruct (f y); [|done]. constructor; [done|].
  rewrite List.Forall_forall in Hy |- *. intros z [Hz _]%filter_In. by apply Hy.
Qed.

Lemma enabled_to_persist_sorted (m : Manager) :
  StronglySorted (fun a b => locale_le a b = true) (enabled_to_persist m).
Proof.
  unfold enabled_to_persist, sorted_enabled.
  replace (filter (fun id => mem_string id (allow (m_config m)) = true)
             (sort_locale (elements (m_enabled m))))
    with (List.filter (fun id => mem_string id (allow (m_config m)))
            (sort_locale (elements (m_enabled m)))).
  - apply filter_sorted, sort_locale_sorted.
  - generalize (sort_locale (elements (m_enabled m))). intros l.
    induction l as [|x l IH]; [done|]. cbn [List.filter].
    destruct (mem_string x (allow (m_config m))) eqn:E.
    + rewrite filter_cons_True by done. by rewrite IH.
    + rewrite filter_cons_False by (by rewrite E). exact IH.
Qed.

Lemma enabled_to_persist_nodup (m : Manager) : List.NoDup (enabled_to_persist m).
Proof.
  unfold enabled_to_persist, sorted_enabled.
  apply NoDup_ListNoDup, NoDup_filter.
  rewrite sort_locale_perm. apply NoDup_elements.
Qed.

Lemma enabled_to_persist_in (m : Manager) (id : string) :
  In id (enabled_to_persist m)
  <-> id ∈ m_enabled m /\ In id (allow (m_config m)).
Proof.
  unfold enabled_to_persist, sorted_enabled.
  rewrite <- list_elem_of_In, list_elem_of_filter, list_elem_of_In, sort_locale_in.
  rewrite <- list_elem_of_In, elem_of_elements, mem_string_in. tauto.
Qed.

End SortFacts.

Section ObjMore.

Lemma obj_spread_nil (o : obj) : obj_spread o [] = o.
Proof. reflexivity. Qed.

End ObjMore.

(** Claim C10: the enabled set is a subset of the allow-list at the
    persistence boundary.  Reading a configuration document keeps, of its
    trimmed and de-duplicated enabled list, the ids that are in its
    trimmed and de-duplicated allow list.  Persisting, when the file can
    be written and what it holds can be read, writes a list of enabled ids
    and writes the allow-list back: an id is in the written list exactly
    when it is enabled and in the allow-list, no id is written twice, the
    list is sorted whenever the comparison of the locale is total and
    transitive, and every key of the document other than [skills] is
    kept. *)
Theorem persistence_boundary `{Builtins} (w : World) (sys : System) (parsed : obj) :
  w_config_writable w = true ->
  config_readable (config_file sys) = true ->
  (exists cfg,
     read_agent_config (Parsed (VObj parsed)) = Ok cfg
     /\ allow cfg = normalize_string_array (obj_get (skills_section parsed) "allow")
     /\ enabled cfg
        = filter (fun id => mem_string id (allow cfg) = true)
            (normalize_string_array (obj_get (skills_section parsed) "enabled"))
     /\ (forall id, In id (enabled cfg) -> In id (allow cfg))
     /\ List.NoDup (enabled cfg))
  /\ (exists doc,
        persist_enabled_to_agent_config w sys
        = (Ok tt, with_config_file (Parsed (VObj doc))
                    (set_mgr (with_config
                       {| allow := allow (m_config (mgr sys));
                          enabled := enabled_to_persist (mgr sys);
                          node_modules := node_modules (m_config (mgr sys));
                          local_paths := local_paths (m_config (mgr sys)) |}) sys))
        /\ obj_get (skills_section doc) "enabled"
           = str_array (enabled_to_persist (mgr sys))
        /\ obj_get (skills_section doc) "allow"
           = str_array (allow (m_config (mgr sys)))
        /\ (forall id, In id (enabled_to_persist (mgr sys)) <->
              In id (allow (m_config (mgr sys))) /\ id ∈ m_enabled (mgr sys))
        /\ List.NoDup (enabled_to_persist (mgr sys))
        /\ ((forall a b, locale_le a b = true \/ locale_le b a = true) ->
            (forall a b c, locale_le a b = true -> locale_le b c = true ->
                           locale_le a c = true) ->
            StronglySorted (fun a b => locale_le a b = true)
              (enabled_to_persist (mgr sys)))
        /\ (forall key, key <> "skills" ->
              obj_get doc key = obj_get (decoded_config (config_file sys)) key)).
Proof.
  intros Hw Hr. split.
  - eexists. split; [reflexivity|]. cbn [allow enabled].
    assert (Hs : (if is_plain_object (obj_get parsed "skills")
                  then as_obj (obj_get parsed "skills") else [])
                 = skills_section parsed).
    { unfold skills_section. by destruct (obj_get parsed "skills"). }
    rewrite Hs. split; [done|]. split; [done|]. split.
    + intros id Hin. apply list_elem_of_In, list_elem_of_filter in Hin as [Hin _].
      by apply mem_string_in.
    + apply NoDup_ListNoDup, NoDup_filter, NoDup_ListNoDup, normalize_string_array_nodup.
  - exists (persisted_document
              {| allow := allow (m_config (mgr sys));
                 enabled := enabled_to_persist (mgr sys);
                 node_modules := node_modules (m_config (mgr sys));
                 local_paths := local_paths (m_config (mgr sys)) |}
              (enabled_to_persist (mgr sys)) (decoded_config (config_file sys))).
    split; [|split; [|split; [|split; [|split; [|split]]]]].
    + unfold persist_enabled_to_agent_config, mbind, m_bind, get_state, modify_mgr,
        modify, lift, throw.
      rewrite Hw.
      destruct (config_file sys) as [ | | |[]] eqn:Ef; try discriminate; reflexivity.
    + unfold persisted_document, skills_section. rewrite obj_get_set_same. simpl as_obj.
      rewrite obj_get_set_other by done. by rewrite obj_get_set_same.
    + unfold persisted_document, skills_section. rewrite obj_get_set_same. simpl as_obj.
      rewrite !obj_get_set_other by done. by rewrite obj_get_set_same.
    + intros id. rewrite enabled_to_persist_in. tauto.
    + apply enabled_to_persist_nodup.
    + intros Htotal Htrans. by apply enabled_to_persist_sorted.
    + intros key Hk. unfold persisted_document. by rewrite obj_get_set_other.
Qed.

(** ** Path resolution *)

Section StringFacts.
Implicit Types (s t p : string).

Lemma append_empty t : EmptyString +:+ t = t.
Proof. reflexivity. Qed.

Lemma append_cons c s t : String c s +:+ t = String c (s +:+ t).
Proof. reflexivity. Qed.

Lemma append_nil_r s : s +:+ EmptyString = s.
Proof. induction s; rewrite ?append_cons, ?append_empty; congruence. Qed.

Lemma append_assoc s t u : (s +:+ t) +:+ u = s +:+ (t +:+ u).
Proof. induction s; rewrite ?append_cons, ?append_empty; congruence. Qed.

Lemma starts_with_app p t : starts_with p (p +:+ t) = true.
Proof.
  induction p as [|c p IH]; rewrite ?append_cons, ?append_empty; simpl; auto.
  by rewrite Ascii.eqb_refl.
Qed.

Lemma starts_with_spec p s : starts_with p s = true -> exists t, s = p +:+ t.
Proof.
  revert s. induction p as [|c p IH]; intros s; simpl.
  - by exists s.
  - destruct s as [|d s]; [discriminate|].
    rewrite andb_true_iff, Ascii.eqb_eq. intros [-> Hs].
    destruct (IH s Hs) as [t ->]. exists t. by rewrite append_cons.
Qed.

Lemma split_on_nosep_app s t :
  no_sep s = true -> split_on sep (s +:+ String sep t) = s :: split_on sep t.
Proof.
  induction s as [|c s IH]; rewrite ?append_cons, ?append_empty; simpl.
  - done.
  - rewrite andb_true_iff, negb_true_iff. intros [Hc Hs]. rewrite Hc.
    by rewrite (IH Hs).
Qed.

Lemma split_on_nosep s : no_sep s = true -> split_on sep s = [s].
Proof.
  induction s as [|c s IH]; simpl; auto.
  rewrite andb_true_iff, negb_true_iff. intros [Hc Hs]. by rewrite Hc, (IH Hs).
Qed.

Lemma split_on_pieces s : Forall (fun x => no_sep x = true) (split_on sep s).
Proof.
  induction s as [|c s IH]; simpl; [by repeat constructor|].
  destruct (Ascii.eqb c sep) eqn:E; [by constructor|].
  destruct (split_on sep s) as [|piece pieces]; [repeat constructor; simpl; by rewrite E|].
  inversion IH; subst. constructor; auto. simpl. by rewrite E.
Qed.

End StringFacts.

Section WalkFacts.
Implicit Types (names stack segs : list string).

Lemma clean_no_sep s : clean_name s = true -> no_sep s = true.
Proof. unfold clean_name. rewrite !andb_true_iff. tauto. Qed.

Lemma split_on_join names :
  Forall (fun x => clean_name x = true) names -> names <> [] ->
  split_on sep (join_abs names) = "" :: names.
Proof.
  induction 1 as [|n rest Hn Hrest IH]; [done|]. intros _.
  cbn [join_abs]. cbn [split_on]. rewrite Ascii.eqb_refl. f_equal.
  destruct rest as [|n2 rest].
  - simpl. rewrite append_nil_r. apply split_on_nosep. by apply clean_no_sep.
  - cbn [join_abs]. rewrite split_on_nosep_app by by apply clean_no_sep.
    f_equal. specialize (IH ltac:(done)). cbn [join_abs split_on] in IH.
    rewrite Ascii.eqb_refl in IH. by injection IH.
Qed.

Lemma walk_clean stack names :
  Forall (fun x => clean_name x = true) names -> walk stack names = stack ++ names.
Proof.
  intros Hn. revert stack. induction Hn as [|n rest Hc _ IH]; intros stack; simpl.
  - by rewrite app_nil_r.
  - unfold clean_name in Hc. rewrite !andb_true_iff, !negb_true_iff in Hc.
    destruct Hc as [[[-> ->] ->] _]. rewrite IH, <- app_assoc. done.
Qed.

Lemma Forall_removelast {A} (P : A -> Prop) (l : list A) :
  Forall P l -> Forall P (removelast l).
Proof.
  induction 1 as [|x l Hx Hl IH]; simpl; [constructor|].
  destruct l; [constructor|]. by constructor.
Qed.

Lemma walk_keeps_clean stack segs :
  Forall (fun x => clean_name x = true) stack ->
  Forall (fun x => no_sep x = true) segs ->
  Forall (fun x => clean_name x = true) (walk stack segs).
Proof.
  intros Hs Hg. revert stack Hs. induction Hg as [|s rest Hn _ IH]; intros stack Hs; simpl; auto.
  destruct (String.eqb s "") eqn:E1; [auto|].
  destruct (String.eqb s ".") eqn:E2; [auto|].
  destruct (String.eqb s "..") eqn:E3; [by apply IH, Forall_removelast|].
  apply IH. apply Forall_app. split; [done|]. constructor; [|constructor].
  unfold clean_name. by rewrite E1, E2, E3, Hn.
Qed.

Lemma walk_extends stack segs :
  forallb (fun s => negb (String.eqb s "..")) segs = true ->
  exists more, walk stack segs = stack ++ more.
Proof.
  revert stack. induction segs as [|s rest IH]; intros stack; simpl.
  - exists []. by rewrite app_nil_r.
  - rewrite andb_true_iff, negb_true_iff. intros [Hs Hrest]. rewrite Hs.
    destruct (String.eqb s ""); [by apply IH|].
    destruct (String.eqb s "."); [by apply IH|].
    destruct (IH (stack ++ [s]) Hrest) as [more ->].
    exists (s :: more). by rewrite <- app_assoc.
Qed.

Lemma resolve_step_clean stack arg :
  Forall (fun x => clean_name x = true) stack ->
  Forall (fun x => clean_name x = true) (resolve_step stack arg).
Proof.
  intros Hs. unfold resolve_step.
  destruct (path_isAbsolute arg); apply walk_keeps_clean; auto using split_on_pieces.
Qed.

Lemma resolve_names_clean cwd args :
  Forall (fun x => clean_name x = true) (resolve_names cwd args).
Proof.
  unfold resolve_names.
  assert (H0 : Forall (fun x => clean_name x = true) (walk [] (split_on sep cwd)))
    by (apply walk_keeps_clean; auto using split_on_pieces).
  revert H0. generalize (walk [] (split_on sep cwd)) as stack.
  induction args as [|a args IH]; intros stack Hs; simpl; auto.
  apply IH. by apply resolve_step_clean.
Qed.

Lemma render_absolute names : path_isAbsolute (render names) = true.
Proof. by destruct names. Qed.

Lemma walk_render names :
  Forall (fun x => clean_name x = true) names ->
  walk [] (split_on sep (render names)) = names.
Proof.
  intros Hn. destruct names as [|n rest]; [reflexivity|].
  unfold render. rewrite split_on_join by done.
  change (walk [] (EmptyString :: n :: rest)) with (walk [] (n :: rest)).
  by rewrite (walk_clean [] (n :: rest) Hn).
Qed.

(** [path.resolve] leaves its own results alone. *)
Lemma path_resolve_render cwd names :
  Forall (fun x => clean_name x = true) names ->
  path_resolve cwd [render names] = render names.
Proof.
  intros Hn. unfold path_resolve, resolve_names. cbn [fold_left].
  unfold resolve_step. by rewrite render_absolute, walk_render.
Qed.

Lemma path_resolve_idem cwd args :
  path_resolve cwd [path_resolve cwd args] = path_resolve cwd args.
Proof. apply path_resolve_render, resolve_names_clean. Qed.

(** Continuing from a normalised directory with a relative path. *)
Lemma path_resolve_from cwd names rel :
  Forall (fun x => clean_name x = true) names ->
  path_isAbsolute rel = false ->
  path_resolve cwd [render names; rel] = render (walk names (split_on sep rel)).
Proof.
  intros Hn Hrel. unfold path_resolve, resolve_names. cbn [fold_left].
  unfold resolve_step at 2. rewrite render_absolute, walk_render by done.
  unfold resolve_step. by rewrite Hrel.
Qed.

Lemma join_abs_app names more :
  join_abs (names ++ more) = join_abs names +:+ join_abs more.
Proof.
  induction names as [|n rest IH]; simpl; auto.
  by rewrite IH, append_cons, append_assoc.
Qed.

Lemma under_refl x : under x x = true.
Proof. unfold under. by rewrite String.eqb_refl. Qed.

Lemma under_render names more :
  under (render (names ++ more)) (render names) = true.
Proof.
  unfold under.
  destruct (String.eqb (render (names ++ more)) (render names)) eqn:E; [done|].
  destruct names as [|n rest].
  - simpl. by destruct more.
  - destruct more as [|m more].
    { rewrite app_nil_r, String.eqb_refl in E. discriminate. }
    change (render ((n :: rest) ++ m :: more))
      with (join_abs ((n :: rest) ++ m :: more)).
    rewrite join_abs_app. unfold render.
    destruct (ends_with_char sep (join_abs (n :: rest))).
    + apply starts_with_app.
    + cbn [join_abs]. set (J := String sep (n +:+ join_abs rest)).
      replace (J +:+ String sep (m +:+ join_abs more))
        with ((J +:+ String sep EmptyString) +:+ (m +:+ join_abs more)).
      * apply starts_with_app.
      * by rewrite append_assoc, append_cons, append_empty.
Qed.

Lemma with_sep_extends x :
  exists t, (if ends_with_char sep x then x else x +:+ String sep EmptyString) = x +:+ t.
Proof.
  destruct (ends_with_char sep x); [exists EmptyString; by rewrite append_nil_r|eauto].
Qed.

Lemma under_trans a b c : under a b = true -> under b c = true -> under a c = true.
Proof.
  unfold under.
  destruct (String.eqb a b) eqn:Eab; [apply String.eqb_eq in Eab; by subst|].
  destruct (String.eqb b c) eqn:Ebc; [apply String.eqb_eq in Ebc; subst; by rewrite Eab|].
  intros Hab Hbc. destruct (String.eqb a c); [done|].
  apply starts_with_spec in Hab as [t1 ->]. apply starts_with_spec in Hbc as [t2 ->].
  destruct (with_sep_extends (
    (if ends_with_char sep c then c else c +:+ String sep EmptyString) +:+ t2))
    as [t3 ->].
  rewrite !append_assoc. apply starts_with_app.
Qed.

Lemma is_path_within_under cwd target root :
  is_path_within cwd target root
  = under (path_resolve cwd [target]) (path_resolve cwd [root]).
Proof. reflexivity. Qed.

Lemma is_path_within_trans cwd a b c :
  is_path_within cwd a b = true -> is_path_within cwd b c = true ->
  is_path_within cwd a c = true.
Proof. rewrite !is_path_within_under. apply under_trans. Qed.

(** A plain relative path stays inside the directory it starts from. *)
Lemma resolve_plain_within cwd args rel :
  plain_relative rel = true ->
  is_path_within cwd (path_resolve cwd [path_resolve cwd args; rel])
    (path_resolve cwd args) = true.
Proof.
  unfold plain_relative. rewrite andb_true_iff, negb_true_iff. intros [Hrel Hplain].
  rewrite is_path_within_under, !path_resolve_idem.
  unfold path_resolve at 2 3.
  rewrite path_resolve_from by auto using resolve_names_clean.
  destruct (walk_extends (resolve_names cwd args) (split_on sep rel) Hplain)
    as [more ->].
  apply under_render.
Qed.

End WalkFacts.

(** ** Local resolution *)

Section ResolutionFacts.
Variables (cwd repo_root : string) (fs : FileSystem).

Lemma normalize_local_path_ok raw local_root :
  normalize_local_path cwd repo_root raw = Ok local_root ->
  trusted_candidate cwd repo_root local_root.
Proof.
  unfold normalize_local_path. intros Hn.
  apply bind_ok in Hn as (normalized & _ & Hn).
  destruct (is_path_within cwd _ repo_root) eqn:Hw; simpl in Hn; [|discriminate].
  injection Hn as <-. split; [done|].
  destruct (path_isAbsolute normalized); eauto.
Qed.

Lemma normalize_local_path_throws raw e :
  normalize_local_path cwd repo_root raw = Throw e ->
  code e = E_SKILLS_BAD_CONFIG \/ code e = E_SKILLS_BAD_PARAMS.
Proof.
  unfold normalize_local_path, ensure_non_empty_string.
  destruct (str_nonempty (trim raw)); simpl.
  - destruct (is_path_within cwd _ repo_root); simpl; [discriminate|].
    intros [= <-]. by left.
  - intros [= <-]. by right.
Qed.

Lemma resolve_package_entry_within candidate pkg entry_file :
  resolve_package_entry cwd candidate pkg = Ok entry_file ->
  is_path_within cwd entry_file candidate = true.
Proof.
  unfold resolve_package_entry.
  match goal with
  | |- (if negb (is_path_within cwd ?e candidate) then _ else _) = _ -> _ =>
      destruct (is_path_within cwd e candidate) eqn:Hw; simpl; [|discriminate]
  end.
  by intros [= <-].
Qed.

Lemma package_json_within c :
  trusted_candidate cwd repo_root c ->
  is_path_within cwd (path_resolve cwd [c; "package.json"]) repo_root = true.
Proof.
  intros [Hw [args ->]].
  eapply is_path_within_trans; [|exact Hw].
  by apply resolve_plain_within.
Qed.

Lemma try_candidates_within id candidates :
  Forall (trusted_candidate cwd repo_root) candidates ->
  Forall (fun p => is_path_within cwd p repo_root = true)
    (snd (try_candidates cwd fs id candidates)).
Proof.
  induction 1 as [|c rest Hc Hrest IH]; cbn [try_candidates]; [constructor|].
  unfold read_package_json.
  pose proof (package_json_within c Hc) as Hpkg.
  set (pj := path_resolve cwd [c; "package.json"]) in *.
  assert (Hmore : Forall (fun p => is_path_within cwd p repo_root = true)
                    ([pj] ++ snd (try_candidates cwd fs id rest))).
  { apply Forall_app. split; [by repeat constructor|done]. }
  destruct (fs_read fs pj) as [ | | |[ | | | | | | |parsed]];
    try (by repeat constructor);
    try (destruct (try_candidates cwd fs id rest); exact Hmore).
  destruct (ensure_optional_string (obj_get parsed "name")) as [package_name|];
    [|destruct (try_candidates cwd fs id rest); exact Hmore].
  destruct (String.eqb package_name id);
    [|destruct (try_candidates cwd fs id rest); exact Hmore].
  destruct (resolve_package_entry cwd c parsed) as [entry_file|] eqn:He;
    [|by repeat constructor].
  cbn [snd]. apply Forall_app. split; [by repeat constructor|].
  repeat constructor. eapply is_path_within_trans; [|apply Hc].
  by eapply resolve_package_entry_within.
Qed.

End ResolutionFacts.

(** Extra X20: what the code does guarantee about local resolution.  A
    local root that escapes the repository root is rejected before any
    file is touched, an accepted local root lies within the repository
    root, the entry file of a package lies within its package directory,
    and for an id made of plain names (no empty, [.] or [..] segment)
    every path handed to the file system lies within the repository
    root. *)
Theorem local_resolution_containment
    (cwd opts_repo_root : string) (fs : FileSystem) (id raw_local_path : string) :
  plain_relative id = true ->
  let repo_root := path_resolve cwd [opts_repo_root] in
  (forall e, normalize_local_path cwd repo_root raw_local_path = Throw e ->
     resolve_local_path cwd repo_root fs id raw_local_path = (Throw e, [])
     /\ (code e = E_SKILLS_BAD_CONFIG \/ code e = E_SKILLS_BAD_PARAMS))
  /\ (forall local_root,
        normalize_local_path cwd repo_root raw_local_path = Ok local_root ->
        is_path_within cwd local_root repo_root = true)
  /\ (forall candidate pkg entry_file,
        resolve_package_entry cwd candidate pkg = Ok entry_file ->
        is_path_within cwd entry_file candidate = true)
  /\ Forall (fun p => is_path_within cwd p repo_root = true)
       (snd (resolve_local_path cwd repo_root fs id raw_local_path)).
Proof.
  intros Hplain repo_root. split; [|split; [|split]].
  - intros e He. split; [|by eapply normalize_local_path_throws].
    unfold resolve_local_path. by rewrite He.
  - intros local_root Hn. by apply (normalize_local_path_ok _ _ _ _ Hn).
  - intros candidate pkg entry_file. apply resolve_package_entry_within.
  - unfold resolve_local_path.
    destruct (normalize_local_path cwd repo_root raw_local_path) as [local_root|] eqn:Hn;
      [|constructor].
    apply try_candidates_within.
    pose proof (normalize_local_path_ok _ _ _ _ Hn) as Hroot.
    constructor; [done|]. constructor; [|constructor].
    destruct Hroot as [Hw [args ->]]. split; [|eauto].
    eapply is_path_within_trans; [|exact Hw]. by apply resolve_plain_within.
Qed.

(** Resolving the sample skill touches files of the repository only. *)
Lemma local_resolution_containment_witness :
  Forall (fun p => is_path_within "/" p "/repo" = true)
    (snd (resolve_local_path "/" "/repo" sample_package_fs "echo" "packages/skills")).
Proof.
  exact (proj2 (proj2 (proj2
    (local_resolution_containment "/" "/repo" sample_package_fs "echo"
       "packages/skills" eq_refl)))).
Defined.

Example local_resolution_finds_echo :
  resolve_local_path "/" "/repo" sample_package_fs "echo" "packages/skills"
  = (Ok (Some {| specifier := "file:///repo/packages/skills/echo/dist/index.js";
                 entry_source := "local:/repo/packages/skills/echo" |}),
     ["/repo/packages/skills/package.json";
      "/repo/packages/skills/echo/package.json";
      "/repo/packages/skills/echo/dist/index.js"]).
Proof. reflexivity. Qed.

(** The id [../../etc] is not rejected with [E_SKILLS_BAD_CONFIG] under
    every local root. *)
Lemma dotdot_id_is_not_bad_config :
  ~ (forall (cwd repo_root raw_local_path : string) (fs : FileSystem),
       thrown_code (fst (resolve_local_path cwd (path_resolve cwd [repo_root]) fs
                           "../../etc" raw_local_path))
       = Some E_SKILLS_BAD_CONFIG).
Proof.
  intros H. specialize (H "/" "/repo" "packages/skills" empty_fs).
  vm_compute in H. discriminate H.
Qed.

(** ** Hoare rules for the state and error monad *)

Section HoareRules.
Context {S : Type}.
Implicit Types (P : S -> Prop).

Lemma hoare_ret {A} P (a : A) (Q : A -> S -> Prop) E :
  (forall st, P st -> Q a st) -> hoare P (mret a) Q E.
Proof. intros H st Hp. by apply H. Qed.

Lemma hoare_throw {A} P (e : XError) (Q : A -> S -> Prop) (E : XError -> S -> Prop) :
  (forall st, P st -> E e st) -> hoare P (throw e) Q E.
Proof. intros H st Hp. by apply H. Qed.

Lemma hoare_lift {A} P (r : Result A) (Q : A -> S -> Prop) (E : XError -> S -> Prop) :
  (forall a st, r = Ok a -> P st -> Q a st) ->
  (forall e st, r = Throw e -> P st -> E e st) ->
  hoare P (lift r) Q E.
Proof. intros Hq He st Hp. unfold lift. destruct r; auto. Qed.

Lemma hoare_get P (Q : S -> S -> Prop) E :
  (forall st, P st -> Q st st) -> hoare P get_state Q E.
Proof. intros H st Hp. by apply H. Qed.

Lemma hoare_modify P (f : S -> S) (Q : unit -> S -> Prop) E :
  (forall st, P st -> Q tt (f st)) -> hoare P (modify f) Q E.
Proof. intros H st Hp. by apply H. Qed.

Lemma hoare_bind {A B} P (m : M S A) (k : A -> M S B)
    (R : A -> S -> Prop) (Q : B -> S -> Prop) E :
  hoare P m R E -> (forall a, hoare (R a) (k a) Q E) -> hoare P (m ≫= k) Q E.
Proof.
  intros Hm Hk st Hp. specialize (Hm st Hp).
  unfold mbind, m_bind. destruct (m st) as [[a|e] st']; [|done].
  by apply Hk.
Qed.

Lemma hoare_try_catch {A} P (body : M S A) (handler : XError -> M S A)
    (E1 : XError -> S -> Prop) (Q : A -> S -> Prop) E :
  hoare P body Q E1 -> (forall e, hoare (E1 e) (handler e) Q E) ->
  hoare P (try_catch body handler) Q E.
Proof.
  intros Hb Hh st Hp. specialize (Hb st Hp). unfold try_catch.
  destruct (body st) as [[a|e] st']; [done|]. by apply Hh.
Qed.

Lemma hoare_finally {A} P (body : M S A) (cleanup : S -> S)
    (Q1 : A -> S -> Prop) (E1 : XError -> S -> Prop) (Q : A -> S -> Prop) E :
  hoare P body Q1 E1 ->
  (forall a st, Q1 a st -> Q a (cleanup st)) ->
  (forall e st, E1 e st -> E e (cleanup st)) ->
  hoare P (finally body cleanup) Q E.
Proof.
  intros Hb Hq He st Hp. specialize (Hb st Hp). unfold finally.
  destruct (body st) as [[a|e] st']; auto.
Qed.

Lemma hoare_consequence {A} P P' (m : M S A) (Q Q' : A -> S -> Prop)
    (E E' : XError -> S -> Prop) :
  hoare P' m Q' E' ->
  (forall st, P st -> P' st) ->
  (forall a st, Q' a st -> Q a st) ->
  (forall e st, E' e st -> E e st) ->
  hoare P m Q E.
Proof.
  intros Hm Hp Hq He st Hst. specialize (Hm st (Hp st Hst)).
  destruct (m st) as [[a|e] st']; auto.
Qed.

Lemma hoare_for_each {A} P (items : list A) (body : A -> M S unit) E :
  (forall x, In x items -> hoare P (body x) (fun _ => P) E) ->
  hoare P (for_each items body) (fun _ => P) E.
Proof.
  induction items as [|x items IH]; intros Hb.
  - by apply hoare_ret.
  - cbn [for_each]. eapply hoare_bind; [apply Hb; by left|].
    intros []. apply IH. intros y Hy. apply Hb. by right.
Qed.

Lemma hoare_pure {A} P (F : Prop) (m : M S A) Q E :
  (F -> hoare P m Q E) -> hoare (fun st => F /\ P st) m Q E.
Proof. intros H st [Hf Hp]. by apply H. Qed.

Lemma hoare_pure' {A} P (F : Prop) (m : M S A) Q E :
  (F -> hoare P m Q E) -> hoare (fun st => P st /\ F) m Q E.
Proof. intros H st [Hp Hf]. by apply H. Qed.

Lemma preserves_ret {A} P (a : A) : preserves P (mret a).
Proof. by apply hoare_ret. Qed.

Lemma preserves_throw {A} P e : preserves P (throw (A:=A) e).
Proof. by apply hoare_throw. Qed.

Lemma preserves_lift {A} P (r : Result A) : preserves P (lift r).
Proof. by apply hoare_lift. Qed.

Lemma preserves_bind {A B} P (m : M S A) (k : A -> M S B) :
  preserves P m -> (forall a, preserves P (k a)) -> preserves P (m ≫= k).
Proof. intros Hm Hk. eapply hoare_bind; [exact Hm|exact Hk]. Qed.

Lemma preserves_try_catch {A} P (body : M S A) handler :
  preserves P body -> (forall e, preserves P (handler e)) ->
  preserves P (try_catch body handler).
Proof. intros Hb Hh. eapply hoare_try_catch; [exact Hb|exact Hh]. Qed.

Lemma preserves_for_each {A} P (items : list A) (body : A -> M S unit) :
  (forall x, preserves P (body x)) -> preserves P (for_each items body).
Proof. intros Hb. apply hoare_for_each. intros x _. apply Hb. Qed.

Lemma preserves_modify P (f : S -> S) :
  (forall st, P st -> P (f st)) -> preserves P (modify f).
Proof. intros H. by apply hoare_modify. Qed.

Lemma preserves_get_bind {B} P (k : S -> M S B) :
  (forall st0, preserves P (k st0)) -> preserves P (get_state ≫= k).
Proof. intros Hk. apply preserves_bind; [by apply hoare_get|exact Hk]. Qed.

Lemma preserves_finally {A} P (body : M S A) (cleanup : S -> S) :
  preserves P body -> (forall st, P st -> P (cleanup st)) ->
  preserves P (finally body cleanup).
Proof. intros Hb Hc. eapply hoare_finally; [exact Hb|..]; intros; by apply Hc. Qed.

Lemma preserves_snd {A} P (m : M S A) st : preserves P m -> P st -> P (snd (m st)).
Proof. intros Hm Hp. specialize (Hm st Hp). by destruct (m st) as [[a|e] st']. Qed.

End HoareRules.

(** ** Frame rules for the manager *)

Section Frames.
Context `{Builtins}.
Variable w : World.
Context {V : Type} (view : Manager -> V).

Lemma keeps_preserves {A} (P : System -> Prop) (m : M System A) :
  (forall s s', view (mgr s) = view (mgr s') -> P s -> P s') ->
  keeps view m -> preserves P m.
Proof.
  intros Hdep Hk sys Hp. specialize (Hk (view (mgr sys)) sys eq_refl).
  destruct (m sys) as [[a|e] sys']; simpl in *; eauto.
Qed.

Lemma keeps_ret {A} (a : A) : keeps view (mret a).
Proof. intros c. apply preserves_ret. Qed.

Lemma keeps_throw {A} e : keeps view (throw (A:=A) e).
Proof. intros c. apply preserves_throw. Qed.

Lemma keeps_lift {A} (r : Result A) : keeps view (lift r).
Proof. intros c. apply preserves_lift. Qed.

Lemma keeps_bind {A B} (m : M System A) (k : A -> M System B) :
  keeps view m -> (forall a, keeps view (k a)) -> keeps view (m ≫= k).
Proof. intros Hm Hk c. apply preserves_bind; [apply Hm|intros a; apply Hk]. Qed.

Lemma keeps_get_bind {B} (k : System -> M System B) :
  (forall st0, keeps view (k st0)) -> keeps view (get_state ≫= k).
Proof. intros Hk c. apply preserves_get_bind. intros st0. apply Hk. Qed.

Lemma keeps_try_catch {A} (body : M System A) handler :
  keeps view body -> (forall e, keeps view (handler e)) ->
  keeps view (try_catch body handler).
Proof. intros Hb Hh c. apply preserves_try_catch; [apply Hb|intros e; apply Hh]. Qed.

Lemma keeps_for_each {A} (items : list A) (body : A -> M System unit) :
  (forall x, keeps view (body x)) -> keeps view (for_each items body).
Proof. intros Hb c. apply preserves_for_each. intros x. apply Hb. Qed.

Lemma keeps_modify_mgr (f : Manager -> Manager) :
  (forall m, view (f m) = view m) -> keeps view (modify_mgr f).
Proof.
  intros Hf c. apply preserves_modify. intros st <-. simpl. apply Hf.
Qed.

Lemma keeps_same_mgr {A} (m : M System A) :
  (forall sys, mgr (snd (m sys)) = mgr sys) -> keeps view m.
Proof.
  intros Hm c sys <-. specialize (Hm sys).
  destruct (m sys) as [[a|e] sys']; simpl in *; by rewrite Hm.
Qed.

Lemma dispatch_mgr cmd sys : mgr (snd (dispatch w cmd sys)) = mgr sys.
Proof.
  unfold dispatch, run_settings.
  repeat match goal with
         | |- context [if ?b then _ else _] => destruct b
         | |- context [let '(_, _) := ?x in _] => destruct x
         end; reflexivity.
Qed.

Lemma keeps_dispatch cmd : keeps view (dispatch w cmd).
Proof. apply keeps_same_mgr. apply dispatch_mgr. Qed.

Lemma keeps_assert_allowlisted id : keeps view (assert_allowlisted id).
Proof.
  apply keeps_same_mgr. intros sys. unfold assert_allowlisted.
  by destruct (mem_string _ _).
Qed.

Lemma keeps_assert_enabled id : keeps view (assert_skill_enabled_for_callback id).
Proof.
  apply keeps_same_mgr. intros sys. unfold assert_skill_enabled_for_callback.
  by destruct (_ && _).
Qed.

Lemma keeps_ctx_execute id caps mn op params meta :
  keeps view (ctx_execute w id caps mn op params meta).
Proof.
  unfold ctx_execute.
  apply keeps_bind; [apply keeps_assert_enabled|intros _].
  apply keeps_get_bind. intros sys.
  apply keeps_bind; [apply keeps_lift|intros cmd]. apply keeps_dispatch.
Qed.

Lemma keeps_ctx_emit id name payload : keeps view (ctx_emit id name payload).
Proof.
  unfold ctx_emit.
  apply keeps_bind; [apply keeps_assert_enabled|intros _].
  apply keeps_bind; [apply keeps_lift|intros _].
  destruct (has_function payload); [apply keeps_throw|apply keeps_ret].
Qed.

Lemma keeps_bootstrap id meta :
  keeps view (bootstrap_skill_settings_defaults w id meta).
Proof.
  unfold bootstrap_skill_settings_defaults.
  apply keeps_get_bind. intros sys.
  apply keeps_bind; [apply keeps_dispatch|intros _].
  apply keeps_bind; [apply keeps_lift|intros defaults].
  destruct defaults; [apply keeps_ret|].
  apply keeps_bind; [apply keeps_dispatch|intros existing].
  destruct (obj_has _ id); [apply keeps_ret|].
  apply keeps_bind; [apply keeps_dispatch|intros _]. apply keeps_ret.
Qed.

Lemma keeps_call_module_hooks id op : keeps view (call_module_hooks w id op).
Proof.
  unfold call_module_hooks. apply keeps_get_bind. intros sys.
  apply keeps_for_each. intros md.
  apply keeps_try_catch; [|intros e; apply keeps_ret].
  apply keeps_bind; [apply keeps_dispatch|intros _; apply keeps_ret].
Qed.

Hypothesis Hplain : plain_view view.

Lemma keeps_set_error_state id msg src : keeps view (set_error_state id msg src).
Proof. apply keeps_modify_mgr. intros m. apply (pv_loaded _ Hplain). Qed.

End Frames.

(** ** Module ownership *)

Section Ownership.
Context `{Builtins}.
Variable w : World.

Lemma plain_enabled_view : plain_view enabled_view.
Proof. by constructor. Qed.

Lemma plain_owner_view : plain_view owner_view.
Proof. by constructor. Qed.

Lemma ownership_inv_view s s' :
  owner_view (mgr s) = owner_view (mgr s') -> ownership_inv s -> ownership_inv s'.
Proof.
  unfold owner_view, ownership_inv, owns, modules_of. intros [= E1 E2 E3].
  by rewrite E1, E2, E3.
Qed.

Lemma keeps_owner_preserves {A} (m : M System A) :
  keeps owner_view m -> preserves ownership_inv m.
Proof. apply keeps_preserves. apply ownership_inv_view. Qed.

(** What [registerModule] does once its checks have passed. *)
Lemma ownership_inv_register sys skill_id md reg :
  skill_id <> EmptyString ->
  (m_module_to_skill (mgr sys) !! md = None
   \/ m_module_to_skill (mgr sys) !! md = Some skill_id) ->
  ownership_inv sys ->
  ownership_inv
    (set_mgr (fun m =>
       with_ownership
         (<[skill_id := {[md]} ∪ modules_of m skill_id]> (m_skill_to_modules m))
         (<[md := skill_id]> (m_module_to_skill m)) m)
       (with_registry reg sys)).
Proof.
  intros Hid Hfree (Hown & Hallow & Hne).
  unfold ownership_inv, owns, modules_of in *. simpl. split; [|split; [done|]].
  - intros s md'.
    destruct (decide (s = skill_id)) as [->|Hs];
      destruct (decide (md' = md)) as [->|Hm];
      rewrite ?lookup_insert_eq, ?lookup_insert_ne by done; simpl.
    + split; [done|]. intros _. apply elem_of_union_l. by apply elem_of_singleton.
    + rewrite <- Hown. rewrite elem_of_union, elem_of_singleton. tauto.
    + rewrite Hown. split; [|congruence].
      intros Hs'. destruct Hfree; congruence.
    + apply Hown.
  - intros md' s. destruct (decide (md' = md)) as [->|Hm];
      rewrite ?lookup_insert_eq, ?lookup_insert_ne by done; [congruence|apply Hne].
Qed.

Lemma register_body_inv skill_id md sys :
  skill_id <> EmptyString -> ownership_inv sys ->
  let mapped_skill := m_module_to_skill (mgr sys) !! md in
  let mapped_truthy :=
    match mapped_skill with Some s => str_nonempty s | None => false end in
  let conflict :=
    match mapped_skill with
    | Some s => str_nonempty s && negb (String.eqb s skill_id)
    | None => false
    end in
  forall (e1 e2 : XError) (loaded_name : string),
  ownership_inv (snd (
    (if conflict then throw e1
     else
       _ ← (if negb (bool_decide (md ∈ registry sys))
            then modify (fun s => with_registry ({[loaded_name]} ∪ registry s) s)
            else if negb mapped_truthy then throw e2 else mret tt);
       modify_mgr (fun m =>
         with_ownership
           (<[skill_id := {[md]} ∪ modules_of m skill_id]> (m_skill_to_modules m))
           (<[md := skill_id]> (m_module_to_skill m)) m)) sys)).
Proof.
  intros Hid Hinv mapped_skill mapped_truthy conflict e1 e2 loaded_name.
  subst mapped_skill mapped_truthy conflict.
  destruct (m_module_to_skill (mgr sys) !! md) as [owner|] eqn:Eo.
  - assert (Hown : str_nonempty owner = true).
    { apply str_nonempty_spec. destruct Hinv as (_ & _ & Hne). by eapply Hne. }
    rewrite Hown. cbn [andb negb].
    destruct (String.eqb owner skill_id) eqn:Ee; cbn [negb]; [|exact Hinv].
    apply String.eqb_eq in Ee. subst owner.
    unfold mbind, m_bind, modify_mgr, modify, throw.
    destruct (bool_decide (md ∈ registry sys)); cbn.
    + eapply ownership_inv_view;
        [|apply (ownership_inv_register sys skill_id md (registry sys)); auto].
      reflexivity.
    + apply (ownership_inv_register sys skill_id md); auto.
  - unfold mbind, m_bind, modify_mgr, modify, throw.
    destruct (bool_decide (md ∈ registry sys)); cbn; [exact Hinv|].
    apply (ownership_inv_register sys skill_id md); auto.
Qed.

Lemma ctx_registerModule_inv skill_id module_instance :
  skill_id <> EmptyString ->
  preserves ownership_inv (ctx_registerModule skill_id module_instance).
Proof.
  intros Hid sys Hinv.
  assert (Hgoal : ownership_inv (snd (ctx_registerModule skill_id module_instance sys))).
  { unfold ctx_registerModule.
    destruct module_instance; try exact Hinv.
    all: unfold mbind at 1; unfold m_bind at 1; unfold lift.
    all: destruct (ensure_non_empty_string _ _ _) as [md|e]; [|exact Hinv].
    all: unfold mbind at 1; unfold m_bind at 1; unfold get_state.
    all: exact (register_body_inv skill_id md sys Hid Hinv _ _ _). }
  by destruct (ctx_registerModule skill_id module_instance sys) as [[a|e] sys'].
Qed.

Lemma keeps_same_view {V A} (view : Manager -> V) (m : M System A) :
  (forall sys, view (mgr (snd (m sys))) = view (mgr sys)) -> keeps view m.
Proof.
  intros Hm c sys <-. specialize (Hm sys).
  by destruct (m sys) as [[a|e] sys'].
Qed.

Lemma keeps_ctx_registerModule {V} (view : Manager -> V) skill_id module_instance :
  (forall a b m, view (with_ownership a b m) = view m) ->
  keeps view (ctx_registerModule skill_id module_instance).
Proof.
  intros Hblind. apply keeps_same_view. intros sys.
  unfold ctx_registerModule, mbind, m_bind, lift, get_state, throw, modify_mgr,
    modify, mret, m_ret.
  destruct module_instance; try reflexivity.
  all: destruct (ensure_non_empty_string _ _ _) as [md|e]; [|reflexivity].
  all: destruct (m_module_to_skill (mgr sys) !! md) as [owner|];
         repeat match goal with
                | |- context [if ?b then _ else _] => destruct b
                end; simpl; rewrite ?Hblind; reflexivity.
Qed.

Lemma keeps_run_hook {V} (view : Manager -> V) skill_id caps fn :
  (forall a b m, view (with_ownership a b m) = view m) ->
  keeps view (run_hook w skill_id caps fn).
Proof.
  intros Hblind. unfold run_hook.
  apply keeps_bind; [|intros _; destruct (hook_throws _); [apply keeps_throw|apply keeps_ret]].
  apply keeps_for_each. intros [inst|mn op params meta|name payload|level msg];
    cbn [run_call].
  - by apply keeps_ctx_registerModule.
  - apply keeps_bind; [apply keeps_ctx_execute|intros _; apply keeps_ret].
  - apply keeps_ctx_emit.
  - apply keeps_ret.
Qed.

Lemma run_call_inv skill_id caps c :
  skill_id <> EmptyString -> preserves ownership_inv (run_call w skill_id caps c).
Proof.
  intros Hid. destruct c as [inst|mn op params meta|name payload|level msg];
    cbn [run_call].
  - by apply ctx_registerModule_inv.
  - apply keeps_owner_preserves.
    apply keeps_bind; [apply keeps_ctx_execute|intros _; apply keeps_ret].
  - apply keeps_owner_preserves, keeps_ctx_emit.
  - apply preserves_ret.
Qed.

Lemma run_hook_inv skill_id caps fn :
  skill_id <> EmptyString -> preserves ownership_inv (run_hook w skill_id caps fn).
Proof.
  intros Hid. unfold run_hook.
  apply preserves_bind;
    [|intros _; destruct (hook_throws _); [apply preserves_throw|apply preserves_ret]].
  apply preserves_for_each. intros c. by apply run_call_inv.
Qed.

Lemma allowlisted_nonempty sys id :
  ownership_inv sys -> mem_string id (allow (m_config (mgr sys))) = true ->
  id <> EmptyString.
Proof. intros (_ & Ha & _) Hm. apply Ha. by apply mem_string_in. Qed.

(** After the allow-list check the id is known not to be empty. *)
Lemma preserves_after_allowlisted {A} id (rest : M System A) :
  (id <> EmptyString -> preserves ownership_inv rest) ->
  preserves ownership_inv (assert_allowlisted id ≫= fun _ => rest).
Proof.
  intros Hrest sys Hinv. unfold mbind, m_bind, assert_allowlisted.
  destruct (mem_string id (allow (m_config (mgr sys)))) eqn:Hm; [|exact Hinv].
  apply (Hrest (allowlisted_nonempty sys id Hinv Hm) sys Hinv).
Qed.

Lemma owner_modify_inv (f : Manager -> Manager) :
  (forall m, owner_view (f m) = owner_view m) ->
  preserves ownership_inv (modify_mgr f).
Proof. intros Hf. by apply keeps_owner_preserves, keeps_modify_mgr. Qed.

Lemma enable_skill_inv id src : preserves ownership_inv (enable_skill w id src).
Proof.
  unfold enable_skill. apply preserves_after_allowlisted. intros Hid.
  apply preserves_get_bind. intros sys.
  destruct (_ && _); [apply preserves_ret|].
  destruct (_ && _).
  - apply preserves_bind; [apply keeps_owner_preserves, keeps_bootstrap|intros _].
    apply preserves_bind; [apply keeps_owner_preserves, keeps_call_module_hooks|intros _].
    apply preserves_bind; [by apply owner_modify_inv|intros _].
    by apply owner_modify_inv.
  - apply preserves_bind; [apply preserves_lift|intros resolved].
    apply preserves_bind; [apply preserves_lift|intros loaded_module].
    apply preserves_bind; [apply preserves_lift|intros descriptor].
    apply preserves_finally; [|intros st; by apply ownership_inv_view].
    apply preserves_try_catch.
    + apply preserves_bind; [by apply owner_modify_inv|intros _].
      apply preserves_bind; [apply preserves_lift|intros stored_meta].
      apply preserves_bind; [by apply owner_modify_inv|intros _].
      apply preserves_bind; [apply keeps_owner_preserves, keeps_bootstrap|intros _].
      apply preserves_bind; [by apply run_hook_inv|intros _].
      apply preserves_bind; [by apply owner_modify_inv|intros _].
      apply preserves_bind; [by apply owner_modify_inv|intros _].
      by apply owner_modify_inv.
    + intros e.
      apply preserves_bind; [by apply owner_modify_inv|intros _].
      apply preserves_bind;
        [apply keeps_owner_preserves, keeps_set_error_state, plain_owner_view|intros _].
      apply preserves_bind; [by apply owner_modify_inv|intros _].
      apply preserves_throw.
Qed.

Lemma disable_skill_inv id src : preserves ownership_inv (disable_skill w id src).
Proof.
  unfold disable_skill. apply preserves_after_allowlisted. intros Hid.
  apply preserves_get_bind. intros sys.
  apply preserves_bind; [by apply owner_modify_inv|intros _].
  apply preserves_bind.
  { destruct (m_runtime_by_skill (mgr sys) !! id) as [[? ? ? caps ? [fn|]]|];
      try apply preserves_ret.
    apply preserves_try_catch; [by apply run_hook_inv|intros e; apply preserves_ret]. }
  intros _.
  apply preserves_bind; [apply keeps_owner_preserves, keeps_call_module_hooks|intros _].
  by apply owner_modify_inv.
Qed.

Lemma persist_inv : preserves ownership_inv (persist_enabled_to_agent_config w).
Proof.
  unfold persist_enabled_to_agent_config.
  apply preserves_get_bind. intros sys.
  apply preserves_bind; [by apply owner_modify_inv|intros _].
  apply preserves_bind; [apply preserves_lift|intros parsed].
  apply preserves_get_bind. intros sys'.
  destruct (w_config_writable w); [|apply preserves_throw].
  apply preserves_modify. intros st. by apply ownership_inv_view.
Qed.

Lemma enable_impl_inv xcmd : preserves ownership_inv (enable_impl w xcmd).
Proof.
  unfold enable_impl. apply preserves_get_bind. intros sys.
  apply preserves_bind; [apply preserves_lift|intros _].
  apply preserves_bind; [apply preserves_lift|intros id].
  apply preserves_bind; [apply enable_skill_inv|intros _].
  apply preserves_bind.
  { apply preserves_try_catch; [apply persist_inv|intros e].
    apply preserves_bind; [|intros _; apply preserves_throw].
    destruct (negb _); [|apply preserves_ret].
    apply preserves_try_catch; [apply disable_skill_inv|intros ?; apply preserves_ret]. }
  intros _. unfold reply_for. apply preserves_get_bind. intros ?. apply preserves_ret.
Qed.

Lemma disable_impl_inv xcmd : preserves ownership_inv (disable_impl w xcmd).
Proof.
  unfold disable_impl. apply preserves_get_bind. intros sys.
  apply preserves_bind; [apply preserves_lift|intros _].
  apply preserves_bind; [apply preserves_lift|intros id].
  apply preserves_bind; [apply disable_skill_inv|intros _].
  apply preserves_bind.
  { apply preserves_try_catch; [apply persist_inv|intros e].
    apply preserves_bind; [|intros _; apply preserves_throw].
    destruct (bool_decide _); [|apply preserves_ret].
    apply preserves_try_catch; [apply enable_skill_inv|intros ?; apply preserves_ret]. }
  intros _. unfold reply_for. apply preserves_get_bind. intros ?. apply preserves_ret.
Qed.

Lemma read_agent_config_allow file config id :
  read_agent_config file = Ok config -> In id (allow config) -> id <> EmptyString.
Proof.
  destruct file as [ | | |[]]; try discriminate; intros [= <-]; simpl; [tauto|].
  intros Hin. by apply normalize_string_array_in in Hin as [Hne _].
Qed.

Lemma reload_enabled_impl_inv xcmd : preserves ownership_inv (reload_enabled_impl w xcmd).
Proof.
  unfold reload_enabled_impl. apply preserves_get_bind. intros sys.
  apply preserves_bind; [apply preserves_lift|intros _].
  eapply hoare_bind with (R := fun config st =>
    ownership_inv st /\ forall id, In id (allow config) -> id <> EmptyString).
  { apply hoare_lift; [|done]. intros config st Hr Hinv. split; [done|].
    intros id. by eapply read_agent_config_allow. }
  intros config. apply hoare_pure'. intros Hallow.
  apply preserves_bind.
  { apply preserves_modify. intros st (Ho & _ & Hm). split; [exact Ho|]. split; [|exact Hm].
    exact Hallow. }
  intros _.
  apply preserves_bind.
  { apply preserves_for_each. intros id.
    destruct (mem_string id (enabled config)); [apply preserves_ret|apply disable_skill_inv]. }
  intros _. apply preserves_for_each. intros id.
  apply preserves_try_catch; [apply enable_skill_inv|intros e].
  apply keeps_owner_preserves, keeps_set_error_state, plain_owner_view.
Qed.

End Ownership.

(** ** Reachable states *)

Section Reachability.
Context `{Builtins}.
Variable w : World.

Lemma initial_inv sys : initial_system sys -> ownership_inv sys.
Proof.
  intros (cwd & a & v & r & p & k & Hm).
  unfold ownership_inv, owns, modules_of. rewrite Hm. simpl. split; [|split].
  - intros s md. rewrite !lookup_empty. simpl. split; [set_solver|discriminate].
  - tauto.
  - intros md s. by rewrite lookup_empty.
Qed.

Lemma reachable_inv sys : reachable w sys -> ownership_inv sys.
Proof.
  induction 1 as [sys Hi|sys xcmd _ IH|sys xcmd _ IH|sys xcmd _ IH
                 |sys id caps c _ IH Hid|sys sys' _ IH Hm].
  - by apply initial_inv.
  - by apply preserves_snd; [apply enable_impl_inv|].
  - by apply preserves_snd; [apply disable_impl_inv|].
  - by apply preserves_snd; [apply reload_enabled_impl_inv|].
  - by apply preserves_snd; [apply run_call_inv|].
  - eapply ownership_inv_view; [|exact IH]. by rewrite Hm.
Qed.

End Reachability.

(** Claim C8: the allow-list gate.  For an id that is not in the
    configured allow-list, [enable_skill] throws
    [E_SKILLS_NOT_ALLOWLISTED] without changing the state, the enable
    command of an authorised caller throws the same error without
    changing the state, and the enabled set after the command is the
    enabled set before it. *)
Theorem allowlist_gate `{Builtins} (w : World) (sys : System)
    (xcmd : XCommandData) (id source : string) :
  ~ In id (allow (m_config (mgr sys))) ->
  requireKernelCapOrActorRole (guard_secret sys) (readCommandCtx xcmd) "admin" = Ok tt ->
  command_id xcmd = Ok id ->
  enable_skill w id source sys
  = (Throw (mkXError E_SKILLS_NOT_ALLOWLISTED ("Skill id is not in allowlist: " +:+ id)),
     sys)
  /\ enable_impl w xcmd sys
     = (Throw (mkXError E_SKILLS_NOT_ALLOWLISTED ("Skill id is not in allowlist: " +:+ id)),
        sys)
  /\ m_enabled (mgr (snd (enable_impl w xcmd sys))) = m_enabled (mgr sys).
Proof.
  intros Hn Hauth Hid.
  assert (Hm : mem_string id (allow (m_config (mgr sys))) = false).
  { destruct (mem_string id _) eqn:E; [|done]. by apply mem_string_in in E. }
  assert (Hs : forall src, enable_skill w id src sys
            = (Throw (mkXError E_SKILLS_NOT_ALLOWLISTED
                        ("Skill id is not in allowlist: " +:+ id)), sys)).
  { intros src. unfold enable_skill, mbind, m_bind, assert_allowlisted. by rewrite Hm. }
  assert (Hi : enable_impl w xcmd sys
            = (Throw (mkXError E_SKILLS_NOT_ALLOWLISTED
                        ("Skill id is not in allowlist: " +:+ id)), sys)).
  { unfold enable_impl, mbind at 1, m_bind at 1, get_state.
    unfold mbind at 1, m_bind at 1, lift. rewrite Hauth.
    unfold mbind at 1, m_bind at 1, lift. rewrite Hid.
    unfold mbind at 1, m_bind at 1. by rewrite Hs. }
  split; [apply Hs|]. split; [exact Hi|]. by rewrite Hi.
Qed.

(** The allow-list gate on the sample system, for an id outside its
    allow-list. *)
Lemma allowlist_gate_witness :
  m_enabled (mgr (snd (enable_impl sample_world
                         (admin_command "enable" [("id", VStr "rogue")])
                         sample_loaded)))
  = m_enabled (mgr sample_loaded).
Proof.
  refine (proj2 (proj2 (allowlist_gate sample_world sample_loaded
            (admin_command "enable" [("id", VStr "rogue")]) "rogue" "command" _ _ _))).
  - vm_compute. intros [E|[]]. discriminate E.
  - reflexivity.
  - reflexivity.
Defined.

(** Claim C6: module ownership is exclusive.  In every reachable state a
    module name is owned by at most one skill; [registerModule] by a skill
    for a module name that another skill owns throws
    [E_SKILLS_MODULE_CONFLICT] and changes nothing; and so does
    [registerModule] for a module name that is in the module registry and
    that no skill owns. *)
Theorem ownership_exclusive `{Builtins} (w : World) (sys : System) :
  reachable w sys ->
  (forall s1 s2 md, owns sys s1 md -> owns sys s2 md -> s1 = s2)
  /\ (forall skill_id owner md module_instance,
        owns sys owner md -> owner <> skill_id ->
        declares_module module_instance md ->
        exists e, ctx_registerModule skill_id module_instance sys = (Throw e, sys)
                  /\ code e = E_SKILLS_MODULE_CONFLICT)
  /\ (forall skill_id md module_instance,
        (forall s, ~ owns sys s md) -> md ∈ registry sys ->
        declares_module module_instance md ->
        exists e, ctx_registerModule skill_id module_instance sys = (Throw e, sys)
                  /\ code e = E_SKILLS_MODULE_CONFLICT).
Proof.
  intros Hr. destruct (reachable_inv w sys Hr) as (Hown & _ & Hne).
  split; [|split].
  - intros s1 s2 md H1 H2. apply Hown in H1, H2. congruence.
  - intros skill_id owner md inst Ho Hdiff (fields & -> & Hname).
    apply Hown in Ho. unfold ctx_registerModule. cbn [as_obj].
    unfold mbind at 1, m_bind at 1, lift. rewrite Hname.
    unfold mbind at 1, m_bind at 1, get_state. rewrite Ho.
    assert (Hs : str_nonempty owner = true) by (apply str_nonempty_spec; eauto).
    assert (He : String.eqb owner skill_id = false) by by apply String.eqb_neq.
    rewrite Hs, He. cbn [andb negb]. eexists. split; reflexivity.
  - intros skill_id md inst Hnone Hreg (fields & -> & Hname).
    assert (Hmap : m_module_to_skill (mgr sys) !! md = None).
    { destruct (m_module_to_skill (mgr sys) !! md) as [s|] eqn:E; [|done].
      apply Hown in E. by destruct (Hnone s). }
    unfold ctx_registerModule. cbn [as_obj].
    unfold mbind at 1, m_bind at 1, lift. rewrite Hname.
    unfold mbind at 1, m_bind at 1, get_state. rewrite Hmap.
    rewrite (bool_decide_eq_true_2 _ Hreg). cbn [negb].
    unfold mbind, m_bind, throw. eexists. split; reflexivity.
Qed.

Lemma sample_enabled_reachable : reachable sample_world sample_enabled.
Proof.
  apply reach_enable, reach_reload, reach_init.
  by exists "/", "agent", "1.0", "/repo", "/repo/packages/agent-core", sample_secret.
Qed.

(** Ownership on the sample system after [echo] has been enabled. *)
Lemma ownership_exclusive_witness :
  exists e,
    ctx_registerModule "intruder" (VObj [("_name", VStr "echo")]) sample_enabled
    = (Throw e, sample_enabled)
    /\ code e = E_SKILLS_MODULE_CONFLICT.
Proof.
  refine (proj1 (proj2 (ownership_exclusive sample_world sample_enabled
            sample_enabled_reachable)) "intruder" "echo" "echo"
            (VObj [("_name", VStr "echo")]) _ _ _).
  - vm_compute. reflexivity.
  - discriminate.
  - eexists. split; reflexivity.
Defined.

(** ** The enabled set *)

Section EnabledSet.
Context `{Builtins}.
Variable w : World.

Lemma frame_step {B} (m : M System B) E A (Ex : XError -> System -> Prop) :
  keeps enabled_view m ->
  (forall e s, enabled_is E A s -> Ex e s) ->
  hoare (enabled_is E A) m (fun _ => enabled_is E A) Ex.
Proof.
  intros Hk Hex. eapply hoare_consequence; [apply (Hk (E, A))|..]; eauto.
Qed.

Lemma frame_modify (f : Manager -> Manager) E A Ex :
  (forall m, enabled_view (f m) = enabled_view m) ->
  hoare (enabled_is E A) (modify_mgr f) (fun _ => enabled_is E A) Ex.
Proof. intros Hf. apply hoare_modify. intros st Hs. unfold enabled_is. simpl. by rewrite Hf. Qed.

Lemma add_enabled id E A Ex :
  hoare (enabled_is E A)
    (modify_mgr (fun m => with_enabled ({[id]} ∪ m_enabled m) m))
    (fun _ => enabled_is ({[id]} ∪ E) A) Ex.
Proof.
  apply hoare_modify. intros st Hs. unfold enabled_is, enabled_view in *. simpl.
  injection Hs as H1 H2. by rewrite H1, H2.
Qed.

Lemma remove_enabled id E A Ex :
  hoare (enabled_is E A)
    (modify_mgr (fun m => with_enabled (m_enabled m ∖ {[id]}) m))
    (fun _ => enabled_is (E ∖ {[id]}) A) Ex.
Proof.
  apply hoare_modify. intros st Hs. unfold enabled_is, enabled_view in *. simpl.
  injection Hs as H1 H2. by rewrite H1, H2.
Qed.

Lemma allowlisted_step id E A :
  hoare (enabled_is E A) (assert_allowlisted id)
    (fun _ s => enabled_is E A s /\ In id A)
    (fun _ s => enabled_is E A s /\ ~ In id A).
Proof.
  intros st Hs. unfold assert_allowlisted.
  assert (Ha : allow (m_config (mgr st)) = A) by (by injection Hs).
  rewrite Ha. destruct (mem_string id A) eqn:Hm.
  - split; [done|]. by apply mem_string_in.
  - split; [done|]. rewrite <- mem_string_in. by rewrite Hm.
Qed.

Lemma ownership_blind_enabled a b m :
  enabled_view (with_ownership a b m) = enabled_view m.
Proof. reflexivity. Qed.

(** What [enable_skill] does to the enabled set. *)
Lemma enable_skill_enabled id src E A :
  hoare (enabled_is E A) (enable_skill w id src)
    (fun _ s => enabled_is ({[id]} ∪ E) A s /\ In id A)
    (fun _ s => enabled_is E A s \/ enabled_is (E ∖ {[id]}) A s).
Proof.
  unfold enable_skill.
  eapply hoare_bind.
  { eapply hoare_consequence; [apply allowlisted_step|..]; eauto.
    intros e s [Hs _]. by left. }
  intros ?. apply hoare_pure'. intros Hallow.
  eapply hoare_bind with (R := fun sys0 st => enabled_is E A st /\ enabled_is E A sys0).
  { by apply hoare_get. }
  intros sys0. apply hoare_pure'. intros Hsys0.
  assert (HE : m_enabled (mgr sys0) = E) by (by injection Hsys0).
  destruct (is_status StatusLoaded (m_loaded (mgr sys0) !! id)
            && bool_decide (id ∈ m_enabled (mgr sys0))) eqn:C1.
  { apply hoare_ret. intros st Hs. split; [|done].
    apply andb_true_iff in C1 as [_ Hin]. apply bool_decide_eq_true in Hin.
    rewrite HE in Hin. replace ({[id]} ∪ E) with E; [done|].
    apply set_eq. intros x. rewrite elem_of_union, elem_of_singleton.
    split; [tauto|]. intros [->|]; done. }
  destruct (is_status StatusDisabled (m_loaded (mgr sys0) !! id)
            && bool_decide (is_Some (m_runtime_by_skill (mgr sys0) !! id))) eqn:C2.
  - eapply hoare_bind; [apply frame_step; [apply keeps_bootstrap|by left]|intros ?].
    eapply hoare_bind; [apply frame_step; [apply keeps_call_module_hooks|by left]|intros ?].
    eapply hoare_bind; [apply add_enabled|intros ?].
    eapply hoare_consequence; [apply frame_modify with (Ex := fun _ _ => False); done|..];
      eauto; done.
  - eapply hoare_bind; [apply frame_step; [apply keeps_lift|by left]|intros resolved].
    eapply hoare_bind; [apply frame_step; [apply keeps_lift|by left]|intros loaded_module].
    eapply hoare_bind; [apply frame_step; [apply keeps_lift|by left]|intros descriptor].
    eapply hoare_finally
      with (Q1 := fun _ s => enabled_is ({[id]} ∪ E) A s /\ In id A)
           (E1 := fun _ s => enabled_is E A s \/ enabled_is (E ∖ {[id]}) A s).
    2: { intros ? st [Hs Hi]. split; [|done]. exact Hs. }
    2: { intros ? st [Hs|Hs]; [left|right]; exact Hs. }
    eapply hoare_try_catch with (E1 := fun _ => enabled_is E A).
    + eapply hoare_bind; [by apply frame_modify|intros ?].
      eapply hoare_bind; [apply frame_step; [apply keeps_lift|done]|intros stored_meta].
      eapply hoare_bind; [by apply frame_modify|intros ?].
      eapply hoare_bind; [apply frame_step; [apply keeps_bootstrap|done]|intros ?].
      eapply hoare_bind;
        [apply frame_step; [apply keeps_run_hook, ownership_blind_enabled|done]|intros ?].
      eapply hoare_bind; [apply add_enabled|intros ?].
      eapply hoare_bind; [by apply frame_modify|intros ?].
      eapply hoare_consequence; [apply frame_modify with (Ex := fun _ _ => False); done|..];
        eauto; done.
    + intros e.
      eapply hoare_bind; [apply remove_enabled|intros ?].
      eapply hoare_bind;
        [apply frame_step;
           [apply keeps_set_error_state, plain_enabled_view|by right]|intros ?].
      eapply hoare_bind; [by apply frame_modify|intros ?].
      apply hoare_throw. by right.
Qed.

Lemma call_module_hooks_total id op E A Ex :
  hoare (enabled_is E A) (call_module_hooks w id op) (fun _ => enabled_is E A) Ex.
Proof.
  unfold call_module_hooks.
  eapply hoare_bind with (R := fun _ => enabled_is E A); [by apply hoare_get|].
  intros sys0. apply hoare_for_each. intros md _.
  eapply hoare_try_catch with (E1 := fun _ => enabled_is E A).
  - apply frame_step; [|done].
    apply keeps_bind; [apply keeps_dispatch|intros ?; apply keeps_ret].
  - intros e. by apply hoare_ret.
Qed.

(** What [disable_skill] does to the enabled set. *)
Lemma disable_skill_enabled id src E A :
  hoare (enabled_is E A) (disable_skill w id src)
    (fun _ s => enabled_is (E ∖ {[id]}) A s /\ In id A)
    (fun _ s => enabled_is E A s /\ ~ In id A).
Proof.
  unfold disable_skill.
  eapply hoare_bind; [apply allowlisted_step|].
  intros ?. apply hoare_pure'. intros Hallow.
  eapply hoare_bind with (R := fun _ st => enabled_is E A st); [by apply hoare_get|].
  intros sys0.
  eapply hoare_bind; [apply remove_enabled|intros ?].
  eapply hoare_bind with (R := fun _ => enabled_is (E ∖ {[id]}) A).
  { destruct (m_runtime_by_skill (mgr sys0) !! id) as [[? ? ? caps ? [fn|]]|];
      try by apply hoare_ret.
    eapply hoare_try_catch with (E1 := fun _ => enabled_is (E ∖ {[id]}) A).
    - apply frame_step; [apply keeps_run_hook, ownership_blind_enabled|done].
    - intros e. by apply hoare_ret. }
  intros ?.
  eapply hoare_bind; [apply call_module_hooks_total|intros ?].
  eapply hoare_consequence; [apply frame_modify with (Ex := fun _ _ => False); done|..];
    eauto; done.
Qed.

Lemma keeps_persist : keeps enabled_view (persist_enabled_to_agent_config w).
Proof.
  unfold persist_enabled_to_agent_config.
  apply keeps_get_bind. intros sys.
  apply keeps_bind; [by apply keeps_modify_mgr|intros ?].
  apply keeps_bind; [apply keeps_lift|intros parsed].
  apply keeps_get_bind. intros sys'.
  destruct (w_config_writable w); [|apply keeps_throw].
  intros c. by apply preserves_modify.
Qed.

End EnabledSet.

(** ** Persistence failures *)

Section Rollback.
Context `{Builtins}.
Variable w : World.

Lemma enabled_is_here sys :
  enabled_is (m_enabled (mgr sys)) (allow (m_config (mgr sys))) sys.
Proof. reflexivity. Qed.



End Rollback.


(** The hooks of the sample environment, which are those of
    [read_only_world] too, send nothing to the manager. *)
Lemma sample_hooks_stay_out : no_reentry sample_world.
Proof. intros [|[|fn]]; reflexivity. Qed.



Example disable_rollback_failure_trace :
  fst (disable_impl read_only_world (echo_command "disable") sample_storage_down)
  = Throw PERSIST_FAILED
  /\ elements (m_enabled (mgr sample_storage_down)) = ["echo"]
  /\ elements (m_enabled (mgr (snd (disable_impl read_only_world
                                      (echo_command "disable") sample_storage_down))))
     = [].
Proof. vm_compute. repeat split. Qed.

(** ** The settings store and the defaults bootstrap *)

Section JsonSafe.
Implicit Types (o : obj) (v : value) (p : list string).

Lemma has_function_obj o :
  has_function (VObj o) = existsb (fun kv => has_function (snd kv)) o.
Proof. simpl. induction o as [|[k c] o IH]; simpl; congruence. Qed.

Lemma json_obj_forall o :
  json_safe (VObj o) <-> forall k x, In (k, x) o -> json_safe x.
Proof.
  unfold json_safe. rewrite has_function_obj. split.
  - intros Hex k x Hin. destruct (has_function x) eqn:E; [|done].
    assert (existsb (fun kv => has_function (snd kv)) o = true); [|congruence].
    apply existsb_exists. by exists (k, x).
  - intros Hall. destruct (existsb _ o) eqn:E; [|done].
    apply existsb_exists in E as ([k x] & Hin & Hx). simpl in Hx.
    pose proof (Hall k x Hin) as Hj. unfold json_safe in Hj. congruence.
Qed.

Lemma obj_get_in_or_undef o k : obj_get o k = VUndef \/ In (k, obj_get o k) o.
Proof.
  induction o as [|[k0 v0] o IH]; simpl; [by left|].
  destruct (String.eqb k0 k) eqn:E.
  - apply String.eqb_eq in E. subst. right. by left.
  - destruct IH; [by left|right; by right].
Qed.

Lemma json_get o k : json_safe (VObj o) -> json_safe (obj_get o k).
Proof.
  rewrite json_obj_forall. intros Hall.
  destruct (obj_get_in_or_undef o k) as [->|Hin]; [done|eauto].
Qed.

Lemma obj_set_in o k v k' x :
  In (k', x) (obj_set o k v) -> (k' = k /\ x = v) \/ In (k', x) o.
Proof.
  induction o as [|[k0 v0] o IH]; simpl.
  - intros [[= <- <-]|[]]. by left.
  - destruct (String.eqb k0 k) eqn:E; simpl.
    + apply String.eqb_eq in E. subst. intros [[= <- <-]|Hin]; [by left|right; by right].
    + intros [Heq|Hin]; [right; by left|]. destruct (IH Hin); [by left|right; by right].
Qed.

Lemma json_set o k v : json_safe (VObj o) -> json_safe v -> json_safe (VObj (obj_set o k v)).
Proof.
  rewrite !json_obj_forall. intros Ho Hv k' x Hin.
  apply obj_set_in in Hin as [[_ ->]|Hin]; eauto.
Qed.

Lemma obj_del_in o k k' x : In (k', x) (obj_del o k) -> In (k', x) o.
Proof.
  induction o as [|[k0 v0] o IH]; simpl; [done|].
  destruct (String.eqb k0 k); simpl; tauto.
Qed.

Lemma json_del o k : json_safe (VObj o) -> json_safe (VObj (obj_del o k)).
Proof.
  rewrite !json_obj_forall. intros Ho k' x Hin. apply obj_del_in in Hin. eauto.
Qed.

Lemma json_get_parts v p : json_safe v -> json_safe (get_parts v p).
Proof.
  revert v. induction p as [|k p IH]; intros v Hv; simpl; [done|].
  destruct v; try done. apply IH. by apply json_get.
Qed.

Lemma json_child o k :
  json_safe (VObj o) ->
  json_safe (VObj (if is_plain_object (obj_get o k) then as_obj (obj_get o k) else [])).
Proof. intros Ho. pose proof (json_get o k Ho). by destruct (obj_get o k). Qed.

(** A clone holds no function unless the original does. *)
Lemma json_clone v : json_safe v -> json_safe (deep_clone v).
Proof.
  induction v as [ | | | | | | items IH | fields IH] using value_nested_ind; auto.
  - unfold json_safe. simpl. intros Hv.
    induction items as [|x items IHi]; simpl in *; auto.
    apply orb_false_iff in Hv as [Hx Hv].
    rewrite (IH x) by auto. apply IHi; auto.
  - intros Hv. pose proof (proj1 (json_obj_forall _) Hv) as Hall.
    change (deep_clone (VObj fields)) with (VObj (as_obj (deep_clone (VObj fields)))).
    apply json_obj_forall. rewrite clone_fields_map. intros k x Hin.
    apply in_map_iff in Hin as ([k0 x0] & [= <- <-] & Hin).
    apply filter_In in Hin as [Hin _]. simpl. eapply IH; eauto.
Qed.

Lemma json_clone_obj o : json_safe (VObj o) -> json_safe (VObj (as_obj (deep_clone (VObj o)))).
Proof. apply (json_clone (VObj o)). Qed.

Lemma json_set_parts o p v :
  json_safe (VObj o) -> json_safe v -> json_safe (VObj (set_parts o p v)).
Proof.
  revert o. induction p as [|k p IH]; intros o Ho Hv; [done|].
  destruct p as [|k2 p].
  - simpl. apply json_set; [done|]. by apply json_clone.
  - rewrite set_parts_cons by done. apply json_set; [done|].
    apply IH; [by apply json_child|done].
Qed.

Lemma json_del_parts o p : json_safe (VObj o) -> json_safe (VObj (del_parts o p)).
Proof.
  revert o. induction p as [|k p IH]; intros o Ho; [done|].
  destruct p as [|k2 p].
  - simpl. by apply json_del.
  - rewrite del_parts_cons by done. pose proof (json_get o k Ho).
    destruct (obj_get o k); try done. apply json_set; [done|]. by apply IH.
Qed.

Lemma json_merge_entry cur val :
  json_safe cur -> json_safe val -> json_safe (merge_entry cur val).
Proof.
  revert cur. induction val as [ | | | | | | items IH | fields IH] using value_nested_ind;
    intros cur Hc Hv;
    try (rewrite merge_entry_other by (destruct cur; reflexivity);
         by apply json_clone).
  destruct cur as [ | | | | | | |c];
    try (rewrite merge_entry_other by reflexivity; by apply json_clone).
  rewrite merge_entry_loop.
  assert (Hall : forall k x, In (k, x) fields -> json_safe x)
    by by apply json_obj_forall.
  apply json_clone_obj in Hc. revert Hc. generalize (as_obj (deep_clone (VObj c))).
  clear Hv c.
  induction fields as [|[k x] fields IHf]; intros c Hc; [done|].
  cbn [List.filter]. destruct (copied (k, x)).
  - cbn [merge_loop]. apply IHf.
    + intros; eapply IH; eauto; by right.
    + intros; eapply Hall; by right.
    + apply json_set; [done|].
      eapply IH; [by left|by apply json_get|eapply Hall; by left].
  - apply IHf; [intros; eapply IH; eauto; by right|intros; eapply Hall; by right|done].
Qed.

Lemma json_deepMerge a b :
  json_safe (VObj a) -> json_safe (VObj b) -> json_safe (VObj (deepMerge a b)).
Proof.
  intros Ha Hb. rewrite <- merge_entry_objects. by apply json_merge_entry.
Qed.

Lemma json_patch_fold existing paths patch_copy :
  json_safe (VObj existing) -> json_safe (VObj patch_copy) ->
  json_safe (VObj (fold_left (patch_step existing) paths patch_copy)).
Proof.
  intros He. revert patch_copy.
  induction paths as [|q paths IH]; intros pc Hp; [done|].
  simpl. apply IH. unfold patch_step, setByPath, deleteByPath.
  destruct (is_sentinel _); [|done].
  destruct (negb _); [apply json_set_parts|apply json_del_parts]; auto.
  by apply json_get_parts.
Qed.

Lemma json_applyPatch existing patch paths :
  json_safe (VObj existing) -> json_safe (VObj patch) ->
  json_safe (VObj (applyPatchWithMaskHandling existing patch paths)).
Proof.
  intros He Hp. unfold applyPatchWithMaskHandling.
  apply json_deepMerge; [done|]. apply json_patch_fold; [done|]. by apply json_clone_obj.
Qed.

Lemma json_str_array l : json_safe (str_array l).
Proof.
  unfold json_safe, str_array. simpl. induction l as [|x l IH]; simpl; auto.
Qed.

Lemma clone_json_ok v : json_safe v -> clone_json v = Ok v.
Proof. intros Hv. unfold clone_json. by rewrite Hv. Qed.

Lemma clone_or_empty_ok v :
  json_safe v ->
  clone_or_empty v = Ok (if is_plain_object v then as_obj v else []).
Proof.
  intros Hv. unfold clone_or_empty. destruct v; try reflexivity.
  by rewrite clone_json_ok.
Qed.

End JsonSafe.

Section SettingsFacts.
Context `{Builtins}.
Variable work_dir : string.
Variable secret : string.
Variable resolver : string -> Result value.

Lemma bind_run {S A B : Type} (m : M S A) (k : A -> M S B) st a st' :
  m st = (Ok a, st') -> (m ≫= k) st = k a st'.
Proof. intros Hm. unfold mbind, m_bind. by rewrite Hm. Qed.

Lemma bind_lift {S A B : Type} (r : Result A) (k : A -> M S B) st a :
  r = Ok a -> (lift r ≫= k) st = k a st.
Proof. intros ->. reflexivity. Qed.

Lemma ensure_storage_ready_ok st :
  storage_ready work_dir st = true ->
  ensure_storage_ready work_dir st = (Ok tt, ready_settings work_dir st).
Proof.
  unfold storage_ready. intros [Ha Hw]%andb_prop.
  unfold ensure_storage_ready, ready_settings.
  destruct st as [doc init wd av]; simpl in *. subst av.
  destruct init; simpl in *; [|done].
  rewrite Hw. simpl. apply String.eqb_eq in Hw. by subst wd.
Qed.

Lemma storage_ready_ready st :
  storage_ready work_dir st = true ->
  storage_ready work_dir (ready_settings work_dir st) = true.
Proof.
  unfold storage_ready. intros [Ha _]%andb_prop. simpl.
  by rewrite Ha, String.eqb_refl.
Qed.

Lemma ready_settings_idem st :
  ready_settings work_dir (ready_settings work_dir st) = ready_settings work_dir st.
Proof. reflexivity. Qed.



Lemma read_root_spec (doc : obj) :
  json_safe (VObj doc) ->
  exists root,
    read_root doc = Ok root /\
    obj_get root "skills" = VObj (skills_bucket_of doc) /\
    json_safe (VObj root) /\
    (keys_distinct (obj_keys doc) = true -> keys_distinct (obj_keys root) = true) /\
    obj_has root "skills" = true.
Proof.
  intros Hdoc. unfold read_root.
  rewrite (clone_or_empty_ok (VObj doc) Hdoc). cbn [is_plain_object as_obj mbind result_bind].
  set (root1 := if is_plain_object (obj_get doc "ui") then doc else _).
  assert (H1 : json_safe (VObj root1)).
  { subst root1. destruct (is_plain_object _); [done|]. by apply json_set. }
  assert (G1 : obj_get root1 "skills" = obj_get doc "skills").
  { subst root1. destruct (is_plain_object _); [done|].
    by rewrite obj_get_set_other. }
  assert (K1 : keys_distinct (obj_keys doc) = true -> keys_distinct (obj_keys root1) = true).
  { subst root1. destruct (is_plain_object _); [done|]. apply keys_distinct_set. }
  clearbody root1.
  set (root2 := if is_plain_object (obj_get root1 "skills") then root1 else _).
  assert (H2 : json_safe (VObj root2)).
  { subst root2. destruct (is_plain_object _); [done|]. by apply json_set. }
  assert (G2 : obj_get root2 "skills" = VObj (skills_bucket_of doc)).
  { subst root2. unfold skills_bucket_of. rewrite G1.
    destruct (is_plain_object (obj_get doc "skills")) eqn:E.
    - rewrite G1. by destruct (obj_get doc "skills").
    - by rewrite obj_get_set_same. }
  assert (K2 : keys_distinct (obj_keys doc) = true -> keys_distinct (obj_keys root2) = true).
  { intros Hk. subst root2. destruct (is_plain_object _); [by apply K1|].
    apply keys_distinct_set. by apply K1. }
  assert (S2 : obj_has root2 "skills" = true).
  { subst root2. destruct (is_plain_object (obj_get root1 "skills")) eqn:E.
    - destruct (obj_has root1 "skills") eqn:E2; [done|].
      rewrite obj_get_absent in E; [discriminate|].
      rewrite <- obj_has_in. congruence.
    - rewrite <- (obj_get_set_same root1 "skills" (VObj [])).
      apply obj_has_get. by rewrite !obj_get_set_same. }
  clearbody root2.
  rewrite (clone_or_empty_ok (obj_get root2 "agent")) by by apply json_get.
  cbn [mbind result_bind].
  set (agent := if is_plain_object (obj_get root2 "agent") then _ else _).
  assert (Ha : json_safe (VObj agent)) by by apply json_child.
  clearbody agent.
  set (agent1 := if obj_has agent "name" then agent else _).
  assert (Ha1 : json_safe (VObj agent1)).
  { subst agent1. destruct (obj_has agent "name"); [done|]. by apply json_set. }
  clearbody agent1.
  set (agent2 := if obj_has agent1 "business_name" then agent1 else _).
  assert (Ha2 : json_safe (VObj agent2)).
  { subst agent2. destruct (obj_has agent1 "business_name"); [done|].
    by apply json_set. }
  clearbody agent2.
  set (root3 := obj_set root2 "agent" (VObj agent2)).
  assert (H3 : json_safe (VObj root3)) by by apply json_set.
  rewrite (clone_or_empty_ok (obj_get root3 "kb")) by by apply json_get.
  cbn [mbind result_bind].
  set (kb := if is_plain_object (obj_get root3 "kb") then _ else _).
  assert (Hkb : json_safe (VObj kb)) by by apply json_child.
  eexists. split; [reflexivity|].
  split; [|split; [|split]].
  - rewrite obj_get_set_other by done. subst root3.
    by rewrite obj_get_set_other.
  - apply json_set; [done|]. repeat apply json_set; try done.
    apply json_str_array.
  - intros Hk. apply keys_distinct_set. subst root3. apply keys_distinct_set. auto.
  - apply obj_has_in. rewrite obj_keys_set.
    assert (In "skills" (obj_keys root3)).
    { subst root3. rewrite obj_keys_set. apply obj_has_in in S2.
      destruct (obj_has root2 "agent"); [done|]. apply in_or_app. by left. }
    destruct (obj_has root3 "kb"); [done|]. apply in_or_app. by left.
Qed.

End SettingsFacts.

Section MoreSettingsFacts.
Context `{Builtins}.
Variable work_dir : string.
Variable secret : string.
Variable resolver : string -> Result value.

Lemma resolve_skill_meta_defaults_json id meta_opt :
  resolve_skill_meta resolver id = Ok meta_opt ->
  json_safe (meta_get meta_opt "defaults").
Proof.
  unfold resolve_skill_meta. intros Hr.
  apply bind_ok in Hr as (raw_meta & _ & Hr).
  destruct (is_falsy raw_meta); [by injection Hr as <-|].
  destruct raw_meta as [ | | | | | | |raw]; try discriminate Hr.
  apply bind_ok in Hr as (defaults & Hd & Hr).
  apply bind_ok in Hr as (schema & Hs & Hr).
  injection Hr as <-. unfold json_safe, meta_get.
  assert (Hrest : forall sens,
            (sens = [] \/ exists x, sens = [("sensitive", x)]) ->
            obj_get (sens ++ schema) "defaults" = VUndef).
  { intros sens Hsens.
    assert (obj_get schema "defaults" = VUndef).
    { destruct (obj_get raw "schema"); try (by injection Hs as <-);
        apply bind_ok in Hs as (? & _ & Hs); by injection Hs as <-. }
    destruct Hsens as [->|[x ->]]; done. }
  destruct (obj_get raw "defaults") as [ | | | | | | |d] eqn:Ed; try discriminate Hd.
  - injection Hd as <-. rewrite app_nil_l.
    destruct (obj_get raw "sensitive"); (rewrite Hrest; [done|eauto]).
  - destruct (has_function (VObj d)) eqn:Ef; [discriminate Hd|].
    rewrite clone_json_ok in Hd by done. injection Hd as <-. exact Ef.
Qed.

Lemma persist_entries_ok (entries doc : obj) :
  json_safe (VObj entries) ->
  persist_entries entries doc = (Ok tt, fold_left store_entry entries doc).
Proof.
  revert doc. induction entries as [|[k v] entries IH]; intros doc He; [done|].
  pose proof (proj1 (json_obj_forall _) He) as Hall.
  simpl. rewrite clone_json_ok by (eapply Hall; by left).
  apply IH. apply json_obj_forall. intros; eapply Hall; by right.
Qed.

Lemma stored_get_other (entries doc : obj) k :
  ~ In k (obj_keys entries) ->
  obj_get (fold_left store_entry entries doc) k = obj_get doc k.
Proof.
  revert doc. induction entries as [|[k0 v0] entries IH]; intros doc Hn; [done|].
  simpl in *. rewrite IH by tauto. unfold store_entry. simpl.
  apply obj_get_set_other. tauto.
Qed.

Lemma stored_get (entries doc : obj) k :
  keys_distinct (obj_keys entries) = true ->
  obj_has entries k = true ->
  obj_get (fold_left store_entry entries doc) k = obj_get entries k.
Proof.
  revert doc. induction entries as [|[k0 v0] entries IH]; intros doc Hd Hk;
    [discriminate Hk|].
  apply keys_distinct_NoDup in Hd. simpl in Hd. inversion Hd as [|? ? Hn Hd']; subst.
  simpl in *. destruct (String.eqb k0 k) eqn:E.
  - apply String.eqb_eq in E. subst k0. rewrite stored_get_other by done.
    unfold store_entry. simpl. apply obj_get_set_same.
  - apply IH; [by apply keys_distinct_NoDup|done].
Qed.






End MoreSettingsFacts.

Lemma obj_set_fresh (o : obj) k v :
  obj_has o k = false -> obj_set o k v = o ++ [(k, v)].
Proof.
  induction o as [|[k0 v0] o IH]; simpl; [done|].
  destruct (String.eqb k0 k); [discriminate|]. intros Hk. by rewrite IH.
Qed.

Lemma merge_loop_fresh (out d : obj) :
  keys_distinct (obj_keys out ++ obj_keys d) = true -> proto_free (VObj d) = true ->
  merge_loop out d = out ++ d.
Proof.
  revert out. induction d as [|[k v] d IH]; intros out Hd Hfree; simpl.
  - by rewrite app_nil_r.
  - apply keys_distinct_NoDup in Hd.
    assert (Hv : proto_free v = true /\ proto_free (VObj d) = true).
    { rewrite proto_free_obj in Hfree. cbn [forallb snd] in Hfree.
      apply andb_prop in Hfree as [[_ Hv]%andb_prop Hrest].
      by rewrite proto_free_obj. }
    destruct Hv as [Hv Hrest].
    assert (Hk : ~ In k (obj_keys out)).
    { intros Hin. apply NoDup_ListNoDup in Hd.
      apply NoDup_app in Hd as (_ & Hdis & _).
      apply (Hdis k); [by apply list_elem_of_In|]. simpl. apply list_elem_of_here. }
    rewrite (obj_get_absent out k Hk), merge_entry_other, deep_clone_id by done.
    rewrite obj_set_fresh.
    2:{ destruct (obj_has out k) eqn:E; [|done]. by apply obj_has_in in E. }
    rewrite IH.
    + by rewrite <- app_assoc.
    + apply keys_distinct_NoDup. unfold obj_keys in *.
      rewrite map_app, <- app_assoc. exact Hd.
    + exact Hrest.
Qed.

(** Merging into the empty object is cloning. *)
Lemma deepMerge_empty_clone (d : obj) :
  keys_distinct (obj_keys d) = true -> deepMerge [] d = as_obj (deep_clone (VObj d)).
Proof.
  intros Hd. unfold deepMerge. change (as_obj (deep_clone (VObj []))) with (@nil (string * value)).
  apply (merge_loop_fresh []); [by apply clone_keys_distinct|apply proto_free_clone_obj].
Qed.

Lemma deepMerge_empty (d : obj) :
  keys_distinct (obj_keys d) = true -> proto_free (VObj d) = true -> deepMerge [] d = d.
Proof. intros Hd Hfree. by rewrite deepMerge_empty_clone, clone_obj_id. Qed.

Lemma patch_fold_plain existing paths (patch_copy : obj) :
  (forall p, In p paths -> getByPath (VObj patch_copy) p <> VStr MASK_SENTINEL) ->
  fold_left (patch_step existing) paths patch_copy = patch_copy.
Proof.
  induction paths as [|q paths IH]; intros Hp; [done|].
  simpl. assert (Hq : patch_step existing patch_copy q = patch_copy).
  { unfold patch_step. destruct (is_sentinel _) eqn:E; [|done].
    apply is_sentinel_spec in E. destruct (Hp q); [by left|done]. }
  rewrite Hq. apply IH. intros p Hin. apply Hp. by right.
Qed.


Section Bootstrap.
Context `{Builtins}.
Variable w : World.






(** Steps that leave the settings alone. *)
Section SettingsFrame.
Variable Q : SettingsState -> Prop.
Let P : System -> Prop := fun sys => Q (settings sys).











End SettingsFrame.




End Bootstrap.

(** ** Scenarios *)



Example sentinel_default_trace :
  obj_get (skills_bucket_of
             (xs_doc (settings
                (snd (bootstrap_skill_settings_defaults sample_world "vault"
                        (VObj vault_settings_meta) vault_activating)))))
          "vault"
  = VObj [("mode", VStr "sealed")].
Proof. vm_compute. reflexivity. Qed.

Example proto_default_trace :
  obj_get (skills_bucket_of
             (xs_doc (settings
                (snd (bootstrap_skill_settings_defaults sample_world "vault"
                        (VObj [("defaults", VObj [(PROTO_KEY, VNum 1);
                                                  ("mode", VStr "sealed")])])
                        (with_recorded_meta "vault"
                           [("defaults", VObj [(PROTO_KEY, VNum 1);
                                               ("mode", VStr "sealed")])]
                           sample_loaded))))))
          "vault"
  = VObj [("mode", VStr "sealed")].
Proof. vm_compute. reflexivity. Qed.

Example enabled_skill_is_not_bootstrapped :
  enable_skill sample_world "echo" "command" sample_bucket_lost
  = (Ok tt, sample_bucket_lost).
Proof. vm_compute. reflexivity. Qed.

Lemma wf_mask_fold paths acc :
  wf_obj (maskedSettings acc) = true ->
  wf_obj (maskedSettings (fold_left mask_step paths acc)) = true.
Proof.
  revert acc. induction paths as [|q paths IH]; intros acc Hwf; [done|].
  simpl. apply IH. unfold mask_step. destruct (is_maskable _); [|done].
  cbn [maskedSettings]. unfold setByPath. by apply wf_set_parts.
Qed.

(** Claim C1, as amended: the mask round-trip.  Let [p] be a path of the
    sensitive list whose parts are own keys.  The mask half: when [p] has
    at least one part and lies under no other path of the list, and the
    value of [settings] at [p] is worth masking (it is not undefined, null,
    the empty string or the empty array), [maskSensitive] puts the sentinel
    at [p] and records [p] in the masked map.  The patch half, under its own
    hypotheses: for well-formed documents [existing] and [patch], when
    [existing] holds at [p] a defined value without entries named
    [__proto__] and [patch] still holds the sentinel at [p],
    [applyPatchWithMaskHandling] yields a document whose value at [p] is the
    value of [existing] at [p], whatever the other sensitive paths are.
    Together: resubmitting the masked document itself gives back the value
    at [p]. *)
Theorem mask_round_trip (settings existing patch : obj) (sensitive_paths : list string)
    (p : string) :
  In p sensitive_paths ->
  own_path p = true ->
  (split_path p <> [] ->
   shadowed sensitive_paths p = false ->
   is_maskable (getByPath (VObj settings) p) = true ->
   getByPath (VObj (maskedSettings (maskSensitive settings sensitive_paths))) p
   = VStr MASK_SENTINEL
   /\ obj_get (maskedMap (maskSensitive settings sensitive_paths)) p = VBool true)
  /\ (wf_obj existing = true -> wf_obj patch = true ->
      getByPath (VObj existing) p <> VUndef ->
      proto_free (getByPath (VObj existing) p) = true ->
      getByPath (VObj patch) p = VStr MASK_SENTINEL ->
      getByPath (VObj (applyPatchWithMaskHandling existing patch sensitive_paths)) p
      = getByPath (VObj existing) p)
  /\ (wf_obj settings = true ->
      split_path p <> [] ->
      shadowed sensitive_paths p = false ->
      is_maskable (getByPath (VObj settings) p) = true ->
      proto_free (getByPath (VObj settings) p) = true ->
      getByPath
        (VObj (applyPatchWithMaskHandling settings
                 (maskedSettings (maskSensitive settings sensitive_paths))
                 sensitive_paths)) p
      = getByPath (VObj settings) p).
Proof.
  intros Hin Hown. split; [|split].
  - intros Hp Hsh Hm. by apply mask_at_path.
  - intros He Hpt Hdef Hfree Hs. by apply patch_at_path.
  - intros Hwf Hp Hsh Hm Hfree.
    destruct (mask_at_path settings sensitive_paths p Hin Hp Hown Hsh Hm) as [Hmasked _].
    apply patch_at_path; try done.
    + apply wf_mask_fold. cbn [maskedSettings]. by apply wf_clone_obj.
    + by apply maskable_defined.
Qed.

(** The round-trip on a channel configuration with a secret token. *)
Lemma mask_round_trip_witness :
  getByPath (VObj (maskedSettings (maskSensitive sample_channel_settings ["token"])))
    "token" = VStr MASK_SENTINEL
  /\ obj_get (maskedMap (maskSensitive sample_channel_settings ["token"])) "token"
     = VBool true
  /\ getByPath (VObj (applyPatchWithMaskHandling sample_channel_settings
                        sample_channel_patch ["token"])) "token"
     = VStr "s3cret"
  /\ getByPath
       (VObj (applyPatchWithMaskHandling sample_channel_settings
                (maskedSettings (maskSensitive sample_channel_settings ["token"]))
                ["token"])) "token"
     = VStr "s3cret".
Proof.
  destruct (mask_round_trip sample_channel_settings sample_channel_settings
              sample_channel_patch ["token"] "token")
    as (Hmask & Hpatch & Hround).
  - simpl. by left.
  - reflexivity.
  - destruct Hmask as [Hmasked Hmap]; [vm_compute; discriminate|reflexivity|reflexivity|].
    split; [exact Hmasked|]. split; [exact Hmap|]. split.
    + apply Hpatch; try reflexivity. vm_compute. discriminate.
    + apply Hround; try reflexivity. vm_compute. discriminate.
Defined.

(** Claim C1 as stated fails twice: once [a] has been masked, the
    sensitive path [a.b] is neither replaced by the sentinel nor recorded;
    and a stored value with an entry named [__proto__] comes back from the
    patch without that entry. *)
Lemma round_trip_exceptions :
  ~ (forall (settings : obj) (sensitive_paths : list string) (p : string),
       In p sensitive_paths ->
       is_maskable (getByPath (VObj settings) p) = true ->
       getByPath (VObj (maskedSettings (maskSensitive settings sensitive_paths))) p
       = VStr MASK_SENTINEL
       /\ obj_get (maskedMap (maskSensitive settings sensitive_paths)) p = VBool true)
  /\ ~ (forall (existing patch : obj) (sensitive_paths : list string) (p : string),
          In p sensitive_paths ->
          is_maskable (getByPath (VObj existing) p) = true ->
          getByPath (VObj patch) p = VStr MASK_SENTINEL ->
          getByPath (VObj (applyPatchWithMaskHandling existing patch sensitive_paths)) p
          = getByPath (VObj existing) p).
Proof.
  split; intros Hclaim.
  - destruct (Hclaim nested_settings ["a"; "a.b"] "a.b") as [Hmasked _].
    + simpl. right. by left.
    + reflexivity.
    + vm_compute in Hmasked. discriminate Hmasked.
  - specialize (Hclaim proto_settings [("a", VStr MASK_SENTINEL)] ["a"] "a"
                  (or_introl eq_refl) eq_refl eq_refl).
    vm_compute in Hclaim. discriminate Hclaim.
Qed.

Example shadowed_path_trace :
  maskSensitive nested_settings ["a"; "a.b"]
  = {| maskedSettings := [("a", VStr MASK_SENTINEL)];
       maskedMap := [("a", VBool true)] |}.
Proof. reflexivity. Qed.

Example proto_entry_trace :
  applyPatchWithMaskHandling proto_settings [("a", VStr MASK_SENTINEL)] ["a"]
  = [("a", VObj [("k", VNum 2)])].
Proof. reflexivity. Qed.

(** The sample skill calling an op of its allow-list. *)
Lemma capability_gate_witness :
  ctx_execute sample_world "echo" echo_capabilities (VStr "channels")
    (VStr "configure") (VObj [("channel", VStr "echo")]) VUndef sample_enabled
  = dispatch sample_world sample_execute_command sample_enabled
  /\ obj_has (forwarded_ctx sample_execute_command) "kernel_cap" = true
  /\ obj_get (forwarded_ctx sample_execute_command) "actor"
     = VObj [("role", VStr "system"); ("source", VStr "skill:echo")].
Proof.
  destruct (capability_gate sample_world sample_enabled "echo" echo_capabilities
              (VStr "channels") (VStr "configure")
              (VObj [("channel", VStr "echo")]) VUndef sample_execute_command)
    as (Hrun & _ & Hcap & _ & Hactor).
  - left. apply (bool_decide_eq_true_1 ("echo" ∈ m_enabled (mgr sample_enabled))).
    vm_compute. reflexivity.
  - vm_compute. reflexivity.
  - split; [exact Hrun|]. split; [|exact Hactor].
    rewrite Hcap. reflexivity.
Defined.

(** C9 as stated fails for the key [__proto__]. *)
Lemma proto_key_is_not_merged :
  ~ (forall (base patch : obj) (key : string),
       keys_distinct (obj_keys patch) = true ->
       In key (obj_keys patch) ->
       is_plain_object (obj_get base key) && is_plain_object (obj_get patch key) = false ->
       obj_get (deepMerge base patch) key = deep_clone (obj_get patch key))
  /\ ~ (forall (base patch : obj) (key : string),
          ~ In key (obj_keys patch) ->
          obj_get (deepMerge base patch) key = deep_clone (obj_get base key)).
Proof.
  split; intros Hclaim.
  - specialize (Hclaim [] [(PROTO_KEY, VNum 1); ("k", VNum 2)] PROTO_KEY
                  eq_refl (or_introl eq_refl) eq_refl).
    discriminate Hclaim.
  - specialize (Hclaim [(PROTO_KEY, VNum 1); ("k", VNum 2)] [] PROTO_KEY
                  (fun absurd => absurd)).
    discriminate Hclaim.
Qed.

Example proto_key_trace :
  deepMerge [] [("__proto__", VNum 1); ("k", VNum 2)] = [("k", VNum 2)]
  /\ deepMerge [("__proto__", VNum 1); ("k", VNum 2)] [] = [("k", VNum 2)].
Proof. split; reflexivity. Qed.

(** A merge with a nested object, a replaced array and a kept key. *)
Lemma deep_merge_spec_witness :
  obj_get (deepMerge merge_base merge_patch) "a"
  = VObj (deepMerge [("x", VNum 1); ("y", VNum 2)] [("y", VNum 3); ("z", VNum 4)])
  /\ obj_get (deepMerge merge_base merge_patch) "list" = VArr [VNum 9]
  /\ obj_get (deepMerge merge_base merge_patch) "keep" = VArr [VNum 1; VNum 2].
Proof.
  destruct (deep_merge_spec merge_base merge_patch) as (Hpatch & Hbase & _).
  - reflexivity.
  - split; [|split].
    + apply (Hpatch "a"); [simpl; by left|discriminate|reflexivity].
    + apply (Hpatch "list"); [simpl; right; by left|discriminate|reflexivity].
    + apply (Hbase "keep"); [|discriminate]. simpl. intros [Ha|[Hl|[]]]; discriminate.
Defined.

(** The comparison of the sample built-ins is a total preorder. *)
Lemma string_compare_le_trans (a b c : string) :
  String.compare a b <> Gt -> String.compare b c <> Gt -> String.compare a c <> Gt.
Proof.
  revert b c. induction a as [|x a IH]; intros [|y b] [|z c]; simpl; try congruence.
  unfold Ascii.compare.
  destruct (N.compare_spec (N_of_ascii x) (N_of_ascii y)) as [Exy|Lxy|Gxy];
    destruct (N.compare_spec (N_of_ascii y) (N_of_ascii z)) as [Eyz|Lyz|Gyz];
    try congruence; intros Hab Hbc.
  - rewrite Exy, Eyz, N.compare_refl. by eapply IH.
  - rewrite Exy. apply N.compare_lt_iff in Lyz. by rewrite Lyz.
  - rewrite <- Eyz. apply N.compare_lt_iff in Lxy. by rewrite Lxy.
  - assert (Lxz : (N_of_ascii x < N_of_ascii z)%N) by lia.
    apply N.compare_lt_iff in Lxz. by rewrite Lxz.
Qed.

Lemma string_leb_trans (a b c : string) :
  String.leb a b = true -> String.leb b c = true -> String.leb a c = true.
Proof.
  unfold String.leb. intros Hab Hbc.
  pose proof (string_compare_le_trans a b c) as Hac.
  destruct (String.compare a b), (String.compare b c), (String.compare a c);
    try done; exfalso; apply Hac; congruence.
Qed.

(** Reading the sample configuration and persisting the sample system. *)
Lemma persistence_boundary_witness :
  (exists cfg,
     read_agent_config (Parsed sample_config_document) = Ok cfg
     /\ forall id, In id (enabled cfg) -> In id (allow cfg))
  /\ (exists doc,
        fst (persist_enabled_to_agent_config sample_world sample_enabled) = Ok tt
        /\ config_file (snd (persist_enabled_to_agent_config sample_world sample_enabled))
           = Parsed (VObj doc)
        /\ obj_get (skills_section doc) "enabled"
           = str_array (enabled_to_persist (mgr sample_enabled))
        /\ In "echo" (enabled_to_persist (mgr sample_enabled))
        /\ StronglySorted (fun a b => String.leb a b = true)
             (enabled_to_persist (mgr sample_enabled))
        /\ obj_get doc "name" = VStr "agent").
Proof.
  destruct (persistence_boundary sample_world sample_enabled
              (as_obj sample_config_document))
    as [(cfg & Hread & _ & _ & Hsub & _)
        (doc & Hrun & Henabled & _ & Hmem & _ & Hsorted & Hkeep)].
  - reflexivity.
  - vm_compute. reflexivity.
  - split.
    + exists cfg. split; [exact Hread|exact Hsub].
    + exists doc. rewrite Hrun. split; [reflexivity|]. split; [reflexivity|].
      split; [exact Henabled|]. split; [|split].
      * apply Hmem. split; [vm_compute; by left|].
        apply (bool_decide_eq_true_1 _). vm_compute. reflexivity.
      * apply Hsorted; [apply String.leb_total|apply string_leb_trans].
      * rewrite Hkeep by discriminate. vm_compute. reflexivity.
Defined.

Example sample_enabled_persists_echo :
  enabled_to_persist (mgr sample_enabled) = ["echo"].
Proof. vm_compute. reflexivity. Qed.

Example execute_outside_allowlist_has_no_token :
  exists cmd,
    build_execute_command "echo" sample_secret echo_capabilities
      (VStr "settings") (VStr "set") VUndef VUndef = Ok cmd
    /\ obj_has (forwarded_ctx cmd) "kernel_cap" = false.
Proof. eexists. split; reflexivity. Qed.

(** Claim C2, evaluated where the code departs from it.  With the
    repository root [/repo] and the configured local root [packages] (which
    [normalize_local_path] accepts), resolving the id [../../etc] is not
    rejected with [E_SKILLS_BAD_CONFIG]: it returns undefined, after
    reading [/etc/package.json], a path outside the repository root.  Under
    the local root [packages/skills] the same id returns undefined as well,
    after reading [/repo/etc/package.json]. *)
Theorem dotdot_id_escapes_repo_root :
  normalize_local_path "/" "/repo" "packages" = Ok "/repo/packages"
  /\ resolve_local_path "/" "/repo" empty_fs "../../etc" "packages"
     = (Ok None, ["/repo/packages/package.json"; "/etc/package.json"])
  /\ is_path_within "/" "/etc/package.json" "/repo" = false
  /\ resolve_local_path "/" "/repo" empty_fs "../../etc" "packages/skills"
     = (Ok None, ["/repo/packages/skills/package.json"; "/repo/etc/package.json"]).
Proof. repeat split; reflexivity. Qed.

(** ** Dotted paths, masking and merging: further properties *)

Section PathOps.
Implicit Types (o : obj) (v : value) (p q : string).

Lemma get_del_same o (parts : list string) :
  parts <> [] -> get_parts (VObj (del_parts o parts)) parts = VUndef.
Proof.
  revert o. induction parts as [|k parts IH]; intros o Hne; [done|].
  destruct parts as [|k2 parts].
  - simpl. apply obj_get_del_same.
  - rewrite del_parts_cons by done.
    destruct (obj_get o k) as [ | | | | | | |child] eqn:Ek.
    all: try (cbn [get_parts]; rewrite Ek; reflexivity).
    cbn [get_parts]. rewrite obj_get_set_same. by apply IH.
Qed.

(** Extra X1: writing then reading a dotted path.  [setByPath] with a
    path that has no part (empty, or dots and blanks only) returns the
    document as it is; for any other path whose parts are own keys,
    [getByPath] at that path of the written document returns the deep
    clone of the written value, whatever stood on the way before, which is
    the written value itself when it has no entry named [__proto__]. *)
Theorem set_then_get o p v :
  (split_path p = [] -> setByPath o p v = o)
  /\ (split_path p <> [] -> own_path p = true ->
      getByPath (VObj (setByPath o p v)) p = deep_clone v
      /\ (proto_free v = true -> getByPath (VObj (setByPath o p v)) p = v)).
Proof.
  unfold setByPath, getByPath. split.
  - by intros ->.
  - intros Hne _. split; [by apply get_set_clone|]. intros Hfree. by apply get_set_same.
Qed.

Lemma set_then_get_witness :
  getByPath (VObj (setByPath sample_document "telegram.token" (VStr "n3w")))
    "telegram.token" = VStr "n3w".
Proof.
  apply (proj2 (set_then_get sample_document "telegram.token" (VStr "n3w"))).
  - vm_compute. discriminate.
  - reflexivity.
  - reflexivity.
Defined.

(** Extra X2: writes and deletions are local.  When the paths [q] and [p]
    are made of own keys and part ways at some key (neither is a prefix of
    the other), neither [setByPath] nor [deleteByPath] at [q] changes what
    [getByPath] reads at [p]. *)
Theorem set_and_delete_keep_other_paths o q p v :
  diverge (split_path q) (split_path p) ->
  own_path q = true -> own_path p = true ->
  getByPath (VObj (setByPath o q v)) p = getByPath (VObj o) p
  /\ getByPath (VObj (deleteByPath o q)) p = getByPath (VObj o) p.
Proof.
  intros Hd _ _. unfold getByPath, setByPath, deleteByPath. split.
  - by apply get_set_diverge.
  - by apply get_del_diverge.
Qed.

Lemma set_and_delete_keep_other_paths_witness :
  getByPath (VObj (setByPath sample_document "telegram.token" VNull)) "telegram.chat"
  = VNum 7
  /\ getByPath (VObj (deleteByPath sample_document "telegram.token")) "telegram.chat"
     = VNum 7.
Proof.
  apply (set_and_delete_keep_other_paths sample_document "telegram.token"
           "telegram.chat" VNull).
  - apply diverge_next, diverge_here. discriminate.
  - reflexivity.
  - reflexivity.
Defined.

(** Extra X3: deleting then reading a dotted path.  [deleteByPath] with a
    path that has no part returns the document as it is; for any other
    path whose parts are own keys, [getByPath] at that path of the result
    is undefined. *)
Theorem delete_then_get o p :
  (split_path p = [] -> deleteByPath o p = o)
  /\ (split_path p <> [] -> own_path p = true ->
      getByPath (VObj (deleteByPath o p)) p = VUndef).
Proof.
  unfold deleteByPath, getByPath. split.
  - by intros ->.
  - intros Hne _. by apply get_del_same.
Qed.

Lemma delete_then_get_witness :
  getByPath (VObj (deleteByPath sample_document "telegram.token")) "telegram.token"
  = VUndef.
Proof.
  apply (proj2 (delete_then_get sample_document "telegram.token")).
  - vm_compute. discriminate.
  - reflexivity.
Defined.

End PathOps.

Section SplitPath.
Implicit Types (s t : string) (c : ascii).

Lemma trim_start_no_leading s : no_leading_ws (trim_start s) = true.
Proof.
  induction s as [|a s IH]; simpl; [done|].
  destruct (is_ws a) eqn:E; [exact IH|]. simpl. by rewrite E.
Qed.

Lemma trim_end_no_trailing s : no_trailing_ws (trim_end s) = true.
Proof.
  induction s as [|a s IH]; simpl; [done|].
  destruct (trim_end s) as [|b kept] eqn:E.
  - destruct (is_ws a) eqn:Ea; simpl; [done|by rewrite Ea].
  - exact IH.
Qed.

Lemma trim_end_keeps_leading s :
  no_leading_ws s = true -> no_leading_ws (trim_end s) = true.
Proof.
  destruct s as [|a s]; simpl; [done|]. intros Ha.
  destruct (trim_end s); [|exact Ha].
  apply negb_true_iff in Ha. rewrite Ha. simpl. by rewrite Ha.
Qed.

Lemma trim_start_fixed s : no_leading_ws s = true -> trim_start s = s.
Proof.
  destruct s as [|a s]; simpl; [done|]. intros Ha.
  apply negb_true_iff in Ha. by rewrite Ha.
Qed.

Lemma trim_end_fixed s : no_trailing_ws s = true -> trim_end s = s.
Proof.
  induction s as [|a s IH]; [done|]. destruct s as [|b s].
  - simpl. intros Ha. apply negb_true_iff in Ha. by rewrite Ha.
  - intros Hs. change (no_trailing_ws (String a (String b s)))
      with (no_trailing_ws (String b s)) in Hs.
    change (trim_end (String a (String b s)))
      with (match trim_end (String b s) with
            | EmptyString => if is_ws a then EmptyString else String a EmptyString
            | kept => String a kept
            end).
    by rewrite (IH Hs).
Qed.

Lemma trim_fixed s :
  no_leading_ws s = true -> no_trailing_ws s = true -> trim s = s.
Proof.
  intros Hl Ht. unfold trim. rewrite (trim_start_fixed s Hl). by apply trim_end_fixed.
Qed.

Lemma trim_clean s :
  no_leading_ws (trim s) = true /\ no_trailing_ws (trim s) = true.
Proof.
  unfold trim. split.
  - apply trim_end_keeps_leading, trim_start_no_leading.
  - apply trim_end_no_trailing.
Qed.

Lemma trim_idempotent s : trim (trim s) = trim s.
Proof. destruct (trim_clean s). by apply trim_fixed. Qed.

Lemma lacks_trim_start c s : lacks c s = true -> lacks c (trim_start s) = true.
Proof.
  induction s as [|a s IH]; simpl; [done|].
  intros [Ha Hs]%andb_prop. destruct (is_ws a); [by apply IH|].
  simpl. by rewrite Ha, Hs.
Qed.

Lemma lacks_trim_end c s : lacks c s = true -> lacks c (trim_end s) = true.
Proof.
  induction s as [|a s IH]; simpl; [done|].
  intros [Ha Hs]%andb_prop. specialize (IH Hs).
  destruct (trim_end s) as [|b kept].
  - destruct (is_ws a); [done|]. simpl. by rewrite Ha.
  - simpl in *. by rewrite Ha, IH.
Qed.

Lemma lacks_trim c s : lacks c s = true -> lacks c (trim s) = true.
Proof. intros Hs. unfold trim. by apply lacks_trim_end, lacks_trim_start. Qed.

Lemma split_on_lacks c s : Forall (fun x => lacks c x = true) (split_on c s).
Proof.
  induction s as [|a s IH]; simpl; [by repeat constructor|].
  destruct (Ascii.eqb a c) eqn:E; [by constructor|].
  destruct (split_on c s) as [|piece pieces];
    [repeat constructor; simpl; by rewrite E|].
  inversion IH; subst. constructor; [|done]. simpl. by rewrite E.
Qed.

Lemma split_on_single c s : lacks c s = true -> split_on c s = [s].
Proof.
  induction s as [|a s IH]; simpl; [done|].
  intros [Ha Hs]%andb_prop. apply negb_true_iff in Ha. by rewrite Ha, (IH Hs).
Qed.

Lemma split_on_cons c s t :
  lacks c s = true -> split_on c (s +:+ String c t) = s :: split_on c t.
Proof.
  induction s as [|a s IH]; rewrite ?append_cons, ?append_empty; simpl.
  - intros _. by rewrite Ascii.eqb_refl.
  - intros [Ha Hs]%andb_prop. apply negb_true_iff in Ha. by rewrite Ha, (IH Hs).
Qed.

Lemma split_on_concat c (parts : list string) :
  parts <> [] -> Forall (fun x => lacks c x = true) parts ->
  split_on c (String.concat (String c EmptyString) parts) = parts.
Proof.
  induction parts as [|x parts IH]; [done|]. intros _ Hall.
  inversion Hall as [|? ? Hx Hrest]; subst.
  destruct parts as [|y parts].
  - simpl. by apply split_on_single.
  - change (String.concat (String c EmptyString) (x :: y :: parts))
      with (x +:+ (String c EmptyString +:+ String.concat (String c EmptyString) (y :: parts))).
    rewrite append_cons, append_empty, split_on_cons by done.
    by rewrite IH.
Qed.

(** Extra X4: the parts [split_path] returns.  Every part is non-empty,
    holds no dot and neither starts nor ends with white space; and a list
    of such parts (of ASCII characters) joined with dots splits back into
    the same list. *)
Theorem split_path_normal_form (p : string) (parts : list string) :
  Forall (fun part => clean_part part = true) (split_path p)
  /\ (Forall (fun part => clean_part part && ascii_only part = true) parts ->
      split_path (String.concat "." parts) = parts).
Proof.
  split.
  - unfold split_path. apply Forall_forall. intros part [Hne Hin]%list_elem_of_filter.
    apply list_elem_of_In, in_map_iff in Hin as (piece & <- & Hpiece).
    pose proof (split_on_lacks dot p) as Hall.
    rewrite List.Forall_forall in Hall. specialize (Hall piece Hpiece).
    destruct (trim_clean piece) as [Hl Ht].
    unfold clean_part. by rewrite Hne, (lacks_trim dot piece Hall), Hl, Ht.
  - intros Hplain.
    assert (Hall : Forall (fun part => clean_part part = true) parts).
    { eapply Forall_impl; [exact Hplain|]. by intros a [Ha _]%andb_prop. }
    clear Hplain. destruct parts as [|x parts]; [reflexivity|].
    unfold split_path.
    change "." with (String dot EmptyString).
    rewrite split_on_concat; [|done|].
    2:{ eapply Forall_impl; [exact Hall|]. intros a Ha. unfold clean_part in Ha.
        by apply andb_prop in Ha as [[[_ Hd]%andb_prop _]%andb_prop _]. }
    assert (Hmap : map trim (x :: parts) = x :: parts).
    { clear -Hall. induction Hall as [|a l Ha _ IH]; [done|]. simpl. rewrite IH.
      f_equal. unfold clean_part in Ha.
      apply andb_prop in Ha as [[_ Hl]%andb_prop Ht]. by apply trim_fixed. }
    rewrite Hmap. clear Hmap.
    induction Hall as [|a l Ha _ IH]; [done|].
    unfold clean_part in Ha. apply andb_prop in Ha as [[[Hn _]%andb_prop _]%andb_prop _].
    rewrite filter_cons_True by done. by rewrite IH.
Qed.

Lemma split_path_normal_form_witness :
  split_path (String.concat "." ["telegram"; "bot token"; "v2"])
  = ["telegram"; "bot token"; "v2"].
Proof.
  apply (proj2 (split_path_normal_form EmptyString ["telegram"; "bot token"; "v2"])).
  repeat constructor.
Defined.

End SplitPath.

Section MaskFrames.
Implicit Types (o : obj) (v : value) (p q : string).

Lemma mask_fold_map paths acc k :
  obj_has (maskedMap (fold_left mask_step paths acc)) k = true ->
  (In k paths /\ obj_get (maskedMap (fold_left mask_step paths acc)) k = VBool true)
  \/ (obj_has (maskedMap acc) k = true
      /\ obj_get (maskedMap (fold_left mask_step paths acc)) k
         = obj_get (maskedMap acc) k).
Proof.
  revert acc. induction paths as [|q paths IH]; intros acc Hk; [by right|].
  simpl in *. destruct (IH _ Hk) as [[Hin Hv]|[Hhas Hv]]; [left; split; [by right|done]|].
  unfold mask_step in Hhas, Hv |- *.
  destruct (is_maskable _); [|by right].
  cbn [maskedMap] in Hhas, Hv. rewrite obj_has_set in Hhas.
  destruct (String.eqb q k) eqn:E.
  - apply String.eqb_eq in E. subst q. left. split; [by left|].
    rewrite Hv. apply obj_get_set_same.
  - right. split; [exact Hhas|]. rewrite Hv. apply obj_get_set_other.
    intros ->. by rewrite String.eqb_refl in E.
Qed.

Lemma mask_fold_frame paths acc p :
  Forall (fun q => diverge (split_path q) (split_path p)) paths ->
  getByPath (VObj (maskedSettings (fold_left mask_step paths acc))) p
  = getByPath (VObj (maskedSettings acc)) p.
Proof.
  revert acc. induction paths as [|q paths IH]; intros acc Hall; [done|].
  inversion Hall as [|? ? Hq Hrest]; subst. simpl. rewrite IH by done.
  unfold mask_step. destruct (is_maskable _); [|done].
  cbn [maskedSettings]. unfold getByPath, setByPath. by apply get_set_diverge.
Qed.

Lemma mask_fold_nothing paths acc :
  (forall q, In q paths ->
     is_maskable (getByPath (VObj (maskedSettings acc)) q) = false) ->
  fold_left mask_step paths acc = acc.
Proof.
  induction paths as [|q paths IH]; intros Hnone; [done|].
  simpl. assert (Hq : mask_step acc q = acc).
  { unfold mask_step. rewrite Hnone; [done|by left]. }
  rewrite Hq. apply IH. intros q' Hin. apply Hnone. by right.
Qed.

(** Extra X5: [maskSensitive] touches the sensitive paths only.  Every key
    of the masked map is one of the sensitive paths and is mapped to true.
    For settings without entries named [__proto__]: a path of own keys
    that parts ways with every sensitive path reads the same in the masked
    settings as in the settings; and when the sensitive paths are made of
    own keys and none holds a value worth masking, the settings come back
    unchanged with an empty masked map. *)
Theorem mask_touches_only_sensitive (settings : obj) (sensitive_paths : list string) :
  (forall k, obj_has (maskedMap (maskSensitive settings sensitive_paths)) k = true ->
     In k sensitive_paths
     /\ obj_get (maskedMap (maskSensitive settings sensitive_paths)) k = VBool true)
  /\ (forall p,
        proto_free (VObj settings) = true ->
        own_path p = true ->
        Forall (fun q => own_path q = true
                         /\ diverge (split_path q) (split_path p)) sensitive_paths ->
        getByPath (VObj (maskedSettings (maskSensitive settings sensitive_paths))) p
        = getByPath (VObj settings) p)
  /\ (proto_free (VObj settings) = true ->
      Forall (fun q => own_path q = true) sensitive_paths ->
      (forall q, In q sensitive_paths ->
         is_maskable (getByPath (VObj settings) q) = false) ->
      maskSensitive settings sensitive_paths
      = {| maskedSettings := settings; maskedMap := [] |}).
Proof.
  unfold maskSensitive. split; [|split].
  - intros k Hk. destruct (mask_fold_map _ _ _ Hk) as [?|[Hhas _]]; [done|].
    discriminate Hhas.
  - intros p Hfree _ Hall. rewrite mask_fold_frame.
    + cbn [maskedSettings]. by rewrite clone_obj_id.
    + eapply Forall_impl; [exact Hall|]. by intros q [_ Hq].
  - intros Hfree _ Hnone. rewrite clone_obj_id by done. by apply mask_fold_nothing.
Qed.

Lemma mask_touches_only_sensitive_witness :
  getByPath (VObj (maskedSettings (maskSensitive sample_document ["telegram.token"])))
    "telegram.chat" = VNum 7
  /\ maskSensitive sample_document ["telegram.secret"; "missing"]
     = {| maskedSettings := sample_document; maskedMap := [] |}.
Proof.
  destruct (mask_touches_only_sensitive sample_document ["telegram.token"])
    as (_ & Hframe & _).
  destruct (mask_touches_only_sensitive sample_document ["telegram.secret"; "missing"])
    as (_ & _ & Hnone).
  split.
  - apply Hframe; [reflexivity|reflexivity|]. constructor; [|constructor].
    split; [reflexivity|]. apply diverge_next, diverge_here. discriminate.
  - apply Hnone; [reflexivity|by repeat constructor|].
    intros q [<-|[<-|[]]]; reflexivity.
Defined.

(** Extra X6: without a sentinel, patching is merging.  When the patch
    holds the mask sentinel at none of the sensitive paths,
    [applyPatchWithMaskHandling] is [deepMerge] of the existing settings
    and the patch. *)
Theorem patch_without_sentinel_is_merge (existing patch : obj)
    (sensitive_paths : list string) :
  (forall q, In q sensitive_paths -> getByPath (VObj patch) q <> VStr MASK_SENTINEL) ->
  applyPatchWithMaskHandling existing patch sensitive_paths = deepMerge existing patch.
Proof.
  intros Hplain. unfold applyPatchWithMaskHandling.
  rewrite patch_fold_plain; [apply deepMerge_clone_patch|].
  intros q Hin Hs. apply (Hplain q Hin). unfold getByPath in *.
  change (VObj (as_obj (deep_clone (VObj patch)))) with (deep_clone (VObj patch)) in Hs.
  destruct (get_parts_clone_cases (VObj patch) (split_path q)) as [Hc|Hc];
    rewrite Hc in Hs; [|discriminate].
  by destruct (get_parts (VObj patch) (split_path q)).
Qed.

Lemma patch_without_sentinel_is_merge_witness :
  applyPatchWithMaskHandling sample_document
    [("telegram", VObj [("chat", VNum 8)])] ["telegram.token"]
  = deepMerge sample_document [("telegram", VObj [("chat", VNum 8)])].
Proof.
  apply patch_without_sentinel_is_merge.
  intros q [<-|[]]. vm_compute. discriminate.
Defined.

End MaskFrames.

Section MergeAlgebra.
Implicit Types (o out right base patch : obj) (v x c : value).

Lemma merge_loop_stable out right :
  (forall k x, In (k, x) right ->
     obj_has out k = true /\ merge_entry (obj_get out k) x = obj_get out k) ->
  merge_loop out right = out.
Proof.
  induction right as [|[k x] right IH]; intros Hall; [done|].
  cbn [merge_loop]. destruct (Hall k x) as [Hhas Hfix]; [by left|].
  rewrite Hfix, obj_set_get_id by done. apply IH.
  intros k' x' Hin. apply Hall. by right.
Qed.

Lemma proto_free_set out k v :
  proto_free (VObj out) = true -> proto_free v = true -> k <> PROTO_KEY ->
  proto_free (VObj (obj_set out k v)) = true.
Proof.
  intros Ho Hv Hk. rewrite proto_free_obj in Ho |- *.
  rewrite forallb_forall in Ho |- *. intros [k' x'] Hin.
  apply obj_set_in in Hin as [[-> ->]|Hin]; [|by apply Ho].
  unfold copied. cbn [fst snd]. apply String.eqb_neq in Hk. by rewrite Hk, Hv.
Qed.

Lemma proto_free_merge_loop out right :
  proto_free (VObj out) = true ->
  (forall k x, In (k, x) right ->
     k <> PROTO_KEY /\ forall c, proto_free (merge_entry c x) = true) ->
  proto_free (VObj (merge_loop out right)) = true.
Proof.
  revert out. induction right as [|[k x] right IH]; intros out Ho Hall; [done|].
  cbn [merge_loop]. destruct (Hall k x) as [Hk Hx]; [by left|].
  apply IH; [by apply proto_free_set|]. intros; apply Hall; by right.
Qed.

(** What a merge returns has no [__proto__] entry. *)
Lemma proto_free_merge_entry x : forall c, proto_free (merge_entry c x) = true.
Proof.
  induction x as [ | | | | | | items IH | fields IH] using value_nested_ind; intros c;
    try (rewrite merge_entry_other by (destruct c; reflexivity); apply proto_free_clone).
  destruct c as [ | | | | | | |cf];
    try (rewrite merge_entry_other by reflexivity; apply proto_free_clone).
  rewrite merge_entry_loop. apply proto_free_merge_loop; [apply proto_free_clone_obj|].
  intros k x [Hin Hk]%filter_In. split.
  - unfold copied in Hk. cbn [fst] in Hk. by apply negb_true_iff, String.eqb_neq in Hk.
  - by apply (IH k x).
Qed.

Lemma proto_free_deepMerge base patch : proto_free (VObj (deepMerge base patch)) = true.
Proof. rewrite <- merge_entry_objects. apply proto_free_merge_entry. Qed.

(** Merging a value into itself gives its clone. *)
Lemma merge_entry_self_clone x : wf_value x = true -> merge_entry x x = deep_clone x.
Proof.
  induction x as [ | | | | | | items IH | fields IH] using value_nested_ind;
    intros Hwf; try reflexivity.
  rewrite merge_entry_loop.
  change (deep_clone (VObj fields)) with (VObj (as_obj (deep_clone (VObj fields)))).
  f_equal.
  change (wf_value (VObj fields)) with (wf_obj fields) in Hwf.
  pose proof Hwf as Hwf'. rewrite wf_obj_unfold, andb_true_iff in Hwf'.
  destruct Hwf' as [Hkeys _].
  apply merge_loop_stable. intros k x [Hin Hk]%filter_In.
  unfold copied in Hk. cbn [fst] in Hk.
  assert (Hkeyin : In k (obj_keys fields)).
  { unfold obj_keys. apply in_map_iff. by exists (k, x). }
  split.
  - rewrite clone_has, Hk. by apply obj_has_in.
  - rewrite clone_get. apply negb_true_iff in Hk. rewrite Hk.
    rewrite (obj_get_in_distinct fields k x Hkeys Hin).
    rewrite merge_entry_clone_current. apply (IH k x Hin). by eapply wf_obj_in.
Qed.

Lemma merge_entry_twice x :
  wf_value x = true -> forall c, merge_entry (merge_entry c x) x = merge_entry c x.
Proof.
  induction x as [ | | | | | | items IH | fields IH] using value_nested_ind;
    intros Hwf c;
    try (rewrite !merge_entry_other; [reflexivity|apply andb_false_r..]).
  destruct c as [ | | | | | | |cf].
  all: try (match goal with
            | |- merge_entry (merge_entry ?c0 _) _ = _ =>
                rewrite (merge_entry_other c0 (VObj fields)) by reflexivity
            end;
            rewrite merge_entry_clone_current; by apply merge_entry_self_clone).
  rewrite (merge_entry_objects cf fields).
  rewrite merge_entry_loop. f_equal.
  rewrite clone_obj_id by apply proto_free_deepMerge.
  change (wf_value (VObj fields)) with (wf_obj fields) in Hwf.
  pose proof Hwf as Hwf'. rewrite wf_obj_unfold, andb_true_iff in Hwf'.
  destruct Hwf' as [Hkeys _].
  apply merge_loop_stable. intros k x [Hin Hk]%filter_In.
  unfold copied in Hk. cbn [fst] in Hk.
  assert (Hkeyin : In k (obj_keys fields)).
  { unfold obj_keys. apply in_map_iff. by exists (k, x). }
  assert (Hne : k <> PROTO_KEY) by (by apply negb_true_iff, String.eqb_neq in Hk).
  split.
  - unfold deepMerge. rewrite merge_loop_has, !clone_has, Hk.
    apply obj_has_in in Hkeyin. rewrite Hkeyin. apply orb_true_r.
  - rewrite deepMerge_get_present by done.
    rewrite (obj_get_in_distinct fields k x Hkeys Hin).
    apply (IH k x Hin). by eapply wf_obj_in.
Qed.

(** Extra X7: [deepMerge] is idempotent in its patch.  Merging a
    well-formed patch a second time into the result of merging it changes
    nothing. *)
Theorem deep_merge_idempotent base patch :
  wf_obj patch = true ->
  deepMerge (deepMerge base patch) patch = deepMerge base patch.
Proof.
  intros Hwf.
  pose proof (merge_entry_twice (VObj patch) Hwf (VObj base)) as Htwice.
  rewrite !merge_entry_objects in Htwice. by injection Htwice.
Qed.

Lemma deep_merge_idempotent_witness :
  deepMerge (deepMerge merge_base merge_patch) merge_patch
  = deepMerge merge_base merge_patch.
Proof. apply deep_merge_idempotent. reflexivity. Defined.

(** Extra X8: the empty object and the keys of a merge.  Merging the empty
    patch returns the deep clone of the base; merging a patch with
    distinct keys into the empty base returns the deep clone of the patch;
    these are the base and the patch themselves when they have no entry
    named [__proto__]; and the own keys of a merge are the keys of the
    base together with the keys of the patch, [__proto__] excepted. *)
Theorem deep_merge_units_and_keys base patch :
  deepMerge base [] = as_obj (deep_clone (VObj base))
  /\ (keys_distinct (obj_keys patch) = true ->
      deepMerge [] patch = as_obj (deep_clone (VObj patch)))
  /\ (proto_free (VObj base) = true -> deepMerge base [] = base)
  /\ (keys_distinct (obj_keys patch) = true -> proto_free (VObj patch) = true ->
      deepMerge [] patch = patch)
  /\ (forall k, obj_has (deepMerge base patch) k
                = negb (String.eqb k PROTO_KEY) && (obj_has base k || obj_has patch k)).
Proof.
  split; [|split; [|split; [|split]]].
  - reflexivity.
  - apply deepMerge_empty_clone.
  - intros Hfree. unfold deepMerge. cbn [merge_loop deep_clone as_obj].
    by apply clone_obj_id.
  - apply deepMerge_empty.
  - intros k. unfold deepMerge. rewrite merge_loop_has, !clone_has.
    by destruct (String.eqb k PROTO_KEY).
Qed.

Lemma deep_merge_units_and_keys_witness : deepMerge [] merge_patch = merge_patch.
Proof.
  apply (proj1 (proj2 (proj2 (proj2 (deep_merge_units_and_keys [] merge_patch)))));
    reflexivity.
Defined.

End MergeAlgebra.

(** ** Guards and string arrays: further properties *)

Section GuardOrder.

Lemma js_lt_spec a b :
  js_lt a b = true <-> exists x y, a = VNum x /\ b = VNum y /\ (x < y)%Z.
Proof.
  split.
  - destruct a, b; simpl; try discriminate. intros Hlt%Z.ltb_lt. eauto.
  - intros (x & y & -> & -> & Hlt). simpl. by apply Z.ltb_lt.
Qed.

Lemma requireActorRole_spec ctx min_role :
  requireActorRole ctx min_role = Ok tt
  <-> exists r, ctx_role ctx = Some r /\ r <> EmptyString
                /\ js_lt (rank r) (rank min_role) = false.
Proof.
  unfold requireActorRole, ctx_role.
  destruct (match actor ctx with Some a => role a | None => None end) as [r|];
    [|split; [discriminate|by intros (r & Hr & _)]].
  destruct r as [|c r]; simpl.
  - split; [discriminate|]. intros (r' & [= <-] & Hne & _). done.
  - destruct (js_lt _ _) eqn:Hlt.
    + split; [discriminate|]. intros (r' & [= <-] & _ & Hf). congruence.
    + split; [|done]. intros _. eexists. by repeat split.
Qed.

Lemma requireActorRole_error ctx min_role e :
  requireActorRole ctx min_role = Throw e ->
  e = mkXError E_AGENT_FORBIDDEN ("Missing required actor role: " +:+ min_role).
Proof.
  unfold requireActorRole.
  destruct (match actor ctx with Some a => role a | None => None end) as [r|];
    [|by intros [= <-]].
  destruct (negb (str_nonempty r)); [by intros [= <-]|].
  destruct (js_lt _ _); [by intros [= <-]|discriminate].
Qed.

(** Extra X9: the kernel capability secret.  When [setKernelCapSecret]
    accepts a value, the secret it installs is the trimmed value and is
    not empty; [requireKernelCap] then passes exactly the contexts whose
    [kernel_cap] is that secret, and throws [E_AGENT_FORBIDDEN] for every
    other context.  Before any secret is installed it throws
    [E_AGENT_GUARD_INIT] for every context. *)
Theorem kernel_secret_gate (raw secret : string) (ctx : AgentCommandCtx) :
  setKernelCapSecret raw = Ok secret ->
  secret = trim raw
  /\ secret <> EmptyString
  /\ (requireKernelCap secret ctx = Ok tt <-> kernel_cap ctx = Some secret)
  /\ (kernel_cap ctx <> Some secret ->
      thrown_code (requireKernelCap secret ctx) = Some E_AGENT_FORBIDDEN)
  /\ thrown_code (requireKernelCap EmptyString ctx) = Some E_AGENT_GUARD_INIT.
Proof.
  unfold setKernelCapSecret. destruct (_ <? _)%nat eqn:Hlen; [discriminate|].
  intros [= <-]. apply Nat.ltb_ge in Hlen.
  assert (Hne : trim raw <> EmptyString).
  { intros E. rewrite E in Hlen. simpl in Hlen. lia. }
  split; [done|]. split; [done|].
  assert (Hs : str_nonempty (trim raw) = true) by by apply str_nonempty_spec.
  unfold requireKernelCap. rewrite Hs. cbn [negb].
  split; [|split; [|reflexivity]].
  - destruct (kernel_cap ctx) as [cap|]; [|split; discriminate].
    destruct (negb (str_nonempty cap)) eqn:Hcap.
    + split; [discriminate|]. intros [= ->]. by rewrite Hs in Hcap.
    + destruct (String.eqb cap (trim raw)) eqn:E; simpl.
      * apply String.eqb_eq in E. by subst.
      * split; [discriminate|]. intros [= ->]. by rewrite String.eqb_refl in E.
  - intros Hother. destruct (kernel_cap ctx) as [cap|]; [|reflexivity].
    destruct (negb (str_nonempty cap)); [reflexivity|].
    destruct (String.eqb cap (trim raw)) eqn:E; [|reflexivity].
    apply String.eqb_eq in E. by subst.
Qed.

Lemma kernel_secret_gate_witness :
  requireKernelCap sample_secret (readCommandCtx (kernel_command "list" [])) = Ok tt
  <-> kernel_cap (readCommandCtx (kernel_command "list" [])) = Some sample_secret.
Proof.
  apply (kernel_secret_gate "  0123456789abcdef  " sample_secret
           (readCommandCtx (kernel_command "list" []))).
  reflexivity.
Defined.

(** Extra X10: the role check follows the order of the roles.  When the
    rank of [lower] is below the rank of [higher], every context that
    passes [requireActorRole] for [higher] passes it for [lower]; an actor
    of role [lower] is refused for [higher] with [E_AGENT_FORBIDDEN], and
    an actor of role [higher] passes for [lower]. *)
Theorem role_checks_are_ordered (ctx : AgentCommandCtx) (lower higher : string) :
  js_lt (rank lower) (rank higher) = true ->
  requireActorRole ctx higher = Ok tt ->
  requireActorRole ctx lower = Ok tt
  /\ requireActorRole (actor_ctx lower) higher
     = Throw (mkXError E_AGENT_FORBIDDEN ("Missing required actor role: " +:+ higher))
  /\ requireActorRole (actor_ctx higher) lower = Ok tt.
Proof.
  intros Hlt Hpass.
  apply js_lt_spec in Hlt as (x & y & Hx & Hy & Hxy).
  split; [|split].
  - apply requireActorRole_spec in Hpass as (r & Hr & Hne & Hge).
    apply requireActorRole_spec. exists r. split; [done|]. split; [done|].
    rewrite Hy in Hge. rewrite Hx.
    destruct (rank r) as [ | | |z| | | | ]; try reflexivity.
    simpl in *. apply Z.ltb_ge in Hge. apply Z.ltb_ge. lia.
  - assert (Hl : lower <> EmptyString) by (intros ->; discriminate Hx).
    unfold requireActorRole, actor_ctx. cbn [actor role].
    apply str_nonempty_spec in Hl. rewrite Hl. cbn [negb].
    rewrite Hx, Hy. simpl. by rewrite (proj2 (Z.ltb_lt x y) Hxy).
  - assert (Hh : higher <> EmptyString) by (intros ->; discriminate Hy).
    apply requireActorRole_spec. exists higher. split; [reflexivity|].
    split; [done|]. rewrite Hx, Hy. simpl. apply Z.ltb_ge. lia.
Qed.

Lemma role_checks_are_ordered_witness :
  requireActorRole (actor_ctx "owner") "admin" = Ok tt
  /\ requireActorRole (actor_ctx "admin") "owner"
     = Throw (mkXError E_AGENT_FORBIDDEN "Missing required actor role: owner")
  /\ requireActorRole (actor_ctx "owner") "admin" = Ok tt.
Proof.
  apply (role_checks_are_ordered (actor_ctx "owner") "admin" "owner");
    reflexivity.
Defined.

Lemma cap_or_role_error (secret : string) (ctx : AgentCommandCtx) (min_role : string)
    (e : XError) :
  requireKernelCapOrActorRole secret ctx min_role = Throw e ->
  e = mkXError E_AGENT_FORBIDDEN ("Missing required actor role: " +:+ min_role).
Proof.
  unfold requireKernelCapOrActorRole.
  destruct (requireKernelCap secret ctx) as [[]|e0]; [discriminate|].
  apply requireActorRole_error.
Qed.

(** Extra X11: [requireKernelCapOrActorRole] passes exactly when
    [requireKernelCap] or [requireActorRole] passes; and the error it
    throws is always the one of the role check, [E_AGENT_FORBIDDEN] with
    the message naming the required role, never the error of the
    capability check. *)
Theorem cap_or_role_gate (secret : string) (ctx : AgentCommandCtx) (min_role : string) :
  (requireKernelCapOrActorRole secret ctx min_role = Ok tt
   <-> requireKernelCap secret ctx = Ok tt \/ requireActorRole ctx min_role = Ok tt)
  /\ (forall e, requireKernelCapOrActorRole secret ctx min_role = Throw e ->
        e = mkXError E_AGENT_FORBIDDEN ("Missing required actor role: " +:+ min_role)).
Proof.
  split.
  - unfold requireKernelCapOrActorRole.
    destruct (requireKernelCap secret ctx) as [[]|e0].
    + split; [by left|done].
    + split; [by right|]. by intros [?|?].
  - intros e. apply cap_or_role_error.
Qed.

End GuardOrder.

Section NormalizeArray.

Lemma normalize_loop_fixed (l seen : list string) :
  List.NoDup l ->
  (forall x, In x l -> x <> EmptyString /\ trim x = x /\ ~ In x seen) ->
  normalize_loop (map VStr l) seen = l.
Proof.
  revert seen. induction l as [|x l IH]; intros seen Hnd Hall; [done|].
  inversion Hnd as [|? ? Hx Hnd']; subst.
  destruct (Hall x) as (Hne & Ht & Hseen); [by left|].
  cbn [map normalize_loop]. rewrite Ht.
  apply str_nonempty_spec in Hne. rewrite Hne. cbn [negb orb].
  destruct (mem_string x seen) eqn:E; [by apply mem_string_in in E|].
  f_equal. apply IH; [done|]. intros y Hy.
  destruct (Hall y) as (Hyne & Hyt & Hyseen); [by right|].
  split; [done|]. split; [done|]. intros [<-|Hin]; [done|by apply Hyseen].
Qed.

(** Extra X12: [normalize_string_array] returns a list without
    repetitions; its members are exactly the non-empty trimmed forms of
    the strings of the array (nothing for a value that is not an array);
    and normalising its own result again changes nothing. *)
Theorem normalize_string_array_spec (v : value) :
  List.NoDup (normalize_string_array v)
  /\ (forall x, In x (normalize_string_array v)
        <-> x <> EmptyString
            /\ exists items s, v = VArr items /\ In (VStr s) items /\ trim s = x)
  /\ normalize_string_array (str_array (normalize_string_array v))
     = normalize_string_array v.
Proof.
  split; [apply normalize_string_array_nodup|]. split.
  - intros x. split; [apply normalize_string_array_in|].
    intros (Hne & items & s & -> & Hin & Ht). unfold normalize_string_array.
    apply normalize_loop_spec. split; [eauto|]. split; [done|]. by intros [].
  - unfold str_array. cbn [normalize_string_array].
    apply normalize_loop_fixed; [apply normalize_string_array_nodup|].
    intros x Hx. apply normalize_string_array_in in Hx as (Hne & items & s & _ & _ & Ht).
    split; [done|]. split; [|by intros []]. rewrite <- Ht. apply trim_idempotent.
Qed.

Example normalize_string_array_sample :
  normalize_string_array
    (VArr [VStr " echo "; VNum 3; VStr ""; VStr "echo"; VStr "vault"; VStr "   "])
  = ["echo"; "vault"].
Proof. reflexivity. Qed.

End NormalizeArray.

(** ** The ops of the settings module *)

Section SettingsAuthority.
Context `{Builtins}.
Variable work_dir : string.
Variable secret : string.
Variable resolver : string -> Result value.

(** Extra X13: a caller that is neither the kernel nor an admin changes
    and learns nothing.  When [requireKernelCapOrActorRole] refuses the
    context of a command for the role [admin], each of the ops [get],
    [set], [get_skill], [set_skill], [reset_skill] and [schema] throws
    that error, of code [E_AGENT_FORBIDDEN], and [init_on_boot] throws as
    well; all of them leave the settings store as it was. *)
Theorem unauthorised_settings_ops_change_nothing
    (xcmd : XCommandData) (st : SettingsState) (e : XError) :
  requireKernelCapOrActorRole secret (readCommandCtx xcmd) "admin" = Throw e ->
  code e = E_AGENT_FORBIDDEN
  /\ get_impl work_dir secret xcmd st = (Throw e, st)
  /\ set_impl work_dir secret xcmd st = (Throw e, st)
  /\ get_skill_impl work_dir secret resolver xcmd st = (Throw e, st)
  /\ set_skill_impl work_dir secret resolver xcmd st = (Throw e, st)
  /\ reset_skill_impl work_dir secret xcmd st = (Throw e, st)
  /\ schema_impl work_dir secret resolver xcmd st = (Throw e, st)
  /\ is_ok (fst (init_on_boot_impl work_dir secret xcmd st)) = false
  /\ snd (init_on_boot_impl work_dir secret xcmd st) = st.
Proof.
  intros Hauth.
  assert (Hcode : code e = E_AGENT_FORBIDDEN).
  { apply cap_or_role_error in Hauth. by subst e. }
  split; [exact Hcode|].
  assert (Hcap : exists e0, requireKernelCap secret (readCommandCtx xcmd) = Throw e0).
  { unfold requireKernelCapOrActorRole in Hauth.
    destruct (requireKernelCap secret (readCommandCtx xcmd)) as [[]|e0];
      [discriminate|eauto]. }
  destruct Hcap as [e0 Hcap].
  unfold get_impl, set_impl, get_skill_impl, set_skill_impl, reset_skill_impl,
    schema_impl, init_on_boot_impl, authorize, mbind, m_bind, lift.
  rewrite Hauth, Hcap. by repeat split.
Qed.

End SettingsAuthority.

Lemma unauthorised_settings_ops_change_nothing_witness :
  set_skill_impl "/work" sample_secret sample_resolver
    (settings_request customer_ctx "set_skill"
       [("skill_id", VStr "echo"); ("patch", VObj [("mode", VStr "loud")])])
    sample_store
  = (Throw (mkXError E_AGENT_FORBIDDEN "Missing required actor role: admin"),
     sample_store).
Proof.
  apply (unauthorised_settings_ops_change_nothing "/work" sample_secret
           sample_resolver
           (settings_request customer_ctx "set_skill"
              [("skill_id", VStr "echo"); ("patch", VObj [("mode", VStr "loud")])])
           sample_store).
  reflexivity.
Defined.

Section ReadRoot.
Context `{Builtins}.

Lemma normalize_positive_int_positive v fallback :
  (0 < fallback)%Z -> (0 < normalize_positive_int v fallback)%Z.
Proof.
  intros Hf. unfold normalize_positive_int.
  destruct (number_parseInt v) as [parsed|]; [|done].
  destruct (parsed <=? 0)%Z eqn:E; [done|]. apply Z.leb_gt in E. lia.
Qed.

Lemma obj_has_set_same (o : obj) k v : obj_has (obj_set o k v) k = true.
Proof. rewrite obj_has_set. by rewrite String.eqb_refl. Qed.

Lemma read_root_facts (doc : obj) :
  has_function (VObj doc) = false ->
  exists root agent kb allow_export roles max_chars,
    read_root doc = Ok root
    /\ is_plain_object (obj_get root "ui") = true
    /\ is_plain_object (obj_get root "skills") = true
    /\ obj_get root "agent" = VObj agent
    /\ obj_has agent "name" = true /\ obj_has agent "business_name" = true
    /\ obj_get root "kb" = VObj kb
    /\ obj_get kb "allow_export" = VBool allow_export
    /\ obj_get kb "export_roles" = str_array roles
    /\ roles <> []
    /\ (forall r, In r roles -> r = "owner" \/ r = "admin")
    /\ obj_get kb "max_export_chars" = VNum max_chars /\ (0 < max_chars)%Z
    /\ (forall k, ~ In k root_sections -> obj_get root k = obj_get doc k)
    /\ (is_plain_object (obj_get doc "ui") = true ->
        obj_get root "ui" = obj_get doc "ui")
    /\ (is_plain_object (obj_get doc "skills") = true ->
        obj_get root "skills" = obj_get doc "skills").
Proof.
  intros Hdoc. unfold read_root.
  rewrite (clone_or_empty_ok (VObj doc) Hdoc).
  cbn [is_plain_object as_obj mbind result_bind].
  set (root1 := if is_plain_object (obj_get doc "ui") then doc else _).
  assert (H1 : json_safe (VObj root1)).
  { subst root1. destruct (is_plain_object _); [done|]. by apply json_set. }
  assert (U1 : is_plain_object (obj_get root1 "ui") = true
               /\ (is_plain_object (obj_get doc "ui") = true ->
                   obj_get root1 "ui" = obj_get doc "ui")).
  { subst root1. destruct (is_plain_object (obj_get doc "ui")) eqn:E; [done|].
    by rewrite obj_get_set_same. }
  assert (O1 : forall k, k <> "ui" -> obj_get root1 k = obj_get doc k).
  { intros k Hk. subst root1. destruct (is_plain_object _); [done|].
    by rewrite obj_get_set_other. }
  clearbody root1.
  set (root2 := if is_plain_object (obj_get root1 "skills") then root1 else _).
  assert (H2 : json_safe (VObj root2)).
  { subst root2. destruct (is_plain_object (obj_get root1 "skills")); [done|].
    by apply json_set. }
  assert (S2 : is_plain_object (obj_get root2 "skills") = true
               /\ (is_plain_object (obj_get doc "skills") = true ->
                   obj_get root2 "skills" = obj_get doc "skills")).
  { subst root2. rewrite <- (O1 "skills") by done.
    destruct (is_plain_object (obj_get root1 "skills")) eqn:E; [done|].
    by rewrite obj_get_set_same. }
  assert (O2 : forall k, k <> "skills" -> obj_get root2 k = obj_get root1 k).
  { intros k Hk. subst root2.
    destruct (is_plain_object (obj_get root1 "skills")); [done|].
    by rewrite obj_get_set_other. }
  clearbody root2.
  rewrite (clone_or_empty_ok (obj_get root2 "agent")) by by apply json_get.
  cbn [mbind result_bind].
  set (agent := if is_plain_object (obj_get root2 "agent") then _ else _).
  assert (Ha : json_safe (VObj agent)) by by apply json_child.
  clearbody agent.
  set (agent1 := if obj_has agent "name" then agent else _).
  assert (Ha1 : json_safe (VObj agent1) /\ obj_has agent1 "name" = true).
  { subst agent1. destruct (obj_has agent "name") eqn:E; [done|].
    split; [by apply json_set|apply obj_has_set_same]. }
  clearbody agent1.
  set (agent2 := if obj_has agent1 "business_name" then agent1 else _).
  assert (Ha2 : json_safe (VObj agent2) /\ obj_has agent2 "name" = true
                /\ obj_has agent2 "business_name" = true).
  { subst agent2. destruct Ha1 as [Hj Hn].
    destruct (obj_has agent1 "business_name") eqn:E; [done|].
    split; [by apply json_set|]. split; [|apply obj_has_set_same].
    rewrite obj_has_set, Hn. apply orb_true_r. }
  clearbody agent2.
  set (root3 := obj_set root2 "agent" (VObj agent2)).
  assert (H3 : json_safe (VObj root3)) by (apply json_set; [done|apply Ha2]).
  rewrite (clone_or_empty_ok (obj_get root3 "kb")) by by apply json_get.
  cbn [mbind result_bind].
  set (kb := if is_plain_object (obj_get root3 "kb") then _ else _).
  clearbody kb.
  set (chosen := filter _ (normalize_string_array (obj_get kb "export_roles"))).
  set (roles := match chosen with [] => ["owner"; "admin"] | _ => chosen end).
  assert (Hroles : roles <> []
                   /\ forall r, In r roles -> r = "owner" \/ r = "admin").
  { subst roles. destruct chosen as [|r0 rest] eqn:E.
    - split; [done|]. intros r [<-|[<-|[]]]; auto.
    - split; [done|]. intros r Hr. rewrite <- E in Hr. subst chosen.
      apply list_elem_of_In, list_elem_of_filter in Hr as [Hr _].
      apply mem_string_in in Hr. destruct Hr as [<-|[<-|[]]]; auto. }
  clearbody roles. clear chosen.
  eexists _, agent2, _, _, roles, _. split; [reflexivity|].
  repeat split.
  - rewrite obj_get_set_other by done. subst root3.
    rewrite obj_get_set_other by done. rewrite O2 by done. apply U1.
  - rewrite obj_get_set_other by done. subst root3.
    rewrite obj_get_set_other by done. apply S2.
  - rewrite obj_get_set_other by done. subst root3. apply obj_get_set_same.
  - apply Ha2.
  - apply Ha2.
  - apply obj_get_set_same.
  - rewrite !obj_get_set_other by done. apply obj_get_set_same.
  - rewrite obj_get_set_other by done. apply obj_get_set_same.
  - apply Hroles.
  - apply Hroles.
  - apply obj_get_set_same.
  - by apply normalize_positive_int_positive.
  - intros k Hk. unfold root_sections in Hk. simpl in Hk.
    rewrite obj_get_set_other by (intros <-; tauto). subst root3.
    rewrite obj_get_set_other by (intros <-; tauto).
    rewrite O2 by (intros ->; tauto). apply O1. intros ->; tauto.
  - intros Hui. rewrite obj_get_set_other by done. subst root3.
    rewrite obj_get_set_other by done. rewrite O2 by done. by apply U1.
  - intros Hsk. rewrite obj_get_set_other by done. subst root3.
    rewrite obj_get_set_other by done. by apply S2.
Qed.

(** Extra X14: the document [read_root] returns.  On a JSON document it
    succeeds, and its result has plain objects under [ui] and [skills],
    an agent section with a name and a business name, and a knowledge
    base section whose [allow_export] is a boolean, whose [export_roles]
    is a non-empty list of [owner] and [admin], and whose
    [max_export_chars] is a positive number.  Every other top-level key
    reads as in the stored document, and so do [ui] and [skills] when they
    are plain objects there. *)
Theorem read_root_normal_form (doc : obj) :
  has_function (VObj doc) = false ->
  exists root agent kb allow_export roles max_chars,
    read_root doc = Ok root
    /\ is_plain_object (obj_get root "ui") = true
    /\ is_plain_object (obj_get root "skills") = true
    /\ obj_get root "agent" = VObj agent
    /\ obj_has agent "name" = true /\ obj_has agent "business_name" = true
    /\ obj_get root "kb" = VObj kb
    /\ obj_get kb "allow_export" = VBool allow_export
    /\ obj_get kb "export_roles" = str_array roles
    /\ roles <> []
    /\ (forall r, In r roles -> r = "owner" \/ r = "admin")
    /\ obj_get kb "max_export_chars" = VNum max_chars /\ (0 < max_chars)%Z
    /\ (forall k, ~ In k root_sections -> obj_get root k = obj_get doc k)
    /\ (is_plain_object (obj_get doc "ui") = true ->
        obj_get root "ui" = obj_get doc "ui")
    /\ (is_plain_object (obj_get doc "skills") = true ->
        obj_get root "skills" = obj_get doc "skills").
Proof. exact (read_root_facts doc). Qed.

End ReadRoot.

Lemma read_root_normal_form_witness :
  exists root agent kb allow_export roles max_chars,
    read_root (xs_doc sample_store) = Ok root
    /\ is_plain_object (obj_get root "ui") = true
    /\ is_plain_object (obj_get root "skills") = true
    /\ obj_get root "agent" = VObj agent
    /\ obj_has agent "name" = true /\ obj_has agent "business_name" = true
    /\ obj_get root "kb" = VObj kb
    /\ obj_get kb "allow_export" = VBool allow_export
    /\ obj_get kb "export_roles" = str_array roles
    /\ roles <> []
    /\ (forall r, In r roles -> r = "owner" \/ r = "admin")
    /\ obj_get kb "max_export_chars" = VNum max_chars /\ (0 < max_chars)%Z
    /\ (forall k, ~ In k root_sections ->
          obj_get root k = obj_get (xs_doc sample_store) k)
    /\ (is_plain_object (obj_get (xs_doc sample_store) "ui") = true ->
        obj_get root "ui" = obj_get (xs_doc sample_store) "ui")
    /\ (is_plain_object (obj_get (xs_doc sample_store) "skills") = true ->
        obj_get root "skills" = obj_get (xs_doc sample_store) "skills").
Proof. apply (read_root_normal_form (xs_doc sample_store)). reflexivity. Defined.

Section SkillSettings.
Context `{Builtins}.
Variable work_dir : string.
Variable secret : string.
Variable resolver : string -> Result value.

Lemma ensure_params_json code v params :
  ensure_params code v = Ok params -> json_safe (VObj params).
Proof.
  unfold ensure_params. destruct v; try discriminate; try (by intros [= <-]).
  destruct (has_function (VObj fields)) eqn:E; [discriminate|]. by intros [= <-].
Qed.

Lemma ensure_json_object_json code v field o :
  ensure_json_object code v field = Ok o -> json_safe (VObj o) /\ v = VObj o.
Proof.
  unfold ensure_json_object. destruct v; try discriminate.
  destruct (has_function (VObj fields)) eqn:E; [discriminate|]. by intros [= <-].
Qed.

Lemma split_path_skills (s : string) :
  split_path ("skills." +:+ s) = "skills" :: split_path s.
Proof.
  unfold split_path.
  change ("skills." +:+ s) with ("skills" +:+ String dot s).
  rewrite split_on_cons by reflexivity. cbn [map].
  rewrite filter_cons_True by reflexivity. reflexivity.
Qed.

Lemma json_object_or_empty v : json_safe v -> json_safe (VObj (object_or_empty v)).
Proof. intros Hv. unfold object_or_empty. by destruct v. Qed.

Lemma json_store (entries doc : obj) :
  json_safe (VObj entries) -> json_safe (VObj doc) ->
  json_safe (VObj (fold_left store_entry entries doc)).
Proof.
  revert doc. induction entries as [|[k v] entries IH]; intros doc He Hd; [done|].
  pose proof (proj1 (json_obj_forall _) He) as Hall.
  simpl. apply IH.
  - apply json_obj_forall. intros; eapply Hall; by right.
  - apply json_set; [done|]. eapply Hall; by left.
Qed.

Lemma get_skill_impl_run xcmd st params id meta_opt :
  requireKernelCapOrActorRole secret (readCommandCtx xcmd) "admin" = Ok tt ->
  storage_ready work_dir st = true ->
  json_safe (VObj (xs_doc st)) ->
  ensure_params E_SETTINGS_BAD_PARAMS (_params xcmd) = Ok params ->
  ensure_non_empty_string E_SETTINGS_BAD_PARAMS (obj_get params "skill_id") "skill_id"
  = Ok id ->
  normalize_boolean (obj_get params "include_schema") false = false ->
  resolve_skill_meta resolver id = Ok meta_opt ->
  get_skill_impl work_dir secret resolver xcmd st
  = (Ok (if normalize_boolean (obj_get params "include_masked") true
         then get_skill_reply id
                (maskedSettings
                   (maskSensitive (skill_view (xs_doc st) meta_opt id)
                      (normalize_string_array (meta_get meta_opt "sensitive"))))
                (maskedMap
                   (maskSensitive (skill_view (xs_doc st) meta_opt id)
                      (normalize_string_array (meta_get meta_opt "sensitive"))))
         else get_skill_reply id (skill_view (xs_doc st) meta_opt id) []),
     ready_settings work_dir st).
Proof.
  intros Hauth Hready Hdoc Hparams Hid Hschema Hmeta. unfold get_skill_impl.
  erewrite bind_run by (unfold authorize, lift; by rewrite Hauth).
  erewrite bind_run by (by apply ensure_storage_ready_ok).
  erewrite bind_lift by exact Hparams.
  erewrite bind_lift by exact Hid.
  erewrite bind_run by reflexivity.
  destruct (read_root_spec (xs_doc st) Hdoc) as (root & Hroot & Hskills & Hjson & _).
  erewrite bind_lift by exact Hroot.
  assert (Hraw : getByPath (VObj root) ("skills." +:+ id)
                 = get_parts (VObj (skills_bucket_of (xs_doc st))) (split_path id)).
  { unfold getByPath. rewrite split_path_skills. cbn [get_parts]. by rewrite Hskills. }
  assert (Hrawj : json_safe (getByPath (VObj root) ("skills." +:+ id)))
    by by apply json_get_parts.
  erewrite bind_lift by (by apply clone_or_empty_ok).
  erewrite bind_lift by exact Hmeta.
  pose proof (resolve_skill_meta_defaults_json resolver id meta_opt Hmeta) as Hdj.
  erewrite bind_lift by (by apply clone_or_empty_ok).
  rewrite Hschema. cbn [andb]. rewrite Hraw.
  fold (object_or_empty (get_parts (VObj (skills_bucket_of (xs_doc st))) (split_path id))).
  fold (stored_settings (xs_doc st) id).
  fold (object_or_empty (meta_get meta_opt "defaults")).
  fold (skill_view (xs_doc st) meta_opt id).
  destruct (normalize_boolean (obj_get params "include_masked") true).
  - reflexivity.
  - erewrite bind_run.
    2:{ erewrite bind_lift; [reflexivity|]. apply clone_json_ok.
        apply json_deepMerge; [by apply json_object_or_empty|].
        apply json_object_or_empty. rewrite <- Hraw. exact Hrawj. }
    reflexivity.
Qed.

End SkillSettings.

Section SkillSettingsWrites.
Context `{Builtins}.
Variable work_dir : string.
Variable secret : string.
Variable resolver : string -> Result value.

Lemma keys_distinct_store (entries doc : obj) :
  keys_distinct (obj_keys doc) = true ->
  keys_distinct (obj_keys (fold_left store_entry entries doc)) = true.
Proof.
  revert doc. induction entries as [|[k v] entries IH]; intros doc Hd; [done|].
  simpl. apply IH. by apply keys_distinct_set.
Qed.

(** Writing a root that [read_root] made from the document, with some of
    its sections replaced: the sections hold what the root holds, the other
    keys are kept. *)
Lemma persisted_root (root doc : obj) k :
  keys_distinct (obj_keys root) = true ->
  (~ In k root_sections -> obj_get root k = obj_get doc k) ->
  (In k root_sections -> obj_has root k = true) ->
  obj_get (fold_left store_entry root doc) k = obj_get root k.
Proof.
  intros Hd Hother Hsection.
  destruct (obj_has root k) eqn:Ehas; [by apply (stored_get secret resolver)|].
  assert (Hout : ~ In k root_sections).
  { intros Hin. specialize (Hsection Hin). congruence. }
  rewrite (stored_get_other secret resolver root doc k).
  - symmetry. by apply Hother.
  - rewrite <- obj_has_in. congruence.
Qed.

Lemma read_root_sections (doc root : obj) k :
  json_safe (VObj doc) -> read_root doc = Ok root ->
  In k root_sections -> obj_has root k = true.
Proof.
  intros Hdoc Hroot Hin.
  destruct (read_root_facts doc Hdoc)
    as (root' & agent & kb & b & roles & n & Hroot' & Hui & Hsk & Hag & _ & _ & Hkb & _).
  rewrite Hroot in Hroot'. injection Hroot' as <-.
  apply obj_has_get. unfold root_sections in Hin. simpl in Hin.
  destruct Hin as [<-|[<-|[<-|[<-|[]]]]].
  - intros E. by rewrite E in Hui.
  - intros E. by rewrite E in Hsk.
  - by rewrite Hag.
  - by rewrite Hkb.
Qed.

Lemma read_root_other (doc root : obj) k :
  json_safe (VObj doc) -> read_root doc = Ok root ->
  ~ In k root_sections -> obj_get root k = obj_get doc k.
Proof.
  intros Hdoc Hroot Hout.
  destruct (read_root_facts doc Hdoc)
    as (root' & agent & kb & b & roles & n & Hroot' & Hrest).
  rewrite Hroot in Hroot'. injection Hroot' as <-.
  by apply Hrest.
Qed.

Lemma set_skill_impl_run xcmd st params id patch meta_opt :
  requireKernelCapOrActorRole secret (readCommandCtx xcmd) "admin" = Ok tt ->
  storage_ready work_dir st = true ->
  json_safe (VObj (xs_doc st)) ->
  keys_distinct (obj_keys (xs_doc st)) = true ->
  ensure_params E_SETTINGS_BAD_PARAMS (_params xcmd) = Ok params ->
  ensure_non_empty_string E_SETTINGS_BAD_PARAMS (obj_get params "skill_id") "skill_id"
  = Ok id ->
  ensure_json_object E_SETTINGS_BAD_PARAMS
    (nullish (obj_get params "patch") (VObj [])) "patch" = Ok patch ->
  resolve_skill_meta resolver id = Ok meta_opt ->
  exists doc',
    set_skill_impl work_dir secret resolver xcmd st
    = (Ok (VObj [("ok", VBool true)]), with_doc doc' (ready_settings work_dir st))
    /\ json_safe (VObj doc')
    /\ keys_distinct (obj_keys doc') = true
    /\ skills_bucket_of doc'
       = obj_set (skills_bucket_of (xs_doc st)) id
           (VObj (applyPatchWithMaskHandling
                    (object_or_empty (obj_get (skills_bucket_of (xs_doc st)) id))
                    patch
                    (normalize_string_array (meta_get meta_opt "sensitive"))))
    /\ (forall k, ~ In k root_sections -> obj_get doc' k = obj_get (xs_doc st) k).
Proof.
  intros Hauth Hready Hdoc Hkeys Hparams Hid Hpatch Hmeta. unfold set_skill_impl.
  erewrite bind_run by (unfold authorize, lift; by rewrite Hauth).
  erewrite bind_run by (by apply ensure_storage_ready_ok).
  erewrite bind_lift by exact Hparams.
  erewrite bind_lift by exact Hid.
  erewrite bind_lift by exact Hpatch.
  erewrite bind_lift by exact Hmeta.
  erewrite bind_run by reflexivity.
  destruct (read_root_spec (xs_doc st) Hdoc)
    as (root & Hroot & Hskills & Hjson & Hdistinct & Hhas).
  erewrite bind_lift by exact Hroot.
  assert (Hbucket : json_safe (VObj (skills_bucket_of (xs_doc st)))).
  { rewrite <- Hskills. by apply json_get. }
  erewrite bind_lift.
  2:{ unfold read_skills_bucket. rewrite Hskills. by apply clone_or_empty_ok. }
  cbn [is_plain_object as_obj].
  erewrite bind_lift by (apply clone_or_empty_ok; by apply json_get).
  fold (object_or_empty (obj_get (skills_bucket_of (xs_doc st)) id)).
  set (merged := applyPatchWithMaskHandling _ _ _).
  set (skills' := obj_set _ id (VObj merged)).
  apply ensure_json_object_json in Hpatch as [Hpj _].
  assert (Hroot' : json_safe (VObj (obj_set root "skills" (VObj skills')))).
  { apply json_set; [done|]. apply json_set; [done|].
    apply json_applyPatch; [by apply json_object_or_empty, json_get|done]. }
  erewrite bind_run.
  2:{ unfold persist_root. by rewrite persist_entries_ok. }
  eexists. split; [reflexivity|].
  split; [by apply json_store|]. split; [by apply keys_distinct_store|].
  split.
  - unfold skills_bucket_of at 1. rewrite (stored_get secret resolver).
    + by rewrite obj_get_set_same.
    + by apply keys_distinct_set, Hdistinct.
    + apply obj_has_set_same.
  - intros k Hk. rewrite persisted_root.
    + rewrite obj_get_set_other by (intros <-; apply Hk; simpl; tauto).
      by eapply read_root_other.
    + by apply keys_distinct_set, Hdistinct.
    + intros Hout. rewrite obj_get_set_other by (intros <-; apply Hout; simpl; tauto).
      by eapply read_root_other.
    + intros Hin. rewrite obj_has_set. apply orb_true_iff. right.
      by eapply read_root_sections.
Qed.

End SkillSettingsWrites.

Section SkillSettingsTheorems.
Context `{Builtins}.
Variable work_dir : string.
Variable secret : string.
Variable resolver : string -> Result value.

Lemma usable_store_after (doc' : obj) st :
  storage_ready work_dir st = true ->
  json_safe (VObj doc') -> keys_distinct (obj_keys doc') = true ->
  usable_store work_dir (with_doc doc' (ready_settings work_dir st)).
Proof.
  intros Hready Hj Hk. split; [|by split].
  by apply (storage_ready_ready work_dir st).
Qed.

(** Extra X15: [set_skill] writes one bucket.  On an authorised request
    about the skill [id], a name no object inherits, it succeeds; the
    bucket of [id] becomes the stored bucket patched by
    [applyPatchWithMaskHandling] under the sensitive paths the skill
    declares; the bucket of every other skill and every top-level key
    outside the four sections of [read_root] read as before; and the store
    stays usable. *)
Theorem set_skill_touches_one_bucket xcmd st params id patch meta_opt :
  skill_request_for secret xcmd params id ->
  usable_store work_dir st ->
  ensure_json_object E_SETTINGS_BAD_PARAMS
    (nullish (obj_get params "patch") (VObj [])) "patch" = Ok patch ->
  resolve_skill_meta resolver id = Ok meta_opt ->
  own_name id = true ->
  exists st',
    set_skill_impl work_dir secret resolver xcmd st
    = (Ok (VObj [("ok", VBool true)]), st')
    /\ obj_get (skills_bucket_of (xs_doc st')) id
       = VObj (applyPatchWithMaskHandling
                 (object_or_empty (obj_get (skills_bucket_of (xs_doc st)) id))
                 patch (normalize_string_array (meta_get meta_opt "sensitive")))
    /\ (forall other, other <> id ->
          obj_get (skills_bucket_of (xs_doc st')) other
          = obj_get (skills_bucket_of (xs_doc st)) other)
    /\ (forall k, ~ In k root_sections ->
          obj_get (xs_doc st') k = obj_get (xs_doc st) k)
    /\ usable_store work_dir st'.
Proof.
  intros (Hauth & Hparams & Hid) (Hready & Hdoc & Hkeys) Hpatch Hmeta _.
  destruct (set_skill_impl_run work_dir secret resolver xcmd st params id patch
              meta_opt Hauth Hready Hdoc Hkeys Hparams Hid Hpatch Hmeta)
    as (doc' & Hrun & Hj & Hk & Hbucket & Hother).
  eexists. split; [exact Hrun|]. cbn [xs_doc with_doc]. rewrite Hbucket.
  split; [apply obj_get_set_same|].
  split; [intros other Ho; by apply obj_get_set_other|].
  split; [exact Hother|]. by apply usable_store_after.
Qed.

(** Extra X16: [get_skill] after [set_skill].  For a skill id that is one
    path part, reading the settings of the skill without masking right
    after a successful [set_skill] returns the declared defaults merged
    with the patched bucket, and an empty masked map. *)
Theorem set_skill_then_get_skill set_cmd get_cmd st sp gp id patch meta_opt :
  skill_request_for secret set_cmd sp id ->
  skill_request_for secret get_cmd gp id ->
  usable_store work_dir st ->
  ensure_json_object E_SETTINGS_BAD_PARAMS
    (nullish (obj_get sp "patch") (VObj [])) "patch" = Ok patch ->
  resolve_skill_meta resolver id = Ok meta_opt ->
  obj_get gp "include_masked" = VBool false ->
  normalize_boolean (obj_get gp "include_schema") false = false ->
  split_path id = [id] -> own_name id = true ->
  exists st',
    set_skill_impl work_dir secret resolver set_cmd st
    = (Ok (VObj [("ok", VBool true)]), st')
    /\ get_skill_impl work_dir secret resolver get_cmd st'
       = (Ok (get_skill_reply id
                (deepMerge (object_or_empty (meta_get meta_opt "defaults"))
                   (applyPatchWithMaskHandling
                      (object_or_empty (obj_get (skills_bucket_of (xs_doc st)) id))
                      patch (normalize_string_array (meta_get meta_opt "sensitive"))))
                []),
          st').
Proof.
  intros (Hauth & Hparams & Hid) (Hgauth & Hgparams & Hgid) (Hready & Hdoc & Hkeys)
    Hpatch Hmeta Hmasked Hschema Hsplit _.
  destruct (set_skill_impl_run work_dir secret resolver set_cmd st sp id patch
              meta_opt Hauth Hready Hdoc Hkeys Hparams Hid Hpatch Hmeta)
    as (doc' & Hrun & Hj & Hk & Hbucket & Hother).
  eexists. split; [exact Hrun|].
  rewrite (get_skill_impl_run work_dir secret resolver get_cmd _ gp id meta_opt);
    try done.
  - rewrite Hmasked. cbn [normalize_boolean]. f_equal. f_equal.
    unfold skill_view, stored_settings. cbn [xs_doc with_doc].
    rewrite Hbucket, Hsplit. cbn [get_parts]. rewrite obj_get_set_same.
    reflexivity.
  - by apply (storage_ready_ready work_dir st).
Qed.

(** Extra X17: [get_skill] does not show secrets.  Unless the request
    switches masking off, a sensitive path of own keys that lies under no
    other sensitive path and holds a value worth masking in the settings
    of the skill (stored over defaults) is shown as the sentinel and
    marked in the masked map of the reply. *)
Theorem get_skill_masks_secrets xcmd st params id meta_opt p :
  skill_request_for secret xcmd params id ->
  storage_ready work_dir st = true ->
  has_function (VObj (xs_doc st)) = false ->
  normalize_boolean (obj_get params "include_masked") true = true ->
  normalize_boolean (obj_get params "include_schema") false = false ->
  resolve_skill_meta resolver id = Ok meta_opt ->
  In p (normalize_string_array (meta_get meta_opt "sensitive")) ->
  split_path p <> [] ->
  own_path p = true ->
  shadowed (normalize_string_array (meta_get meta_opt "sensitive")) p = false ->
  is_maskable (getByPath (VObj (skill_view (xs_doc st) meta_opt id)) p) = true ->
  exists shown masked,
    get_skill_impl work_dir secret resolver xcmd st
    = (Ok (get_skill_reply id shown masked), ready_settings work_dir st)
    /\ getByPath (VObj shown) p = VStr MASK_SENTINEL
    /\ obj_get masked p = VBool true.
Proof.
  intros (Hauth & Hparams & Hid) Hready Hdoc Hmasked Hschema Hmeta Hin Hp Hown Hsh Hval.
  rewrite (get_skill_impl_run work_dir secret resolver xcmd st params id meta_opt)
    by done.
  rewrite Hmasked. eexists _, _. split; [reflexivity|].
  by apply mask_at_path.
Qed.

End SkillSettingsTheorems.

Lemma set_skill_touches_one_bucket_witness :
  exists st',
    set_skill_impl "/work" sample_secret sample_resolver set_echo_request sample_store
    = (Ok (VObj [("ok", VBool true)]), st')
    /\ obj_get (skills_bucket_of (xs_doc st')) "echo"
       = VObj [("mode", VStr "loud"); ("token", VStr "s3cret")]
    /\ obj_get (skills_bucket_of (xs_doc st')) "vault" = VObj [("mode", VStr "sealed")]
    /\ obj_get (xs_doc st') "theme" = VStr "dark".
Proof.
  destruct (set_skill_touches_one_bucket "/work" sample_secret sample_resolver
              set_echo_request sample_store
              ([("skill_id", VStr "echo"); ("patch", VObj echo_patch)]
               ++ [("_ctx", admin_ctx)])
              "echo" echo_patch echo_meta)
    as (st' & Hrun & Hecho & Hothers & Hkeys & _).
  - repeat split; reflexivity.
  - repeat split; reflexivity.
  - reflexivity.
  - reflexivity.
  - reflexivity.
  - exists st'. split; [exact Hrun|]. split; [exact Hecho|]. split.
    + rewrite Hothers by discriminate. reflexivity.
    + rewrite Hkeys; [reflexivity|]. unfold root_sections. simpl.
      intros [E|[E|[E|[E|[]]]]]; discriminate E.
Defined.

Lemma set_skill_then_get_skill_witness :
  exists st',
    set_skill_impl "/work" sample_secret sample_resolver set_echo_request sample_store
    = (Ok (VObj [("ok", VBool true)]), st')
    /\ get_skill_impl "/work" sample_secret sample_resolver (get_echo_request false) st'
       = (Ok (get_skill_reply "echo"
                [("mode", VStr "loud"); ("retries", VNum 3); ("token", VStr "s3cret")]
                []),
          st').
Proof.
  apply (set_skill_then_get_skill "/work" sample_secret sample_resolver
           set_echo_request (get_echo_request false) sample_store
           ([("skill_id", VStr "echo"); ("patch", VObj echo_patch)]
            ++ [("_ctx", admin_ctx)])
           ([("skill_id", VStr "echo"); ("include_masked", VBool false)]
            ++ [("_ctx", admin_ctx)])
           "echo" echo_patch echo_meta).
  - repeat split; reflexivity.
  - repeat split; reflexivity.
  - repeat split; reflexivity.
  - reflexivity.
  - reflexivity.
  - reflexivity.
  - reflexivity.
  - reflexivity.
  - reflexivity.
Defined.

Lemma get_skill_masks_secrets_witness :
  exists shown masked,
    get_skill_impl "/work" sample_secret sample_resolver (get_echo_request true)
      sample_store
    = (Ok (get_skill_reply "echo" shown masked), ready_settings "/work" sample_store)
    /\ getByPath (VObj shown) "token" = VStr MASK_SENTINEL
    /\ obj_get masked "token" = VBool true.
Proof.
  apply (get_skill_masks_secrets "/work" sample_secret sample_resolver
           (get_echo_request true) sample_store
           ([("skill_id", VStr "echo"); ("include_masked", VBool true)]
            ++ [("_ctx", admin_ctx)])
           "echo" echo_meta "token").
  - repeat split; reflexivity.
  - reflexivity.
  - reflexivity.
  - reflexivity.
  - reflexivity.
  - reflexivity.
  - simpl. by left.
  - vm_compute. discriminate.
  - reflexivity.
  - reflexivity.
  - reflexivity.
Defined.

Section ResetAndSet.
Context `{Builtins}.
Variable work_dir : string.
Variable secret : string.

Lemma obj_has_del (o : obj) k : obj_has (obj_del o k) k = false.
Proof.
  induction o as [|[k0 v0] o IH]; simpl; [done|].
  destruct (String.eqb k0 k) eqn:E; [exact IH|]. simpl. by rewrite E.
Qed.

Lemma obj_del_absent (o : obj) k : obj_has o k = false -> obj_del o k = o.
Proof.
  induction o as [|[k0 v0] o IH]; simpl; [done|].
  destruct (String.eqb k0 k); [discriminate|]. intros Hk. by rewrite IH.
Qed.

Lemma json_bucket (doc : obj) :
  json_safe (VObj doc) -> json_safe (VObj (skills_bucket_of doc)).
Proof. intros Hdoc. unfold skills_bucket_of. by apply json_child. Qed.

(** Extra X18: [reset_skill] forgets one bucket.  On an authorised request
    it succeeds; afterwards the skills section has no bucket for [id], the
    bucket of every other skill and every top-level key outside the four
    sections of [read_root] read as before, and the document is untouched
    when there was no bucket.  For an id that is one path part and a name
    no object inherits, the settings of the skill are then its declared
    defaults, when these have no entry named [__proto__]. *)
Theorem reset_skill_forgets_bucket xcmd st params id :
  skill_request_for secret xcmd params id ->
  usable_store work_dir st ->
  exists st',
    reset_skill_impl work_dir secret xcmd st = (Ok (VObj [("ok", VBool true)]), st')
    /\ obj_has (skills_bucket_of (xs_doc st')) id = false
    /\ (forall other, other <> id ->
          obj_get (skills_bucket_of (xs_doc st')) other
          = obj_get (skills_bucket_of (xs_doc st)) other)
    /\ (forall k, ~ In k root_sections ->
          obj_get (xs_doc st') k = obj_get (xs_doc st) k)
    /\ (obj_has (skills_bucket_of (xs_doc st)) id = false ->
        xs_doc st' = xs_doc st)
    /\ (split_path id = [id] -> own_name id = true ->
        forall meta, proto_free (meta_get meta "defaults") = true ->
                     skill_view (xs_doc st') meta id
                     = object_or_empty (meta_get meta "defaults"))
    /\ usable_store work_dir st'.
Proof.
  intros (Hauth & Hparams & Hid) (Hready & Hdoc & Hkeys). unfold reset_skill_impl.
  erewrite bind_run by (unfold authorize, lift; by rewrite Hauth).
  erewrite bind_run by (by apply ensure_storage_ready_ok).
  erewrite bind_lift by exact Hparams.
  erewrite bind_lift by exact Hid.
  erewrite bind_run by reflexivity.
  destruct (read_root_spec (xs_doc st) Hdoc)
    as (root & Hroot & Hskills & Hjson & Hdistinct & Hhas).
  erewrite bind_lift by exact Hroot.
  pose proof (json_bucket (xs_doc st) Hdoc) as Hbucket.
  erewrite bind_lift.
  2:{ unfold read_skills_bucket. rewrite Hskills. by apply clone_or_empty_ok. }
  cbn [is_plain_object as_obj xs_doc ready_settings].
  assert (Hview : forall doc', split_path id = [id] ->
            obj_has (skills_bucket_of doc') id = false ->
            forall meta, proto_free (meta_get meta "defaults") = true ->
                         skill_view doc' meta id
                         = object_or_empty (meta_get meta "defaults")).
  { intros doc' Hsplit Habsent meta Hfree. unfold skill_view, stored_settings.
    rewrite Hsplit. cbn [get_parts]. rewrite obj_get_absent.
    - cbn [is_plain_object object_or_empty]. unfold deepMerge.
      cbn [deep_clone as_obj merge_loop]. apply clone_obj_id.
      unfold object_or_empty. by destruct (meta_get meta "defaults").
    - rewrite <- obj_has_in. congruence. }
  destruct (obj_has (skills_bucket_of (xs_doc st)) id) eqn:Ehas.
  - set (skills' := obj_del (skills_bucket_of (xs_doc st)) id).
    assert (Hroot' : json_safe (VObj (obj_set root "skills" (VObj skills')))).
    { apply json_set; [done|]. by apply json_del. }
    erewrite bind_run.
    2:{ unfold persist_root. by rewrite persist_entries_ok. }
    eexists. split; [reflexivity|]. cbn [xs_doc with_doc ready_settings].
    assert (Hb : skills_bucket_of
                   (fold_left store_entry (obj_set root "skills" (VObj skills'))
                      (xs_doc st)) = skills').
    { unfold skills_bucket_of at 1. rewrite (stored_get EmptyString (fun _ => Ok VUndef)).
      - by rewrite obj_get_set_same.
      - by apply keys_distinct_set, Hdistinct.
      - apply obj_has_set_same. }
    rewrite Hb. split; [apply obj_has_del|].
    split; [intros other Ho; by apply obj_get_del_other|].
    split.
    { intros k Hk. rewrite (persisted_root EmptyString (fun _ => Ok VUndef)).
      - rewrite obj_get_set_other by (intros <-; apply Hk; simpl; tauto).
        by eapply read_root_other.
      - by apply keys_distinct_set, Hdistinct.
      - intros Hout.
        rewrite obj_get_set_other by (intros <-; apply Hout; simpl; tauto).
        by eapply read_root_other.
      - intros Hin. rewrite obj_has_set. apply orb_true_iff. right.
        by eapply read_root_sections. }
    split; [discriminate|].
    split.
    { intros Hsplit _. apply Hview; [done|]. rewrite Hb. apply obj_has_del. }
    apply (usable_store_after work_dir); [done|by apply json_store|].
    by apply keys_distinct_store.
  - eexists. split; [reflexivity|]. cbn [xs_doc ready_settings].
    split; [exact Ehas|]. split; [done|]. split; [done|]. split; [done|].
    split; [intros Hsplit _; by apply Hview|].
    split; [by apply (storage_ready_ready work_dir st)|by split].
Qed.

Lemma get_first_part (o : obj) k (rest : list string) :
  get_parts (VObj o) (k :: rest) = get_parts (obj_get o k) rest.
Proof. reflexivity. Qed.

(** Extra X19: [get] after [set].  For a key of own parts whose first part
    is not one of the four sections [read_root] rewrites, a successful
    [set] of a value at the key followed by [get] of the same key returns
    the deep clone of that value, which is the value itself when it has no
    entry named [__proto__]; top-level keys other than that first part and
    the four sections read as before. *)
Theorem set_then_get_setting set_cmd get_cmd st sp gp key first rest :
  requireKernelCapOrActorRole secret (readCommandCtx set_cmd) "admin" = Ok tt ->
  requireKernelCapOrActorRole secret (readCommandCtx get_cmd) "admin" = Ok tt ->
  usable_store work_dir st ->
  ensure_params E_SETTINGS_BAD_PARAMS (_params set_cmd) = Ok sp ->
  ensure_params E_SETTINGS_BAD_PARAMS (_params get_cmd) = Ok gp ->
  ensure_non_empty_string E_SETTINGS_BAD_PARAMS (obj_get sp "key") "key" = Ok key ->
  ensure_optional_string (obj_get gp "key") = Some key ->
  split_path key = first :: rest ->
  ~ In first root_sections ->
  own_path key = true ->
  exists st',
    set_impl work_dir secret set_cmd st = (Ok (VObj [("ok", VBool true)]), st')
    /\ get_impl work_dir secret get_cmd st'
       = (Ok (VObj [("ok", VBool true); ("value", deep_clone (obj_get sp "value"))]),
          st')
    /\ (proto_free (obj_get sp "value") = true ->
        deep_clone (obj_get sp "value") = obj_get sp "value")
    /\ (forall k, ~ In k root_sections -> k <> first ->
          obj_get (xs_doc st') k = obj_get (xs_doc st) k).
Proof.
  intros Hauth Hgauth (Hready & Hdoc & Hkeys) Hparams Hgparams Hkey Hgkey Hsplit
    Hfirst _.
  unfold set_impl.
  erewrite bind_run by (unfold authorize, lift; by rewrite Hauth).
  erewrite bind_run by (by apply ensure_storage_ready_ok).
  erewrite bind_lift by exact Hparams.
  erewrite bind_lift by exact Hkey.
  erewrite bind_run by reflexivity.
  destruct (read_root_spec (xs_doc st) Hdoc)
    as (root & Hroot & Hskills & Hjson & Hdistinct & Hhas).
  cbn [xs_doc ready_settings].
  erewrite bind_lift by exact Hroot.
  assert (Hv : json_safe (obj_get sp "value")).
  { apply json_get. by eapply ensure_params_json. }
  erewrite bind_lift by (by apply clone_json_ok).
  set (root' := setByPath root key (obj_get sp "value")).
  assert (Hroot' : json_safe (VObj root')) by by apply json_set_parts.
  assert (Hk' : keys_distinct (obj_keys root') = true).
  { subst root'. unfold setByPath. rewrite Hsplit.
    destruct rest; [by apply keys_distinct_set, Hdistinct|].
    rewrite set_parts_cons by done. by apply keys_distinct_set, Hdistinct. }
  assert (Hsame : forall k, k <> first -> obj_get root' k = obj_get root k).
  { intros k Hk. subst root'. unfold setByPath. rewrite Hsplit.
    destruct rest; [by apply obj_get_set_other|].
    rewrite set_parts_cons by done. by apply obj_get_set_other. }
  assert (Hhasfirst : obj_has root' first = true).
  { subst root'. unfold setByPath. rewrite Hsplit.
    destruct rest; [apply obj_has_set_same|].
    rewrite set_parts_cons by done. apply obj_has_set_same. }
  erewrite bind_run.
  2:{ unfold persist_root. by rewrite persist_entries_ok. }
  set (doc' := fold_left store_entry root' (xs_doc st)).
  assert (Hdoc' : json_safe (VObj doc')) by by apply json_store.
  eexists. split; [reflexivity|].
  assert (Hstored : obj_get doc' first = obj_get root' first)
    by by apply (stored_get EmptyString (fun _ => Ok VUndef)).
  split.
  - unfold get_impl.
    erewrite bind_run by (unfold authorize, lift; by rewrite Hgauth).
    erewrite bind_run.
    2:{ apply ensure_storage_ready_ok. by apply (storage_ready_ready work_dir st). }
    erewrite bind_lift by exact Hgparams.
    erewrite bind_run by reflexivity.
    cbn [xs_doc with_doc ready_settings].
    destruct (read_root_spec doc' Hdoc') as (root1 & Hroot1 & _ & Hjson1 & _).
    erewrite bind_lift by exact Hroot1.
    rewrite Hgkey.
    assert (Hget : getByPath (VObj root1) key = deep_clone (obj_get sp "value")).
    { unfold getByPath. rewrite Hsplit, get_first_part.
      rewrite (read_root_other doc' root1 first Hdoc' Hroot1 Hfirst).
      rewrite Hstored, <- get_first_part, <- Hsplit.
      subst root'. unfold setByPath. apply get_set_clone. by rewrite Hsplit. }
    rewrite Hget. erewrite bind_lift by (by apply clone_json_ok, json_clone).
    reflexivity.
  - split; [apply deep_clone_id|].
    intros k Hk Hne. cbn [xs_doc with_doc].
    subst doc'. rewrite (persisted_root EmptyString (fun _ => Ok VUndef)).
    + rewrite Hsame by done. by eapply read_root_other.
    + exact Hk'.
    + intros _. rewrite Hsame by done. by eapply read_root_other.
    + intros Hin. contradiction.
Qed.

End ResetAndSet.

Lemma reset_skill_forgets_bucket_witness :
  exists st',
    reset_skill_impl "/work" sample_secret reset_echo_request sample_store
    = (Ok (VObj [("ok", VBool true)]), st')
    /\ obj_has (skills_bucket_of (xs_doc st')) "echo" = false
    /\ obj_get (skills_bucket_of (xs_doc st')) "vault" = VObj [("mode", VStr "sealed")]
    /\ skill_view (xs_doc st') echo_meta "echo"
       = [("mode", VStr "quiet"); ("retries", VNum 3)].
Proof.
  destruct (reset_skill_forgets_bucket "/work" sample_secret reset_echo_request
              sample_store ([("skill_id", VStr "echo")] ++ [("_ctx", admin_ctx)])
              "echo")
    as (st' & Hrun & Hgone & Hothers & _ & _ & Hview & _).
  - repeat split; reflexivity.
  - repeat split; reflexivity.
  - exists st'. split; [exact Hrun|]. split; [exact Hgone|]. split.
    + rewrite Hothers by discriminate. reflexivity.
    + rewrite Hview; reflexivity.
Defined.

Lemma set_then_get_setting_witness :
  exists st',
    set_impl "/work" sample_secret set_chat_request sample_store
    = (Ok (VObj [("ok", VBool true)]), st')
    /\ get_impl "/work" sample_secret get_chat_request st'
       = (Ok (VObj [("ok", VBool true); ("value", VNum 42)]), st').
Proof.
  destruct (set_then_get_setting "/work" sample_secret set_chat_request
              get_chat_request sample_store
              ([("key", VStr "telegram.chat_id"); ("value", VNum 42)]
               ++ [("_ctx", admin_ctx)])
              ([("key", VStr " telegram.chat_id ")] ++ [("_ctx", admin_ctx)])
              "telegram.chat_id" "telegram" ["chat_id"])
    as (st' & Hset & Hget & _ & _).
  - reflexivity.
  - reflexivity.
  - repeat split; reflexivity.
  - reflexivity.
  - reflexivity.
  - reflexivity.
  - reflexivity.
  - reflexivity.
  - unfold root_sections. simpl. intros [E|[E|[E|[E|[]]]]]; discriminate E.
  - reflexivity.
  - exists st'. split; [exact Hset|exact Hget].
Defined.

(** ** The configuration round-trip, commands and reload *)

Section ConfigRoundTrip.
Context `{Builtins}.

Lemma normalised_member l x : normalised l -> In x l -> x <> EmptyString /\ trim x = x.
Proof.
  unfold normalised. intros Hn Hin. rewrite <- Hn in Hin.
  apply normalize_string_array_in in Hin as (Hne & items & s & _ & _ & Ht).
  split; [done|]. rewrite <- Ht. apply trim_idempotent.
Qed.

Lemma normalised_sublist l sub :
  normalised l -> List.NoDup sub -> (forall x, In x sub -> In x l) -> normalised sub.
Proof.
  intros Hn Hnd Hsub. unfold normalised, str_array. cbn [normalize_string_array].
  apply normalize_loop_fixed; [done|]. intros x Hx.
  destruct (normalised_member l x Hn (Hsub x Hx)) as [Hne Ht].
  split; [done|]. split; [done|]. by intros [].
Qed.

Lemma filter_all (P : string -> Prop) `{!forall x, Decision (P x)} (l : list string) :
  (forall x, In x l -> P x) -> filter P l = l.
Proof.
  induction l as [|x l IH]; intros Hall; [done|].
  rewrite filter_cons_True by (apply Hall; by left).
  rewrite IH; [done|]. intros y Hy. apply Hall. by right.
Qed.

(** Extra X21: the configuration file round-trip.  When the file can be
    read and written and the allow-list and the local paths of the manager
    are in normal form, [persist_enabled_to_agent_config] succeeds, and
    [read_agent_config] on the file it wrote returns exactly the
    configuration the manager then holds: the allow-list as before, and an
    enabled list that holds an id exactly when it was enabled and is in
    the allow-list, holds no id twice, and is sorted whenever the
    comparison of the locale is total and transitive. *)
Theorem config_round_trip (w : World) (sys : System) :
  w_config_writable w = true ->
  config_readable (config_file sys) = true ->
  normalised (allow (m_config (mgr sys))) ->
  normalised (local_paths (m_config (mgr sys))) ->
  exists sys',
    persist_enabled_to_agent_config w sys = (Ok tt, sys')
    /\ read_agent_config (config_file sys') = Ok (m_config (mgr sys'))
    /\ allow (m_config (mgr sys')) = allow (m_config (mgr sys))
    /\ (forall id, In id (enabled (m_config (mgr sys'))) <->
          id ∈ m_enabled (mgr sys) /\ In id (allow (m_config (mgr sys))))
    /\ List.NoDup (enabled (m_config (mgr sys')))
    /\ ((forall a b, locale_le a b = true \/ locale_le b a = true) ->
        (forall a b c, locale_le a b = true -> locale_le b c = true ->
                       locale_le a c = true) ->
        StronglySorted (fun a b => locale_le a b = true)
          (enabled (m_config (mgr sys')))).
Proof.
  intros Hw Hr Hallow Hpaths.
  assert (Hetp : normalised (enabled_to_persist (mgr sys))).
  { apply (normalised_sublist (allow (m_config (mgr sys)))); [done| |].
    - apply enabled_to_persist_nodup.
    - intros x Hx. by apply enabled_to_persist_in in Hx as [_ Hx]. }
  exists (with_config_file
            (Parsed (VObj (persisted_document
                             {| allow := allow (m_config (mgr sys));
                                enabled := enabled_to_persist (mgr sys);
                                node_modules := node_modules (m_config (mgr sys));
                                local_paths := local_paths (m_config (mgr sys)) |}
                             (enabled_to_persist (mgr sys))
                             (decoded_config (config_file sys)))))
            (set_mgr (with_config
                        {| allow := allow (m_config (mgr sys));
                           enabled := enabled_to_persist (mgr sys);
                           node_modules := node_modules (m_config (mgr sys));
                           local_paths := local_paths (m_config (mgr sys)) |}) sys)).
  split.
  { unfold persist_enabled_to_agent_config, mbind, m_bind, get_state, modify_mgr,
      modify, lift, throw.
    rewrite Hw.
    destruct (config_file sys) as [ | | |[]] eqn:Ef; try discriminate Hr; reflexivity. }
  split.
  2:{ split; [reflexivity|]. cbn [mgr set_mgr with_config_file m_config with_config enabled].
      split; [apply enabled_to_persist_in|].
      split; [apply enabled_to_persist_nodup|].
      intros Htotal Htrans. by apply enabled_to_persist_sorted. }
  assert (Hread : forall parsed,
    read_agent_config
      (Parsed (VObj (persisted_document
                       {| allow := allow (m_config (mgr sys));
                          enabled := enabled_to_persist (mgr sys);
                          node_modules := node_modules (m_config (mgr sys));
                          local_paths := local_paths (m_config (mgr sys)) |}
                       (enabled_to_persist (mgr sys)) parsed)))
    = Ok {| allow := allow (m_config (mgr sys));
            enabled := enabled_to_persist (mgr sys);
            node_modules := node_modules (m_config (mgr sys));
            local_paths := local_paths (m_config (mgr sys)) |}).
  { intros parsed. unfold read_agent_config, persisted_document.
    cbn [allow enabled node_modules local_paths].
    rewrite obj_get_set_same. cbn [is_plain_object as_obj].
    rewrite obj_get_set_same. cbn [is_plain_object as_obj].
    rewrite (obj_get_set_other _ "resolve" "allow") by done.
    rewrite (obj_get_set_other _ "enabled" "allow") by done.
    rewrite obj_get_set_same.
    rewrite (obj_get_set_other _ "resolve" "enabled") by done.
    rewrite obj_get_set_same.
    rewrite (obj_get_set_other _ "local_paths" "node_modules") by done.
    rewrite !obj_get_set_same.
    rewrite Hallow, Hpaths, Hetp. f_equal. f_equal.
    - apply filter_all. intros x Hx. apply mem_string_in.
      by apply enabled_to_persist_in in Hx as [_ Hx].
    - by destruct (node_modules (m_config (mgr sys))). }
  cbn [config_file with_config_file mgr set_mgr m_config with_config].
  apply Hread.
Qed.

End ConfigRoundTrip.

Lemma config_round_trip_witness :
  exists sys',
    persist_enabled_to_agent_config sample_world sample_enabled = (Ok tt, sys')
    /\ read_agent_config (config_file sys') = Ok (m_config (mgr sys'))
    /\ allow (m_config (mgr sys')) = allow (m_config (mgr sample_enabled))
    /\ In "echo" (enabled (m_config (mgr sys')))
    /\ StronglySorted (fun a b => String.leb a b = true) (enabled (m_config (mgr sys'))).
Proof.
  destruct (config_round_trip sample_world sample_enabled)
    as (sys' & Hrun & Hread & Hallow & Hmem & _ & Hsorted).
  - reflexivity.
  - vm_compute. reflexivity.
  - vm_compute. reflexivity.
  - vm_compute. reflexivity.
  - exists sys'. split; [exact Hrun|]. split; [exact Hread|]. split; [exact Hallow|].
    split.
    + apply Hmem. split; [|vm_compute; by left].
      apply (bool_decide_eq_true_1 _). vm_compute. reflexivity.
    + apply Hsorted; [apply String.leb_total|apply string_leb_trans].
Defined.

Section OneSkillAtATime.
Context `{Builtins}.
Variable w : World.

Lemma enabled_is_inv E A sys :
  enabled_is E A sys -> m_enabled (mgr sys) = E /\ allow (m_config (mgr sys)) = A.
Proof. unfold enabled_is, enabled_view. by intros [= -> ->]. Qed.

Lemma other_union (E : gset string) (id other : string) :
  other <> id -> (other ∈ ({[id]} ∪ E : gset string) <-> other ∈ E).
Proof. intros Ho. rewrite elem_of_union, elem_of_singleton. tauto. Qed.

Lemma other_difference (E : gset string) (id other : string) :
  other <> id -> (other ∈ (E ∖ {[id]} : gset string) <-> other ∈ E).
Proof. intros Ho. rewrite elem_of_difference, elem_of_singleton. tauto. Qed.

Lemma enable_skill_others E id src :
  preserves (others_as E id) (enable_skill w id src).
Proof.
  intros st HP.
  pose proof (enable_skill_enabled w id src _ _ st (enabled_is_here st)) as Hrun.
  destruct (enable_skill w id src st) as [[[]|e] st']; unfold others_as in *.
  - destruct Hrun as [Hen _]. apply enabled_is_inv in Hen as [Hen _].
    intros other Ho. rewrite Hen, other_union by done. by apply HP.
  - destruct Hrun as [Hen|Hen]; apply enabled_is_inv in Hen as [Hen _];
      intros other Ho; rewrite Hen, ?other_difference by done; by apply HP.
Qed.

Lemma disable_skill_others E id src :
  preserves (others_as E id) (disable_skill w id src).
Proof.
  intros st HP.
  pose proof (disable_skill_enabled w id src _ _ st (enabled_is_here st)) as Hrun.
  destruct (disable_skill w id src st) as [[[]|e] st']; unfold others_as in *.
  - destruct Hrun as [Hen _]. apply enabled_is_inv in Hen as [Hen _].
    intros other Ho. rewrite Hen, other_difference by done. by apply HP.
  - destruct Hrun as [Hen _]. apply enabled_is_inv in Hen as [Hen _].
    intros other Ho. rewrite Hen. by apply HP.
Qed.

Lemma keeps_enabled_preserves {A} (P : System -> Prop) (m : M System A) :
  (forall s s', m_enabled (mgr s) = m_enabled (mgr s') -> P s -> P s') ->
  keeps enabled_view m -> preserves P m.
Proof.
  intros HP Hkeeps. apply (keeps_preserves enabled_view); [|done].
  intros s s' Hview. apply HP. unfold enabled_view in Hview. congruence.
Qed.

Lemma others_as_view E id s s' :
  m_enabled (mgr s) = m_enabled (mgr s') -> others_as E id s -> others_as E id s'.
Proof. unfold others_as. intros <-. done. Qed.

Lemma persist_others E id :
  preserves (others_as E id) (persist_enabled_to_agent_config w).
Proof.
  apply keeps_enabled_preserves; [apply others_as_view|apply keeps_persist].
Qed.

Lemma command_body_others E id xcmd
    (body : string -> bool -> M System CommandReply) :
  command_id xcmd = Ok id ->
  (forall b, preserves (others_as E id) (body id b)) ->
  preserves (others_as E id)
    (sys0 ← get_state;
     _ ← lift (requireKernelCapOrActorRole (guard_secret sys0)
                 (readCommandCtx xcmd) "admin");
     id0 ← lift (command_id xcmd);
     body id0 (bool_decide (id0 ∈ m_enabled (mgr sys0)))).
Proof.
  intros Hid Hbody. apply preserves_get_bind. intros sys0.
  apply preserves_bind; [apply preserves_lift|]. intros _.
  rewrite Hid. intros st HP. by apply Hbody.
Qed.

Lemma reply_for_others E id : preserves (others_as E id) (reply_for id).
Proof. by intros st HP. Qed.

(** Extra X22: the enable and disable commands touch one skill.  In a
    world whose hooks send no command to the skill manager itself,
    whatever a command about the skill [id] does (succeed, fail, roll
    back), every other skill is enabled after it exactly when it was
    enabled before. *)
Theorem commands_touch_one_skill (sys : System) (xcmd : XCommandData)
    (id other : string) :
  no_reentry w ->
  command_id xcmd = Ok id ->
  other <> id ->
  (other ∈ m_enabled (mgr (snd (enable_impl w xcmd sys))) <-> other ∈ m_enabled (mgr sys))
  /\ (other ∈ m_enabled (mgr (snd (disable_impl w xcmd sys)))
      <-> other ∈ m_enabled (mgr sys)).
Proof.
  intros _ Hid Hother.
  assert (Hhere : others_as (m_enabled (mgr sys)) id sys) by by intros ? ?.
  split.
  - assert (Hp : preserves (others_as (m_enabled (mgr sys)) id) (enable_impl w xcmd)).
    { unfold enable_impl.
      apply (command_body_others _ id xcmd (fun id0 was_enabled =>
               _ ← enable_skill w id0 "command";
               _ ← try_catch (persist_enabled_to_agent_config w)
                     (fun err =>
                        _ ← (if negb was_enabled
                             then try_catch (disable_skill w id0 "command")
                                    (fun _ => mret tt)
                             else mret tt);
                        throw PERSIST_FAILED);
               reply_for id0)); [done|]. intros b.
      apply preserves_bind; [apply enable_skill_others|]. intros _.
      apply preserves_bind; [|intros _; apply reply_for_others].
      apply preserves_try_catch; [apply persist_others|]. intros e.
      apply preserves_bind; [|intros _; apply preserves_throw].
      destruct (negb b); [|apply preserves_ret].
      apply preserves_try_catch; [apply disable_skill_others|].
      intros _. apply preserves_ret. }
    by apply (preserves_snd _ _ sys Hp Hhere).
  - assert (Hp : preserves (others_as (m_enabled (mgr sys)) id) (disable_impl w xcmd)).
    { unfold disable_impl.
      apply (command_body_others _ id xcmd (fun id0 was_enabled =>
               _ ← disable_skill w id0 "command";
               _ ← try_catch (persist_enabled_to_agent_config w)
                     (fun err =>
                        _ ← (if was_enabled
                             then try_catch (enable_skill w id0 "command")
                                    (fun _ => mret tt)
                             else mret tt);
                        throw PERSIST_FAILED);
               reply_for id0)); [done|]. intros b.
      apply preserves_bind; [apply disable_skill_others|]. intros _.
      apply preserves_bind; [|intros _; apply reply_for_others].
      apply preserves_try_catch; [apply persist_others|]. intros e.
      apply preserves_bind; [|intros _; apply preserves_throw].
      destruct b; [|apply preserves_ret].
      apply preserves_try_catch; [apply enable_skill_others|].
      intros _. apply preserves_ret. }
    by apply (preserves_snd _ _ sys Hp Hhere).
Qed.

End OneSkillAtATime.

Lemma commands_touch_one_skill_witness :
  elements (m_enabled (mgr (with_vault sample_loaded))) = ["vault"]
  /\ "echo" ∈ m_enabled (mgr (snd (enable_impl sample_world (echo_command "enable")
                                     (with_vault sample_loaded))))
  /\ "vault" ∈ m_enabled (mgr (snd (enable_impl sample_world (echo_command "enable")
                                      (with_vault sample_loaded))))
  /\ "echo" ∈ m_enabled (mgr (with_vault sample_enabled))
  /\ ("echo" ∉ m_enabled (mgr (snd (disable_impl sample_world (echo_command "disable")
                                      (with_vault sample_enabled)))))
  /\ "vault" ∈ m_enabled (mgr (snd (disable_impl sample_world (echo_command "disable")
                                      (with_vault sample_enabled)))).
Proof.
  pose proof (proj1 (commands_touch_one_skill sample_world (with_vault sample_loaded)
                       (echo_command "enable") "echo" "vault"
                       sample_hooks_stay_out eq_refl ltac:(discriminate))) as Hen.
  pose proof (proj2 (commands_touch_one_skill sample_world (with_vault sample_enabled)
                       (echo_command "disable") "echo" "vault"
                       sample_hooks_stay_out eq_refl ltac:(discriminate))) as Hdis.
  split; [vm_compute; reflexivity|].
  split; [apply (bool_decide_eq_true_1 _); vm_compute; reflexivity|].
  split; [apply Hen, (bool_decide_eq_true_1 _); vm_compute; reflexivity|].
  split; [apply (bool_decide_eq_true_1 _); vm_compute; reflexivity|].
  split; [apply (bool_decide_eq_false_1 _); vm_compute; reflexivity|].
  apply Hdis, (bool_decide_eq_true_1 _). vm_compute. reflexivity.
Defined.

Section Reload.
Context `{Builtins}.
Variable w : World.

Lemma enabled_within_view target s s' :
  m_enabled (mgr s) = m_enabled (mgr s') -> enabled_within target s ->
  enabled_within target s'.
Proof. unfold enabled_within. intros <-. done. Qed.

Lemma disable_loop (target items : list string) :
  hoare (fun s => forall x, x ∈ m_enabled (mgr s) -> In x target \/ In x items)
    (for_each items (fun id =>
       if mem_string id target then mret tt else disable_skill w id "reload"))
    (fun _ => enabled_within target) (fun _ _ => True).
Proof.
  induction items as [|id items IH].
  - intros s Hs x Hx. by destruct (Hs x Hx).
  - cbn [for_each].
    apply hoare_bind with
      (R := fun _ s => forall x, x ∈ m_enabled (mgr s) -> In x target \/ In x items);
      [|intros ?; exact IH].
    destruct (mem_string id target) eqn:Et.
    + apply mem_string_in in Et. intros s Hs x Hx.
      destruct (Hs x Hx) as [?|[Heq|?]]; auto. subst x. by left.
    + intros s Hs.
      pose proof (disable_skill_enabled w id "reload" _ _ s (enabled_is_here s)) as Hrun.
      destruct (disable_skill w id "reload" s) as [[[]|e] s']; [|done].
      destruct Hrun as [Hen _]. apply enabled_is_inv in Hen as [Hen _].
      intros x Hx. rewrite Hen in Hx.
      apply elem_of_difference in Hx as [Hx Hne].
      rewrite elem_of_singleton in Hne.
      destruct (Hs x Hx) as [?|[Heq|?]]; auto. by destruct Hne.
Qed.

Lemma enable_loop (target : list string) :
  preserves (enabled_within target)
    (for_each target (fun id =>
       try_catch (enable_skill w id "reload")
         (fun err => set_error_state id (to_error_message err) None))).
Proof.
  apply hoare_for_each. intros id Hid.
  apply hoare_try_catch with (E1 := fun _ => enabled_within target).
  - intros s Hs.
    pose proof (enable_skill_enabled w id "reload" _ _ s (enabled_is_here s)) as Hrun.
    destruct (enable_skill w id "reload" s) as [[[]|e] s'].
    + destruct Hrun as [Hen _]. apply enabled_is_inv in Hen as [Hen _].
      intros x Hx. rewrite Hen in Hx.
      apply elem_of_union in Hx as [Hx|Hx]; [|by apply Hs].
      apply elem_of_singleton in Hx. by subst.
    + destruct Hrun as [Hen|Hen]; apply enabled_is_inv in Hen as [Hen _];
        intros x Hx; rewrite Hen in Hx; [by apply Hs|].
      apply elem_of_difference in Hx as [Hx _]. by apply Hs.
  - intros e. apply keeps_enabled_preserves; [apply enabled_within_view|].
    apply keeps_set_error_state. apply plain_enabled_view.
Qed.

(** Extra X23: what [reload_enabled] leaves enabled.  In a world whose
    hooks send no command to the skill manager itself, when the reload
    command succeeds, its caller held the kernel capability, the
    configuration file could be read, and every skill that is enabled
    afterwards is both in the enabled list and in the allow-list of that
    file. *)
Theorem reload_enables_only_configured (sys : System) (xcmd : XCommandData) :
  no_reentry w ->
  fst (reload_enabled_impl w xcmd sys) = Ok tt ->
  requireKernelCap (guard_secret sys) (readCommandCtx xcmd) = Ok tt
  /\ exists config,
       read_agent_config (config_file sys) = Ok config
       /\ forall id, id ∈ m_enabled (mgr (snd (reload_enabled_impl w xcmd sys))) ->
            In id (enabled config) /\ In id (allow config).
Proof.
  intros _.
  assert (Hshape : reload_enabled_impl w xcmd sys
    = match requireKernelCap (guard_secret sys) (readCommandCtx xcmd) with
      | Ok _ =>
          match read_agent_config (config_file sys) with
          | Ok config =>
              (_ ← modify_mgr (with_config config);
               _ ← for_each (elements (m_enabled (mgr sys))) (fun id =>
                     if mem_string id (enabled config) then mret tt
                     else disable_skill w id "reload");
               for_each (enabled config) (fun id =>
                 try_catch (enable_skill w id "reload")
                   (fun err => set_error_state id (to_error_message err) None))) sys
          | Throw e => (Throw e, sys)
          end
      | Throw e => (Throw e, sys)
      end).
  { unfold reload_enabled_impl.
    change ((get_state ≫= ?k) sys) with (k sys sys).
    unfold mbind at 1, m_bind at 1, lift at 1.
    destruct (requireKernelCap (guard_secret sys) (readCommandCtx xcmd)) as [[]|e0];
      [|reflexivity].
    unfold mbind at 1, m_bind at 1, lift at 1.
    by destruct (read_agent_config (config_file sys)). }
  rewrite Hshape. clear Hshape.
  destruct (requireKernelCap (guard_secret sys) (readCommandCtx xcmd)) as [[]|e0];
    [|discriminate].
  destruct (read_agent_config (config_file sys)) as [config|e1] eqn:Hread;
    [|discriminate].
  intros Hok. split; [done|]. exists config. split; [done|].
  assert (Hrest : hoare (fun s => s = sys)
            (_ ← modify_mgr (with_config config);
             _ ← for_each (elements (m_enabled (mgr sys))) (fun id =>
                   if mem_string id (enabled config) then mret tt
                   else disable_skill w id "reload");
             for_each (enabled config) (fun id =>
               try_catch (enable_skill w id "reload")
                 (fun err => set_error_state id (to_error_message err) None)))
            (fun _ => enabled_within (enabled config)) (fun _ _ => True)).
  { eapply hoare_bind with
      (R := fun _ s => forall x, x ∈ m_enabled (mgr s) ->
                                 In x (enabled config)
                                 \/ In x (elements (m_enabled (mgr sys)))).
    - intros s -> x Hx. right. cbn in Hx. by apply list_elem_of_In, elem_of_elements.
    - intros ?. apply hoare_bind with (R := fun _ => enabled_within (enabled config));
        [apply disable_loop|].
      intros ?. eapply hoare_consequence; [apply enable_loop|done|done|done]. }
  specialize (Hrest sys eq_refl). cbv beta in Hrest.
  match type of Hok with fst ?r = _ => destruct r as [[[]|e2] sys'] end;
    [|discriminate Hok].
  intros id Hin. cbn [snd] in Hin. split; [by apply Hrest|].
  assert (Hsub : forall x, In x (enabled config) -> In x (allow config)).
  { unfold read_agent_config in Hread.
    destruct (config_file sys) as [ | | |[ | | | | | | |parsed]];
      try discriminate Hread; injection Hread as <-; cbn [enabled allow];
      [by intros x []|].
    intros x Hx. apply list_elem_of_In, list_elem_of_filter in Hx as [Hx _].
    by apply mem_string_in. }
  by apply Hsub, Hrest.
Qed.

End Reload.

Lemma reload_enables_only_configured_witness :
  requireKernelCap (guard_secret sample_enabled)
    (readCommandCtx (kernel_command "reload_enabled" [])) = Ok tt
  /\ exists config,
       read_agent_config (config_file sample_enabled) = Ok config
       /\ forall id,
            id ∈ m_enabled (mgr (snd (reload_enabled_impl sample_world
                                        (kernel_command "reload_enabled" [])
                                        sample_enabled))) ->
            In id (enabled config) /\ In id (allow config).
Proof.
  apply (reload_enables_only_configured sample_world sample_enabled
           (kernel_command "reload_enabled" []) sample_hooks_stay_out).
  vm_compute. reflexivity.
Defined.

Example reload_keeps_echo :
  elements (m_enabled (mgr (snd (reload_enabled_impl sample_world
                                   (kernel_command "reload_enabled" [])
                                   sample_enabled))))
  = ["echo"].
Proof. vm_compute. reflexivity. Qed.

(** ** The module gate and the settings commands of the manager *)

Section LockOut.
Context `{Builtins}.
Variable w : World.

Lemma hoare_any {A} (m : M System A) :
  hoare (fun _ => True) m (fun _ _ => True) (fun _ _ => True).
Proof. intros st _. by destruct (m st) as [[a|e] st']. Qed.

Lemma keeps_disable_skill {V} (view : Manager -> V) id src :
  (forall a b m, view (with_ownership a b m) = view m) ->
  (forall e m, view (with_enabled e m) = view m) ->
  (forall l m, view (with_loaded l m) = view m) ->
  keeps view (disable_skill w id src).
Proof.
  intros Hown Hen Hload. unfold disable_skill.
  apply keeps_bind; [apply keeps_assert_allowlisted|intros ?].
  apply keeps_get_bind. intros sys0.
  apply keeps_bind; [by apply keeps_modify_mgr|intros ?].
  apply keeps_bind.
  { destruct (m_runtime_by_skill (mgr sys0) !! id) as [[? ? ? caps ? [fn|]]|];
      try apply keeps_ret.
    apply keeps_try_catch; [by apply keeps_run_hook|intros e; apply keeps_ret]. }
  intros ?.
  apply keeps_bind; [apply keeps_call_module_hooks|intros ?].
  by apply keeps_modify_mgr.
Qed.

Lemma disable_skill_record id src :
  hoare (fun _ => True) (disable_skill w id src)
    (fun _ s => exists record,
         m_loaded (mgr s) !! id = Some record
         /\ rec_enabled record = false /\ rec_status record = StatusDisabled)
    (fun _ _ => True).
Proof.
  unfold disable_skill.
  eapply hoare_bind with (R := fun _ _ => True); [apply hoare_any|intros ?].
  eapply hoare_bind with (R := fun _ _ => True); [apply hoare_any|intros sys0].
  eapply hoare_bind with (R := fun _ _ => True); [apply hoare_any|intros ?].
  eapply hoare_bind with (R := fun _ _ => True); [apply hoare_any|intros ?].
  eapply hoare_bind with (R := fun _ _ => True); [apply hoare_any|intros ?].
  apply hoare_modify. intros st _. eexists. split; [|split].
  - simpl. apply lookup_insert_eq.
  - reflexivity.
  - reflexivity.
Qed.

Lemma callback_refused id sys :
  id ∉ m_enabled (mgr sys) -> id ∉ m_activating (mgr sys) ->
  assert_skill_enabled_for_callback id sys = (Throw (SKILL_DISABLED id), sys).
Proof.
  intros He Ha. unfold assert_skill_enabled_for_callback.
  by rewrite (bool_decide_eq_false_2 _ He), (bool_decide_eq_false_2 _ Ha).
Qed.

(** Extra X24: a disabled skill is locked out.  After [disable_skill]
    succeeds for a skill that is not being activated, the skill is not in
    the enabled set, its record says disabled, every [execute] and every
    [emit] of its sandbox context throws [E_SKILLS_DISABLED] and changes
    nothing, and [assert_module_command_allowed] refuses every module the
    skill owns with [E_SKILLS_MODULE_DISABLED]. *)
Theorem disabled_skill_is_locked_out (sys : System) (id src : string) :
  ownership_inv sys ->
  id ∉ m_activating (mgr sys) ->
  fst (disable_skill w id src sys) = Ok tt ->
  (id ∉ m_enabled (mgr (snd (disable_skill w id src sys))))
  /\ (exists record,
        m_loaded (mgr (snd (disable_skill w id src sys))) !! id = Some record
        /\ rec_enabled record = false /\ rec_status record = StatusDisabled)
  /\ (forall caps module_name op params meta,
        ctx_execute w id caps module_name op params meta
          (snd (disable_skill w id src sys))
        = (Throw (SKILL_DISABLED id), snd (disable_skill w id src sys)))
  /\ (forall event_name payload,
        ctx_emit id event_name payload (snd (disable_skill w id src sys))
        = (Throw (SKILL_DISABLED id), snd (disable_skill w id src sys)))
  /\ (forall md,
        owns (snd (disable_skill w id src sys)) id md ->
        thrown_code (assert_module_command_allowed
                       (mgr (snd (disable_skill w id src sys))) md)
        = Some E_SKILLS_MODULE_DISABLED).
Proof.
  intros Hinv Hact Hok.
  pose proof (disable_skill_enabled w id src _ _ sys (enabled_is_here sys)) as Hen.
  pose proof (keeps_disable_skill m_activating id src
                (fun _ _ _ => eq_refl) (fun _ _ => eq_refl) (fun _ _ => eq_refl)
                _ sys eq_refl) as Hkeep.
  pose proof (disable_skill_record id src sys I) as Hrec.
  pose proof (disable_skill_inv w id src sys Hinv) as Hinv'.
  destruct (disable_skill w id src sys) as [[[]|e] after]; [|discriminate Hok].
  cbn [snd]. cbn beta in Hkeep.
  destruct Hen as [Hen _]. apply enabled_is_inv in Hen as [Hen _].
  assert (Hout : id ∉ m_enabled (mgr after)) by (rewrite Hen, elem_of_difference, elem_of_singleton; tauto).
  assert (Hact' : id ∉ m_activating (mgr after)) by by rewrite Hkeep.
  split; [exact Hout|]. split; [exact Hrec|]. split; [|split].
  - intros caps mn op params meta. unfold ctx_execute, mbind, m_bind.
    by rewrite callback_refused.
  - intros name payload. unfold ctx_emit, mbind, m_bind.
    by rewrite callback_refused.
  - intros md Hown. destruct Hinv' as (Hmap & _ & Hne).
    apply Hmap in Hown. unfold assert_module_command_allowed. rewrite Hown.
    assert (Hs : str_nonempty id = true) by (apply str_nonempty_spec; eauto).
    rewrite Hs. cbn [negb]. by rewrite (bool_decide_eq_false_2 _ Hout).
Qed.

End LockOut.

Lemma disabled_skill_is_locked_out_witness :
  ("echo" ∉ m_enabled (mgr (snd (disable_skill sample_world "echo" "command"
                                   sample_enabled))))
  /\ (exists record,
        m_loaded (mgr (snd (disable_skill sample_world "echo" "command"
                              sample_enabled))) !! "echo" = Some record
        /\ rec_enabled record = false /\ rec_status record = StatusDisabled)
  /\ (forall caps module_name op params meta,
        ctx_execute sample_world "echo" caps module_name op params meta
          (snd (disable_skill sample_world "echo" "command" sample_enabled))
        = (Throw (SKILL_DISABLED "echo"),
           snd (disable_skill sample_world "echo" "command" sample_enabled)))
  /\ (forall event_name payload,
        ctx_emit "echo" event_name payload
          (snd (disable_skill sample_world "echo" "command" sample_enabled))
        = (Throw (SKILL_DISABLED "echo"),
           snd (disable_skill sample_world "echo" "command" sample_enabled)))
  /\ (forall md,
        owns (snd (disable_skill sample_world "echo" "command" sample_enabled))
          "echo" md ->
        thrown_code (assert_module_command_allowed
                       (mgr (snd (disable_skill sample_world "echo" "command"
                                    sample_enabled))) md)
        = Some E_SKILLS_MODULE_DISABLED).
Proof.
  apply (disabled_skill_is_locked_out sample_world sample_enabled "echo" "command").
  - apply (reachable_inv sample_world), sample_enabled_reachable.
  - apply (bool_decide_eq_false_1 ("echo" ∈ m_activating (mgr sample_enabled))).
    vm_compute. reflexivity.
  - vm_compute. reflexivity.
Defined.

Section ForwardedContext.

Lemma ctx_fields_round_trip (ctx : AgentCommandCtx) : to_ctx (VObj (ctx_fields ctx)) = ctx.
Proof.
  destruct ctx as [[wid|] [sid|] [cap|] [[[u|] [r|] [c|] [s|]]|]]; reflexivity.
Qed.

Lemma obj_get_app_absent (o : obj) (k : string) (v : value) :
  obj_has o k = false -> obj_get (o ++ [(k, v)]) k = v.
Proof.
  induction o as [|[k' x] o IH]; simpl.
  - by rewrite String.eqb_refl.
  - destruct (String.eqb k' k) eqn:E; [discriminate|]. exact IH.
Qed.

Lemma forwarded_command_ctx op params xcmd :
  obj_has params "_ctx" = false ->
  readCommandCtx (forwarded_command op params xcmd) = readCommandCtx xcmd.
Proof.
  intros Hno. unfold readCommandCtx at 1. unfold forwarded_command.
  cbn [_ctx _params params_ctx_of to_ctx _wid _sid kernel_cap actor].
  rewrite obj_get_app_absent by exact Hno.
  unfold forward_ctx. rewrite ctx_fields_round_trip.
  by destruct (readCommandCtx xcmd) as [[?|] [?|] [?|] [?|]].
Qed.

(** Extra X25: the context the manager forwards is the context of the
    caller.  Reading [forward_ctx] of a command back with [to_ctx] gives
    the context [readCommandCtx] reads from the command; hence the
    commands [get_settings] and [update_settings] hand to the settings
    module carry the context of their caller, and every guard decides on
    them as on the command of the caller. *)
Theorem forwarded_context_is_the_callers (xcmd : XCommandData) :
  to_ctx (VObj (forward_ctx xcmd)) = readCommandCtx xcmd
  /\ (forall id, readCommandCtx (forwarded_get_skill id xcmd) = readCommandCtx xcmd)
  /\ (forall id patch,
        readCommandCtx (forwarded_set_skill id patch xcmd) = readCommandCtx xcmd)
  /\ (forall op params secret min_role,
        obj_has params "_ctx" = false ->
        requireKernelCapOrActorRole secret
          (readCommandCtx (forwarded_command op params xcmd)) min_role
        = requireKernelCapOrActorRole secret (readCommandCtx xcmd) min_role).
Proof.
  split; [apply ctx_fields_round_trip|]. split; [|split].
  - intros id. by apply forwarded_command_ctx.
  - intros id patch. by apply forwarded_command_ctx.
  - intros op params secret min_role Hno. by rewrite forwarded_command_ctx.
Qed.

End ForwardedContext.

Section ReadsDoc.

Lemma reads_doc_ret {A} (a : A) : reads_doc (mret a).
Proof. intros st. split; [reflexivity|]. by intros st2 _. Qed.

Lemma reads_doc_throw {A} e : reads_doc (throw (A:=A) e).
Proof. intros st. split; [reflexivity|]. by intros st2 _. Qed.

Lemma reads_doc_lift {A} (r : Result A) : reads_doc (lift r).
Proof. intros st. unfold lift. destruct r; (split; [reflexivity|]); by intros st2 _. Qed.

Lemma reads_doc_bind {A B} (m : M SettingsState A) (k : A -> M SettingsState B) :
  reads_doc m -> (forall a, reads_doc (k a)) -> reads_doc (m ≫= k).
Proof.
  intros Hm Hk st. unfold mbind, m_bind.
  destruct (Hm st) as [Hs Hf]. split.
  - destruct (m st) as [[a|e] s1]; simpl in Hs; subst; [apply Hk|reflexivity].
  - intros st2 Hdoc. specialize (Hf st2 Hdoc).
    destruct (Hm st2) as [Hs2 _].
    destruct (m st) as [[a|e] s1], (m st2) as [[a2|e2] s2]; simpl in *; subst;
      try discriminate.
    + injection Hf as ->. by apply Hk.
    + by injection Hf as ->.
Qed.

Lemma reads_doc_get {B} (k : SettingsState -> M SettingsState B) :
  (forall s, reads_doc (k s)) ->
  (forall s1 s2 st, xs_doc s1 = xs_doc s2 -> k s1 st = k s2 st) ->
  reads_doc (get_state ≫= k).
Proof.
  intros Hk Hdep st. unfold mbind, m_bind, get_state. split; [apply Hk|].
  intros st2 Hdoc. rewrite (Hdep st2 st st2 Hdoc). by apply Hk.
Qed.

Lemma bind_inv {S A B} (m : M S A) (k : A -> M S B) st b st' :
  (m ≫= k) st = (Ok b, st') ->
  exists a s1, m st = (Ok a, s1) /\ k a s1 = (Ok b, st').
Proof.
  unfold mbind, m_bind. destruct (m st) as [[a|e] s1]; [eauto|discriminate].
Qed.

Lemma lift_inv {S A} (r : Result A) (st : S) a s1 :
  lift r st = (Ok a, s1) -> r = Ok a /\ s1 = st.
Proof. unfold lift. destruct r; intros [= <- <-]; eauto. Qed.

End ReadsDoc.

Section GetSkillTwice.
Context `{Builtins}.
Variable work_dir : string.
Variable secret : string.
Variable resolver : string -> Result value.

Lemma ensure_storage_ready_again st s1 :
  ensure_storage_ready work_dir st = (Ok tt, s1) ->
  ensure_storage_ready work_dir s1 = (Ok tt, s1).
Proof.
  unfold ensure_storage_ready.
  destruct (xs_initialized st) eqn:Hi; cbn [negb].
  - destruct (String.eqb (xs_work_dir st) work_dir) eqn:Hw; cbn [negb]; [|discriminate].
    destruct (xs_available st) eqn:Ha; [|discriminate].
    intros [= <-]. by rewrite Hi, Hw, Ha.
  - destruct (xs_available st) eqn:Ha; [|discriminate].
    intros [= <-]. cbn. by rewrite String.eqb_refl.
Qed.

Lemma get_skill_tail_reads (params : obj) (skill_id : string) :
  reads_doc
    (st ← get_state;
     root ← lift (read_root (xs_doc st));
     stored ← lift (clone_or_empty (getByPath (VObj root) ("skills." +:+ skill_id)));
     meta ← lift (resolve_skill_meta resolver skill_id);
     defaults ← lift (clone_or_empty (meta_get meta "defaults"));
     let sensitive_paths := normalize_string_array (meta_get meta "sensitive") in
     let merged := deepMerge defaults stored in
     masked_payload ←
       (if normalize_boolean (obj_get params "include_masked") true
        then mret (maskSensitive merged sensitive_paths)
        else c ← lift (clone_json (VObj merged));
             mret {| maskedSettings := as_obj c; maskedMap := [] |});
     schema ←
       (if normalize_boolean (obj_get params "include_schema") false
           && negb (is_falsy (meta_get meta "schema"))
        then c ← lift (clone_json (meta_get meta "schema")); mret [("schema", c)]
        else mret []);
     mret (VObj [("ok", VBool true);
                 ("result", VObj ([("skill_id", VStr skill_id);
                                   ("settings", VObj (maskedSettings masked_payload));
                                   ("masked", VObj (maskedMap masked_payload))]
                                  ++ schema))])).
Proof.
  apply reads_doc_get.
  - intros s.
    apply reads_doc_bind; [apply reads_doc_lift|intros root].
    apply reads_doc_bind; [apply reads_doc_lift|intros stored].
    apply reads_doc_bind; [apply reads_doc_lift|intros meta].
    apply reads_doc_bind; [apply reads_doc_lift|intros defaults].
    cbv zeta.
    apply reads_doc_bind.
    { destruct (normalize_boolean _ true); [apply reads_doc_ret|].
      apply reads_doc_bind; [apply reads_doc_lift|intros c; apply reads_doc_ret]. }
    intros masked_payload.
    apply reads_doc_bind; [|intros schema; apply reads_doc_ret].
    destruct (_ && _); [|apply reads_doc_ret].
    apply reads_doc_bind; [apply reads_doc_lift|intros c; apply reads_doc_ret].
  - intros s1 s2 st Hdoc. by rewrite Hdoc.
Qed.

Lemma get_skill_impl_again xcmd st v st' :
  get_skill_impl work_dir secret resolver xcmd st = (Ok v, st') ->
  get_skill_impl work_dir secret resolver xcmd st' = (Ok v, st').
Proof.
  unfold get_skill_impl. intros Hrun.
  apply bind_inv in Hrun as ([] & s0 & Hauth & Hrun).
  apply lift_inv in Hauth as [Hauth ->].
  apply bind_inv in Hrun as ([] & s1 & Hready & Hrun).
  apply bind_inv in Hrun as (params & s2 & Hparams & Hrun).
  apply lift_inv in Hparams as [Hparams ->].
  apply bind_inv in Hrun as (id & s2 & Hid & Hrun).
  apply lift_inv in Hid as [Hid ->].
  cbv zeta in Hrun.
  pose proof (proj1 (get_skill_tail_reads params id s1)) as Hsame.
  cbv zeta in Hsame. rewrite Hrun in Hsame. simpl in Hsame. subst st'.
  erewrite bind_run by (unfold authorize, lift; by rewrite Hauth).
  erewrite bind_run by (by apply ensure_storage_ready_again in Hready).
  erewrite bind_lift by exact Hparams.
  erewrite bind_lift by exact Hid.
  exact Hrun.
Qed.

End GetSkillTwice.

Section UpdateSettings.
Context `{Builtins}.
Variable w : World.

Lemma dispatch_guard_secret cmd sys :
  guard_secret (snd (dispatch w cmd sys)) = guard_secret sys.
Proof.
  unfold dispatch, run_settings.
  repeat match goal with
         | |- context [if ?b then _ else _] => destruct b
         | |- context [let '(_, _) := ?x in _] => destruct x
         end; reflexivity.
Qed.

Lemma dispatch_forwarded_get_skill id xcmd sys :
  dispatch w (forwarded_get_skill id xcmd) sys
  = run_settings
      (get_skill_impl (w_settings_work_dir w) (guard_secret sys)
         (resolve_skill_settings_meta (mgr sys)) (forwarded_get_skill id xcmd)) sys.
Proof. reflexivity. Qed.

Lemma dispatch_get_skill_again id xcmd sys v sys' :
  dispatch w (forwarded_get_skill id xcmd) sys = (Ok v, sys') ->
  dispatch w (forwarded_get_skill id xcmd) sys' = (Ok v, sys').
Proof.
  rewrite !dispatch_forwarded_get_skill. unfold run_settings.
  destruct (get_skill_impl _ _ _ _ (settings sys)) as [r st'] eqn:Hrun.
  intros [= -> <-]. cbn [settings with_settings guard_secret mgr].
  by rewrite (get_skill_impl_again _ _ _ _ _ _ _ Hrun).
Qed.

Lemma assert_allowlisted_inv id sys s1 :
  assert_allowlisted id sys = (Ok tt, s1) ->
  s1 = sys /\ mem_string id (allow (m_config (mgr sys))) = true.
Proof.
  unfold assert_allowlisted. destruct (mem_string _ _); [|discriminate].
  by intros [= <-].
Qed.

(** Extra X26: [get_settings] after [update_settings].  When
    [update_settings] succeeds, the manager is unchanged, the reply names
    the skill and its settings, and [get_settings] on the same command
    right after returns the same skill and the same settings and changes
    nothing. *)
Theorem update_settings_then_get_settings (sys : System) (xcmd : XCommandData)
    (reply : value) :
  fst (update_settings_impl w xcmd sys) = Ok reply ->
  mgr (snd (update_settings_impl w xcmd sys)) = mgr sys
  /\ exists id settings,
       reply = VObj [("ok", VBool true); ("id", VStr id); ("settings", VObj settings)]
       /\ get_settings_impl w xcmd (snd (update_settings_impl w xcmd sys))
          = (Ok (VObj [("id", VStr id); ("settings", VObj settings)]),
             snd (update_settings_impl w xcmd sys)).
Proof.
  destruct (update_settings_impl w xcmd sys) as [r after] eqn:Hrun.
  cbn [fst snd]. intros ->. unfold update_settings_impl in Hrun.
  apply bind_inv in Hrun as (sys0 & s & Hget & Hrun).
  injection Hget as <- <-.
  apply bind_inv in Hrun as ([] & s & Hguard & Hrun).
  apply lift_inv in Hguard as [Hguard ->].
  apply bind_inv in Hrun as (params & s & Hparams & Hrun).
  apply lift_inv in Hparams as [Hparams ->].
  apply bind_inv in Hrun as (id & s & Hid & Hrun).
  apply lift_inv in Hid as [Hid ->].
  apply bind_inv in Hrun as ([] & s & Hallow & Hrun).
  apply assert_allowlisted_inv in Hallow as [-> Hallow].
  apply bind_inv in Hrun as (patch & s & Hpatch & Hrun).
  apply lift_inv in Hpatch as [Hpatch ->].
  apply bind_inv in Hrun as (written & s1 & Hset & Hrun).
  apply bind_inv in Hrun as (refreshed & s2 & Hrefresh & Hrun).
  apply bind_inv in Hrun as (settings & s & Hreply & Hrun).
  apply lift_inv in Hreply as [Hreply ->].
  injection Hrun as <- <-.
  assert (Hm1 : mgr s1 = mgr sys).
  { pose proof (dispatch_mgr w (forwarded_set_skill id patch xcmd) sys) as Hm.
    by rewrite Hset in Hm. }
  assert (Hg1 : guard_secret s1 = guard_secret sys).
  { pose proof (dispatch_guard_secret (forwarded_set_skill id patch xcmd) sys) as Hg.
    by rewrite Hset in Hg. }
  assert (Hm2 : mgr s2 = mgr sys).
  { pose proof (dispatch_mgr w (forwarded_get_skill id xcmd) s1) as Hm.
    rewrite Hrefresh in Hm. simpl in Hm. congruence. }
  assert (Hg2 : guard_secret s2 = guard_secret sys).
  { pose proof (dispatch_guard_secret (forwarded_get_skill id xcmd) s1) as Hg.
    rewrite Hrefresh in Hg. simpl in Hg. congruence. }
  split; [exact Hm2|]. exists id, settings. split; [reflexivity|].
  unfold get_settings_impl.
  erewrite bind_run by reflexivity.
  rewrite Hg2. erewrite bind_lift by exact Hguard.
  erewrite bind_lift by exact Hparams.
  erewrite bind_lift by exact Hid.
  erewrite bind_run.
  2:{ unfold assert_allowlisted. rewrite Hm2, Hallow. reflexivity. }
  erewrite bind_run by (exact (dispatch_get_skill_again _ _ _ _ _ Hrefresh)).
  erewrite bind_lift by exact Hreply.
  reflexivity.
Qed.

End UpdateSettings.

Lemma update_settings_then_get_settings_witness :
  mgr (snd (update_settings_impl sample_world sample_update sample_enabled))
  = mgr sample_enabled
  /\ exists id settings,
       VObj [("ok", VBool true); ("id", VStr "echo");
             ("settings", VObj [("mode", VStr "echo"); ("greeting", VStr "hello")])]
       = VObj [("ok", VBool true); ("id", VStr id); ("settings", VObj settings)]
       /\ get_settings_impl sample_world sample_update
            (snd (update_settings_impl sample_world sample_update sample_enabled))
          = (Ok (VObj [("id", VStr id); ("settings", VObj settings)]),
             snd (update_settings_impl sample_world sample_update sample_enabled)).
Proof.
  apply (update_settings_then_get_settings sample_world sample_enabled sample_update).
  vm_compute. reflexivity.
Defined.

Section SettingsAllowlist.
Context `{Builtins}.
Variable w : World.

Lemma command_id_inv xcmd id :
  command_id xcmd = Ok id ->
  exists params,
    ensure_params E_SKILLS_BAD_PARAMS (_params xcmd) = Ok params
    /\ ensure_non_empty_string E_SKILLS_BAD_PARAMS (obj_get params "id") "id" = Ok id.
Proof.
  unfold command_id. destruct (ensure_params _ _) as [params|e]; [|discriminate].
  intros Hid. by exists params.
Qed.

(** Extra X27: the settings commands of the manager need an allow-listed
    skill.  For a command about a skill that is not in the allow-list,
    [get_settings] and [update_settings] throw and leave the whole system,
    the settings store included, as it was: the error is the one of the
    guard when the caller is not authorised, and
    [E_SKILLS_NOT_ALLOWLISTED] otherwise. *)
Theorem settings_commands_need_allowlisted_id (sys : System) (xcmd : XCommandData)
    (id : string) :
  command_id xcmd = Ok id ->
  ~ In id (allow (m_config (mgr sys))) ->
  let refusal :=
    match requireKernelCapOrActorRole (guard_secret sys) (readCommandCtx xcmd) "admin" with
    | Ok _ => NOT_ALLOWLISTED id
    | Throw forbidden => forbidden
    end in
  get_settings_impl w xcmd sys = (Throw refusal, sys)
  /\ update_settings_impl w xcmd sys = (Throw refusal, sys).
Proof.
  intros (params & Hparams & Hid)%command_id_inv Hout refusal. subst refusal.
  assert (Hmem : mem_string id (allow (m_config (mgr sys))) = false).
  { destruct (mem_string _ _) eqn:E; [|done]. by apply mem_string_in in E. }
  unfold get_settings_impl, update_settings_impl.
  rewrite !(bind_run get_state _ sys sys sys eq_refl).
  destruct (requireKernelCapOrActorRole _ _ _) as [[]|forbidden]; [|done].
  rewrite !(bind_lift (Ok tt) _ sys tt eq_refl).
  rewrite !(bind_lift _ _ sys params Hparams).
  rewrite !(bind_lift _ _ sys id Hid).
  unfold mbind, m_bind, assert_allowlisted. by rewrite Hmem.
Qed.

End SettingsAllowlist.

Lemma settings_commands_need_allowlisted_id_witness :
  get_settings_impl sample_world sample_foreign_settings sample_enabled
  = (Throw (NOT_ALLOWLISTED "intruder"), sample_enabled)
  /\ update_settings_impl sample_world sample_foreign_settings sample_enabled
     = (Throw (NOT_ALLOWLISTED "intruder"), sample_enabled).
Proof.
  apply (settings_commands_need_allowlisted_id sample_world sample_enabled
           sample_foreign_settings "intruder").
  - reflexivity.
  - vm_compute. intros [[=]|[]].
Defined.

Section ResolveEntry.
Context `{Builtins}.
Variable w : World.

Lemma resolve_local_paths_spec repo_root id paths errors :
  match resolve_local_paths w repo_root id paths errors with
  | Ok entry =>
      exists raw_local_path,
        In raw_local_path paths
        /\ fst (resolve_local_path (w_cwd w) repo_root (w_fs w) id raw_local_path)
           = Ok (Some entry)
  | Throw e => e = RESOLVE_FAILED id
  end.
Proof.
  revert errors. induction paths as [|raw rest IH]; intros errors; cbn [resolve_local_paths].
  - reflexivity.
  - destruct (fst (resolve_local_path _ _ _ id raw)) as [[entry|]|err] eqn:E.
    + exists raw. split; [by left|exact E].
    + specialize (IH errors).
      destruct (resolve_local_paths _ _ _ rest errors); [|exact IH].
      destruct IH as (raw' & Hin & Hr). exists raw'. split; [by right|exact Hr].
    + specialize (IH (errors ++ ["local_path(" +:+ raw +:+ "): " +:+ to_error_message err])).
      destruct (resolve_local_paths _ _ _ rest _); [|exact IH].
      destruct IH as (raw' & Hin & Hr). exists raw'. split; [by right|exact Hr].
Qed.

(** Extra X28: what [resolve_skill_entry] returns.  A found entry is
    either the one [require.resolve] finds, with source [node_modules],
    when that resolver is switched on, or, when it is switched off or
    fails, the entry [resolve_local_path] finds under one of the
    configured local paths.  When nothing is found the error is always
    [E_SKILLS_RESOLVE_FAILED] with the id in its message, whatever the
    resolvers threw. *)
Theorem resolve_skill_entry_spec (m : Manager) (id : string) :
  match resolve_skill_entry w m id with
  | Ok entry =>
      (node_modules (m_config m) = true
       /\ exists resolved_path,
            w_require_resolve w id = Ok resolved_path
            /\ entry = {| specifier := pathToFileURL resolved_path;
                          entry_source := "node_modules" |})
      \/ ((node_modules (m_config m) = false \/ is_ok (w_require_resolve w id) = false)
          /\ exists raw_local_path,
               In raw_local_path (local_paths (m_config m))
               /\ fst (resolve_local_path (w_cwd w) (m_repo_root m) (w_fs w) id
                         raw_local_path)
                  = Ok (Some entry))
  | Throw e => e = RESOLVE_FAILED id
  end.
Proof.
  unfold resolve_skill_entry, resolve_node_module.
  destruct (node_modules (m_config m)).
  - destruct (w_require_resolve w id) as [resolved_path|err]; cbn.
    + left. split; [reflexivity|]. by exists resolved_path.
    + pose proof (resolve_local_paths_spec (m_repo_root m) id (local_paths (m_config m))
                    ["node_modules: " +:+ to_error_message err]) as Hl.
      destruct (resolve_local_paths _ _ _ _ _); [|exact Hl].
      right. split; [by right|exact Hl].
  - pose proof (resolve_local_paths_spec (m_repo_root m) id (local_paths (m_config m)) [])
      as Hl.
    destruct (resolve_local_paths _ _ _ _ _); [|exact Hl].
    right. split; [by left|exact Hl].
Qed.

End ResolveEntry.
